(** * dwm: the window-management state machine, embedded and verified

    A shallow embedding of [src/dwm.c] (with the tables of
    [src/config.def.h]): clients and monitors live in a store addressed by
    pointers, the client list and the focus stack are the chains of [next]
    and [selectionNext] links inside that store, and every function of the
    source that changes the store is a function [State -> option State].
    [None] stands for an execution that dereferences a pointer that is not
    allocated, or that does not finish with the loop budget it is given.

    Integers: [int] values are [Z]; signed overflow is undefined in C and
    the embedding covers the executions without it. [unsigned int] values
    are reduced modulo 2^32 ([u32]) after every operation and the
    conversion of an unsigned value to an [int] parameter is [s32].
    [float] values are IEEE binary32 numbers ([spec_float] with 24 bits of
    precision); a [double] intermediate is binary64.

    The X server side (window configuration requests, grabs, properties,
    bar drawing) is not part of the store: calls that only talk to the
    server are left out, and are named in the comments where they occur. *)

From stdpp Require Import gmap strings list fin_maps pretty.
From Stdlib Require Import ZArith Lia.
From Stdlib Require Import Floats.SpecFloat.

Local Open Scope Z_scope.

(** ** Machine arithmetic *)

Module CInt.

Definition u32 (z : Z) : Z := z mod 2 ^ 32.

Definition s32 (z : Z) : Z := (z + 2 ^ 31) mod 2 ^ 32 - 2 ^ 31.

(** Modelled from the spec: the [MAX] and [MIN] macros of [util.h], which
    is not among the sources; the spec calls their uses clamping to a floor
    and to a ceiling. They are the usual comparisons with the first argument
    returned on a tie-free test. *)
Definition MAX (a b : Z) : Z := if a >? b then a else b.
Definition MIN (a b : Z) : Z := if a <? b then a else b.

(** C's [/] and [%] on [int] truncate toward zero. *)
Definition cdiv (a b : Z) : Z := Z.quot a b.
Definition cmod (a b : Z) : Z := Z.rem a b.

End CInt.
Import CInt.

Module F32.

Definition prec : Z := 24.
Definition emax : Z := 128.

(** [(float) z] *)
Definition of_int (z : Z) : spec_float := binary_normalize prec emax z 0 false.

Definition mul : spec_float -> spec_float -> spec_float := SFmul prec emax.
Definition div : spec_float -> spec_float -> spec_float := SFdiv prec emax.
Definition ltb : spec_float -> spec_float -> bool := SFltb.

Definition zero : spec_float := S754_zero false.

(** The [double] constant [0.5] and the binary64 sum used by [f + 0.5]. *)
Definition half : spec_float := binary_normalize 53 1024 1 (-1) false.
Definition add_double : spec_float -> spec_float -> spec_float := SFadd 53 1024.

(** Conversion to an integer type truncates toward zero. *)
Definition trunc (f : spec_float) : Z :=
  match f with
  | S754_finite s m e =>
      let v := if 0 <=? e then Z.pos m * 2 ^ e else Z.quot (Z.pos m) (2 ^ (- e)) in
      if s then - v else v
  | _ => 0
  end.

End F32.

(** ** Data model *)

Inductive ArrangeFn : Type := Dwindle | Tile | Monocle.

#[global] Instance ArrangeFn_eq_dec : EqDecision ArrangeFn.
Proof. solve_decision. Defined.

(** [Layout]: a symbol and an arrangement function; [None] is the null
    function pointer of the floating layout. *)
Record Layout : Type := mkLayout {
  symbol : string;
  arrange_fn : option ArrangeFn;
}.

#[global] Instance Layout_eq_dec : EqDecision Layout.
Proof. solve_decision. Defined.

Module Rule.
Record t : Type := mk {
  class : option string;
  instance : option string;
  title : option string;
  tags : Z;
  isfloating : bool;
  monitor : Z;
}.
End Rule.

Module Client.

Record t : Type := mk {
  name : string;  (* char name[256] *)
  mina : spec_float;  (* float mina, maxa *)
  maxa : spec_float;
  x : Z;  (* int x, y, w, h *)
  y : Z;
  w : Z;
  h : Z;
  oldx : Z;  (* int oldx, oldy, oldw, oldh *)
  oldy : Z;
  oldw : Z;
  oldh : Z;
  basew : Z;  (* size hints *)
  baseh : Z;
  incw : Z;
  inch : Z;
  maxw : Z;
  maxh : Z;
  minw : Z;
  minh : Z;
  borderWidth : Z;
  oldBorderWidth : Z;
  tags : Z;  (* unsigned int tags *)
  isFixed : bool;  (* int flags, used as truth values *)
  isFloating : bool;
  isUrgent : bool;
  neverFocus : bool;
  oldState : bool;
  isFullscreen : bool;
  next : option nat;  (* struct Client *next *)
  selectionNext : option nat;  (* struct Client *selectionNext *)
  monitor : nat;  (* Monitor *monitor *)
  window : Z;  (* Window window *)
}.

Definition set_mina (v : spec_float) (c : t) : t :=
  mk (name c) v (maxa c) (x c) (y c) (w c) (h c) (oldx c) (oldy c) (oldw c)
     (oldh c) (basew c) (baseh c) (incw c) (inch c) (maxw c) (maxh c)
     (minw c) (minh c) (borderWidth c) (oldBorderWidth c) (tags c)
     (isFixed c) (isFloating c) (isUrgent c) (neverFocus c) (oldState c)
     (isFullscreen c) (next c) (selectionNext c) (monitor c) (window c).

Definition set_maxa (v : spec_float) (c : t) : t :=
  mk (name c) (mina c) v (x c) (y c) (w c) (h c) (oldx c) (oldy c) (oldw c)
     (oldh c) (basew c) (baseh c) (incw c) (inch c) (maxw c) (maxh c)
     (minw c) (minh c) (borderWidth c) (oldBorderWidth c) (tags c)
     (isFixed c) (isFloating c) (isUrgent c) (neverFocus c) (oldState c)
     (isFullscreen c) (next c) (selectionNext c) (monitor c) (window c).

Definition set_x (v : Z) (c : t) : t :=
  mk (name c) (mina c) (maxa c) v (y c) (w c) (h c) (oldx c) (oldy c)
     (oldw c) (oldh c) (basew c) (baseh c) (incw c) (inch c) (maxw c)
     (maxh c) (minw c) (minh c) (borderWidth c) (oldBorderWidth c) (tags c)
     (isFixed c) (isFloating c) (isUrgent c) (neverFocus c) (oldState c)
     (isFullscreen c) (next c) (selectionNext c) (monitor c) (window c).

Definition set_y (v : Z) (c : t) : t :=
  mk (name c) (mina c) (maxa c) (x c) v (w c) (h c) (oldx c) (oldy c)
     (oldw c) (oldh c) (basew c) (baseh c) (incw c) (inch c) (maxw c)
     (maxh c) (minw c) (minh c) (borderWidth c) (oldBorderWidth c) (tags c)
     (isFixed c) (isFloating c) (isUrgent c) (neverFocus c) (oldState c)
     (isFullscreen c) (next c) (selectionNext c) (monitor c) (window c).

Definition set_w (v : Z) (c : t) : t :=
  mk (name c) (mina c) (maxa c) (x c) (y c) v (h c) (oldx c) (oldy c)
     (oldw c) (oldh c) (basew c) (baseh c) (incw c) (inch c) (maxw c)
     (maxh c) (minw c) (minh c) (borderWidth c) (oldBorderWidth c) (tags c)
     (isFixed c) (isFloating c) (isUrgent c) (neverFocus c) (oldState c)
     (isFullscreen c) (next c) (selectionNext c) (monitor c) (window c).

Definition set_h (v : Z) (c : t) : t :=
  mk (name c) (mina c) (maxa c) (x c) (y c) (w c) v (oldx c) (oldy c)
     (oldw c) (oldh c) (basew c) (baseh c) (incw c) (inch c) (maxw c)
     (maxh c) (minw c) (minh c) (borderWidth c) (oldBorderWidth c) (tags c)
     (isFixed c) (isFloating c) (isUrgent c) (neverFocus c) (oldState c)
     (isFullscreen c) (next c) (selectionNext c) (monitor c) (window c).

Definition set_oldx (v : Z) (c : t) : t :=
  mk (name c) (mina c) (maxa c) (x c) (y c) (w c) (h c) v (oldy c) (oldw c)
     (oldh c) (basew c) (baseh c) (incw c) (inch c) (maxw c) (maxh c)
     (minw c) (minh c) (borderWidth c) (oldBorderWidth c) (tags c)
     (isFixed c) (isFloating c) (isUrgent c) (neverFocus c) (oldState c)
     (isFullscreen c) (next c) (selectionNext c) (monitor c) (window c).

Definition set_oldy (v : Z) (c : t) : t :=
  mk (name c) (mina c) (maxa c) (x c) (y c) (w c) (h c) (oldx c) v (oldw c)
     (oldh c) (basew c) (baseh c) (incw c) (inch c) (maxw c) (maxh c)
     (minw c) (minh c) (borderWidth c) (oldBorderWidth c) (tags c)
     (isFixed c) (isFloating c) (isUrgent c) (neverFocus c) (oldState c)
     (isFullscreen c) (next c) (selectionNext c) (monitor c) (window c).

Definition set_oldw (v : Z) (c : t) : t :=
  mk (name c) (mina c) (maxa c) (x c) (y c) (w c) (h c) (oldx c) (oldy c) v
     (oldh c) (basew c) (baseh c) (incw c) (inch c) (maxw c) (maxh c)
     (minw c) (minh c) (borderWidth c) (oldBorderWidth c) (tags c)
     (isFixed c) (isFloating c) (isUrgent c) (neverFocus c) (oldState c)
     (isFullscreen c) (next c) (selectionNext c) (monitor c) (window c).

Definition set_oldh (v : Z) (c : t) : t :=
  mk (name c) (mina c) (maxa c) (x c) (y c) (w c) (h c) (oldx c) (oldy c)
     (oldw c) v (basew c) (baseh c) (incw c) (inch c) (maxw c) (maxh c)
     (minw c) (minh c) (borderWidth c) (oldBorderWidth c) (tags c)
     (isFixed c) (isFloating c) (isUrgent c) (neverFocus c) (oldState c)
     (isFullscreen c) (next c) (selectionNext c) (monitor c) (window c).

Definition set_basew (v : Z) (c : t) : t :=
  mk (name c) (mina c) (maxa c) (x c) (y c) (w c) (h c) (oldx c) (oldy c)
     (oldw c) (oldh c) v (baseh c) (incw c) (inch c) (maxw c) (maxh c)
     (minw c) (minh c) (borderWidth c) (oldBorderWidth c) (tags c)
     (isFixed c) (isFloating c) (isUrgent c) (neverFocus c) (oldState c)
     (isFullscreen c) (next c) (selectionNext c) (monitor c) (window c).

Definition set_baseh (v : Z) (c : t) : t :=
  mk (name c) (mina c) (maxa c) (x c) (y c) (w c) (h c) (oldx c) (oldy c)
     (oldw c) (oldh c) (basew c) v (incw c) (inch c) (maxw c) (maxh c)
     (minw c) (minh c) (borderWidth c) (oldBorderWidth c) (tags c)
     (isFixed c) (isFloating c) (isUrgent c) (neverFocus c) (oldState c)
     (isFullscreen c) (next c) (selectionNext c) (monitor c) (window c).

Definition set_incw (v : Z) (c : t) : t :=
  mk (name c) (mina c) (maxa c) (x c) (y c) (w c) (h c) (oldx c) (oldy c)
     (oldw c) (oldh c) (basew c) (baseh c) v (inch c) (maxw c) (maxh c)
     (minw c) (minh c) (borderWidth c) (oldBorderWidth c) (tags c)
     (isFixed c) (isFloating c) (isUrgent c) (neverFocus c) (oldState c)
     (isFullscreen c) (next c) (selectionNext c) (monitor c) (window c).

Definition set_inch (v : Z) (c : t) : t :=
  mk (name c) (mina c) (maxa c) (x c) (y c) (w c) (h c) (oldx c) (oldy c)
     (oldw c) (oldh c) (basew c) (baseh c) (incw c) v (maxw c) (maxh c)
     (minw c) (minh c) (borderWidth c) (oldBorderWidth c) (tags c)
     (isFixed c) (isFloating c) (isUrgent c) (neverFocus c) (oldState c)
     (isFullscreen c) (next c) (selectionNext c) (monitor c) (window c).

Definition set_maxw (v : Z) (c : t) : t :=
  mk (name c) (mina c) (maxa c) (x c) (y c) (w c) (h c) (oldx c) (oldy c)
     (oldw c) (oldh c) (basew c) (baseh c) (incw c) (inch c) v (maxh c)
     (minw c) (minh c) (borderWidth c) (oldBorderWidth c) (tags c)
     (isFixed c) (isFloating c) (isUrgent c) (neverFocus c) (oldState c)
     (isFullscreen c) (next c) (selectionNext c) (monitor c) (window c).

Definition set_maxh (v : Z) (c : t) : t :=
  mk (name c) (mina c) (maxa c) (x c) (y c) (w c) (h c) (oldx c) (oldy c)
     (oldw c) (oldh c) (basew c) (baseh c) (incw c) (inch c) (maxw c) v
     (minw c) (minh c) (borderWidth c) (oldBorderWidth c) (tags c)
     (isFixed c) (isFloating c) (isUrgent c) (neverFocus c) (oldState c)
     (isFullscreen c) (next c) (selectionNext c) (monitor c) (window c).

Definition set_minw (v : Z) (c : t) : t :=
  mk (name c) (mina c) (maxa c) (x c) (y c) (w c) (h c) (oldx c) (oldy c)
     (oldw c) (oldh c) (basew c) (baseh c) (incw c) (inch c) (maxw c)
     (maxh c) v (minh c) (borderWidth c) (oldBorderWidth c) (tags c)
     (isFixed c) (isFloating c) (isUrgent c) (neverFocus c) (oldState c)
     (isFullscreen c) (next c) (selectionNext c) (monitor c) (window c).

Definition set_minh (v : Z) (c : t) : t :=
  mk (name c) (mina c) (maxa c) (x c) (y c) (w c) (h c) (oldx c) (oldy c)
     (oldw c) (oldh c) (basew c) (baseh c) (incw c) (inch c) (maxw c)
     (maxh c) (minw c) v (borderWidth c) (oldBorderWidth c) (tags c)
     (isFixed c) (isFloating c) (isUrgent c) (neverFocus c) (oldState c)
     (isFullscreen c) (next c) (selectionNext c) (monitor c) (window c).

Definition set_borderWidth (v : Z) (c : t) : t :=
  mk (name c) (mina c) (maxa c) (x c) (y c) (w c) (h c) (oldx c) (oldy c)
     (oldw c) (oldh c) (basew c) (baseh c) (incw c) (inch c) (maxw c)
     (maxh c) (minw c) (minh c) v (oldBorderWidth c) (tags c) (isFixed c)
     (isFloating c) (isUrgent c) (neverFocus c) (oldState c)
     (isFullscreen c) (next c) (selectionNext c) (monitor c) (window c).

Definition set_oldBorderWidth (v : Z) (c : t) : t :=
  mk (name c) (mina c) (maxa c) (x c) (y c) (w c) (h c) (oldx c) (oldy c)
     (oldw c) (oldh c) (basew c) (baseh c) (incw c) (inch c) (maxw c)
     (maxh c) (minw c) (minh c) (borderWidth c) v (tags c) (isFixed c)
     (isFloating c) (isUrgent c) (neverFocus c) (oldState c)
     (isFullscreen c) (next c) (selectionNext c) (monitor c) (window c).

Definition set_tags (v : Z) (c : t) : t :=
  mk (name c) (mina c) (maxa c) (x c) (y c) (w c) (h c) (oldx c) (oldy c)
     (oldw c) (oldh c) (basew c) (baseh c) (incw c) (inch c) (maxw c)
     (maxh c) (minw c) (minh c) (borderWidth c) (oldBorderWidth c) v
     (isFixed c) (isFloating c) (isUrgent c) (neverFocus c) (oldState c)
     (isFullscreen c) (next c) (selectionNext c) (monitor c) (window c).

Definition set_isFixed (v : bool) (c : t) : t :=
  mk (name c) (mina c) (maxa c) (x c) (y c) (w c) (h c) (oldx c) (oldy c)
     (oldw c) (oldh c) (basew c) (baseh c) (incw c) (inch c) (maxw c)
     (maxh c) (minw c) (minh c) (borderWidth c) (oldBorderWidth c) (tags c)
     v (isFloating c) (isUrgent c) (neverFocus c) (oldState c)
     (isFullscreen c) (next c) (selectionNext c) (monitor c) (window c).

Definition set_isFloating (v : bool) (c : t) : t :=
  mk (name c) (mina c) (maxa c) (x c) (y c) (w c) (h c) (oldx c) (oldy c)
     (oldw c) (oldh c) (basew c) (baseh c) (incw c) (inch c) (maxw c)
     (maxh c) (minw c) (minh c) (borderWidth c) (oldBorderWidth c) (tags c)
     (isFixed c) v (isUrgent c) (neverFocus c) (oldState c) (isFullscreen c)
     (next c) (selectionNext c) (monitor c) (window c).

Definition set_isUrgent (v : bool) (c : t) : t :=
  mk (name c) (mina c) (maxa c) (x c) (y c) (w c) (h c) (oldx c) (oldy c)
     (oldw c) (oldh c) (basew c) (baseh c) (incw c) (inch c) (maxw c)
     (maxh c) (minw c) (minh c) (borderWidth c) (oldBorderWidth c) (tags c)
     (isFixed c) (isFloating c) v (neverFocus c) (oldState c)
     (isFullscreen c) (next c) (selectionNext c) (monitor c) (window c).

Definition set_neverFocus (v : bool) (c : t) : t :=
  mk (name c) (mina c) (maxa c) (x c) (y c) (w c) (h c) (oldx c) (oldy c)
     (oldw c) (oldh c) (basew c) (baseh c) (incw c) (inch c) (maxw c)
     (maxh c) (minw c) (minh c) (borderWidth c) (oldBorderWidth c) (tags c)
     (isFixed c) (isFloating c) (isUrgent c) v (oldState c) (isFullscreen c)
     (next c) (selectionNext c) (monitor c) (window c).

Definition set_oldState (v : bool) (c : t) : t :=
  mk (name c) (mina c) (maxa c) (x c) (y c) (w c) (h c) (oldx c) (oldy c)
     (oldw c) (oldh c) (basew c) (baseh c) (incw c) (inch c) (maxw c)
     (maxh c) (minw c) (minh c) (borderWidth c) (oldBorderWidth c) (tags c)
     (isFixed c) (isFloating c) (isUrgent c) (neverFocus c) v
     (isFullscreen c) (next c) (selectionNext c) (monitor c) (window c).

Definition set_isFullscreen (v : bool) (c : t) : t :=
  mk (name c) (mina c) (maxa c) (x c) (y c) (w c) (h c) (oldx c) (oldy c)
     (oldw c) (oldh c) (basew c) (baseh c) (incw c) (inch c) (maxw c)
     (maxh c) (minw c) (minh c) (borderWidth c) (oldBorderWidth c) (tags c)
     (isFixed c) (isFloating c) (isUrgent c) (neverFocus c) (oldState c) v
     (next c) (selectionNext c) (monitor c) (window c).

Definition set_next (v : option nat) (c : t) : t :=
  mk (name c) (mina c) (maxa c) (x c) (y c) (w c) (h c) (oldx c) (oldy c)
     (oldw c) (oldh c) (basew c) (baseh c) (incw c) (inch c) (maxw c)
     (maxh c) (minw c) (minh c) (borderWidth c) (oldBorderWidth c) (tags c)
     (isFixed c) (isFloating c) (isUrgent c) (neverFocus c) (oldState c)
     (isFullscreen c) v (selectionNext c) (monitor c) (window c).

Definition set_selectionNext (v : option nat) (c : t) : t :=
  mk (name c) (mina c) (maxa c) (x c) (y c) (w c) (h c) (oldx c) (oldy c)
     (oldw c) (oldh c) (basew c) (baseh c) (incw c) (inch c) (maxw c)
     (maxh c) (minw c) (minh c) (borderWidth c) (oldBorderWidth c) (tags c)
     (isFixed c) (isFloating c) (isUrgent c) (neverFocus c) (oldState c)
     (isFullscreen c) (next c) v (monitor c) (window c).

Definition set_monitor (v : nat) (c : t) : t :=
  mk (name c) (mina c) (maxa c) (x c) (y c) (w c) (h c) (oldx c) (oldy c)
     (oldw c) (oldh c) (basew c) (baseh c) (incw c) (inch c) (maxw c)
     (maxh c) (minw c) (minh c) (borderWidth c) (oldBorderWidth c) (tags c)
     (isFixed c) (isFloating c) (isUrgent c) (neverFocus c) (oldState c)
     (isFullscreen c) (next c) (selectionNext c) v (window c).
(** The client with its geometry, current and saved, blanked. *)
Definition erase_geom (c : t) : t :=
  mk (name c) (mina c) (maxa c) 0 0 0 0 0 0 0 0 (basew c) (baseh c) (incw c)
     (inch c) (maxw c) (maxh c) (minw c) (minh c) (borderWidth c)
     (oldBorderWidth c) (tags c) (isFixed c) (isFloating c) (isUrgent c)
     (neverFocus c) (oldState c) (isFullscreen c) (next c) (selectionNext c)
     (monitor c) (window c).

(** The client with its geometry, its two links and its urgency flag
    blanked. *)
Definition erase_links (c : t) : t :=
  mk (name c) (mina c) (maxa c) 0 0 0 0 0 0 0 0 (basew c) (baseh c) (incw c)
     (inch c) (maxw c) (maxh c) (minw c) (minh c) (borderWidth c)
     (oldBorderWidth c) (tags c) (isFixed c) (isFloating c) false
     (neverFocus c) (oldState c) (isFullscreen c) None None (monitor c)
     (window c).

End Client.

Module Monitor.

Record t : Type := mk {
  layoutSymbol : string;  (* char layoutSymbol[16] *)
  masterFactor : spec_float;  (* float masterFactor *)
  nMaster : Z;
  num : Z;
  by_ : Z;  (* int by: bar geometry; [by] is reserved *)
  monitorX : Z;  (* screen size *)
  monitorY : Z;
  monitorWidth : Z;
  monitorHeight : Z;
  windowX : Z;  (* window area *)
  windowY : Z;
  windowWidth : Z;
  windowHeight : Z;
  selectedTags : Z;  (* unsigned int selectedTags *)
  selectedLayout : Z;  (* unsigned int selectedLayout *)
  tagSet : Z * Z;  (* unsigned int tagSet[2] *)
  showBar : bool;
  topBar : bool;
  clients : option nat;  (* Client *clients *)
  selectedClient : option nat;  (* Client *selectedClient *)
  stack : option nat;  (* Client *stack *)
  next : option nat;  (* Monitor *next *)
  barWindow : Z;  (* Window barWindow *)
  layouts : Layout * Layout;  (* const Layout *layouts[2] *)
}.

Definition set_layoutSymbol (v : string) (c : t) : t :=
  mk v (masterFactor c) (nMaster c) (num c) (by_ c) (monitorX c) (monitorY c)
     (monitorWidth c) (monitorHeight c) (windowX c) (windowY c)
     (windowWidth c) (windowHeight c) (selectedTags c) (selectedLayout c)
     (tagSet c) (showBar c) (topBar c) (clients c) (selectedClient c)
     (stack c) (next c) (barWindow c) (layouts c).

Definition set_nMaster (v : Z) (c : t) : t :=
  mk (layoutSymbol c) (masterFactor c) v (num c) (by_ c) (monitorX c)
     (monitorY c) (monitorWidth c) (monitorHeight c) (windowX c) (windowY c)
     (windowWidth c) (windowHeight c) (selectedTags c) (selectedLayout c)
     (tagSet c) (showBar c) (topBar c) (clients c) (selectedClient c)
     (stack c) (next c) (barWindow c) (layouts c).

Definition set_num (v : Z) (c : t) : t :=
  mk (layoutSymbol c) (masterFactor c) (nMaster c) v (by_ c) (monitorX c)
     (monitorY c) (monitorWidth c) (monitorHeight c) (windowX c) (windowY c)
     (windowWidth c) (windowHeight c) (selectedTags c) (selectedLayout c)
     (tagSet c) (showBar c) (topBar c) (clients c) (selectedClient c)
     (stack c) (next c) (barWindow c) (layouts c).

Definition set_by_ (v : Z) (c : t) : t :=
  mk (layoutSymbol c) (masterFactor c) (nMaster c) (num c) v (monitorX c)
     (monitorY c) (monitorWidth c) (monitorHeight c) (windowX c) (windowY c)
     (windowWidth c) (windowHeight c) (selectedTags c) (selectedLayout c)
     (tagSet c) (showBar c) (topBar c) (clients c) (selectedClient c)
     (stack c) (next c) (barWindow c) (layouts c).

Definition set_monitorX (v : Z) (c : t) : t :=
  mk (layoutSymbol c) (masterFactor c) (nMaster c) (num c) (by_ c) v
     (monitorY c) (monitorWidth c) (monitorHeight c) (windowX c) (windowY c)
     (windowWidth c) (windowHeight c) (selectedTags c) (selectedLayout c)
     (tagSet c) (showBar c) (topBar c) (clients c) (selectedClient c)
     (stack c) (next c) (barWindow c) (layouts c).

Definition set_monitorY (v : Z) (c : t) : t :=
  mk (layoutSymbol c) (masterFactor c) (nMaster c) (num c) (by_ c)
     (monitorX c) v (monitorWidth c) (monitorHeight c) (windowX c)
     (windowY c) (windowWidth c) (windowHeight c) (selectedTags c)
     (selectedLayout c) (tagSet c) (showBar c) (topBar c) (clients c)
     (selectedClient c) (stack c) (next c) (barWindow c) (layouts c).

Definition set_monitorWidth (v : Z) (c : t) : t :=
  mk (layoutSymbol c) (masterFactor c) (nMaster c) (num c) (by_ c)
     (monitorX c) (monitorY c) v (monitorHeight c) (windowX c) (windowY c)
     (windowWidth c) (windowHeight c) (selectedTags c) (selectedLayout c)
     (tagSet c) (showBar c) (topBar c) (clients c) (selectedClient c)
     (stack c) (next c) (barWindow c) (layouts c).

Definition set_monitorHeight (v : Z) (c : t) : t :=
  mk (layoutSymbol c) (masterFactor c) (nMaster c) (num c) (by_ c)
     (monitorX c) (monitorY c) (monitorWidth c) v (windowX c) (windowY c)
     (windowWidth c) (windowHeight c) (selectedTags c) (selectedLayout c)
     (tagSet c) (showBar c) (topBar c) (clients c) (selectedClient c)
     (stack c) (next c) (barWindow c) (layouts c).

Definition set_windowX (v : Z) (c : t) : t :=
  mk (layoutSymbol c) (masterFactor c) (nMaster c) (num c) (by_ c)
     (monitorX c) (monitorY c) (monitorWidth c) (monitorHeight c) v
     (windowY c) (windowWidth c) (windowHeight c) (selectedTags c)
     (selectedLayout c) (tagSet c) (showBar c) (topBar c) (clients c)
     (selectedClient c) (stack c) (next c) (barWindow c) (layouts c).

Definition set_windowY (v : Z) (c : t) : t :=
  mk (layoutSymbol c) (masterFactor c) (nMaster c) (num c) (by_ c)
     (monitorX c) (monitorY c) (monitorWidth c) (monitorHeight c)
     (windowX c) v (windowWidth c) (windowHeight c) (selectedTags c)
     (selectedLayout c) (tagSet c) (showBar c) (topBar c) (clients c)
     (selectedClient c) (stack c) (next c) (barWindow c) (layouts c).

Definition set_windowWidth (v : Z) (c : t) : t :=
  mk (layoutSymbol c) (masterFactor c) (nMaster c) (num c) (by_ c)
     (monitorX c) (monitorY c) (monitorWidth c) (monitorHeight c)
     (windowX c) (windowY c) v (windowHeight c) (selectedTags c)
     (selectedLayout c) (tagSet c) (showBar c) (topBar c) (clients c)
     (selectedClient c) (stack c) (next c) (barWindow c) (layouts c).

Definition set_windowHeight (v : Z) (c : t) : t :=
  mk (layoutSymbol c) (masterFactor c) (nMaster c) (num c) (by_ c)
     (monitorX c) (monitorY c) (monitorWidth c) (monitorHeight c)
     (windowX c) (windowY c) (windowWidth c) v (selectedTags c)
     (selectedLayout c) (tagSet c) (showBar c) (topBar c) (clients c)
     (selectedClient c) (stack c) (next c) (barWindow c) (layouts c).

Definition set_selectedTags (v : Z) (c : t) : t :=
  mk (layoutSymbol c) (masterFactor c) (nMaster c) (num c) (by_ c)
     (monitorX c) (monitorY c) (monitorWidth c) (monitorHeight c)
     (windowX c) (windowY c) (windowWidth c) (windowHeight c) v
     (selectedLayout c) (tagSet c) (showBar c) (topBar c) (clients c)
     (selectedClient c) (stack c) (next c) (barWindow c) (layouts c).

Definition set_selectedLayout (v : Z) (c : t) : t :=
  mk (layoutSymbol c) (masterFactor c) (nMaster c) (num c) (by_ c)
     (monitorX c) (monitorY c) (monitorWidth c) (monitorHeight c)
     (windowX c) (windowY c) (windowWidth c) (windowHeight c)
     (selectedTags c) v (tagSet c) (showBar c) (topBar c) (clients c)
     (selectedClient c) (stack c) (next c) (barWindow c) (layouts c).

Definition set_tagSet (v : Z * Z) (c : t) : t :=
  mk (layoutSymbol c) (masterFactor c) (nMaster c) (num c) (by_ c)
     (monitorX c) (monitorY c) (monitorWidth c) (monitorHeight c)
     (windowX c) (windowY c) (windowWidth c) (windowHeight c)
     (selectedTags c) (selectedLayout c) v (showBar c) (topBar c)
     (clients c) (selectedClient c) (stack c) (next c) (barWindow c)
     (layouts c).

Definition set_clients (v : option nat) (c : t) : t :=
  mk (layoutSymbol c) (masterFactor c) (nMaster c) (num c) (by_ c)
     (monitorX c) (monitorY c) (monitorWidth c) (monitorHeight c)
     (windowX c) (windowY c) (windowWidth c) (windowHeight c)
     (selectedTags c) (selectedLayout c) (tagSet c) (showBar c) (topBar c) v
     (selectedClient c) (stack c) (next c) (barWindow c) (layouts c).

Definition set_selectedClient (v : option nat) (c : t) : t :=
  mk (layoutSymbol c) (masterFactor c) (nMaster c) (num c) (by_ c)
     (monitorX c) (monitorY c) (monitorWidth c) (monitorHeight c)
     (windowX c) (windowY c) (windowWidth c) (windowHeight c)
     (selectedTags c) (selectedLayout c) (tagSet c) (showBar c) (topBar c)
     (clients c) v (stack c) (next c) (barWindow c) (layouts c).

Definition set_stack (v : option nat) (c : t) : t :=
  mk (layoutSymbol c) (masterFactor c) (nMaster c) (num c) (by_ c)
     (monitorX c) (monitorY c) (monitorWidth c) (monitorHeight c)
     (windowX c) (windowY c) (windowWidth c) (windowHeight c)
     (selectedTags c) (selectedLayout c) (tagSet c) (showBar c) (topBar c)
     (clients c) (selectedClient c) v (next c) (barWindow c) (layouts c).

Definition set_next (v : option nat) (c : t) : t :=
  mk (layoutSymbol c) (masterFactor c) (nMaster c) (num c) (by_ c)
     (monitorX c) (monitorY c) (monitorWidth c) (monitorHeight c)
     (windowX c) (windowY c) (windowWidth c) (windowHeight c)
     (selectedTags c) (selectedLayout c) (tagSet c) (showBar c) (topBar c)
     (clients c) (selectedClient c) (stack c) v (barWindow c) (layouts c).

Definition set_layouts (v : Layout * Layout) (c : t) : t :=
  mk (layoutSymbol c) (masterFactor c) (nMaster c) (num c) (by_ c)
     (monitorX c) (monitorY c) (monitorWidth c) (monitorHeight c)
     (windowX c) (windowY c) (windowWidth c) (windowHeight c)
     (selectedTags c) (selectedLayout c) (tagSet c) (showBar c) (topBar c)
     (clients c) (selectedClient c) (stack c) (next c) (barWindow c) v.
(** The monitor with its layout symbol blanked. *)
Definition erase_symbol (c : t) : t :=
  mk "" (masterFactor c) (nMaster c) (num c) (by_ c) (monitorX c)
     (monitorY c) (monitorWidth c) (monitorHeight c) (windowX c) (windowY c)
     (windowWidth c) (windowHeight c) (selectedTags c) (selectedLayout c)
     (tagSet c) (showBar c) (topBar c) (clients c) (selectedClient c)
     (stack c) (next c) (barWindow c) (layouts c).

(** The monitor with its layout symbol, its two list heads and its
    selection blanked. *)
Definition erase_links (c : t) : t :=
  mk "" (masterFactor c) (nMaster c) (num c) (by_ c) (monitorX c)
     (monitorY c) (monitorWidth c) (monitorHeight c) (windowX c) (windowY c)
     (windowWidth c) (windowHeight c) (selectedTags c) (selectedLayout c)
     (tagSet c) (showBar c) (topBar c) None None None (next c) (barWindow c)
     (layouts c).

End Monitor.

(** Pointers into the two stores. *)
Abbreviation cid := nat (only parsing).
Abbreviation mid := nat (only parsing).

(** Index into a two-slot array ([tagSet], [layouts]). *)
Definition slot {A : Type} (i : Z) (p : A * A) : A :=
  if i =? 0 then fst p else snd p.

Definition set_slot {A : Type} (i : Z) (v : A) (p : A * A) : A * A :=
  if i =? 0 then (v, snd p) else (fst p, v).

(** The configuration tables of [config.def.h]. *)
Module Config.
Record t : Type := mk {
  borderpx : Z;
  snap : Z;
  showbar : bool;
  topbar : bool;
  ntags : Z;                       (* LENGTH(tags) *)
  rules : list Rule.t;
  masterFactor : spec_float;
  nMaster : Z;
  resizeHints : bool;
  lockFullscreen : bool;
  layouts : list Layout;
}.
End Config.

(** Modelled from the spec: [borderpx], which [manage] reads and
    [config.def.h] does not define (it only has the constant named
    [borderWidth]); the spec lists a default border width on the
    configuration surface, and the value of [borderWidth] is taken. *)
Definition config_def : Config.t :=
  {| Config.borderpx := 1;
     Config.snap := 32;
     Config.showbar := false;
     Config.topbar := false;
     Config.ntags := 9;
     Config.rules :=
       [ Rule.mk (Some "Gimp"%string) None None 0 true (-1);
         Rule.mk (Some "Firefox"%string) None None (Z.shiftl 1 8) false (-1) ];
     Config.masterFactor := binary_normalize 24 128 1 (-1) false;
     Config.nMaster := 1;
     Config.resizeHints := true;
     Config.lockFullscreen := true;
     Config.layouts :=
       [ mkLayout "D" (Some Dwindle); mkLayout "T" (Some Tile);
         mkLayout "F" None; mkLayout "M" (Some Monocle) ] |}.

(** The global variables of [dwm.c] that the modelled functions read or
    write, and the two stores. *)
Record State : Type := mkState {
  cs : gmap nat Client.t;              (* allocated clients *)
  ms : gmap nat Monitor.t;             (* allocated monitors *)
  monitors : option nat;               (* Monitor *monitors *)
  selectedMonitor : option nat;        (* Monitor *selectedMonitor *)
  screenWidth : Z;
  screenHeight : Z;
  barHeight : Z;
}.

Definition set_cs (v : gmap nat Client.t) (s : State) : State :=
  mkState v (ms s) (monitors s) (selectedMonitor s) (screenWidth s)
          (screenHeight s) (barHeight s).
Definition set_ms (v : gmap nat Monitor.t) (s : State) : State :=
  mkState (cs s) v (monitors s) (selectedMonitor s) (screenWidth s)
          (screenHeight s) (barHeight s).
Definition set_monitors (v : option nat) (s : State) : State :=
  mkState (cs s) (ms s) v (selectedMonitor s) (screenWidth s)
          (screenHeight s) (barHeight s).
Definition set_selectedMonitor (v : option nat) (s : State) : State :=
  mkState (cs s) (ms s) (monitors s) v (screenWidth s)
          (screenHeight s) (barHeight s).

(** [c->field = v] and [m->field = v]: the pointer has to be allocated. *)
Definition updc (c : cid) (f : Client.t -> Client.t) (s : State) : option State :=
  cl ← cs s !! c; Some (set_cs (<[c := f cl]> (cs s)) s).

Definition updm (m : mid) (f : Monitor.t -> Monitor.t) (s : State) : option State :=
  mon ← ms s !! m; Some (set_ms (<[m := f mon]> (ms s)) s).

(** Macros of [dwm.c]. *)
Definition WIDTH (c : Client.t) : Z := Client.w c + 2 * Client.borderWidth c.
Definition HEIGHT (c : Client.t) : Z := Client.h c + 2 * Client.borderWidth c.

Definition TAGMASK (cfg : Config.t) : Z := Z.shiftl 1 (Config.ntags cfg) - 1.

Definition curtags (m : Monitor.t) : Z :=
  slot (Monitor.selectedTags m) (Monitor.tagSet m).

Definition curlayout (m : Monitor.t) : Layout :=
  slot (Monitor.selectedLayout m) (Monitor.layouts m).

Definition ISVISIBLEONTAG (c : Client.t) (t : Z) : bool :=
  negb (Z.land (Client.tags c) t =? 0).

(** [ISVISIBLE(C)] reads [C->monitor]. *)
Definition ISVISIBLE (s : State) (c : Client.t) : option bool :=
  m ← ms s !! Client.monitor c; Some (ISVISIBLEONTAG c (curtags m)).

(** ** The size-hints engine *)

Section Model.

Variable cfg : Config.t.

(** [applysizehints]: the adjusted [(x, y, w, h)] and whether it differs
    from the geometry stored in the client. [m] is [c->monitor]. The
    function writes to its four pointer arguments only. *)
Definition applysizehints (s : State) (c : Client.t) (m : Monitor.t)
    (x y w h : Z) (interact : bool) : Z * Z * Z * Z * bool :=
  let bw := Client.borderWidth c in
  (* set minimum possible *)
  let w := MAX 1 w in
  let h := MAX 1 h in
  let '(x, y) :=
    if interact then
      let x := if x >? screenWidth s then screenWidth s - WIDTH c else x in
      let y := if y >? screenHeight s then screenHeight s - HEIGHT c else y in
      let x := if x + w + 2 * bw <? 0 then 0 else x in
      let y := if y + h + 2 * bw <? 0 then 0 else y in
      (x, y)
    else
      let wx := Monitor.windowX m in
      let wy := Monitor.windowY m in
      let x := if x >=? wx + Monitor.windowWidth m
               then wx + Monitor.windowWidth m - WIDTH c else x in
      let y := if y >=? wy + Monitor.windowHeight m
               then wy + Monitor.windowHeight m - HEIGHT c else y in
      let x := if x + w + 2 * bw <=? wx then wx else x in
      let y := if y + h + 2 * bw <=? wy then wy else y in
      (x, y) in
  let h := if h <? barHeight s then barHeight s else h in
  let w := if w <? barHeight s then barHeight s else w in
  let '(w, h) :=
    if Config.resizeHints cfg || Client.isFloating c
       || bool_decide (arrange_fn (curlayout m) = None)
    then
      (* see last two sentences in ICCCM 4.1.2.3 *)
      let baseismin :=
        (Client.basew c =? Client.minw c) && (Client.baseh c =? Client.minh c) in
      let '(w, h) :=
        if negb baseismin then (w - Client.basew c, h - Client.baseh c)
        else (w, h) in
      (* adjust for aspect limits *)
      let '(w, h) :=
        if F32.ltb F32.zero (Client.mina c) && F32.ltb F32.zero (Client.maxa c)
        then
          if F32.ltb (Client.maxa c) (F32.div (F32.of_int w) (F32.of_int h))
          then (F32.trunc (F32.add_double
                             (F32.mul (F32.of_int h) (Client.maxa c)) F32.half), h)
          else if F32.ltb (Client.mina c) (F32.div (F32.of_int h) (F32.of_int w))
          then (w, F32.trunc (F32.add_double
                                (F32.mul (F32.of_int w) (Client.mina c)) F32.half))
          else (w, h)
        else (w, h) in
      let '(w, h) :=
        if baseismin then (w - Client.basew c, h - Client.baseh c)
        else (w, h) in
      (* adjust for increment value *)
      let w := if Client.incw c =? 0 then w else w - cmod w (Client.incw c) in
      let h := if Client.inch c =? 0 then h else h - cmod h (Client.inch c) in
      (* restore base dimensions *)
      let w := MAX (w + Client.basew c) (Client.minw c) in
      let h := MAX (h + Client.baseh c) (Client.minh c) in
      let w := if Client.maxw c =? 0 then w else MIN w (Client.maxw c) in
      let h := if Client.maxh c =? 0 then h else MIN h (Client.maxh c) in
      (w, h)
    else (w, h) in
  (x, y, w, h,
   negb ((x =? Client.x c) && (y =? Client.y c)
         && (w =? Client.w c) && (h =? Client.h c))).

(** ** The client list and the focus stack *)

(** [nexttagged]: the first client of [c]'s monitor that is tiled and
    shares a tag with [c]. *)
Fixpoint nexttagged_from (fuel : nat) (s : State) (ctags : Z)
    (walked : option cid) : option (option cid) :=
  match walked with
  | None => Some None
  | Some wk =>
      wc ← cs s !! wk;
      if Client.isFloating wc || negb (ISVISIBLEONTAG wc ctags) then
        match fuel with
        | O => None
        | S f => nexttagged_from f s ctags (Client.next wc)
        end
      else Some (Some wk)
  end.

Definition nexttagged (fuel : nat) (s : State) (c : cid) : option (option cid) :=
  cl ← cs s !! c;
  m ← ms s !! Client.monitor cl;
  nexttagged_from fuel s (Client.tags cl) (Monitor.clients m).

(** [nexttiled]: the first client from [c] on that is neither floating nor
    hidden. [ISVISIBLE] is only evaluated for a client that is not
    floating. *)
Fixpoint nexttiled (fuel : nat) (s : State) (c : option cid)
    : option (option cid) :=
  match c with
  | None => Some None
  | Some c0 =>
      cl ← cs s !! c0;
      skip ← (if Client.isFloating cl then Some true
              else negb <$> ISVISIBLE s cl);
      if skip : bool then
        match fuel with
        | O => None
        | S f => nexttiled f s (Client.next cl)
        end
      else Some (Some c0)
  end.

Definition attach (c : cid) (s : State) : option State :=
  cl ← cs s !! c;
  m ← ms s !! Client.monitor cl;
  s1 ← updc c (Client.set_next (Monitor.clients m)) s;
  updm (Client.monitor cl) (Monitor.set_clients (Some c)) s1.

Definition attachBelow (fuel : nat) (c : cid) (s : State) : option State :=
  cl ← cs s !! c;
  m ← ms s !! Client.monitor cl;
  (* nothing selected on the monitor, or the selected client is floating *)
  selfloat ← match Monitor.selectedClient m with
             | None => Some true
             | Some sc => Client.isFloating <$> cs s !! sc
             end;
  if selfloat : bool then
    at_ ← nexttagged fuel s c;
    match at_ with
    | None => attach c s
    | Some a =>
        acl ← cs s !! a;
        s1 ← updc c (Client.set_next (Client.next acl)) s;
        updc a (Client.set_next (Some c)) s1
    end
  else
    sc ← Monitor.selectedClient m;
    scl ← cs s !! sc;
    s1 ← updc c (Client.set_next (Client.next scl)) s;
    updc sc (Client.set_next (Some c)) s1.

Definition attachStack (c : cid) (s : State) : option State :=
  cl ← cs s !! c;
  m ← ms s !! Client.monitor cl;
  s1 ← updc c (Client.set_selectionNext (Monitor.stack m)) s;
  updm (Client.monitor cl) (Monitor.set_stack (Some c)) s1.

(** The [Client **tc] of [detach] and [detachStack] points either at the
    head field of a monitor or at the link field of a client. *)
Inductive Link : Type :=
  | LHead (m : mid)
  | LLink (c : cid).

Definition read_next (s : State) (l : Link) : option (option cid) :=
  match l with
  | LHead m => Monitor.clients <$> ms s !! m
  | LLink c => Client.next <$> cs s !! c
  end.

Definition write_next (l : Link) (v : option cid) (s : State) : option State :=
  match l with
  | LHead m => updm m (Monitor.set_clients v) s
  | LLink c => updc c (Client.set_next v) s
  end.

Definition read_selectionNext (s : State) (l : Link) : option (option cid) :=
  match l with
  | LHead m => Monitor.stack <$> ms s !! m
  | LLink c => Client.selectionNext <$> cs s !! c
  end.

Definition write_selectionNext (l : Link) (v : option cid) (s : State)
    : option State :=
  match l with
  | LHead m => updm m (Monitor.set_stack v) s
  | LLink c => updc c (Client.set_selectionNext v) s
  end.

(** [for (tc = ...; *tc && *tc != c; tc = &( *tc)->link);] *)
Fixpoint find_link (rd : State -> Link -> option (option cid)) (fuel : nat)
    (s : State) (c : cid) (tc : Link) : option Link :=
  v ← rd s tc;
  match v with
  | None => Some tc
  | Some t =>
      if decide (t = c) then Some tc
      else match fuel with
           | O => None
           | S f => find_link rd f s c (LLink t)
           end
  end.

Definition detach (fuel : nat) (c : cid) (s : State) : option State :=
  cl ← cs s !! c;
  tc ← find_link read_next fuel s c (LHead (Client.monitor cl));
  write_next tc (Client.next cl) s.

(** [for (t = ...; t && !ISVISIBLE(t); t = t->selectionNext);] *)
Fixpoint first_visible (fuel : nat) (s : State) (t : option cid)
    : option (option cid) :=
  match t with
  | None => Some None
  | Some t0 =>
      tl ← cs s !! t0;
      vis ← ISVISIBLE s tl;
      if vis : bool then Some (Some t0)
      else match fuel with
           | O => None
           | S f => first_visible f s (Client.selectionNext tl)
           end
  end.

Definition detachStack (fuel : nat) (c : cid) (s : State) : option State :=
  cl ← cs s !! c;
  tc ← find_link read_selectionNext fuel s c (LHead (Client.monitor cl));
  s1 ← write_selectionNext tc (Client.selectionNext cl) s;
  m ← ms s1 !! Client.monitor cl;
  if decide (Monitor.selectedClient m = Some c) then
    t ← first_visible fuel s1 (Monitor.stack m);
    updm (Client.monitor cl) (Monitor.set_selectedClient t) s1
  else Some s1.

(** ** Resizing *)

(** [resizeclient]. The [XConfigureWindow] and [configure] calls go to the
    server; the border width sent there is 0 when the test below holds and
    [c->borderWidth] otherwise. *)
Definition resizeclient (fuel : nat) (c : cid) (x y w h : Z) (s : State)
    : option State :=
  s1 ← updc c (fun cl =>
          Client.set_h h (Client.set_oldh (Client.h cl)
         (Client.set_w w (Client.set_oldw (Client.w cl)
         (Client.set_y y (Client.set_oldy (Client.y cl)
         (Client.set_x x (Client.set_oldx (Client.x cl) cl)))))))) s;
  cl ← cs s1 !! c;
  m ← ms s1 !! Client.monitor cl;
  first ← nexttiled fuel s1 (Monitor.clients m);
  only ← (if decide (first = Some c)
          then nxt ← nexttiled fuel s1 (Client.next cl);
               Some (bool_decide (nxt = None))
          else Some false);
  let arr := arrange_fn (curlayout m) in
  if (only || bool_decide (arr = Some Monocle))
     && negb (Client.isFullscreen cl) && negb (Client.isFloating cl)
     && negb (bool_decide (arr = None))
  then
    updc c (fun cl =>
      Client.set_h (Client.h cl + Client.borderWidth cl * 2)
        (Client.set_w (Client.w cl + Client.borderWidth cl * 2) cl)) s1
  else Some s1.

Definition resize (fuel : nat) (c : cid) (x y w h : Z) (interact : bool)
    (s : State) : option State :=
  cl ← cs s !! c;
  m ← ms s !! Client.monitor cl;
  let '(x', y', w', h', changed) := applysizehints s cl m x y w h interact in
  if changed : bool then resizeclient fuel c x' y' w' h' s else Some s.

(** ** The layout engine *)

(** [for (n = 0, c = nexttiled(m->clients); c; c = nexttiled(c->next), n++);]
    with [n] an [unsigned int]. [k] bounds the iterations of this loop and
    [fuel] those of the loops it calls. *)
Fixpoint count_tiled (fuel k : nat) (s : State) (c : option cid) (n : Z)
    : option Z :=
  match c with
  | None => Some n
  | Some c0 =>
      match k with
      | O => None
      | S k' =>
          cl ← cs s !! c0;
          nxt ← nexttiled fuel s (Client.next cl);
          count_tiled fuel k' s nxt (u32 (n + 1))
      end
  end.

(** The body of the placing loop of [tile]; [i], [my], [ty], [n], [mw] and
    [h] are [unsigned int]. *)
Fixpoint tile_loop (fuel k : nat) (m : mid) (n mw i my ty : Z)
    (c : option cid) (s : State) : option State :=
  match c with
  | None => Some s
  | Some c0 =>
      match k with
      | O => None
      | S k' =>
          mon ← ms s !! m;
          cl ← cs s !! c0;
          let bw := Client.borderWidth cl in
          let wh := Monitor.windowHeight mon in
          if i <? u32 (Monitor.nMaster mon) then
            let h := Z.quot (u32 (wh - my))
                            (u32 (MIN n (u32 (Monitor.nMaster mon)) - i)) in
            s1 ← resize fuel c0 (Monitor.windowX mon)
                   (s32 (u32 (Monitor.windowY mon + my)))
                   (s32 (u32 (mw - 2 * bw))) (s32 (u32 (h - 2 * bw))) false s;
            cl1 ← cs s1 !! c0;
            mon1 ← ms s1 !! m;
            let my' := if u32 (my + HEIGHT cl1) <? u32 (Monitor.windowHeight mon1)
                       then u32 (my + HEIGHT cl1) else my in
            nxt ← nexttiled fuel s1 (Client.next cl1);
            tile_loop fuel k' m n mw (u32 (i + 1)) my' ty nxt s1
          else
            let h := Z.quot (u32 (wh - ty)) (u32 (n - i)) in
            s1 ← resize fuel c0 (s32 (u32 (Monitor.windowX mon + mw)))
                   (s32 (u32 (Monitor.windowY mon + ty)))
                   (s32 (u32 (Monitor.windowWidth mon - mw - 2 * bw)))
                   (s32 (u32 (h - 2 * bw))) false s;
            cl1 ← cs s1 !! c0;
            mon1 ← ms s1 !! m;
            let ty' := if u32 (ty + HEIGHT cl1) <? u32 (Monitor.windowHeight mon1)
                       then u32 (ty + HEIGHT cl1) else ty in
            nxt ← nexttiled fuel s1 (Client.next cl1);
            tile_loop fuel k' m n mw (u32 (i + 1)) my ty' nxt s1
      end
  end.

(** [m->windowWidth * m->masterFactor] stored into an [unsigned int]. *)
Definition scale_width (mon : Monitor.t) : Z :=
  u32 (F32.trunc (F32.mul (F32.of_int (Monitor.windowWidth mon))
                          (Monitor.masterFactor mon))).

Definition tile (fuel : nat) (m : mid) (s : State) : option State :=
  mon ← ms s !! m;
  first ← nexttiled fuel s (Monitor.clients mon);
  n ← count_tiled fuel fuel s first 0;
  if n =? 0 then Some s
  else
    let mw := if n >? u32 (Monitor.nMaster mon)
              then (if Monitor.nMaster mon =? 0 then 0 else scale_width mon)
              else u32 (Monitor.windowWidth mon) in
    tile_loop fuel fuel m n mw 0 0 0 first s.

(** The loop of [dwindle]; [i], [n], [nx], [ny], [nw], [nh] are
    [unsigned int]. *)
Fixpoint dwindle_loop (fuel k : nat) (m : mid) (n i nx ny nw nh : Z)
    (c : option cid) (s : State) : option State :=
  match c with
  | None => Some s
  | Some c0 =>
      match k with
      | O => None
      | S k' =>
          mon ← ms s !! m;
          cl ← cs s !! c0;
          let bw := Client.borderWidth cl in
          let odd := negb (i mod 2 =? 0) in
          let '(i, nx, ny, nw, nh) :=
            if (odd && (u32 (2 * bw) <? nh / 2))
               || (negb odd && (u32 (2 * bw) <? nw / 2))
            then
              let '(nw, nh) :=
                if i <? u32 (n - 1)
                then (if odd then (nw, nh / 2) else (nw / 2, nh))
                else (nw, nh) in
              let '(nx, ny) :=
                if i mod 4 =? 0 then (nx, u32 (ny + nh))
                else if i mod 4 =? 1 then (u32 (nx + nw), ny)
                else if i mod 4 =? 2 then (nx, u32 (ny + nh))
                else if i mod 4 =? 3 then (u32 (nx + nw), ny)
                else (nx, ny) in
              let '(nw, ny) :=
                if i =? 0
                then ((if negb (n =? 1) then scale_width mon else nw),
                      u32 (Monitor.windowY mon))
                else if i =? 1
                then (u32 (Monitor.windowWidth mon - nw), ny)
                else (nw, ny) in
              (u32 (i + 1), nx, ny, nw, nh)
            else (i, nx, ny, nw, nh) in
          s1 ← resize fuel c0 (s32 nx) (s32 ny) (s32 (u32 (nw - 2 * bw)))
                 (s32 (u32 (nh - 2 * bw))) false s;
          cl1 ← cs s1 !! c0;
          nxt ← nexttiled fuel s1 (Client.next cl1);
          dwindle_loop fuel k' m n i nx ny nw nh nxt s1
      end
  end.

Definition dwindle (fuel : nat) (m : mid) (s : State) : option State :=
  mon ← ms s !! m;
  first ← nexttiled fuel s (Monitor.clients mon);
  n ← count_tiled fuel fuel s first 0;
  if n =? 0 then Some s
  else
    dwindle_loop fuel fuel m n 0 (u32 (Monitor.windowX mon)) 0
      (u32 (Monitor.windowWidth mon)) (u32 (Monitor.windowHeight mon)) first s.

(** [for (c = m->clients; c; c = c->next) if (ISVISIBLE(c)) n++;] *)
Fixpoint count_visible (k : nat) (s : State) (c : option cid) (n : Z)
    : option Z :=
  match c with
  | None => Some n
  | Some c0 =>
      match k with
      | O => None
      | S k' =>
          cl ← cs s !! c0;
          vis ← ISVISIBLE s cl;
          count_visible k' s (Client.next cl)
            (if vis : bool then u32 (n + 1) else n)
      end
  end.

Fixpoint monocle_loop (fuel k : nat) (m : mid) (c : option cid) (s : State)
    : option State :=
  match c with
  | None => Some s
  | Some c0 =>
      match k with
      | O => None
      | S k' =>
          mon ← ms s !! m;
          cl ← cs s !! c0;
          s1 ← resize fuel c0 (Monitor.windowX mon) (Monitor.windowY mon)
                 (Monitor.windowWidth mon - 2 * Client.borderWidth cl)
                 (Monitor.windowHeight mon - 2 * Client.borderWidth cl) false s;
          cl1 ← cs s1 !! c0;
          nxt ← nexttiled fuel s1 (Client.next cl1);
          monocle_loop fuel k' m nxt s1
      end
  end.

(** [snprintf(m->layoutSymbol, sizeof m->layoutSymbol, "[%d]", n)]: [n] is
    read as an [int]; sixteen bytes hold every result. *)
Definition monocle_symbol (n : Z) : string := "[" +:+ pretty (s32 n) +:+ "]".

Definition monocle (fuel : nat) (m : mid) (s : State) : option State :=
  mon ← ms s !! m;
  n ← count_visible fuel s (Monitor.clients mon) 0;
  s1 ← (if 0 <? n (* override layout symbol *)
        then updm m (Monitor.set_layoutSymbol (monocle_symbol n)) s
        else Some s);
  mon1 ← ms s1 !! m;
  first ← nexttiled fuel s1 (Monitor.clients mon1);
  monocle_loop fuel fuel m first s1.

Definition run_arrange (f : ArrangeFn) : nat -> mid -> State -> option State :=
  match f with
  | Dwindle => dwindle
  | Tile => tile
  | Monocle => monocle
  end.

(** [showhide]: the [XMoveWindow] calls go to the server. The visible
    branch resizes before it recurses, the hidden one only recurses. *)
Fixpoint showhide (fuel k : nat) (c : option cid) (s : State) : option State :=
  match c with
  | None => Some s
  | Some c0 =>
      match k with
      | O => None
      | S k' =>
          cl ← cs s !! c0;
          vis ← ISVISIBLE s cl;
          if vis : bool then
            m ← ms s !! Client.monitor cl;
            s1 ← (if (bool_decide (arrange_fn (curlayout m) = None)
                      || Client.isFloating cl)
                     && negb (Client.isFullscreen cl)
                  then resize fuel c0 (Client.x cl) (Client.y cl)
                         (Client.w cl) (Client.h cl) false s
                  else Some s);
            cl1 ← cs s1 !! c0;
            showhide fuel k' (Client.selectionNext cl1) s1
          else showhide fuel k' (Client.selectionNext cl) s
      end
  end.

(** [arrangemon]: the symbols of the layout table are shorter than the
    sixteen bytes of [layoutSymbol], so [strncpy] copies them whole. *)
Definition arrangemon (fuel : nat) (m : mid) (s : State) : option State :=
  mon ← ms s !! m;
  s1 ← updm m (Monitor.set_layoutSymbol (symbol (curlayout mon))) s;
  match arrange_fn (curlayout mon) with
  | Some f => run_arrange f fuel m s1
  | None => Some s1
  end.

(** [for (m = monitors; m; m = m->next) body(m);] *)
Fixpoint for_monitors (k : nat) (body : mid -> State -> option State)
    (m : option mid) (s : State) : option State :=
  match m with
  | None => Some s
  | Some m0 =>
      match k with
      | O => None
      | S k' =>
          s1 ← body m0 s;
          mon ← ms s1 !! m0;
          for_monitors k' body (Monitor.next mon) s1
      end
  end.

Definition showhide_mon (fuel : nat) (m : mid) (s : State) : option State :=
  mon ← ms s !! m; showhide fuel fuel (Monitor.stack mon) s.

(** [arrange]; [restack] draws the bar and restacks windows on the server
    and leaves the store alone. *)
Definition arrange (fuel : nat) (m : option mid) (s : State) : option State :=
  match m with
  | Some m0 =>
      s1 ← showhide_mon fuel m0 s;
      arrangemon fuel m0 s1
  | None =>
      s1 ← for_monitors fuel (showhide_mon fuel) (monitors s) s;
      for_monitors fuel (arrangemon fuel) (monitors s1) s1
  end.

(** ** Focus *)

(** [seturgent]: the hint written back to the window is server state. *)
Definition seturgent (c : cid) (urg : bool) (s : State) : option State :=
  updc c (Client.set_isUrgent urg) s.

(** The first loop of [drawBar]: the number of visible clients of the
    list, the tags they occupy and the tags of the urgent ones. *)
Fixpoint drawBar_loop (k : nat) (s : State) (c : option cid) (n occ urg : Z)
    : option (Z * Z * Z) :=
  match c with
  | None => Some (n, occ, urg)
  | Some c0 =>
      match k with
      | O => None
      | S k' =>
          cl ← cs s !! c0;
          vis ← ISVISIBLE s cl;
          drawBar_loop k' s (Client.next cl)
            (if vis : bool then u32 (n + 1) else n)
            (Z.lor occ (Client.tags cl))
            (if Client.isUrgent cl then Z.lor urg (Client.tags cl) else urg)
      end
  end.

(** [drawBar]. What the loop gathers goes to the drawing calls; those, and
    the text widths that decide whether the bar has room for titles and
    where they go, belong to the server, and the store stays as it is.
    With room and a visible client the titles are laid out from the name
    of the selected client of the monitor on, in two more loops over the
    same client list; that part is left out with the drawing. *)
Definition drawBar (fuel : nat) (m : mid) (s : State) : option State :=
  mon ← ms s !! m;
  _ ← drawBar_loop fuel s (Monitor.clients mon) 0 0 0;
  Some s.

(** [drawBars]. *)
Definition drawBars (fuel : nat) (s : State) : option State :=
  for_monitors fuel (drawBar fuel) (monitors s) s.

(** [focus] up to its last line. [unfocus], [grabButtons],
    [XSetWindowBorder] and [setFocus] only talk to the server. *)
Definition focus_links (fuel : nat) (client : option cid) (s : State)
    : option State :=
  sm ← selectedMonitor s;
  smon ← ms s !! sm;
  (* no client or an invisible client was passed *)
  fallback ← match client with
             | None => Some true
             | Some c => cl ← cs s !! c; negb <$> ISVISIBLE s cl
             end;
  client ← (if fallback : bool then first_visible fuel s (Monitor.stack smon)
            else Some client);
  s1 ← match client with
       | Some c =>
           cl ← cs s !! c;
           let s := if decide (Client.monitor cl = sm) then s
                    else set_selectedMonitor (Some (Client.monitor cl)) s in
           s ← (if Client.isUrgent cl then seturgent c false s else Some s);
           s ← detachStack fuel c s;
           attachStack c s
       | None => Some s
       end;
  sm1 ← selectedMonitor s1;
  updm sm1 (Monitor.set_selectedClient client) s1.

(** [focus]: the bars are drawn last. *)
Definition focus (fuel : nat) (client : option cid) (s : State) : option State :=
  s1 ← focus_links fuel client s;
  drawBars fuel s1.

(** ** Fullscreen, floating, tags and views *)

Definition setfullscreen (fuel : nat) (c : cid) (fullscreen : bool) (s : State)
    : option State :=
  cl ← cs s !! c;
  if fullscreen && negb (Client.isFullscreen cl) then
    s1 ← updc c (fun cl =>
            Client.set_isFloating true
           (Client.set_borderWidth 0
           (Client.set_oldBorderWidth (Client.borderWidth cl)
           (Client.set_oldState (Client.isFloating cl)
           (Client.set_isFullscreen true cl))))) s;
    m ← ms s1 !! Client.monitor cl;
    resizeclient fuel c (Monitor.monitorX m) (Monitor.monitorY m)
      (Monitor.monitorWidth m) (Monitor.monitorHeight m) s1
  else if negb fullscreen && Client.isFullscreen cl then
    s1 ← updc c (fun cl =>
            Client.set_h (Client.oldh cl)
           (Client.set_w (Client.oldw cl)
           (Client.set_y (Client.oldy cl)
           (Client.set_x (Client.oldx cl)
           (Client.set_borderWidth (Client.oldBorderWidth cl)
           (Client.set_isFloating (Client.oldState cl)
           (Client.set_isFullscreen false cl))))))) s;
    cl1 ← cs s1 !! c;
    s2 ← resizeclient fuel c (Client.x cl1) (Client.y cl1) (Client.w cl1)
           (Client.h cl1) s1;
    cl2 ← cs s2 !! c;
    arrange fuel (Some (Client.monitor cl2)) s2
  else Some s.

Definition togglefloating (fuel : nat) (s : State) : option State :=
  sm ← selectedMonitor s;
  smon ← ms s !! sm;
  match Monitor.selectedClient smon with
  | None => Some s
  | Some sc =>
      scl ← cs s !! sc;
      if Client.isFullscreen scl (* no support for fullscreen windows *)
      then Some s
      else
        s1 ← updc sc (fun cl =>
                Client.set_isFloating
                  (negb (Client.isFloating cl) || Client.isFixed cl) cl) s;
        scl1 ← cs s1 !! sc;
        s2 ← (if Client.isFloating scl1
              then resize fuel sc (Client.x scl1) (Client.y scl1)
                     (Client.w scl1) (Client.h scl1) false s1
              else Some s1);
        arrange fuel (selectedMonitor s2) s2
  end.

(** [arg->ui] is an [unsigned int] and is passed below as [ui]. *)
Definition tag (fuel : nat) (ui : Z) (s : State) : option State :=
  sm ← selectedMonitor s;
  smon ← ms s !! sm;
  match Monitor.selectedClient smon with
  | Some sc =>
      if Z.land ui (TAGMASK cfg) =? 0 then Some s
      else
        s1 ← updc sc (Client.set_tags (Z.land ui (TAGMASK cfg))) s;
        s2 ← focus fuel None s1;
        arrange fuel (selectedMonitor s2) s2
  | None => Some s
  end.

Definition toggletag (fuel : nat) (ui : Z) (s : State) : option State :=
  sm ← selectedMonitor s;
  smon ← ms s !! sm;
  match Monitor.selectedClient smon with
  | None => Some s
  | Some sc =>
      scl ← cs s !! sc;
      let newtags := Z.lxor (Client.tags scl) (Z.land ui (TAGMASK cfg)) in
      if newtags =? 0 then Some s
      else
        s1 ← updc sc (Client.set_tags newtags) s;
        s2 ← focus fuel None s1;
        arrange fuel (selectedMonitor s2) s2
  end.

Definition toggleview (fuel : nat) (ui : Z) (s : State) : option State :=
  sm ← selectedMonitor s;
  smon ← ms s !! sm;
  let newtagset := Z.lxor (curtags smon) (Z.land ui (TAGMASK cfg)) in
  if newtagset =? 0 then Some s
  else
    s1 ← updm sm (fun m =>
            Monitor.set_tagSet
              (set_slot (Monitor.selectedTags m) newtagset (Monitor.tagSet m)) m) s;
    s2 ← focus fuel None s1;
    arrange fuel (selectedMonitor s2) s2.

Definition view (fuel : nat) (ui : Z) (s : State) : option State :=
  sm ← selectedMonitor s;
  smon ← ms s !! sm;
  if Z.land ui (TAGMASK cfg) =? curtags smon then Some s
  else
    (* toggle the selected tag set *)
    s1 ← updm sm (fun m =>
            Monitor.set_selectedTags (Z.lxor (Monitor.selectedTags m) 1) m) s;
    s2 ← (if Z.land ui (TAGMASK cfg) =? 0 then Some s1
          else updm sm (fun m =>
                 Monitor.set_tagSet
                   (set_slot (Monitor.selectedTags m) (Z.land ui (TAGMASK cfg))
                             (Monitor.tagSet m)) m) s1);
    s3 ← focus fuel None s2;
    arrange fuel (selectedMonitor s3) s3.

(** ** Moving clients between monitors, and unmanaging *)

Definition sendmon (fuel : nat) (c : cid) (m : mid) (s : State) : option State :=
  cl ← cs s !! c;
  if decide (Client.monitor cl = m) then Some s
  else
    s1 ← detach fuel c s;
    s2 ← detachStack fuel c s1;
    mon ← ms s2 !! m;
    (* assign tags of target monitor *)
    s3 ← updc c (fun cl => Client.set_tags (curtags mon)
                             (Client.set_monitor m cl)) s2;
    s4 ← attachBelow fuel c s3;
    s5 ← attachStack c s4;
    s6 ← focus fuel None s5;
    arrange fuel None s6.

(** The inner loop of [updateclientlist]: the windows of a client list. *)
Fixpoint client_windows (k : nat) (s : State) (c : option cid)
    : option (list Z) :=
  match c with
  | None => Some []
  | Some c0 =>
      match k with
      | O => None
      | S k' =>
          cl ← cs s !! c0;
          (Client.window cl ::.) <$> client_windows k' s (Client.next cl)
      end
  end.

(** [updateclientlist]: the windows go to a property of the root window,
    and the store stays as it is. *)
Definition updateclientlist (fuel : nat) (s : State) : option State :=
  for_monitors fuel
    (fun m s => mon ← ms s !! m;
                _ ← client_windows fuel s (Monitor.clients mon);
                Some s)
    (monitors s) s.

(** [unmanage]: [free(c)] removes the client from the store. *)
Definition unmanage (fuel : nat) (c : cid) (s : State) : option State :=
  cl ← cs s !! c;
  let m := Client.monitor cl in
  s1 ← detach fuel c s;
  s2 ← detachStack fuel c s1;
  let s3 := set_cs (delete c (cs s2)) s2 in
  s4 ← focus fuel None s3;
  s5 ← updateclientlist fuel s4;
  arrange fuel (Some m) s5.

(** ** Monitors and their reconciliation with the display topology *)

Definition zero_monitor : Monitor.t :=
  Monitor.mk "" F32.zero 0 0 0 0 0 0 0 0 0 0 0 0 0 (0, 0) false false
             None None None None 0 (mkLayout "" None, mkLayout "" None).

(** A pointer that is not allocated yet, for [ecalloc]. *)
Definition fresh_id {A : Type} (m : gmap nat A) : nat :=
  S (map_fold (fun k _ acc => Nat.max k acc) O m).

Definition layout_at (i : nat) : Layout :=
  nth i (Config.layouts cfg) (mkLayout "" None).

Definition new_monitor : Monitor.t :=
  Monitor.set_layoutSymbol (symbol (layout_at 0))
    (Monitor.set_layouts
       (layout_at 0, layout_at (1 mod length (Config.layouts cfg))%nat)
       (Monitor.mk "" (Config.masterFactor cfg) (Config.nMaster cfg) 0 0 0 0 0 0
          0 0 0 0 0 0 (1, 1) (Config.showbar cfg) (Config.topbar cfg)
          None None None None 0 (mkLayout "" None, mkLayout "" None))).

(** [createMonitor]: the new monitor and the store that holds it. *)
Definition createMonitor (s : State) : mid * State :=
  let m := fresh_id (ms s) in
  (m, set_ms (<[m := new_monitor]> (ms s)) s).

Definition updatebarpos (m : mid) (s : State) : option State :=
  updm m (fun m =>
    let m := Monitor.set_windowY (Monitor.monitorY m) m in
    let m := Monitor.set_windowHeight (Monitor.monitorHeight m) m in
    if Monitor.showBar m then
      let m := Monitor.set_windowHeight (Monitor.windowHeight m - barHeight s) m in
      let m := Monitor.set_by_
                 (if Monitor.topBar m then Monitor.windowY m
                  else Monitor.windowY m + Monitor.windowHeight m) m in
      Monitor.set_windowY
        (if Monitor.topBar m then Monitor.windowY m + barHeight s
         else Monitor.windowY m) m
    else Monitor.set_by_ (- barHeight s) m) s.

(** [for (m = monitors; m && m->next; m = m->next);] *)
Fixpoint last_monitor (k : nat) (s : State) (m : option mid) : option (option mid) :=
  match m with
  | None => Some None
  | Some m0 =>
      mon ← ms s !! m0;
      match Monitor.next mon with
      | None => Some (Some m0)
      | Some m1 =>
          match k with
          | O => None
          | S k' => last_monitor k' s (Some m1)
          end
      end
  end.

(** [for (m = monitors; m && m->next != mon; m = m->next);] *)
Fixpoint monitor_before (k : nat) (s : State) (mon : mid) (m : option mid)
    : option (option mid) :=
  match m with
  | None => Some None
  | Some m0 =>
      r ← ms s !! m0;
      if decide (Monitor.next r = Some mon) then Some (Some m0)
      else match k with
           | O => None
           | S k' => monitor_before k' s mon (Monitor.next r)
           end
  end.

(** [cleanupmon]: [free(mon)] removes the monitor from the store. *)
Definition cleanupmon (fuel : nat) (mon : mid) (s : State) : option State :=
  r ← ms s !! mon;
  s1 ← (if decide (monitors s = Some mon)
        then Some (set_monitors (Monitor.next r) s)
        else p ← monitor_before fuel s mon (monitors s);
             m ← p;
             updm m (Monitor.set_next (Monitor.next r)) s);
  Some (set_ms (delete mon (ms s1)) s1).

(** [XineramaScreenInfo], without the screen number. *)
Record ScreenInfo : Type := mkScreenInfo {
  x_org : Z; y_org : Z; width : Z; height : Z;
}.

Definition same_geom (a b : ScreenInfo) : bool :=
  (x_org a =? x_org b) && (y_org a =? y_org b)
  && (width a =? width b) && (height a =? height b).

Definition isuniquegeom (unique : list ScreenInfo) (info : ScreenInfo) : bool :=
  negb (existsb (fun u => same_geom u info) unique).

(** only consider unique geometries as separate screens *)
Definition unique_geoms (info : list ScreenInfo) : list ScreenInfo :=
  fold_left (fun unique i => if isuniquegeom unique i then unique ++ [i] else unique)
            info [].

(** [for (n = 0, m = monitors; m; m = m->next, n++);] *)
Fixpoint count_monitors (k : nat) (s : State) (m : option mid) (n : Z) : option Z :=
  match m with
  | None => Some n
  | Some m0 =>
      match k with
      | O => None
      | S k' => mon ← ms s !! m0; count_monitors k' s (Monitor.next mon) (n + 1)
      end
  end.

(** One round of the loop that appends a monitor. *)
Definition append_monitor (fuel : nat) (s : State) : option State :=
  l ← last_monitor fuel s (monitors s);
  let '(m, s1) := createMonitor s in
  match l with
  | Some lm => updm lm (Monitor.set_next (Some m)) s1
  | None => Some (set_monitors (Some m) s1)
  end.

(** [for (i = 0, m = monitors; i < nn && m; m = m->next, i++) ...] *)
Fixpoint update_geoms (n i : Z) (unique : list ScreenInfo) (m : option mid)
    (dirty : bool) (s : State) : option (bool * State) :=
  match unique, m with
  | u :: rest, Some m0 =>
      mon ← ms s !! m0;
      if (n <=? i) || negb (x_org u =? Monitor.monitorX mon)
         || negb (y_org u =? Monitor.monitorY mon)
         || negb (width u =? Monitor.monitorWidth mon)
         || negb (height u =? Monitor.monitorHeight mon)
      then
        s1 ← updm m0 (fun m =>
                Monitor.set_windowHeight (height u)
               (Monitor.set_monitorHeight (height u)
               (Monitor.set_windowWidth (width u)
               (Monitor.set_monitorWidth (width u)
               (Monitor.set_windowY (y_org u)
               (Monitor.set_monitorY (y_org u)
               (Monitor.set_windowX (x_org u)
               (Monitor.set_monitorX (x_org u)
               (Monitor.set_num i m))))))))) s;
        s2 ← updatebarpos m0 s1;
        mon2 ← ms s2 !! m0;
        update_geoms n (i + 1) rest (Monitor.next mon2) true s2
      else update_geoms n (i + 1) rest (Monitor.next mon) dirty s
  | _, _ => Some (dirty, s)
  end.

(** [while ((c = m->clients)) { ... }]: every client of the monitor that
    goes away is handed to the first monitor. *)
Fixpoint migrate_clients (fuel k : nat) (m : mid) (dirty : bool) (s : State)
    : option (bool * State) :=
  mon ← ms s !! m;
  match Monitor.clients mon with
  | None => Some (dirty, s)
  | Some c =>
      match k with
      | O => None
      | S k' =>
          cl ← cs s !! c;
          s1 ← updm m (Monitor.set_clients (Client.next cl)) s;
          s2 ← detachStack fuel c s1;
          first ← monitors s2;
          s3 ← updc c (Client.set_monitor first) s2;
          s4 ← attach c s3;
          s5 ← attachBelow fuel c s4;
          s6 ← attachStack c s5;
          migrate_clients fuel k' m true s6
      end
  end.

(** [for (i = nn; i < n; i++) { ... cleanupmon(m); }] run [k] times. *)
Fixpoint remove_monitors (fuel : nat) (k : nat) (dirty : bool) (s : State)
    : option (bool * State) :=
  match k with
  | O => Some (dirty, s)
  | S k' =>
      l ← last_monitor fuel s (monitors s);
      m ← l;
      r ← migrate_clients fuel fuel m dirty s;
      let '(dirty1, s1) := r in
      let s2 := if decide (selectedMonitor s1 = Some m)
                then set_selectedMonitor (monitors s1) s1 else s1 in
      s3 ← cleanupmon fuel m s2;
      remove_monitors fuel k' dirty1 s3
  end.

Definition INTERSECT (x y w h : Z) (m : Monitor.t) : Z :=
  MAX 0 (MIN (x + w) (Monitor.windowX m + Monitor.windowWidth m)
         - MAX x (Monitor.windowX m))
  * MAX 0 (MIN (y + h) (Monitor.windowY m + Monitor.windowHeight m)
           - MAX y (Monitor.windowY m)).

Fixpoint rectangleToMonitor_from (k : nat) (s : State) (x y w h : Z)
    (m : option mid) (area : Z) (r : option mid) : option (option mid) :=
  match m with
  | None => Some r
  | Some m0 =>
      match k with
      | O => None
      | S k' =>
          mon ← ms s !! m0;
          let a := INTERSECT x y w h mon in
          if area <? a
          then rectangleToMonitor_from k' s x y w h (Monitor.next mon) a (Some m0)
          else rectangleToMonitor_from k' s x y w h (Monitor.next mon) area r
      end
  end.

Definition rectangleToMonitor (fuel : nat) (s : State) (x y w h : Z)
    : option (option mid) :=
  rectangleToMonitor_from fuel s x y w h (monitors s) 0 (selectedMonitor s).

(** ** Windows and who owns them *)

(** [for (c = m->clients; c; c = c->next) if (c->window == window) return c;] *)
Fixpoint find_window (k : nat) (s : State) (window : Z) (c : option cid)
    : option (option cid) :=
  match c with
  | None => Some None
  | Some c0 =>
      cl ← cs s !! c0;
      if Client.window cl =? window then Some (Some c0)
      else match k with
           | O => None
           | S k' => find_window k' s window (Client.next cl)
           end
  end.

Fixpoint windowToClient_from (fuel k : nat) (s : State) (window : Z)
    (m : option mid) : option (option cid) :=
  match m with
  | None => Some None
  | Some m0 =>
      mon ← ms s !! m0;
      r ← find_window fuel s window (Monitor.clients mon);
      match r with
      | Some c => Some (Some c)
      | None =>
          match k with
          | O => None
          | S k' => windowToClient_from fuel k' s window (Monitor.next mon)
          end
      end
  end.

Definition windowToClient (fuel : nat) (s : State) (window : Z)
    : option (option cid) :=
  windowToClient_from fuel fuel s window (monitors s).

(** [for (m = monitors; m; m = m->next) if (w == m->barWindow) return m;] *)
Fixpoint bar_monitor (k : nat) (s : State) (window : Z) (m : option mid)
    : option (option mid) :=
  match m with
  | None => Some None
  | Some m0 =>
      mon ← ms s !! m0;
      if Monitor.barWindow mon =? window then Some (Some m0)
      else match k with
           | O => None
           | S k' => bar_monitor k' s window (Monitor.next mon)
           end
  end.

(** [windowToMonitor]. [root] is the root window, and [pointer] the answer
    of [getRootPointer], which is asked for the root window only. *)
Definition windowToMonitor (fuel : nat) (root : Z) (pointer : option (Z * Z))
    (window : Z) (s : State) : option (option mid) :=
  match (if window =? root then pointer else None) with
  | Some (px, py) => rectangleToMonitor fuel s px py 1 1
  | None =>
      b ← bar_monitor fuel s window (monitors s);
      match b with
      | Some m => Some (Some m)
      | None =>
          c ← windowToClient fuel s window;
          match c with
          | Some c0 => cl ← cs s !! c0; Some (Some (Client.monitor cl))
          | None => Some (selectedMonitor s)
          end
      end
  end.

(** [updateGeometry]. [xinerama] is the answer of [XineramaQueryScreens]
    when the extension is active, [root] the root window and [pointer]
    the answer of [getRootPointer]. *)
Definition updateGeometry (fuel : nat) (xinerama : option (list ScreenInfo))
    (root : Z) (pointer : option (Z * Z)) (s : State) : option (bool * State) :=
  r ← match xinerama with
      | Some info =>
          n ← count_monitors fuel s (monitors s) 0;
          let unique := unique_geoms info in
          let nn := Z.of_nat (length unique) in
          if n <=? nn then
            (* new monitors available *)
            s1 ← Nat.iter (Z.to_nat (nn - n))
                   (fun r => s ← r; append_monitor fuel s) (Some s);
            update_geoms n 0 unique (monitors s1) false s1
          else
            (* less monitors available nn < n *)
            remove_monitors fuel (Z.to_nat (n - nn)) false s
      | None =>
          (* default monitor setup *)
          let s1 := match monitors s with
                    | Some _ => s
                    | None => let '(m, s1) := createMonitor s in
                              set_monitors (Some m) s1
                    end in
          m ← monitors s1;
          mon ← ms s1 !! m;
          if negb (Monitor.monitorWidth mon =? screenWidth s1)
             || negb (Monitor.monitorHeight mon =? screenHeight s1)
          then
            s2 ← updm m (fun m =>
                    Monitor.set_windowHeight (screenHeight s1)
                   (Monitor.set_monitorHeight (screenHeight s1)
                   (Monitor.set_windowWidth (screenWidth s1)
                   (Monitor.set_monitorWidth (screenWidth s1) m)))) s1;
            s3 ← updatebarpos m s2;
            Some (true, s3)
          else Some (false, s1)
      end;
  let '(dirty, s1) := r in
  if dirty : bool then
    let s2 := set_selectedMonitor (monitors s1) s1 in
    m ← windowToMonitor fuel root pointer root s2;
    Some (dirty, set_selectedMonitor m s2)
  else Some (dirty, s1).

(** ** Rules *)

(** [strstr(haystack, needle) != NULL] *)
Fixpoint strstr (haystack needle : string) : bool :=
  String.prefix needle haystack
  || match haystack with
     | EmptyString => false
     | String _ rest => strstr rest needle
     end.

(** [for (m = monitors; m && m->num != r->monitor; m = m->next);] *)
Fixpoint monitor_numbered (k : nat) (s : State) (num : Z) (m : option mid)
    : option (option mid) :=
  match m with
  | None => Some None
  | Some m0 =>
      mon ← ms s !! m0;
      if Monitor.num mon =? num then Some (Some m0)
      else match k with
           | O => None
           | S k' => monitor_numbered k' s num (Monitor.next mon)
           end
  end.

Definition rule_matches (r : Rule.t) (name class instance : string) : bool :=
  match Rule.title r with None => true | Some t => strstr name t end
  && match Rule.class r with None => true | Some t => strstr class t end
  && match Rule.instance r with None => true | Some t => strstr instance t end.

Fixpoint apply_rule_list (fuel : nat) (c : cid) (class instance : string)
    (rs : list Rule.t) (s : State) : option State :=
  match rs with
  | [] => Some s
  | r :: rest =>
      cl ← cs s !! c;
      s1 ← (if rule_matches r (Client.name cl) class instance then
              m ← monitor_numbered fuel s (Rule.monitor r) (monitors s);
              updc c (fun cl =>
                let cl := Client.set_isFloating (Rule.isfloating r) cl in
                let cl := Client.set_tags (Z.lor (Client.tags cl) (Rule.tags r)) cl in
                match m with
                | Some m0 => Client.set_monitor m0 cl
                | None => cl
                end) s
            else Some s);
      apply_rule_list fuel c class instance rest s1
  end.

(** [applyrules]: [res_class] and [res_name] are the two strings of the
    class hint of the window, when it has them. *)
Definition applyrules (fuel : nat) (c : cid) (res_class res_name : option string)
    (s : State) : option State :=
  s1 ← updc c (fun cl => Client.set_tags 0 (Client.set_isFloating false cl)) s;
  let class := default "broken"%string res_class in
  let instance := default "broken"%string res_name in
  s2 ← apply_rule_list fuel c class instance (Config.rules cfg) s1;
  cl ← cs s2 !! c;
  m ← ms s2 !! Client.monitor cl;
  updc c (Client.set_tags
            (if Z.land (Client.tags cl) (TAGMASK cfg) =? 0 then curtags m
             else Z.land (Client.tags cl) (TAGMASK cfg))) s2.

(** ** The mouse-move sub-loop *)

(** The events the loop of [movemouse] can draw: pointer motion with its
    time stamp and position, the button release that ends the loop, one of
    the three kinds handed to the dispatcher, and the button presses the
    [switch] has no case for. *)
Inductive MouseEvent (D : Type) : Type :=
  | EvMotion (time x y : Z)
  | EvButtonRelease
  | EvDelegated (d : D)
  | EvOther.
Arguments EvMotion {D}.
Arguments EvButtonRelease {D}.
Arguments EvDelegated {D}.
Arguments EvOther {D}.

(** The [MotionNotify] case once the event has passed the rate limit:
    [c] is the client picked at entry, [(ocx, ocy)] its position then,
    [(x, y)] the pointer position then and [(evx, evy)] the one now. *)
Definition movemouse_motion (fuel : nat) (c : cid) (ocx ocy x y evx evy : Z)
    (s : State) : option State :=
  sm ← selectedMonitor s;
  smon ← ms s !! sm;
  cl ← cs s !! c;
  let snap := Config.snap cfg in
  let wx := Monitor.windowX smon in
  let wy := Monitor.windowY smon in
  let nx := ocx + (evx - x) in
  let ny := ocy + (evy - y) in
  let nx := if u32 (Z.abs (wx - nx)) <? snap then wx
            else if u32 (Z.abs ((wx + Monitor.windowWidth smon) - (nx + WIDTH cl)))
                    <? snap
            then wx + Monitor.windowWidth smon - WIDTH cl
            else nx in
  let ny := if u32 (Z.abs (wy - ny)) <? snap then wy
            else if u32 (Z.abs ((wy + Monitor.windowHeight smon) - (ny + HEIGHT cl)))
                    <? snap
            then wy + Monitor.windowHeight smon - HEIGHT cl
            else ny in
  s1 ← (if negb (Client.isFloating cl)
           && negb (bool_decide (arrange_fn (curlayout smon) = None))
           && ((snap <? u32 (Z.abs (nx - Client.x cl)))
               || (snap <? u32 (Z.abs (ny - Client.y cl))))
        then togglefloating fuel s
        else Some s);
  sm1 ← selectedMonitor s1;
  smon1 ← ms s1 !! sm1;
  cl1 ← cs s1 !! c;
  if bool_decide (arrange_fn (curlayout smon1) = None) || Client.isFloating cl1
  then resize fuel c nx ny (Client.w cl1) (Client.h cl1) true s1
  else Some s1.

(** The [do ... while (ev.type != ButtonRelease)] loop over the events
    that arrive; [Time] is an [unsigned long]. A list that ends before the
    button release leaves the loop waiting. *)
Fixpoint movemouse_loop {D : Type} (handler : D -> State -> option State)
    (fuel : nat) (c : cid) (ocx ocy x y lasttime : Z)
    (evs : list (MouseEvent D)) (s : State) : option State :=
  match evs with
  | [] => None
  | EvButtonRelease :: _ => Some s
  | EvDelegated d :: rest =>
      s1 ← handler d s;
      movemouse_loop handler fuel c ocx ocy x y lasttime rest s1
  | EvOther :: rest => movemouse_loop handler fuel c ocx ocy x y lasttime rest s
  | EvMotion time evx evy :: rest =>
      if (time - lasttime) mod 2 ^ 64 <=? Z.quot 1000 60
      then movemouse_loop handler fuel c ocx ocy x y lasttime rest s
      else
        s1 ← movemouse_motion fuel c ocx ocy x y evx evy s;
        movemouse_loop handler fuel c ocx ocy x y time rest s1
  end.

(** [movemouse]: [grabbed] tells whether [XGrabPointer] succeeded and
    [pointer] is the answer of [getRootPointer]. *)
Definition movemouse {D : Type} (handler : D -> State -> option State)
    (fuel : nat) (grabbed : bool) (pointer : option (Z * Z))
    (evs : list (MouseEvent D)) (s : State) : option State :=
  sm ← selectedMonitor s;
  smon ← ms s !! sm;
  match Monitor.selectedClient smon with
  | None => Some s
  | Some c =>
      cl ← cs s !! c;
      if Client.isFullscreen cl then Some s
      else if negb grabbed then Some s
      else match pointer with
           | None => Some s
           | Some (x, y) =>
               s1 ← movemouse_loop handler fuel c (Client.x cl) (Client.y cl)
                      x y 0 evs s;
               cl1 ← cs s1 !! c;
               m ← rectangleToMonitor fuel s1 (Client.x cl1) (Client.y cl1)
                     (Client.w cl1) (Client.h cl1);
               if decide (m = selectedMonitor s1) then Some s1
               else
                 m0 ← m;
                 s2 ← sendmon fuel c m0 s1;
                 focus fuel None (set_selectedMonitor (Some m0) s2)
           end
  end.

(** ** Managing a new window, and configure requests *)

(** What [updatewindowtype] reads from the window: whether its state
    property is the fullscreen atom and whether its type is the dialog
    atom. *)
Definition updatewindowtype (fuel : nat) (c : cid) (fullscreen dialog : bool)
    (s : State) : option State :=
  s1 ← (if fullscreen then setfullscreen fuel c true s else Some s);
  if dialog then updc c (Client.set_isFloating true) s1 else Some s1.

(** [XSizeHints], with the bits of [flags] that [updatesizehints] tests. *)
Record SizeHints : Type := mkSizeHints {
  PBaseSize : bool; PMinSize : bool; PResizeInc : bool; PMaxSize : bool;
  PAspect : bool;
  base_width : Z; base_height : Z;
  min_width : Z; min_height : Z;
  width_inc : Z; height_inc : Z;
  max_width : Z; max_height : Z;
  min_aspect : Z * Z;     (* x, y *)
  max_aspect : Z * Z;     (* x, y *)
}.

(** A window without the property: only the [PSize] flag is taken as
    set. *)
Definition no_size_hints : SizeHints :=
  mkSizeHints false false false false false 0 0 0 0 0 0 0 0 (0, 0) (0, 0).

Definition updatesizehints (c : cid) (hints : option SizeHints) (s : State)
    : option State :=
  let size := default no_size_hints hints in
  updc c (fun cl =>
    let '(bw, bh) :=
      if PBaseSize size then (base_width size, base_height size)
      else if PMinSize size then (min_width size, min_height size)
      else (0, 0) in
    let '(iw, ih) :=
      if PResizeInc size then (width_inc size, height_inc size) else (0, 0) in
    let '(xw, xh) :=
      if PMaxSize size then (max_width size, max_height size) else (0, 0) in
    let '(nw, nh) :=
      if PMinSize size then (min_width size, min_height size)
      else if PBaseSize size then (base_width size, base_height size)
      else (0, 0) in
    let '(mina, maxa) :=
      if PAspect size
      then (F32.div (F32.of_int (snd (min_aspect size)))
                    (F32.of_int (fst (min_aspect size))),
            F32.div (F32.of_int (fst (max_aspect size)))
                    (F32.of_int (snd (max_aspect size))))
      else (F32.zero, F32.zero) in
    Client.set_isFixed
      (negb (xw =? 0) && negb (xh =? 0) && (xw =? nw) && (xh =? nh))
      (Client.set_maxa maxa (Client.set_mina mina
      (Client.set_minh nh (Client.set_minw nw
      (Client.set_maxh xh (Client.set_maxw xw
      (Client.set_inch ih (Client.set_incw iw
      (Client.set_baseh bh (Client.set_basew bw cl))))))))))) s.

(** [XWMHints]: the urgency bit, and the input field when [InputHint] is
    set. *)
Record WMHints : Type := mkWMHints {
  XUrgencyHint : bool;
  InputHint : option bool;
}.

Definition updatewmhints (c : cid) (hints : option WMHints) (s : State)
    : option State :=
  match hints with
  | None => Some s
  | Some wmh =>
      sm ← selectedMonitor s;
      smon ← ms s !! sm;
      s1 ← (if bool_decide (Monitor.selectedClient smon = Some c)
               && XUrgencyHint wmh
            then Some s
            else updc c (Client.set_isUrgent (XUrgencyHint wmh)) s);
      updc c (Client.set_neverFocus
                match InputHint wmh with
                | Some input => negb input
                | None => false
                end) s1
  end.

(** What [manage] learns about the window it is given. *)
Record NewWindow : Type := mkNewWindow {
  nw_window : Z;
  wa_x : Z; wa_y : Z; wa_width : Z; wa_height : Z; wa_border_width : Z;
  nw_title : string;                 (* as read by updatetitle *)
  nw_transient_for : option Z;       (* XGetTransientForHint *)
  nw_class : option string;
  nw_instance : option string;
  nw_fullscreen : bool;
  nw_dialog : bool;
  nw_sizehints : option SizeHints;
  nw_wmhints : option WMHints;
}.

(** [manage]. [ecalloc] hands out a pointer that is not allocated and a
    client whose fields are all zero; the monitor field, null until the
    first branch assigns it, is filled in when the client enters the
    store. *)
Definition manage (fuel : nat) (nw : NewWindow) (s : State) : option State :=
  let c := fresh_id (cs s) in
  t ← match nw_transient_for nw with
      | Some trans => windowToClient fuel s trans
      | None => Some None
      end;
  let name := if String.eqb (nw_title nw) "" then "broken"%string
              else nw_title nw in
  let blank m :=
    Client.mk name F32.zero F32.zero (wa_x nw) (wa_y nw) (wa_width nw)
      (wa_height nw) (wa_x nw) (wa_y nw) (wa_width nw) (wa_height nw)
      0 0 0 0 0 0 0 0 0 (wa_border_width nw) 0 false false false false false
      false None None m (nw_window nw) in
  s1 ← match t with
       | Some t0 =>
           tcl ← cs s !! t0;
           Some (set_cs (<[c := Client.set_tags (Client.tags tcl)
                                  (blank (Client.monitor tcl))]> (cs s)) s)
       | None =>
           sm ← selectedMonitor s;
           applyrules fuel c (nw_class nw) (nw_instance nw)
             (set_cs (<[c := blank sm]> (cs s)) s)
       end;
  cl ← cs s1 !! c;
  m ← ms s1 !! Client.monitor cl;
  let mx := Monitor.monitorX m in
  let my := Monitor.monitorY m in
  s2 ← updc c (fun cl =>
          let x := if Client.x cl + WIDTH cl >? mx + Monitor.monitorWidth m
                   then mx + Monitor.monitorWidth m - WIDTH cl else Client.x cl in
          let y := if Client.y cl + HEIGHT cl >? my + Monitor.monitorHeight m
                   then my + Monitor.monitorHeight m - HEIGHT cl else Client.y cl in
          let x := MAX x mx in
          (* only fix client y-offset, if the client center might cover the bar *)
          let y := MAX y (if (Monitor.by_ m =? my)
                             && (Monitor.windowX m <=? x + cdiv (Client.w cl) 2)
                             && (x + cdiv (Client.w cl) 2
                                 <? Monitor.windowX m + Monitor.windowWidth m)
                          then barHeight s1 else my) in
          Client.set_borderWidth (Config.borderpx cfg)
            (Client.set_y y (Client.set_x x cl))) s1;
  s3 ← updatewindowtype fuel c (nw_fullscreen nw) (nw_dialog nw) s2;
  s4 ← updatesizehints c (nw_sizehints nw) s3;
  s5 ← updatewmhints c (nw_wmhints nw) s4;
  s6 ← updc c (fun cl =>
          if Client.isFloating cl then cl
          else
            let v := bool_decide (is_Some (nw_transient_for nw))
                     || Client.isFixed cl in
            Client.set_oldState v (Client.set_isFloating v cl)) s5;
  s7 ← attachBelow fuel c s6;
  s8 ← attachStack c s7;
  cl8 ← cs s8 !! c;
  s9 ← updm (Client.monitor cl8) (Monitor.set_selectedClient (Some c)) s8;
  s10 ← arrange fuel (Some (Client.monitor cl8)) s9;
  focus fuel None s10.

(** The [XA_WM_TRANSIENT_FOR] case of [propertynotify] for the client [c];
    [trans] is the window [XGetTransientForHint] answers with, when it
    succeeds. *)
Definition propertynotify_transient (fuel : nat) (c : cid) (trans : option Z)
    (s : State) : option State :=
  cl ← cs s !! c;
  if Client.isFloating cl then Some s
  else
    match trans with
    | None => Some s
    | Some w =>
        t ← windowToClient fuel s w;
        s1 ← updc c (Client.set_isFloating (bool_decide (is_Some t))) s;
        if bool_decide (is_Some t)
        then arrange fuel (Some (Client.monitor cl)) s1
        else Some s1
    end.

(** [XConfigureRequestEvent]: the window, the requested values and the
    bits of [value_mask]. *)
Record ConfigureRequest : Type := mkConfigureRequest {
  cr_window : Z;
  cr_x : Z; cr_y : Z; cr_width : Z; cr_height : Z; cr_border_width : Z;
  CWX : bool; CWY : bool; CWWidth : bool; CWHeight : bool;
  CWBorderWidth : bool;
}.

(** [configurerequest]: the answers sent to the window are left out. *)
Definition configurerequest (fuel : nat) (ev : ConfigureRequest) (s : State)
    : option State :=
  r ← windowToClient fuel s (cr_window ev);
  match r with
  | None => Some s
  | Some c =>
      cl ← cs s !! c;
      if CWBorderWidth ev
      then updc c (Client.set_borderWidth (cr_border_width ev)) s
      else
        free ← (if Client.isFloating cl then Some true
                else sm ← selectedMonitor s;
                     smon ← ms s !! sm;
                     Some (bool_decide (arrange_fn (curlayout smon) = None)));
        if free : bool then
          m ← ms s !! Client.monitor cl;
          updc c (fun cl =>
            let cl := if CWX ev
                      then Client.set_x (Monitor.monitorX m + cr_x ev)
                             (Client.set_oldx (Client.x cl) cl) else cl in
            let cl := if CWY ev
                      then Client.set_y (Monitor.monitorY m + cr_y ev)
                             (Client.set_oldy (Client.y cl) cl) else cl in
            let cl := if CWWidth ev
                      then Client.set_w (cr_width ev)
                             (Client.set_oldw (Client.w cl) cl) else cl in
            let cl := if CWHeight ev
                      then Client.set_h (cr_height ev)
                             (Client.set_oldh (Client.h cl) cl) else cl in
            let cl := if (Client.x cl + Client.w cl
                          >? Monitor.monitorX m + Monitor.monitorWidth m)
                         && Client.isFloating cl
                      then (* center in x direction *)
                        Client.set_x (Monitor.monitorX m
                                      + (cdiv (Monitor.monitorWidth m) 2
                                         - cdiv (WIDTH cl) 2)) cl
                      else cl in
            if (Client.y cl + Client.h cl
                >? Monitor.monitorY m + Monitor.monitorHeight m)
               && Client.isFloating cl
            then (* center in y direction *)
              Client.set_y (Monitor.monitorY m
                            + (cdiv (Monitor.monitorHeight m) 2
                               - cdiv (HEIGHT cl) 2)) cl
            else cl) s
        else Some s
  end.

End Model.

Arguments EvMotion {D}.
Arguments EvButtonRelease {D}.
Arguments EvDelegated {D}.
Arguments EvOther {D}.

(** ** Entry points *)

(** The operations of the modelled part that the event handlers and the
    key and button bindings call, with their arguments. *)
Inductive Action : Type :=
  | AManage (nw : NewWindow)
  | AUnmanage (c : cid)
  | AConfigureRequest (ev : ConfigureRequest)
  | ASetFullscreen (c : cid) (fullscreen : bool)
  | AUpdateWindowType (c : cid) (fullscreen dialog : bool)
  | AUpdateSizeHints (c : cid) (hints : option SizeHints)
  | AUpdateWMHints (c : cid) (hints : option WMHints)
  | ASetUrgent (c : cid) (urg : bool)
  | AView (ui : Z)
  | AToggleView (ui : Z)
  | ATag (ui : Z)
  | AToggleTag (ui : Z)
  | AToggleFloating
  | ASendMon (c : cid) (m : mid)
  | AUpdateGeometry (xinerama : option (list ScreenInfo)) (root : Z)
      (pointer : option (Z * Z))
  | AFocus (c : option cid)
  | AArrange (m : option mid)
  | AMouseMotion (c : cid) (ocx ocy x y evx evy : Z)
  | AResize (c : cid) (x y w h : Z) (interact : bool)
  | ATransientFor (c : cid) (trans : option Z).

Definition run (cfg : Config.t) (fuel : nat) (a : Action) (s : State)
    : option State :=
  match a with
  | AManage nw => manage cfg fuel nw s
  | AUnmanage c => unmanage cfg fuel c s
  | AConfigureRequest ev => configurerequest fuel ev s
  | ASetFullscreen c b => setfullscreen cfg fuel c b s
  | AUpdateWindowType c fs dlg => updatewindowtype cfg fuel c fs dlg s
  | AUpdateSizeHints c hints => updatesizehints c hints s
  | AUpdateWMHints c hints => updatewmhints c hints s
  | ASetUrgent c urg => seturgent c urg s
  | AView ui => view cfg fuel ui s
  | AToggleView ui => toggleview cfg fuel ui s
  | ATag ui => tag cfg fuel ui s
  | AToggleTag ui => toggletag cfg fuel ui s
  | AToggleFloating => togglefloating cfg fuel s
  | ASendMon c m => sendmon cfg fuel c m s
  | AUpdateGeometry xin root ptr =>
      snd <$> updateGeometry cfg fuel xin root ptr s
  | AFocus c => focus fuel c s
  | AArrange m => arrange cfg fuel m s
  | AMouseMotion c ocx ocy x y evx evy =>
      movemouse_motion cfg fuel c ocx ocy x y evx evy s
  | AResize c x y w h i => resize cfg fuel c x y w h i s
  | ATransientFor c trans => propertynotify_transient cfg fuel c trans s
  end.

(** One step of the window manager, and the states it can reach. *)
Definition wm_step (cfg : Config.t) (s s' : State) : Prop :=
  ∃ fuel a, run cfg fuel a s = Some s'.

Definition reachable (cfg : Config.t) (s0 s : State) : Prop :=
  rtc (wm_step cfg) s0 s.

(** The store before [setup]: nothing allocated. *)
Definition init_state (sw sh bh : Z) : State :=
  mkState ∅ ∅ None None sw sh bh.

(** ** Lists read off the store *)

(** The clients met from [c] on by following one of the two links, when
    the walk ends within [k] steps. *)
Fixpoint chain_list (nx : Client.t -> option cid) (k : nat)
    (h : gmap nat Client.t) (c : option cid) : option (list cid) :=
  match c with
  | None => Some []
  | Some c0 =>
      match k with
      | O => None
      | S k' => cl ← h !! c0; (c0 ::.) <$> chain_list nx k' h (nx cl)
      end
  end.

(** The client list and the focus stack of a monitor. *)
Definition client_list (k : nat) (s : State) (m : mid) : option (list cid) :=
  mon ← ms s !! m; chain_list Client.next k (cs s) (Monitor.clients mon).

Definition stack_list (k : nat) (s : State) (m : mid) : option (list cid) :=
  mon ← ms s !! m; chain_list Client.selectionNext k (cs s) (Monitor.stack mon).

(** [ISVISIBLE] and "tiled" as tests on a pointer; a pointer that cannot
    be followed counts as neither. *)
Definition is_visible (s : State) (c : cid) : bool :=
  match cs s !! c with
  | Some cl => default false (ISVISIBLE s cl)
  | None => false
  end.

Definition is_tiled (s : State) (c : cid) : bool :=
  match cs s !! c with
  | Some cl => negb (Client.isFloating cl) && default false (ISVISIBLE s cl)
  | None => false
  end.

(** The clients of the list reside on monitor [m]. *)
Definition on_monitor (s : State) (m : mid) (l : list cid) : Prop :=
  Forall (fun c => ∃ cl, cs s !! c = Some cl ∧ Client.monitor cl = m) l.

(** ** Sample stores *)

(** A client without size hints. *)
Definition plain_client (mon : mid) (tags : Z) (floating : bool)
    (x y w h bw : Z) (next selectionNext : option cid) : Client.t :=
  Client.mk "" F32.zero F32.zero x y w h x y w h 0 0 0 0 0 0 0 0 bw bw tags
            false floating false false false false next selectionNext mon 0.

(** A monitor at the origin without a bar, showing tag 1, with the given
    layout in both slots. *)
Definition plain_monitor (lay : Layout) (nmaster ww wh : Z)
    (clients selectedClient stack next : option cid) : Monitor.t :=
  Monitor.mk (symbol lay) (Config.masterFactor config_def) nmaster 0 0
             0 0 ww wh 0 0 ww wh 0 0 (1, 1) false false
             clients selectedClient stack next 0 (lay, lay).

Definition layout_tile : Layout := mkLayout "T" (Some Tile).
Definition layout_dwindle : Layout := mkLayout "D" (Some Dwindle).
Definition layout_monocle : Layout := mkLayout "M" (Some Monocle).

(** One monitor, 1000 by 800, with the given clients and list heads. *)
Definition one_monitor (lay : Layout) (nmaster : Z)
    (clients selectedClient stack : option cid)
    (store : list (nat * Client.t)) : State :=
  mkState (list_to_map store)
          {[ 0%nat := plain_monitor lay nmaster 1000 800
                        clients selectedClient stack None ]}
          (Some 0%nat) (Some 0%nat) 1000 800 20.

(** * Vocabulary of the verification *)

(** ** Frames: what an operation leaves alone *)

(** Only client geometry and layout symbols differ between the states. *)
Definition geom_frame (s s' : State) : Prop :=
  Client.erase_geom <$> cs s' = Client.erase_geom <$> cs s
  ∧ Monitor.erase_symbol <$> ms s' = Monitor.erase_symbol <$> ms s
  ∧ monitors s' = monitors s
  ∧ selectedMonitor s' = selectedMonitor s
  ∧ screenWidth s' = screenWidth s
  ∧ screenHeight s' = screenHeight s
  ∧ barHeight s' = barHeight s.

(** Geometry, list membership, selection and urgency may differ; tags,
    flags, borders, hints, tag sets and layouts do not. *)
Definition link_frame (s s' : State) : Prop :=
  Client.erase_links <$> cs s' = Client.erase_links <$> cs s
  ∧ Monitor.erase_links <$> ms s' = Monitor.erase_links <$> ms s
  ∧ monitors s' = monitors s
  ∧ screenWidth s' = screenWidth s
  ∧ screenHeight s' = screenHeight s
  ∧ barHeight s' = barHeight s.

(** Clients and monitors of the second state come from the first with the
    same tags and tag sets; some may have been freed. The client [ex], if
    any, is exempt. *)
Definition tags_frame_but (ex : option cid) (s s' : State) : Prop :=
  (∀ c cl', Some c ≠ ex → cs s' !! c = Some cl' →
     ∃ cl, cs s !! c = Some cl ∧ Client.tags cl' = Client.tags cl)
  ∧ (∀ m mon', ms s' !! m = Some mon' →
       ∃ mon, ms s !! m = Some mon ∧ Monitor.tagSet mon' = Monitor.tagSet mon).

Abbreviation tags_frame := (tags_frame_but None).

(** ** Tag masks in order *)

(** A tag mask is in order when it is not empty and has valid bits only. *)
Definition tags_ok (cfg : Config.t) (t : Z) : Prop :=
  t ≠ 0 ∧ Z.land t (TAGMASK cfg) = t.

Definition client_tags_ok (cfg : Config.t) (s : State) : Prop :=
  ∀ c cl, cs s !! c = Some cl → tags_ok cfg (Client.tags cl).

Definition tagsets_ok (cfg : Config.t) (s : State) : Prop :=
  ∀ m mon, ms s !! m = Some mon →
    tags_ok cfg (fst (Monitor.tagSet mon)) ∧ tags_ok cfg (snd (Monitor.tagSet mon)).

Definition tags_inv (cfg : Config.t) (s : State) : Prop :=
  client_tags_ok cfg s ∧ tagsets_ok cfg s.

(** The invariant with one client left out: a client whose tags are
    still to be assigned. *)
Definition tags_inv_but (cfg : Config.t) (c : cid) (s : State) : Prop :=
  (∀ c' cl, c' ≠ c → cs s !! c' = Some cl → tags_ok cfg (Client.tags cl))
  ∧ tagsets_ok cfg s.

#[global] Instance tags_ok_dec cfg t : Decision (tags_ok cfg t).
Proof. unfold tags_ok. apply _. Defined.


(** The link that points at the member after [l1] in a list that starts
    at [head]. *)
Definition link_before (head : Link) (l1 : list nat) : Link :=
  from_option LLink head (last l1).

(** ** More sample stores *)

(** Two tiled clients on tag 1, the first one selected. *)
Definition two_tiled : State :=
  one_monitor layout_tile 1 (Some 1%nat) (Some 1%nat) (Some 1%nat)
    [ (1%nat, plain_client 0 1 false 0 0 498 798 1 (Some 2%nat) (Some 2%nat));
      (2%nat, plain_client 0 1 false 500 0 498 798 1 None None) ].

(** ** Tactics *)

(** Peel one [x ← e; k] off a successful run. *)
Ltac bind_inv H :=
  lazymatch type of H with
  | mbind _ _ = Some _ =>
      let x := fresh "x" in
      let Hx := fresh "Hx" in
      apply bind_Some in H as (x & Hx & H)
  end.

Ltac binds H := repeat (bind_inv H).

Create HintDb tagsdb.

(** ** What the layout loops compute *)

(** The client [resize] leaves behind: [sole] tells whether the client is
    the only tiled one of its monitor [mon]. *)
Definition resized (cfg : Config.t) (s : State) (sole : bool) (cl : Client.t)
    (mon : Monitor.t) (x y w h : Z) (interact : bool) : Client.t :=
  let '(x', y', w', h', changed) := applysizehints cfg s cl mon x y w h interact in
  if changed : bool then
    let cl1 :=
      Client.set_h h' (Client.set_oldh (Client.h cl)
     (Client.set_w w' (Client.set_oldw (Client.w cl)
     (Client.set_y y' (Client.set_oldy (Client.y cl)
     (Client.set_x x' (Client.set_oldx (Client.x cl) cl))))))) in
    let arr := arrange_fn (curlayout mon) in
    if (sole || bool_decide (arr = Some Monocle))
       && negb (Client.isFullscreen cl1) && negb (Client.isFloating cl1)
       && negb (bool_decide (arr = None))
    then Client.set_h (Client.h cl1 + Client.borderWidth cl1 * 2)
           (Client.set_w (Client.w cl1 + Client.borderWidth cl1 * 2) cl1)
    else cl1
  else cl.

(** Writing a list of clients into the store, first to last. *)
Definition ins_all (placed : list (nat * Client.t)) (h : gmap nat Client.t)
    : gmap nat Client.t :=
  fold_left (fun h p => <[p.1 := p.2]> h) placed h.

(** The tiled clients met from [p] on are [lt], and the walk fits the
    budget. *)
Definition tiled_from (fuel : nat) (s : State) (p : option cid)
    (lt : list cid) : Prop :=
  ∃ lc, chain_list Client.next fuel (cs s) p = Some lc
        ∧ Forall (fun c => ∃ cl, cs s !! c = Some cl
                                 ∧ is_Some (ms s !! Client.monitor cl)) lc
        ∧ List.filter (is_tiled s) lc = lt.

(** The three placing loops share one shape: a rectangle is proposed from
    the loop variables, the monitor and the client; the client is resized
    to it; the loop variables move on. *)
Section Placing.

Context {A : Type}.
Variable cfg : Config.t.
Variable propose : A -> Monitor.t -> Client.t -> Z * Z * Z * Z.
Variable advance : A -> Monitor.t -> Client.t -> Client.t -> A.

Fixpoint place_loop (fuel k : nat) (m : mid) (a : A) (c : option cid)
    (s : State) : option State :=
  match c with
  | None => Some s
  | Some c0 =>
      match k with
      | O => None
      | S k' =>
          mon ← ms s !! m;
          cl ← cs s !! c0;
          let '(x, y, w, h) := propose a mon cl in
          s1 ← resize cfg fuel c0 x y w h false s;
          cl1 ← cs s1 !! c0;
          nxt ← nexttiled fuel s1 (Client.next cl1);
          place_loop fuel k' m (advance a mon cl cl1) nxt s1
      end
  end.

(** The same on the list of the tiled clients with their records. *)
Fixpoint place_list (s : State) (mon : Monitor.t) (sole : bool) (a : A)
    (recs : list (nat * Client.t)) : list (nat * Client.t) :=
  match recs with
  | [] => []
  | (c, cl) :: rest =>
      let '(x, y, w, h) := propose a mon cl in
      let cl' := resized cfg s sole cl mon x y w h false in
      (c, cl') :: place_list s mon sole (advance a mon cl cl') rest
  end.

End Placing.

(** The loops of [tile], [dwindle] and [monocle] in that shape. *)
Definition tile_propose (n mw : Z) (a : Z * Z * Z) (mon : Monitor.t)
    (cl : Client.t) : Z * Z * Z * Z :=
  let '(i, my, ty) := a in
  let bw := Client.borderWidth cl in
  let wh := Monitor.windowHeight mon in
  if i <? u32 (Monitor.nMaster mon) then
    let h := Z.quot (u32 (wh - my))
                    (u32 (MIN n (u32 (Monitor.nMaster mon)) - i)) in
    (Monitor.windowX mon, s32 (u32 (Monitor.windowY mon + my)),
     s32 (u32 (mw - 2 * bw)), s32 (u32 (h - 2 * bw)))
  else
    let h := Z.quot (u32 (wh - ty)) (u32 (n - i)) in
    (s32 (u32 (Monitor.windowX mon + mw)),
     s32 (u32 (Monitor.windowY mon + ty)),
     s32 (u32 (Monitor.windowWidth mon - mw - 2 * bw)),
     s32 (u32 (h - 2 * bw))).

Definition tile_advance (a : Z * Z * Z) (mon : Monitor.t)
    (cl cl1 : Client.t) : Z * Z * Z :=
  let '(i, my, ty) := a in
  if i <? u32 (Monitor.nMaster mon) then
    (u32 (i + 1),
     (if u32 (my + HEIGHT cl1) <? u32 (Monitor.windowHeight mon)
      then u32 (my + HEIGHT cl1) else my),
     ty)
  else
    (u32 (i + 1), my,
     (if u32 (ty + HEIGHT cl1) <? u32 (Monitor.windowHeight mon)
      then u32 (ty + HEIGHT cl1) else ty)).

(** One turn of the loop variables of [dwindle]. *)
Definition dwindle_step (n : Z) (a : Z * Z * Z * Z * Z) (mon : Monitor.t)
    (cl : Client.t) : Z * Z * Z * Z * Z :=
  let '(i, nx, ny, nw, nh) := a in
  let bw := Client.borderWidth cl in
  let odd := negb (i mod 2 =? 0) in
  if (odd && (u32 (2 * bw) <? nh / 2))
     || (negb odd && (u32 (2 * bw) <? nw / 2))
  then
    let '(nw, nh) :=
      if i <? u32 (n - 1)
      then (if odd then (nw, nh / 2) else (nw / 2, nh))
      else (nw, nh) in
    let '(nx, ny) :=
      if i mod 4 =? 0 then (nx, u32 (ny + nh))
      else if i mod 4 =? 1 then (u32 (nx + nw), ny)
      else if i mod 4 =? 2 then (nx, u32 (ny + nh))
      else if i mod 4 =? 3 then (u32 (nx + nw), ny)
      else (nx, ny) in
    let '(nw, ny) :=
      if i =? 0
      then ((if negb (n =? 1) then scale_width mon else nw),
            u32 (Monitor.windowY mon))
      else if i =? 1
      then (u32 (Monitor.windowWidth mon - nw), ny)
      else (nw, ny) in
    (u32 (i + 1), nx, ny, nw, nh)
  else (i, nx, ny, nw, nh).

Definition dwindle_propose (n : Z) (a : Z * Z * Z * Z * Z) (mon : Monitor.t)
    (cl : Client.t) : Z * Z * Z * Z :=
  let '(_, nx, ny, nw, nh) := dwindle_step n a mon cl in
  let bw := Client.borderWidth cl in
  (s32 nx, s32 ny, s32 (u32 (nw - 2 * bw)), s32 (u32 (nh - 2 * bw))).

Definition dwindle_advance (n : Z) (a : Z * Z * Z * Z * Z) (mon : Monitor.t)
    (cl cl1 : Client.t) : Z * Z * Z * Z * Z :=
  dwindle_step n a mon cl.

Definition monocle_propose (a : unit) (mon : Monitor.t) (cl : Client.t)
    : Z * Z * Z * Z :=
  (Monitor.windowX mon, Monitor.windowY mon,
   Monitor.windowWidth mon - 2 * Client.borderWidth cl,
   Monitor.windowHeight mon - 2 * Client.borderWidth cl).

Definition monocle_advance (a : unit) (mon : Monitor.t) (cl cl1 : Client.t)
    : unit := a.

(** The test of the loop of [dwindle]: whether a split is made for the
    client at turn [i], the rectangle that remains being [nw] by [nh]. *)
Definition dwindle_splits (i nw nh : Z) (cl : Client.t) : bool :=
  let bw := Client.borderWidth cl in
  let odd := negb (i mod 2 =? 0) in
  (odd && (u32 (2 * bw) <? nh / 2)) || (negb odd && (u32 (2 * bw) <? nw / 2)).

(** Both sides of the rectangle that remains in the loop of [dwindle]
    exceed two borders of width [bw]; at turn 1 its width is that of the
    master area. *)
Definition roomy (mon : Monitor.t) (n bw : Z) (a : Z * Z * Z * Z * Z)
    : Prop :=
  let '(i, _, _, nw, nh) := a in
  0 ≤ i ∧ 2 * bw < nw < 2 ^ 31 ∧ 2 * bw < nh < 2 ^ 31
  ∧ (i = 1 → 2 ≤ n → nw = scale_width mon).

(** The rectangles [dwindle] passes to [resize], client by client, from
    the loop variables [a] on. *)
Fixpoint dwindle_offers (n : Z) (mon : Monitor.t) (a : Z * Z * Z * Z * Z)
    (recs : list (nat * Client.t)) : list (Z * Z * Z * Z) :=
  match recs with
  | [] => []
  | (c, cl) :: rest =>
      dwindle_propose n a mon cl
      :: dwindle_offers n mon (dwindle_step n a mon cl) rest
  end.

(** The records of the listed clients. *)
Definition records (s : State) (l : list cid) : list (nat * Client.t) :=
  omap (fun c => (c,.) <$> cs s !! c) l.

(** The tiled clients of monitor [m], in client-list order, when its
    client list [lc] is given. *)
Definition tiled_clients (s : State) (lc : list cid) : list cid :=
  List.filter (is_tiled s) lc.

(** The width of the master column in [tile] for [n] tiled clients. *)
Definition tile_mw (mon : Monitor.t) (n : Z) : Z :=
  if n >? u32 (Monitor.nMaster mon)
  then (if Monitor.nMaster mon =? 0 then 0 else scale_width mon)
  else u32 (Monitor.windowWidth mon).

(** The clients [tile] leaves behind, for the client list [lc] of the
    monitor. *)
Definition tile_placed (cfg : Config.t) (s : State) (mon : Monitor.t)
    (lc : list cid) : list (nat * Client.t) :=
  let lt := tiled_clients s lc in
  let n := Z.of_nat (length lt) in
  place_list cfg (tile_propose n (tile_mw mon n)) tile_advance s mon
    (bool_decide (length lt = 1%nat)) (0, 0, 0) (records s lt).

(** The same for [dwindle] and [monocle]. *)
Definition dwindle_placed (cfg : Config.t) (s : State) (mon : Monitor.t)
    (lc : list cid) : list (nat * Client.t) :=
  let lt := tiled_clients s lc in
  let n := Z.of_nat (length lt) in
  place_list cfg (dwindle_propose n) (dwindle_advance n) s mon
    (bool_decide (length lt = 1%nat))
    (0, u32 (Monitor.windowX mon), 0, u32 (Monitor.windowWidth mon),
     u32 (Monitor.windowHeight mon))
    (records s lt).

Definition monocle_placed (cfg : Config.t) (s : State) (mon : Monitor.t)
    (lc : list cid) : list (nat * Client.t) :=
  let lt := tiled_clients s lc in
  place_list cfg monocle_propose monocle_advance s mon
    (bool_decide (length lt = 1%nat)) tt (records s lt).

(** The visible clients of a list, floating ones included. *)
Definition visible_clients (s : State) (lc : list cid) : list cid :=
  List.filter (is_visible s) lc.

(** ** Size hints *)

(** [applysizehints] as a map on rectangles: the four values it leaves in
    its pointer arguments. *)
Definition adjust (cfg : Config.t) (s : State) (c : Client.t) (m : Monitor.t)
    (interact : bool) (g : Z * Z * Z * Z) : Z * Z * Z * Z :=
  let '(x, y, w, h) := g in
  (applysizehints cfg s c m x y w h interact).1.

(** The client gave no aspect limits, no resize increments, no maximum
    size. *)
Definition no_aspect (c : Client.t) : Prop :=
  F32.ltb F32.zero (Client.mina c) && F32.ltb F32.zero (Client.maxa c) = false.

Definition no_increments (c : Client.t) : Prop :=
  Client.incw c = 0 ∧ Client.inch c = 0.

Definition no_max (c : Client.t) : Prop :=
  Client.maxw c = 0 ∧ Client.maxh c = 0.

(** The client gave no size hints at all: the fields are as
    [updatesizehints] leaves them for an empty hint structure. *)
Definition hint_free (c : Client.t) : Prop :=
  no_aspect c ∧ no_increments c ∧ no_max c
  ∧ Client.basew c = 0 ∧ Client.baseh c = 0
  ∧ Client.minw c = 0 ∧ Client.minh c = 0.

(** A floating client that asks for widths in steps of ten, at most 25. *)
Definition stepped_client : Client.t :=
  Client.set_maxw 25
    (Client.set_incw 10 (plain_client 0 1 true 0 0 50 50 1 None None)).

(** A monitor with no clients. *)
Definition empty_monitor : State :=
  one_monitor layout_tile 1 None None None [].

(** What [applysizehints] does along one axis to a client without limits:
    the size is raised to one pixel, to the bar height and, when hints are
    respected, to the client's minimum; [adj_pos] is the position, for
    the size [sz] already raised to one pixel, the extent [cw] of the
    client as stored, and either the screen ([interact]) or the window area
    from [lo] of extent [ext]. *)
Definition adj_size (bh : Z) (hints : bool) (minv v : Z) : Z :=
  let v := MAX 1 v in
  let v := if v <? bh then bh else v in
  if hints then MAX v minv else v.

Definition adj_pos (interact : bool) (scr lo ext cw bw sz v : Z) : Z :=
  if interact then
    let v := if v >? scr then scr - cw else v in
    if v + sz + 2 * bw <? 0 then 0 else v
  else
    let v := if v >=? lo + ext then lo + ext - cw else v in
    if v + sz + 2 * bw <=? lo then lo else v.

(** Whether [applysizehints] looks at the hints of the client. *)
Definition respects_hints (cfg : Config.t) (c : Client.t) (m : Monitor.t)
    : bool :=
  Config.resizeHints cfg || Client.isFloating c
  || bool_decide (arrange_fn (curlayout m) = None).

(** The record of the monitor of [empty_monitor]. *)
Definition bare_monitor : Monitor.t :=
  plain_monitor layout_tile 1 1000 800 None None None None.

(** Whether [resizeclient] drops the border of the client and grows the
    window by it: [sole] tells whether the client is the only tiled one of
    its monitor [m]. *)
Definition grows (sole : bool) (c : Client.t) (m : Monitor.t) : bool :=
  (sole || bool_decide (arrange_fn (curlayout m) = Some Monocle))
  && negb (Client.isFullscreen c) && negb (Client.isFloating c)
  && negb (bool_decide (arrange_fn (curlayout m) = None)).

(** Whether the rectangle differs from the geometry of the client. *)
Definition differs (c : Client.t) (g : Z * Z * Z * Z) : bool :=
  let '(x, y, w, h) := g in
  negb ((x =? Client.x c) && (y =? Client.y c)
        && (w =? Client.w c) && (h =? Client.h c)).

(** The geometry of a client as a rectangle. *)
Definition geometry (c : Client.t) : Z * Z * Z * Z :=
  (Client.x c, Client.y c, Client.w c, Client.h c).

(** The window area leaves room for the client: what is left inside its
    border is at least one pixel and at least the bar height. *)
Definition has_room (s : State) (ext : Z) (c : Client.t) : Prop :=
  0 ≤ Client.borderWidth c
  ∧ Z.max 1 (barHeight s) ≤ ext - 2 * Client.borderWidth c.

(** A monitor in the monocle layout with a tiled client and a floating
    client, both shown. *)
Definition tiled_and_floating : State :=
  one_monitor layout_monocle 1 (Some 1%nat) (Some 1%nat) (Some 1%nat)
    [ (1%nat, plain_client 0 1 false 0 0 498 798 1 (Some 2%nat) (Some 2%nat));
      (2%nat, plain_client 0 1 true 10 10 200 200 1 None None) ].

(** Two tiled clients under the dwindle layout; the second one asks for
    heights in steps of 1000. *)
Definition tall_steps : State :=
  one_monitor layout_dwindle 1 (Some 1%nat) (Some 1%nat) (Some 1%nat)
    [ (1%nat, plain_client 0 1 false 0 0 498 798 1 (Some 2%nat) (Some 2%nat));
      (2%nat, Client.set_inch 1000
                (plain_client 0 1 false 500 0 498 798 1 None None)) ].

(** A client with a border of 400 pixels. *)
Definition thick_client : Client.t :=
  plain_client 0 1 false 0 0 498 798 400 None None.

(** A monitor of 1000 by 800 pixels whose master area takes three
    quarters of the width. *)
Definition wide_master_monitor : Monitor.t :=
  Monitor.mk (symbol layout_dwindle) (F32.div (F32.of_int 3) (F32.of_int 4))
             1 0 0 0 0 1000 800 0 0 1000 800 0 0 (1, 1) false false
             None None None None 0 (layout_dwindle, layout_dwindle).

(** A client with the given border width. *)
Definition bordered_client (bw : Z) : Client.t :=
  plain_client 0 1 false 0 0 498 798 bw None None.

(** Two tiled clients without hints under the dwindle layout. *)
Definition two_dwindling : State :=
  one_monitor layout_dwindle 1 (Some 1%nat) (Some 1%nat) (Some 1%nat)
    [ (1%nat, plain_client 0 1 false 0 0 498 798 1 (Some 2%nat) (Some 2%nat));
      (2%nat, plain_client 0 1 false 500 0 498 798 1 None None) ].

#[global] Instance no_aspect_dec c : Decision (no_aspect c).
Proof. unfold no_aspect. apply _. Defined.

#[global] Instance no_increments_dec c : Decision (no_increments c).
Proof. unfold no_increments. apply _. Defined.

#[global] Instance no_max_dec c : Decision (no_max c).
Proof. unfold no_max. apply _. Defined.

#[global] Instance hint_free_dec c : Decision (hint_free c).
Proof. unfold hint_free. apply _. Defined.

#[global] Instance has_room_dec s ext c : Decision (has_room s ext c).
Proof. unfold has_room. apply _. Defined.

(** ** Columns of the tile layout *)

(** The clients follow one another from [y0] down to [yend], borders
    included, with no gap and no overlap. *)
Fixpoint abutting (y0 yend : Z) (col : list Client.t) : Prop :=
  match col with
  | [] => y0 = yend
  | c :: rest => Client.y c = y0 ∧ abutting (y0 + HEIGHT c) yend rest
  end.

Definition total_height (col : list Client.t) : Z :=
  foldr (fun c a => HEIGHT c + a) 0 col.

(** The records of the clients [col] in the state. *)
Definition column_of (s : State) (col : list cid) (recs : list Client.t)
    : Prop :=
  Forall2 (fun c cl => cs s !! c = Some cl) col recs.

(** The column is empty, or its clients fill the window area of the monitor
    from top to bottom. *)
Definition fills_height (s : State) (mon : Monitor.t) (col : list cid)
    : Prop :=
  col = [] ∨
  ∃ recs, column_of s col recs
    ∧ abutting (Monitor.windowY mon)
               (Monitor.windowY mon + Monitor.windowHeight mon) recs
    ∧ total_height recs = Monitor.windowHeight mon.

(** The clients follow one another from [y0] down to [yend], each as high,
    borders included, as the height that remains below its top edge
    divided by the number of clients that remain, the division rounding
    down. *)
Fixpoint slotted (y0 yend : Z) (col : list Client.t) : Prop :=
  match col with
  | [] => y0 = yend
  | c :: rest =>
      Client.y c = y0
      ∧ HEIGHT c = Z.quot (yend - y0) (Z.of_nat (length col))
      ∧ slotted (y0 + HEIGHT c) yend rest
  end.

(** No client is higher, borders included, than the one after it. *)
Fixpoint heights_ascend (col : list Client.t) : Prop :=
  match col with
  | [] => True
  | c :: rest =>
      match rest with
      | [] => True
      | c' :: _ => HEIGHT c ≤ HEIGHT c'
      end ∧ heights_ascend rest
  end.

(** The column is empty, or each of its clients has the height that
    remains of the window area divided by the number of clients that
    remain, so that what the divisions leave over goes to the clients
    further down. *)
Definition shares_height (s : State) (mon : Monitor.t) (col : list cid)
    : Prop :=
  col = [] ∨
  ∃ recs, column_of s col recs
    ∧ slotted (Monitor.windowY mon)
              (Monitor.windowY mon + Monitor.windowHeight mon) recs
    ∧ heights_ascend recs.

(** The loop variables after the clients of the list have been placed. *)
Fixpoint place_end {A : Type} (cfg : Config.t)
    (propose : A -> Monitor.t -> Client.t -> Z * Z * Z * Z)
    (advance : A -> Monitor.t -> Client.t -> Client.t -> A)
    (s : State) (mon : Monitor.t) (sole : bool) (a : A)
    (recs : list (nat * Client.t)) : A :=
  match recs with
  | [] => a
  | (c, cl) :: rest =>
      let '(x, y, w, h) := propose a mon cl in
      let cl' := resized cfg s sole cl mon x y w h false in
      place_end cfg propose advance s mon sole (advance a mon cl cl') rest
  end.

(** Two tiled clients; the master will not be taller than 100 pixels. *)
Definition capped_master : State :=
  one_monitor layout_tile 1 (Some 1%nat) (Some 1%nat) (Some 1%nat)
    [ (1%nat, Client.set_maxh 100
                (plain_client 0 1 false 0 0 10 10 1 (Some 2%nat) (Some 2%nat)));
      (2%nat, plain_client 0 1 false 0 0 10 10 1 None None) ].

(** Four tiled clients, three of them masters. *)
Definition three_masters : State :=
  one_monitor layout_tile 3 (Some 1%nat) (Some 1%nat) (Some 1%nat)
    [ (1%nat, plain_client 0 1 false 0 0 10 10 1 (Some 2%nat) (Some 2%nat));
      (2%nat, plain_client 0 1 false 0 0 10 10 1 (Some 3%nat) (Some 3%nat));
      (3%nat, plain_client 0 1 false 0 0 10 10 1 (Some 4%nat) (Some 4%nat));
      (4%nat, plain_client 0 1 false 0 0 10 10 1 None None) ].

(** One tiled client. *)
Definition one_tiled : State :=
  one_monitor layout_tile 1 (Some 1%nat) (Some 1%nat) (Some 1%nat)
    [ (1%nat, plain_client 0 1 false 0 0 10 10 1 None None) ].

(** ** Lists in order *)

(** The fields of a client that the walks over the two lists read. *)
Definition links (c : Client.t) : option cid * option cid * mid :=
  (Client.next c, Client.selectionNext c, Client.monitor c).

(** The client list and the focus stack of monitor [m] end within the
    budget, and their members reside on [m]. *)
Definition lists_ok (fuel : nat) (s : State) (m : mid) : Prop :=
  ∃ mon lc ls,
    ms s !! m = Some mon
    ∧ client_list fuel s m = Some lc ∧ on_monitor s m lc
    ∧ stack_list fuel s m = Some ls ∧ on_monitor s m ls
    ∧ Z.of_nat (length lc) < 2 ^ 31.

(** The client [resizeclient] leaves behind: [sole] tells whether the
    client is the only tiled one of its monitor [mon]. *)
Definition reshaped (sole : bool) (cl : Client.t) (mon : Monitor.t)
    (x y w h : Z) : Client.t :=
  let cl1 :=
    Client.set_h h (Client.set_oldh (Client.h cl)
   (Client.set_w w (Client.set_oldw (Client.w cl)
   (Client.set_y y (Client.set_oldy (Client.y cl)
   (Client.set_x x (Client.set_oldx (Client.x cl) cl))))))) in
  if grows sole cl mon
  then Client.set_h (h + Client.borderWidth cl * 2)
         (Client.set_w (w + Client.borderWidth cl * 2) cl1)
  else cl1.

(** Whether [showhide] resizes the client, which resides on [mon]. *)
Definition shown_resize (mon : Monitor.t) (cl : Client.t) : bool :=
  ISVISIBLEONTAG cl (curtags mon)
  && (bool_decide (arrange_fn (curlayout mon) = None) || Client.isFloating cl)
  && negb (Client.isFullscreen cl).

(** The clients [showhide] leaves behind on the stack [ls] of [mon]. *)
Definition showhide_placed (cfg : Config.t) (s : State) (mon : Monitor.t)
    (ls : list cid) : list (nat * Client.t) :=
  omap (fun c =>
          cl ← cs s !! c;
          if shown_resize mon cl
          then Some (c, resized cfg s false cl mon (Client.x cl) (Client.y cl)
                          (Client.w cl) (Client.h cl) false)
          else None) ls.

(** The geometry of the client passes [applysizehints] as it is. *)
Definition settled (cfg : Config.t) (s : State) (mon : Monitor.t)
    (cl : Client.t) : Prop :=
  adjust cfg s cl mon false (geometry cl) = geometry cl.

#[global] Instance settled_dec cfg s mon cl : Decision (settled cfg s mon cl).
Proof. unfold settled. apply _. Defined.

(** ** Dragging *)

(** The candidate position of the [MotionNotify] case of [movemouse],
    snapped to the edges of the window area of the selected monitor. *)
Definition snap_candidate (cfg : Config.t) (smon : Monitor.t) (cl : Client.t)
    (ocx ocy x y evx evy : Z) : Z * Z :=
  let snap := Config.snap cfg in
  let wx := Monitor.windowX smon in
  let wy := Monitor.windowY smon in
  let nx := ocx + (evx - x) in
  let ny := ocy + (evy - y) in
  let nx := if u32 (Z.abs (wx - nx)) <? snap then wx
            else if u32 (Z.abs ((wx + Monitor.windowWidth smon) - (nx + WIDTH cl)))
                    <? snap
            then wx + Monitor.windowWidth smon - WIDTH cl
            else nx in
  let ny := if u32 (Z.abs (wy - ny)) <? snap then wy
            else if u32 (Z.abs ((wy + Monitor.windowHeight smon) - (ny + HEIGHT cl)))
                    <? snap
            then wy + Monitor.windowHeight smon - HEIGHT cl
            else ny in
  (nx, ny).

(** The test [abs(nx - c->x) > snap || abs(ny - c->y) > snap]. *)
Definition exceeds_snap (cfg : Config.t) (cl : Client.t) (p : Z * Z) : bool :=
  (Config.snap cfg <? u32 (Z.abs (p.1 - Client.x cl)))
  || (Config.snap cfg <? u32 (Z.abs (p.2 - Client.y cl))).

(** A window that asks to be mapped. *)
Definition new_window : NewWindow :=
  mkNewWindow 77 0 0 300 200 1 "term" None None None false false None None.

(** ** Fullscreen *)

(** The geometry saved in the client by the last [resizeclient]. *)
Definition old_geometry (c : Client.t) : Z * Z * Z * Z :=
  (Client.oldx c, Client.oldy c, Client.oldw c, Client.oldh c).


(** A client on a tag that is not shown, tiled, in the monocle layout. *)
Definition hidden_tiled : State :=
  one_monitor layout_monocle 1 (Some 1%nat) None (Some 1%nat)
    [ (1%nat, plain_client 0 2 false 0 0 1000 800 1 None None) ].









(** ** Focus *)

(** Three clients on one monitor: the client list runs 2, 1, 3 and the
    focus stack 3, 1, 2; client 3, the selected one, carries the tags
    given. *)
Definition three_stacked (tags3 : Z) : State :=
  one_monitor layout_tile 1 (Some 2%nat) (Some 3%nat) (Some 3%nat)
    [ (1%nat, plain_client 0 1 false 0 0 498 798 1 (Some 3%nat) (Some 2%nat));
      (2%nat, plain_client 0 1 false 0 0 498 798 1 (Some 1%nat) None);
      (3%nat, plain_client 0 tags3 false 0 0 498 798 1 None (Some 1%nat)) ].

(** ** Monitors that go away *)

(** Two monitors side by side with one tiled client each; [sel0] is the
    selected client of the first monitor. *)
Definition two_monitors (sel0 : option cid) : State :=
  mkState
    (list_to_map
       [ (1%nat, plain_client 0 1 false 0 0 1000 800 1 None None);
         (2%nat, plain_client 1 1 false 1000 0 1000 800 1 None None) ])
    (list_to_map
       [ (0%nat, plain_monitor layout_tile 1 1000 800
                   (Some 1%nat) sel0 (Some 1%nat) (Some 1%nat));
         (1%nat, Monitor.set_num 1
                   (Monitor.set_windowX 1000
                      (Monitor.set_monitorX 1000
                         (plain_monitor layout_tile 1 1000 800
                            (Some 2%nat) (Some 2%nat) (Some 2%nat) None)))) ])
    (Some 0%nat) (Some 0%nat) 2000 800 20.

(** The screens Xinerama reports once the second monitor is unplugged. *)
Definition one_screen : list ScreenInfo := [mkScreenInfo 0 0 1000 800].

(** ** More tactics *)

(** Case analysis on the comparisons of the goal, innermost first. *)
Ltac no_if t :=
  lazymatch t with
  | context [if _ then _ else _] => fail
  | _ => idtac
  end.

Ltac zbool :=
  repeat match goal with
  | |- context [?a <? ?b] =>
      no_if a; no_if b; destruct (Z.ltb_spec a b)
  | |- context [?a <=? ?b] =>
      no_if a; no_if b; destruct (Z.leb_spec a b)
  | |- context [?a >? ?b] =>
      no_if a; no_if b; rewrite (Z.gtb_ltb a b); destruct (Z.ltb_spec b a)
  | |- context [?a >=? ?b] =>
      no_if a; no_if b; rewrite (Z.geb_leb a b); destruct (Z.leb_spec b a)
  | |- context [?a =? ?b] =>
      no_if a; no_if b; destruct (Z.eqb_spec a b)
  end.

(** * More of the program: the commands bound to keys *)

(** [for (m = monitors; m->next; m = m->next);] from a monitor that is not
    null: the last monitor of the list. *)
Fixpoint last_from (k : nat) (s : State) (m : mid) : option mid :=
  mon ← ms s !! m;
  match Monitor.next mon with
  | None => Some m
  | Some m1 =>
      match k with
      | O => None
      | S k' => last_from k' s m1
      end
  end.

(** [for (m = monitors; m->next != selectedMonitor; m = m->next);] from a
    monitor that is not null: the loop reads [m->next] without a test of
    [m], so it faults when it runs off the list. *)
Fixpoint before_from (k : nat) (s : State) (target : option mid) (m : mid)
    : option mid :=
  mon ← ms s !! m;
  if decide (Monitor.next mon = target) then Some m
  else
    m1 ← Monitor.next mon;
    match k with
    | O => None
    | S k' => before_from k' s target m1
    end.

(** [dirtomon]: the monitor after the selected one for a positive
    direction, the one before it otherwise, around the ends of the list. *)
Definition dirtomon (fuel : nat) (dir : Z) (s : State) : option (option mid) :=
  if 0 <? dir then
    sm ← selectedMonitor s;
    smon ← ms s !! sm;
    Some (match Monitor.next smon with
          | Some m => Some m
          | None => monitors s
          end)
  else if decide (selectedMonitor s = monitors s) then
    m ← monitors s; Some <$> last_from fuel s m
  else
    m ← monitors s; Some <$> before_from fuel s (selectedMonitor s) m.

(** The monitors met from [m] on along [next], when the walk ends within
    [k] steps. *)
Fixpoint monitor_list (k : nat) (h : gmap nat Monitor.t) (m : option mid)
    : option (list mid) :=
  match m with
  | None => Some []
  | Some m0 =>
      match k with
      | O => None
      | S k' => mon ← h !! m0; (m0 ::.) <$> monitor_list k' h (Monitor.next mon)
      end
  end.

(** The monitor with its [showBar] field written. *)
Definition set_showBar (v : bool) (c : Monitor.t) : Monitor.t :=
  Monitor.mk (Monitor.layoutSymbol c) (Monitor.masterFactor c)
    (Monitor.nMaster c) (Monitor.num c) (Monitor.by_ c) (Monitor.monitorX c)
    (Monitor.monitorY c) (Monitor.monitorWidth c) (Monitor.monitorHeight c)
    (Monitor.windowX c) (Monitor.windowY c) (Monitor.windowWidth c)
    (Monitor.windowHeight c) (Monitor.selectedTags c)
    (Monitor.selectedLayout c) (Monitor.tagSet c) v (Monitor.topBar c)
    (Monitor.clients c) (Monitor.selectedClient c) (Monitor.stack c)
    (Monitor.next c) (Monitor.barWindow c) (Monitor.layouts c).

Section Commands.

Variable cfg : Config.t.

(** [focusmon]; [unfocus] only talks to the server, after it has read
    [selectedMonitor->selectedClient]. *)
Definition focusmon (fuel : nat) (dir : Z) (s : State) : option State :=
  first ← monitors s;
  fmon ← ms s !! first;
  match Monitor.next fmon with
  | None => Some s
  | Some _ =>
      m ← dirtomon fuel dir s;
      if decide (m = selectedMonitor s) then Some s
      else
        sm ← selectedMonitor s;
        _ ← ms s !! sm;
        focus fuel None (set_selectedMonitor m s)
  end.

(** [tagmon]. *)
Definition tagmon (fuel : nat) (dir : Z) (s : State) : option State :=
  sm ← selectedMonitor s;
  smon ← ms s !! sm;
  match Monitor.selectedClient smon with
  | None => Some s
  | Some sc =>
      first ← monitors s;
      fmon ← ms s !! first;
      match Monitor.next fmon with
      | None => Some s
      | Some _ =>
          m ← dirtomon fuel dir s;
          m0 ← m;
          sendmon cfg fuel sc m0 s
      end
  end.

(** [incnmaster]: [arg->i] is an [int]. *)
Definition incnmaster (fuel : nat) (i : Z) (s : State) : option State :=
  sm ← selectedMonitor s;
  s1 ← updm sm (fun m => Monitor.set_nMaster (MAX (Monitor.nMaster m + i) 0) m) s;
  arrange cfg fuel (selectedMonitor s1) s1.

(** [setlayout]: [v] is [arg->v], none when [arg] or [arg->v] is null. The
    layouts of the table differ from one another, so that comparing two of
    them is comparing their addresses. [drawBar] only draws. *)
Definition setlayout (fuel : nat) (v : option Layout) (s : State)
    : option State :=
  sm ← selectedMonitor s;
  smon ← ms s !! sm;
  let m1 :=
    if bool_decide (v = Some (curlayout smon)) then smon
    else Monitor.set_selectedLayout
           (Z.lxor (Monitor.selectedLayout smon) 1) smon in
  let m2 :=
    match v with
    | Some l =>
        Monitor.set_layouts
          (set_slot (Monitor.selectedLayout m1) l (Monitor.layouts m1)) m1
    | None => m1
    end in
  let m3 := Monitor.set_layoutSymbol (symbol (curlayout m2)) m2 in
  let s1 := set_ms (<[sm := m3]> (ms s)) s in
  match Monitor.selectedClient m3 with
  | Some _ => arrange cfg fuel (Some sm) s1
  | None => Some s1
  end.

(** [toggleBar]; the bar window is moved on the server. *)
Definition toggleBar (fuel : nat) (s : State) : option State :=
  sm ← selectedMonitor s;
  s1 ← updm sm (fun m => set_showBar (negb (Monitor.showBar m)) m) s;
  s2 ← updatebarpos sm s1;
  arrange cfg fuel (Some sm) s2.

(** [pop]. *)
Definition pop (fuel : nat) (c : cid) (s : State) : option State :=
  s1 ← detach fuel c s;
  s2 ← attach c s1;
  s3 ← focus fuel (Some c) s2;
  cl ← cs s3 !! c;
  arrange cfg fuel (Some (Client.monitor cl)) s3.

(** [zoom]: [pop] reads through its argument at once, so a null client
    that reaches it is a fault. *)
Definition zoom (fuel : nat) (s : State) : option State :=
  sm ← selectedMonitor s;
  smon ← ms s !! sm;
  floating ← (if bool_decide (arrange_fn (curlayout smon) = None)
              then Some true
              else match Monitor.selectedClient smon with
                   | Some sc => Client.isFloating <$> cs s !! sc
                   | None => Some false
                   end);
  if floating : bool
  then Some s
  else
    first ← nexttiled fuel s (Monitor.clients smon);
    if decide (Monitor.selectedClient smon = first) then
      match Monitor.selectedClient smon with
      | None => Some s
      | Some c =>
          cl ← cs s !! c;
          nxt ← nexttiled fuel s (Client.next cl);
          match nxt with
          | None => Some s
          | Some c1 => pop fuel c1 s
          end
      end
    else
      c ← Monitor.selectedClient smon;
      pop fuel c s.

(** [maprequest]: [attrs] is none when [XGetWindowAttributes] fails;
    [override_redirect] is the flag of the attributes. *)
Definition maprequest (fuel : nat) (attrs : option NewWindow)
    (override_redirect : bool) (s : State) : option State :=
  match attrs with
  | None => Some s
  | Some nw =>
      if override_redirect then Some s
      else
        r ← windowToClient fuel s (nw_window nw);
        match r with
        | Some _ => Some s
        | None => manage cfg fuel nw s
        end
  end.

(** [destroynotify]. *)
Definition destroynotify (fuel : nat) (window : Z) (s : State) : option State :=
  r ← windowToClient fuel s window;
  match r with
  | Some c => unmanage cfg fuel c s
  | None => Some s
  end.

(** [unmapnotify]: [setclientstate] writes a property of the window. *)
Definition unmapnotify (fuel : nat) (window : Z) (send_event : bool)
    (s : State) : option State :=
  r ← windowToClient fuel s window;
  match r with
  | Some c => if send_event then Some s else unmanage cfg fuel c s
  | None => Some s
  end.

(** What [clientmessage] reads of the event: the message type, and for a
    state message the action [data.l[0]] and whether one of the two
    properties named is the fullscreen atom. *)
Inductive ClientMessage : Type :=
  | MsgState (action : Z) (names_fullscreen : bool)
  | MsgActiveWindow
  | MsgOther.

(** [clientmessage]. *)
Definition clientmessage (fuel : nat) (window : Z) (msg : ClientMessage)
    (s : State) : option State :=
  r ← windowToClient fuel s window;
  match r with
  | None => Some s
  | Some c =>
      match msg with
      | MsgState action names_fullscreen =>
          if names_fullscreen then
            cl ← cs s !! c;
            setfullscreen cfg fuel c
              ((action =? 1 (* _NET_WM_STATE_ADD *))
               || ((action =? 2 (* _NET_WM_STATE_TOGGLE *))
                   && negb (Client.isFullscreen cl))) s
          else Some s
      | MsgActiveWindow =>
          sm ← selectedMonitor s;
          smon ← ms s !! sm;
          cl ← cs s !! c;
          if negb (bool_decide (Some c = Monitor.selectedClient smon))
             && negb (Client.isUrgent cl)
          then seturgent c true s
          else Some s
      | MsgOther => Some s
      end
  end.

End Commands.

(** ** Vocabulary for the commands *)

(** The client lists of the monitors [lm], one after the other. *)
Fixpoint client_lists (k : nat) (s : State) (lm : list mid)
    : option (list cid) :=
  match lm with
  | [] => Some []
  | m :: r => l ← client_list k s m; (l ++.) <$> client_lists k s r
  end.

(** Whether the pointer leads to a client of the window. *)
Definition has_window (s : State) (window : Z) (c : cid) : bool :=
  match cs s !! c with
  | Some cl => Client.window cl =? window
  | None => false
  end.

(** The area that the rectangle shares with the window area of the
    monitor behind the pointer. *)
Definition overlap (s : State) (x y w h : Z) (m : mid) : Z :=
  match ms s !! m with
  | Some mon => INTERSECT x y w h mon
  | None => 0
  end.

(** Whether the size hints of the client are applied on monitor [m]. *)
Definition hints_apply (cfg : Config.t) (c : Client.t) (m : Monitor.t) : bool :=
  Config.resizeHints cfg || Client.isFloating c
  || bool_decide (arrange_fn (curlayout m) = None).

(** A client of the window given, without size hints, on tag 1. *)
Definition window_client (window : Z) (mon : mid) (x : Z)
    (next selectionNext : option cid) : Client.t :=
  Client.mk "" F32.zero F32.zero x 0 498 798 x 0 498 798 0 0 0 0 0 0 0 0 1 1 1
            false false false false false false next selectionNext mon window.

(** Two windows on the first of two monitors and one on the second. *)
Definition three_windows : State :=
  mkState
    (list_to_map
       [ (1%nat, window_client 11 0 0 (Some 3%nat) None);
         (2%nat, window_client 12 1 1000 None None);
         (3%nat, window_client 13 0 500 None (Some 1%nat)) ])
    (list_to_map
       [ (0%nat, plain_monitor layout_tile 1 1000 800
                   (Some 1%nat) (Some 3%nat) (Some 3%nat) (Some 1%nat));
         (1%nat, Monitor.set_num 1
                   (Monitor.set_windowX 1000
                      (Monitor.set_monitorX 1000
                         (plain_monitor layout_tile 1 1000 800
                            (Some 2%nat) (Some 2%nat) (Some 2%nat) None)))) ])
    (Some 0%nat) (Some 0%nat) 2000 800 20.

(** ** Lists kept *)

(** The client lists are the same in both states: the links along [next]
    and the heads [clients]. *)
Definition keeps_client_lists (s s' : State) : Prop :=
  (∀ c, Client.next <$> cs s' !! c = Client.next <$> cs s !! c)
  ∧ (∀ m, Monitor.clients <$> ms s' !! m = Monitor.clients <$> ms s !! m).

(** The focus stacks and the selections are the same in both states. *)
Definition keeps_stacks (s s' : State) : Prop :=
  (∀ c, Client.selectionNext <$> cs s' !! c
        = Client.selectionNext <$> cs s !! c)
  ∧ (∀ m, (λ mon, (Monitor.stack mon, Monitor.selectedClient mon))
            <$> ms s' !! m
          = (λ mon, (Monitor.stack mon, Monitor.selectedClient mon))
              <$> ms s !! m)
  ∧ selectedMonitor s' = selectedMonitor s.

(** What [focus] does once it has settled on the client [c], [sm] being
    the selected monitor. *)
Definition focus_client (fuel : nat) (sm : mid) (c : cid) (s : State)
    : option State :=
  s1 ← (cl ← cs s !! c;
        let s := if decide (Client.monitor cl = sm) then s
                 else set_selectedMonitor (Some (Client.monitor cl)) s in
        s ← (if Client.isUrgent cl then seturgent c false s else Some s);
        s ← detachStack fuel c s;
        attachStack c s);
  sm1 ← selectedMonitor s1;
  updm sm1 (Monitor.set_selectedClient (Some c)) s1.

(** The client [focus] settles on: the one handed to it when that is
    visible, and the first visible one of the focus stack [l] of the
    selected monitor otherwise. *)
Definition focus_choice (s : State) (target : option cid) (l : list cid)
    : option cid :=
  match target with
  | Some t => if is_visible s t then Some t else find (is_visible s) l
  | None => find (is_visible s) l
  end.

(** Whether the pointer leads to a client that [nexttagged] stops at for
    the tags given: one that is not floating and shares a tag. *)
Definition is_tagged (s : State) (ctags : Z) (w : cid) : bool :=
  match cs s !! w with
  | Some wc => negb (Client.isFloating wc || negb (ISVISIBLEONTAG wc ctags))
  | None => false
  end.

(** The member of the client list [lcm] that [attachBelow] puts the client
    [cl] after, none standing for the head of the list: the selected
    client of the monitor when that is not floating, and otherwise the
    first client that [nexttagged] stops at. *)
Definition attach_anchor (s : State) (mon : Monitor.t) (cl : Client.t)
    (lcm : list cid) : option cid :=
  match Monitor.selectedClient mon with
  | Some sc =>
      match cs s !! sc with
      | Some scl =>
          if Client.isFloating scl
          then find (is_tagged s (Client.tags cl)) lcm
          else Some sc
      | None => None
      end
  | None => find (is_tagged s (Client.tags cl)) lcm
  end.

(** ** One record written *)

(** The second state differs from the first in the record of client [c]
    at most. *)
Definition differs_at (c : cid) (s s' : State) : Prop :=
  (∀ c', c' ≠ c → cs s' !! c' = cs s !! c')
  ∧ ms s' = ms s
  ∧ monitors s' = monitors s
  ∧ selectedMonitor s' = selectedMonitor s
  ∧ screenWidth s' = screenWidth s
  ∧ screenHeight s' = screenHeight s
  ∧ barHeight s' = barHeight s.

(** What [manage] keeps of a client record from the point where the
    border is set: where the client resides, its tags, its window and
    its border. *)
Definition managed_as (cfg : Config.t) (m : mid) (tags window : Z)
    (cl : Client.t) : Prop :=
  Client.monitor cl = m ∧ Client.tags cl = tags
  ∧ Client.window cl = window
  ∧ Client.borderWidth cl = Config.borderpx cfg.

(** The name [updatetitle] leaves in a client. *)
Definition title_of (nw : NewWindow) : string :=
  if String.eqb (nw_title nw) "" then "broken"%string else nw_title nw.

(** ** Walks over every client *)

(** The monitor list ends, and so does the client list of every monitor;
    the clients met are allocated and reside on allocated monitors. *)
Definition walks_end (fuel : nat) (s : State) : Prop :=
  ∃ lmn,
    monitor_list fuel (ms s) (monitors s) = Some lmn
    ∧ Forall (λ m, ∃ l, client_list fuel s m = Some l
                     ∧ Forall (λ c, ∃ cl, cs s !! c = Some cl
                                      ∧ is_Some (ms s !! Client.monitor cl)) l)
        lmn.

(** ** Fullscreen clients *)



(** * Verification *)

(** ** Frames: what an operation leaves alone *)

Lemma geom_frame_refl s : geom_frame s s.
Proof. by repeat split. Qed.

Lemma geom_frame_trans s1 s2 s3 :
  geom_frame s1 s2 → geom_frame s2 s3 → geom_frame s1 s3.
Proof.
  intros (?&?&?&?&?&?&?) (?&?&?&?&?&?&?).
  repeat split; congruence.
Qed.

Lemma link_frame_refl s : link_frame s s.
Proof. by repeat split. Qed.

Lemma link_frame_trans s1 s2 s3 :
  link_frame s1 s2 → link_frame s2 s3 → link_frame s1 s3.
Proof.
  intros (?&?&?&?&?&?) (?&?&?&?&?&?).
  repeat split; congruence.
Qed.

Lemma erase_links_geom_client c :
  Client.erase_links (Client.erase_geom c) = Client.erase_links c.
Proof. reflexivity. Qed.

Lemma erase_links_symbol_monitor m :
  Monitor.erase_links (Monitor.erase_symbol m) = Monitor.erase_links m.
Proof. reflexivity. Qed.

Lemma geom_frame_link_frame s s' : geom_frame s s' → link_frame s s'.
Proof.
  intros (Hc&Hm&?&?&?&?&?). repeat split; try done.
  - rewrite <- (map_fmap_ext (Client.erase_links ∘ Client.erase_geom)
                 Client.erase_links (cs s')), <- (map_fmap_ext
                 (Client.erase_links ∘ Client.erase_geom)
                 Client.erase_links (cs s)) by done.
    by rewrite !map_fmap_compose, Hc.
  - rewrite <- (map_fmap_ext (Monitor.erase_links ∘ Monitor.erase_symbol)
                 Monitor.erase_links (ms s')), <- (map_fmap_ext
                 (Monitor.erase_links ∘ Monitor.erase_symbol)
                 Monitor.erase_links (ms s)) by done.
    by rewrite !map_fmap_compose, Hm.
Qed.

(** Updating one client or one monitor inside a frame. *)
Lemma fmap_insert_same {A B : Type} (g : A → B) (h : gmap nat A) k a b :
  h !! k = Some a → g b = g a → g <$> <[k := b]> h = g <$> h.
Proof.
  intros Hk Hg. rewrite fmap_insert, Hg.
  apply insert_id. by rewrite lookup_fmap, Hk.
Qed.

Lemma updc_geom_frame c f s s' :
  (∀ cl, Client.erase_geom (f cl) = Client.erase_geom cl) →
  updc c f s = Some s' → geom_frame s s'.
Proof.
  unfold updc. intros Hf H.
  destruct (cs s !! c) as [cl|] eqn:Hc; simplify_eq/=.
  repeat split; try done. simpl. by eapply fmap_insert_same.
Qed.

Lemma updm_geom_frame m f s s' :
  (∀ mon, Monitor.erase_symbol (f mon) = Monitor.erase_symbol mon) →
  updm m f s = Some s' → geom_frame s s'.
Proof.
  unfold updm. intros Hf H.
  destruct (ms s !! m) as [mon|] eqn:Hc; simplify_eq/=.
  repeat split; try done. simpl. by eapply fmap_insert_same.
Qed.

Lemma updc_link_frame c f s s' :
  (∀ cl, Client.erase_links (f cl) = Client.erase_links cl) →
  updc c f s = Some s' → link_frame s s'.
Proof.
  unfold updc. intros Hf H.
  destruct (cs s !! c) as [cl|] eqn:Hc; simplify_eq/=.
  repeat split; try done. simpl. by eapply fmap_insert_same.
Qed.

Lemma updm_link_frame m f s s' :
  (∀ mon, Monitor.erase_links (f mon) = Monitor.erase_links mon) →
  updm m f s = Some s' → link_frame s s'.
Proof.
  unfold updm. intros Hf H.
  destruct (ms s !! m) as [mon|] eqn:Hc; simplify_eq/=.
  repeat split; try done. simpl. by eapply fmap_insert_same.
Qed.

Lemma set_selectedMonitor_link_frame v s : link_frame s (set_selectedMonitor v s).
Proof. by repeat split. Qed.

(** Reading through a frame. *)
Lemma geom_frame_client s s' c cl' :
  geom_frame s s' → cs s' !! c = Some cl' →
  ∃ cl, cs s !! c = Some cl ∧ Client.erase_geom cl' = Client.erase_geom cl.
Proof.
  intros (Hc&_) H.
  assert (Hl : (Client.erase_geom <$> cs s') !! c = (Client.erase_geom <$> cs s) !! c)
    by by rewrite Hc.
  rewrite !lookup_fmap, H in Hl. simpl in Hl.
  destruct (cs s !! c) as [cl|]; [|done]. apply (inj Some) in Hl. eauto.
Qed.

Lemma geom_frame_client_inv s s' c cl :
  geom_frame s s' → cs s !! c = Some cl →
  ∃ cl', cs s' !! c = Some cl' ∧ Client.erase_geom cl' = Client.erase_geom cl.
Proof.
  intros (Hc&_) H.
  assert (Hl : (Client.erase_geom <$> cs s') !! c = (Client.erase_geom <$> cs s) !! c)
    by by rewrite Hc.
  rewrite !lookup_fmap, H in Hl. simpl in Hl.
  destruct (cs s' !! c) as [cl'|]; [|done]. apply (inj Some) in Hl. eauto.
Qed.

Lemma geom_frame_monitor s s' m mon' :
  geom_frame s s' → ms s' !! m = Some mon' →
  ∃ mon, ms s !! m = Some mon ∧ Monitor.erase_symbol mon' = Monitor.erase_symbol mon.
Proof.
  intros (_&Hm&_) H.
  assert (Hl : (Monitor.erase_symbol <$> ms s') !! m = (Monitor.erase_symbol <$> ms s) !! m)
    by by rewrite Hm.
  rewrite !lookup_fmap, H in Hl. simpl in Hl.
  destruct (ms s !! m) as [mon|]; [|done]. apply (inj Some) in Hl. eauto.
Qed.

Lemma geom_frame_monitor_inv s s' m mon :
  geom_frame s s' → ms s !! m = Some mon →
  ∃ mon', ms s' !! m = Some mon' ∧ Monitor.erase_symbol mon' = Monitor.erase_symbol mon.
Proof.
  intros (_&Hm&_) H.
  assert (Hl : (Monitor.erase_symbol <$> ms s') !! m = (Monitor.erase_symbol <$> ms s) !! m)
    by by rewrite Hm.
  rewrite !lookup_fmap, H in Hl. simpl in Hl.
  destruct (ms s' !! m) as [mon'|]; [|done]. apply (inj Some) in Hl. eauto.
Qed.

Lemma link_frame_client s s' c cl' :
  link_frame s s' → cs s' !! c = Some cl' →
  ∃ cl, cs s !! c = Some cl ∧ Client.erase_links cl' = Client.erase_links cl.
Proof.
  intros (Hc&_) H.
  assert (Hl : (Client.erase_links <$> cs s') !! c = (Client.erase_links <$> cs s) !! c)
    by by rewrite Hc.
  rewrite !lookup_fmap, H in Hl. simpl in Hl.
  destruct (cs s !! c) as [cl|]; [|done]. apply (inj Some) in Hl. eauto.
Qed.

Lemma link_frame_monitor s s' m mon' :
  link_frame s s' → ms s' !! m = Some mon' →
  ∃ mon, ms s !! m = Some mon ∧ Monitor.erase_links mon' = Monitor.erase_links mon.
Proof.
  intros (_&Hm&_) H.
  assert (Hl : (Monitor.erase_links <$> ms s') !! m = (Monitor.erase_links <$> ms s) !! m)
    by by rewrite Hm.
  rewrite !lookup_fmap, H in Hl. simpl in Hl.
  destruct (ms s !! m) as [mon|]; [|done]. apply (inj Some) in Hl. eauto.
Qed.

Section Frames.

Variable cfg : Config.t.

Lemma resizeclient_geom_frame fuel c x y w h s s' :
  resizeclient fuel c x y w h s = Some s' → geom_frame s s'.
Proof.
  unfold resizeclient. intros H. binds H.
  eapply geom_frame_trans; [eapply updc_geom_frame; [|eassumption]; done|].
  case_match.
  - eapply updc_geom_frame; [|eassumption]; done.
  - simplify_eq. apply geom_frame_refl.
Qed.

Lemma resize_geom_frame fuel c x y w h i s s' :
  resize cfg fuel c x y w h i s = Some s' → geom_frame s s'.
Proof.
  unfold resize. intros H. binds H.
  destruct (applysizehints _ _ _ _ _ _ _ _) as [[[[??]?]?] []].
  - by eapply resizeclient_geom_frame.
  - simplify_eq. apply geom_frame_refl.
Qed.

Lemma tile_loop_geom_frame fuel k m n mw i my ty c s s' :
  tile_loop cfg fuel k m n mw i my ty c s = Some s' → geom_frame s s'.
Proof.
  revert i my ty c s.
  induction k as [|k IH]; intros i my ty [c|] s H; simpl in H;
    simplify_eq; try apply geom_frame_refl.
  binds H. case_match; binds H;
    (eapply geom_frame_trans; [by eapply resize_geom_frame|by eapply IH]).
Qed.

Lemma tile_geom_frame fuel m s s' :
  tile cfg fuel m s = Some s' → geom_frame s s'.
Proof.
  unfold tile. intros H. binds H. case_match.
  - simplify_eq. apply geom_frame_refl.
  - by eapply tile_loop_geom_frame.
Qed.

Lemma dwindle_loop_geom_frame fuel k m n i nx ny nw nh c s s' :
  dwindle_loop cfg fuel k m n i nx ny nw nh c s = Some s' → geom_frame s s'.
Proof.
  revert i nx ny nw nh c s.
  induction k as [|k IH]; intros i nx ny nw nh [c|] s H; simpl in H;
    simplify_eq; try apply geom_frame_refl.
  binds H.
  repeat case_match.
  all: binds H.
  all: eapply geom_frame_trans; [by eapply resize_geom_frame|by eapply IH].
Qed.

Lemma dwindle_geom_frame fuel m s s' :
  dwindle cfg fuel m s = Some s' → geom_frame s s'.
Proof.
  unfold dwindle. intros H. binds H. case_match.
  - simplify_eq. apply geom_frame_refl.
  - by eapply dwindle_loop_geom_frame.
Qed.

Lemma monocle_loop_geom_frame fuel k m c s s' :
  monocle_loop cfg fuel k m c s = Some s' → geom_frame s s'.
Proof.
  revert c s.
  induction k as [|k IH]; intros [c|] s H; simpl in H;
    simplify_eq; try apply geom_frame_refl.
  binds H.
  eapply geom_frame_trans; [by eapply resize_geom_frame|by eapply IH].
Qed.

Lemma monocle_geom_frame fuel m s s' :
  monocle cfg fuel m s = Some s' → geom_frame s s'.
Proof.
  unfold monocle. intros H. binds H.
  eapply geom_frame_trans; [|by eapply monocle_loop_geom_frame].
  case_match.
  - eapply updm_geom_frame; [|eassumption]; done.
  - simplify_eq. apply geom_frame_refl.
Qed.

Lemma run_arrange_geom_frame f fuel m s s' :
  run_arrange cfg f fuel m s = Some s' → geom_frame s s'.
Proof.
  destruct f; simpl;
    eauto using dwindle_geom_frame, tile_geom_frame, monocle_geom_frame.
Qed.

Lemma showhide_geom_frame fuel k c s s' :
  showhide cfg fuel k c s = Some s' → geom_frame s s'.
Proof.
  revert c s.
  induction k as [|k IH]; intros [c|] s H; simpl in H;
    simplify_eq; try apply geom_frame_refl.
  binds H. case_match; [|by eapply IH].
  binds H. eapply geom_frame_trans; [|by eapply IH].
  case_match.
  - by eapply resize_geom_frame.
  - simplify_eq. apply geom_frame_refl.
Qed.

Lemma showhide_mon_geom_frame fuel m s s' :
  showhide_mon cfg fuel m s = Some s' → geom_frame s s'.
Proof.
  unfold showhide_mon. intros H. binds H. by eapply showhide_geom_frame.
Qed.

Lemma arrangemon_geom_frame fuel m s s' :
  arrangemon cfg fuel m s = Some s' → geom_frame s s'.
Proof.
  unfold arrangemon. intros H. binds H.
  eapply geom_frame_trans; [eapply updm_geom_frame; [|eassumption]; done|].
  case_match.
  - by eapply run_arrange_geom_frame.
  - simplify_eq. apply geom_frame_refl.
Qed.

Lemma for_monitors_geom_frame k body m s s' :
  (∀ m s s', body m s = Some s' → geom_frame s s') →
  for_monitors k body m s = Some s' → geom_frame s s'.
Proof.
  intros Hbody. revert m s.
  induction k as [|k IH]; intros [m|] s H; simpl in H;
    simplify_eq; try apply geom_frame_refl.
  binds H. eapply geom_frame_trans; [by eapply Hbody|by eapply IH].
Qed.

Lemma arrange_geom_frame fuel m s s' :
  arrange cfg fuel m s = Some s' → geom_frame s s'.
Proof.
  unfold arrange. intros H. destruct m as [m|]; simpl in H; bind_inv H.
  - eapply geom_frame_trans;
      [by eapply showhide_mon_geom_frame|by eapply arrangemon_geom_frame].
  - eapply geom_frame_trans;
      (eapply for_monitors_geom_frame; [|eassumption]);
      eauto using showhide_mon_geom_frame, arrangemon_geom_frame.
Qed.

End Frames.

(** * Walks that leave the store alone *)

Lemma for_monitors_same k body m s s' :
  (∀ m0 s0 s1, body m0 s0 = Some s1 → s1 = s0) →
  for_monitors k body m s = Some s' → s' = s.
Proof.
  intros Hb. revert m s. induction k as [|k IH]; intros [m|] s H;
    simpl in H; try by simplify_eq.
  apply bind_Some in H as (s1 & H1 & H).
  apply bind_Some in H as (mon & _ & H).
  apply Hb in H1. subst s1. by eapply IH.
Qed.

Lemma drawBar_same fuel m s s' : drawBar fuel m s = Some s' → s' = s.
Proof.
  unfold drawBar. intros H.
  apply bind_Some in H as (mon & _ & H).
  apply bind_Some in H as (r & _ & H). by simplify_eq.
Qed.

Lemma drawBars_same fuel s s' : drawBars fuel s = Some s' → s' = s.
Proof. apply for_monitors_same. apply drawBar_same. Qed.

Lemma updateclientlist_same fuel s s' :
  updateclientlist fuel s = Some s' → s' = s.
Proof.
  apply for_monitors_same. intros m0 s0 s1 H.
  apply bind_Some in H as (mon & _ & H).
  apply bind_Some in H as (r & _ & H). by simplify_eq.
Qed.

(** [fresh_id] is above every allocated pointer. *)
Lemma fresh_id_bound {A} (h : gmap nat A) k :
  is_Some (h !! k) → (k < fresh_id h)%nat.
Proof.
  unfold fresh_id.
  apply (map_fold_weak_ind
           (λ r (m : gmap nat A), is_Some (m !! k) → (k < S r)%nat)).
  - intros [? H]. by rewrite lookup_empty in H.
  - intros i x m r Hi IH Hk.
    destruct (decide (k = i)) as [->|Hne]; [lia|].
    rewrite lookup_insert_ne in Hk by done. specialize (IH Hk). lia.
Qed.

Lemma fresh_id_fresh {A} (h : gmap nat A) : h !! fresh_id h = None.
Proof.
  destruct (h !! fresh_id h) eqn:E; [|done].
  pose proof (fresh_id_bound h (fresh_id h) ltac:(eauto)). lia.
Qed.


Section LinkFrames.

Variable cfg : Config.t.

Lemma attach_link_frame c s s' : attach c s = Some s' → link_frame s s'.
Proof.
  unfold attach. intros H. binds H.
  eapply link_frame_trans.
  - eapply updc_link_frame; [|eassumption]; done.
  - eapply updm_link_frame; [|eassumption]; done.
Qed.

Lemma attachStack_link_frame c s s' : attachStack c s = Some s' → link_frame s s'.
Proof.
  unfold attachStack. intros H. binds H.
  eapply link_frame_trans.
  - eapply updc_link_frame; [|eassumption]; done.
  - eapply updm_link_frame; [|eassumption]; done.
Qed.

Lemma attachBelow_link_frame fuel c s s' :
  attachBelow fuel c s = Some s' → link_frame s s'.
Proof.
  unfold attachBelow. intros H. do 3 bind_inv H.
  destruct x1.
  - bind_inv H. destruct x1 as [a|].
    + binds H. eapply link_frame_trans;
        (eapply updc_link_frame; [|eassumption]; done).
    + by eapply attach_link_frame.
  - binds H. eapply link_frame_trans;
      (eapply updc_link_frame; [|eassumption]; done).
Qed.

Lemma write_next_link_frame l v s s' :
  write_next l v s = Some s' → link_frame s s'.
Proof.
  destruct l; simpl; intros H.
  - eapply updm_link_frame; [|eassumption]; done.
  - eapply updc_link_frame; [|eassumption]; done.
Qed.

Lemma write_selectionNext_link_frame l v s s' :
  write_selectionNext l v s = Some s' → link_frame s s'.
Proof.
  destruct l; simpl; intros H.
  - eapply updm_link_frame; [|eassumption]; done.
  - eapply updc_link_frame; [|eassumption]; done.
Qed.

Lemma detach_link_frame fuel c s s' : detach fuel c s = Some s' → link_frame s s'.
Proof.
  unfold detach. intros H. binds H. by eapply write_next_link_frame.
Qed.

Lemma detachStack_link_frame fuel c s s' :
  detachStack fuel c s = Some s' → link_frame s s'.
Proof.
  unfold detachStack. intros H. do 4 bind_inv H.
  eapply link_frame_trans; [by eapply write_selectionNext_link_frame|].
  case_match.
  - bind_inv H. eapply updm_link_frame; [|eassumption]; done.
  - simplify_eq. apply link_frame_refl.
Qed.

Lemma seturgent_link_frame c u s s' : seturgent c u s = Some s' → link_frame s s'.
Proof. intros H. eapply updc_link_frame; [|eassumption]; done. Qed.

Lemma focus_links_link_frame fuel client s s' :
  focus_links fuel client s = Some s' → link_frame s s'.
Proof.
  unfold focus_links. intros H. do 5 bind_inv H. bind_inv H.
  eapply link_frame_trans; [|eapply updm_link_frame; [|eassumption]; done].
  destruct x2 as [c|]; [|simplify_eq; apply link_frame_refl].
  do 3 bind_inv Hx3.
  assert (link_frame s (if decide (Client.monitor x2 = x) then s
            else set_selectedMonitor (Some (Client.monitor x2)) s)) as H0.
  { case_decide; [apply link_frame_refl|apply set_selectedMonitor_link_frame]. }
  eapply link_frame_trans; [exact H0|].
  eapply link_frame_trans; [|by eapply attachStack_link_frame].
  eapply link_frame_trans; [|by eapply detachStack_link_frame].
  destruct (Client.isUrgent x2).
  - by eapply seturgent_link_frame.
  - simplify_eq. apply link_frame_refl.
Qed.

Lemma focus_link_frame fuel client s s' :
  focus fuel client s = Some s' → link_frame s s'.
Proof.
  unfold focus. intros H. bind_inv H. apply drawBars_same in H. subst s'.
  by eapply focus_links_link_frame.
Qed.

Lemma arrange_link_frame fuel m s s' :
  arrange cfg fuel m s = Some s' → link_frame s s'.
Proof. intros H. eapply geom_frame_link_frame, arrange_geom_frame, H. Qed.

Lemma resize_link_frame fuel c x y w h i s s' :
  resize cfg fuel c x y w h i s = Some s' → link_frame s s'.
Proof. intros H. eapply geom_frame_link_frame, resize_geom_frame, H. Qed.

End LinkFrames.

(** ** Tags and tag sets *)

Lemma tags_frame_refl ex s : tags_frame_but ex s s.
Proof. split; eauto. Qed.

Lemma tags_frame_trans ex s1 s2 s3 :
  tags_frame_but ex s1 s2 → tags_frame_but ex s2 s3 → tags_frame_but ex s1 s3.
Proof.
  intros [Hc1 Hm1] [Hc2 Hm2]. split.
  - intros c cl3 Hex H3. destruct (Hc2 _ _ Hex H3) as (cl2 & H2 & E2).
    destruct (Hc1 _ _ Hex H2) as (cl1 & H1 & E1). exists cl1. split; congruence.
  - intros m mon3 H3. destruct (Hm2 _ _ H3) as (mon2 & H2 & E2).
    destruct (Hm1 _ _ H2) as (mon1 & H1 & E1).
    exists mon1. repeat split; congruence.
Qed.

Lemma tags_frame_weaken ex s s' : tags_frame s s' → tags_frame_but ex s s'.
Proof. intros [Hc Hm]. split; [|done]. intros c cl' _ H. by apply Hc. Qed.

Lemma link_frame_tags_frame ex s s' : link_frame s s' → tags_frame_but ex s s'.
Proof.
  intros F. apply tags_frame_weaken. split.
  - intros c cl' _ H. destruct (link_frame_client _ _ _ _ F H) as (cl & ? & E).
    exists cl. split; [done|]. exact (f_equal Client.tags E).
  - intros m mon' H. destruct (link_frame_monitor _ _ _ _ F H) as (mon & ? & E).
    exists mon. split; [done|]. exact (f_equal Monitor.tagSet E).
Qed.

Lemma updc_tags_frame ex c f s s' :
  (∀ cl, Client.tags (f cl) = Client.tags cl) →
  updc c f s = Some s' → tags_frame_but ex s s'.
Proof.
  unfold updc. intros Hf H. bind_inv H. simplify_eq.
  apply tags_frame_weaken. split; simpl; [|eauto].
  intros c' cl' _ H. destruct (decide (c = c')) as [->|].
  - rewrite lookup_insert_eq in H. simplify_eq. eauto.
  - rewrite lookup_insert_ne in H by done. eauto.
Qed.

(** The exempt client may be written at will. *)
Lemma updc_tags_frame_but c f s s' :
  updc c f s = Some s' → tags_frame_but (Some c) s s'.
Proof.
  unfold updc. intros H. bind_inv H. simplify_eq. split; simpl; [|eauto].
  intros c' cl' Hne H. rewrite lookup_insert_ne in H by congruence. eauto.
Qed.

Lemma updm_tags_frame ex m f s s' :
  (∀ mon, Monitor.tagSet (f mon) = Monitor.tagSet mon) →
  updm m f s = Some s' → tags_frame_but ex s s'.
Proof.
  unfold updm. intros Hf H. bind_inv H. simplify_eq.
  apply tags_frame_weaken. split; simpl; [eauto|].
  intros m' mon' H. destruct (decide (m = m')) as [->|].
  - rewrite lookup_insert_eq in H. simplify_eq. eauto.
  - rewrite lookup_insert_ne in H by done. eauto.
Qed.

Lemma free_client_tags_frame ex c s :
  tags_frame_but ex s (set_cs (delete c (cs s)) s).
Proof.
  split; simpl; [|eauto]. intros c' cl' _ H.
  apply lookup_delete_Some in H as [_ H]. eauto.
Qed.

Lemma free_monitor_tags_frame ex m s :
  tags_frame_but ex s (set_ms (delete m (ms s)) s).
Proof.
  split; simpl; [eauto|]. intros m' mon' H.
  apply lookup_delete_Some in H as [_ H]. eauto.
Qed.

Lemma set_monitors_tags_frame ex v s : tags_frame_but ex s (set_monitors v s).
Proof. split; simpl; eauto. Qed.

Lemma set_selectedMonitor_tags_frame ex v s :
  tags_frame_but ex s (set_selectedMonitor v s).
Proof. split; simpl; eauto. Qed.

Lemma tags_inv_frame cfg s s' : tags_frame s s' → tags_inv cfg s → tags_inv cfg s'.
Proof.
  intros [Fc Fm] [Ic Im]. split.
  - intros c cl' H. destruct (Fc _ _ ltac:(done) H) as (cl & H0 & ->). eauto.
  - intros m mon' H. destruct (Fm _ _ H) as (mon & H0 & ->). eauto.
Qed.

Lemma tags_inv_weaken cfg c s : tags_inv cfg s → tags_inv_but cfg c s.
Proof. intros [Ic Im]. split; [|done]. intros c' cl _ H. eauto. Qed.

(** When the exempt client ends with tags in order, so does the state. *)
Lemma tags_inv_but_frame cfg c s s' :
  tags_frame_but (Some c) s s' → tags_inv_but cfg c s →
  (∀ cl', cs s' !! c = Some cl' → tags_ok cfg (Client.tags cl')) →
  tags_inv cfg s'.
Proof.
  intros [Fc Fm] [Ic Im] Hc. split.
  - intros c' cl' H. destruct (decide (c' = c)) as [->|Hne]; [eauto|].
    destruct (Fc c' cl' ltac:(congruence) H) as (cl & H0 & ->). eauto.
  - intros m mon' H. destruct (Fm _ _ H) as (mon & H0 & ->). eauto.
Qed.

Lemma tags_inv_frame_but cfg c s s' :
  tags_frame_but (Some c) s s' → tags_inv cfg s →
  (∀ cl', cs s' !! c = Some cl' → tags_ok cfg (Client.tags cl')) →
  tags_inv cfg s'.
Proof. intros F I. eapply tags_inv_but_frame; [exact F|by apply tags_inv_weaken]. Qed.

Lemma tags_ok_curtags cfg mon :
  tags_ok cfg (fst (Monitor.tagSet mon)) → tags_ok cfg (snd (Monitor.tagSet mon)) →
  tags_ok cfg (curtags mon).
Proof. unfold curtags, slot. by case_match. Qed.

Lemma TAGMASK_land_idemp cfg a :
  Z.land (Z.land a (TAGMASK cfg)) (TAGMASK cfg) = Z.land a (TAGMASK cfg).
Proof. by rewrite <- Z.land_assoc, Z.land_diag. Qed.

Lemma tags_ok_masked cfg a :
  Z.land a (TAGMASK cfg) ≠ 0 → tags_ok cfg (Z.land a (TAGMASK cfg)).
Proof. split; [done|apply TAGMASK_land_idemp]. Qed.

Lemma tags_ok_toggled cfg t a :
  Z.land t (TAGMASK cfg) = t →
  Z.lxor t (Z.land a (TAGMASK cfg)) ≠ 0 →
  tags_ok cfg (Z.lxor t (Z.land a (TAGMASK cfg))).
Proof.
  intros Ht Hn. split; [done|].
  apply Z.bits_inj'. intros n Hn0.
  rewrite Z.land_spec, !Z.lxor_spec, Z.land_spec.
  assert (Z.testbit t n = Z.testbit t n && Z.testbit (TAGMASK cfg) n) as Ht'.
  { by rewrite <- Z.land_spec, Ht. }
  destruct (Z.testbit t n), (Z.testbit a n), (Z.testbit (TAGMASK cfg) n); done.
Qed.

Lemma tags_ok_one cfg : 1 ≤ Config.ntags cfg → tags_ok cfg 1.
Proof.
  intros Hn. split; [done|]. unfold TAGMASK.
  apply Z.bits_inj'. intros n Hn0.
  rewrite Z.land_spec. destruct (decide (n = 0)) as [->|].
  - rewrite Z.shiftl_1_l, !Z.bit0_odd, Z.sub_1_r, Z.odd_pred.
    rewrite Z.even_pow by lia. done.
  - replace (Z.testbit 1 n) with false; [done|].
    symmetry. apply (Z.bits_above_log2 1 n); simpl; lia.
Qed.

Section TagFrames.

Variable cfg : Config.t.

#[local] Hint Resolve tags_frame_refl : tagsdb.

Lemma focus_tags_frame ex fuel c s s' :
  focus fuel c s = Some s' → tags_frame_but ex s s'.
Proof. intros H. eapply link_frame_tags_frame, focus_link_frame, H. Qed.

Lemma arrange_tags_frame ex fuel m s s' :
  arrange cfg fuel m s = Some s' → tags_frame_but ex s s'.
Proof. intros H. eapply link_frame_tags_frame, arrange_link_frame, H. Qed.

Lemma resize_tags_frame ex fuel c x y w h i s s' :
  resize cfg fuel c x y w h i s = Some s' → tags_frame_but ex s s'.
Proof. intros H. eapply link_frame_tags_frame, resize_link_frame, H. Qed.

Lemma resizeclient_tags_frame ex fuel c x y w h s s' :
  resizeclient fuel c x y w h s = Some s' → tags_frame_but ex s s'.
Proof.
  intros H.
  eapply link_frame_tags_frame, geom_frame_link_frame, resizeclient_geom_frame, H.
Qed.

Lemma togglefloating_tags_frame ex fuel s s' :
  togglefloating cfg fuel s = Some s' → tags_frame_but ex s s'.
Proof.
  unfold togglefloating. intros H. do 2 bind_inv H.
  destruct (Monitor.selectedClient x0) as [sc|]; [|simplify_eq; auto with tagsdb].
  bind_inv H. case_match; [simplify_eq; auto with tagsdb|].
  do 3 bind_inv H.
  eapply tags_frame_trans; [eapply updc_tags_frame; [|eassumption]; done|].
  eapply tags_frame_trans; [|by eapply arrange_tags_frame].
  case_match; [by eapply resize_tags_frame|simplify_eq; auto with tagsdb].
Qed.

Lemma setfullscreen_tags_frame ex fuel c b s s' :
  setfullscreen cfg fuel c b s = Some s' → tags_frame_but ex s s'.
Proof.
  unfold setfullscreen. intros H. bind_inv H.
  repeat case_match; [| |simplify_eq; auto with tagsdb].
  - do 2 bind_inv H.
    eapply tags_frame_trans; [eapply updc_tags_frame; [|eassumption]; done|].
    by eapply resizeclient_tags_frame.
  - do 4 bind_inv H.
    eapply tags_frame_trans; [eapply updc_tags_frame; [|eassumption]; done|].
    eapply tags_frame_trans; [by eapply resizeclient_tags_frame|].
    by eapply arrange_tags_frame.
Qed.

Lemma movemouse_motion_tags_frame ex fuel c ocx ocy x y evx evy s s' :
  movemouse_motion cfg fuel c ocx ocy x y evx evy s = Some s' →
  tags_frame_but ex s s'.
Proof.
  unfold movemouse_motion. intros H. do 7 bind_inv H.
  eapply tags_frame_trans with x3.
  - match type of Hx2 with (if ?b then _ else _) = _ => destruct b end.
    + by eapply togglefloating_tags_frame.
    + simplify_eq. auto with tagsdb.
  - match type of H with (if ?b then _ else _) = _ => destruct b end.
    + by eapply resize_tags_frame.
    + simplify_eq. auto with tagsdb.
Qed.

Lemma unmanage_tags_frame ex fuel c s s' :
  unmanage cfg fuel c s = Some s' → tags_frame_but ex s s'.
Proof.
  unfold unmanage. intros H. do 5 bind_inv H.
  apply updateclientlist_same in Hx3. subst x3.
  eapply tags_frame_trans;
    [eapply link_frame_tags_frame, detach_link_frame; eassumption|].
  eapply tags_frame_trans;
    [eapply link_frame_tags_frame, detachStack_link_frame; eassumption|].
  eapply tags_frame_trans; [apply free_client_tags_frame|].
  eapply tags_frame_trans; [by eapply focus_tags_frame|].
  by eapply arrange_tags_frame.
Qed.

(** The four operations that write tags or tag sets. *)
Lemma tag_tags_inv fuel ui s s' :
  tags_inv cfg s → tag cfg fuel ui s = Some s' → tags_inv cfg s'.
Proof.
  unfold tag. intros I H. do 2 bind_inv H.
  destruct (Monitor.selectedClient x0) as [sc|]; [|by simplify_eq].
  destruct (Z.land ui (TAGMASK cfg) =? 0) eqn:E; [by simplify_eq|].
  do 2 bind_inv H. apply Z.eqb_neq in E.
  eapply tags_inv_frame;
    [eapply tags_frame_trans;
       [by eapply focus_tags_frame|by eapply arrange_tags_frame]|].
  eapply tags_inv_frame_but; [by eapply updc_tags_frame_but|done|].
  intros cl' Hcl'. unfold updc in Hx1. bind_inv Hx1. simplify_eq.
  simpl in Hcl'. rewrite lookup_insert_eq in Hcl'. simplify_eq.
  by apply tags_ok_masked.
Qed.

Lemma toggletag_tags_inv fuel ui s s' :
  tags_inv cfg s → toggletag cfg fuel ui s = Some s' → tags_inv cfg s'.
Proof.
  unfold toggletag. intros I H. do 2 bind_inv H.
  destruct (Monitor.selectedClient x0) as [sc|]; [|by simplify_eq].
  bind_inv H.
  destruct (Z.lxor _ _ =? 0) eqn:E; [by simplify_eq|].
  do 2 bind_inv H. apply Z.eqb_neq in E.
  eapply tags_inv_frame;
    [eapply tags_frame_trans;
       [by eapply focus_tags_frame|by eapply arrange_tags_frame]|].
  eapply tags_inv_frame_but; [by eapply updc_tags_frame_but|done|].
  intros cl' Hcl'. unfold updc in Hx2. bind_inv Hx2. simplify_eq.
  simpl in Hcl'. rewrite lookup_insert_eq in Hcl'. simplify_eq. simpl.
  apply tags_ok_toggled; [|done]. by apply (proj1 I sc).
Qed.

Lemma tagsets_ok_updm m f s s' :
  (∀ mon, tags_ok cfg (fst (Monitor.tagSet mon)) →
          tags_ok cfg (snd (Monitor.tagSet mon)) →
          tags_ok cfg (fst (Monitor.tagSet (f mon)))
          ∧ tags_ok cfg (snd (Monitor.tagSet (f mon)))) →
  tags_inv cfg s → updm m f s = Some s' → tags_inv cfg s'.
Proof.
  unfold updm. intros Hf [Ic Im] H. bind_inv H. simplify_eq. split; [done|].
  intros m' mon' H. simpl in H. destruct (decide (m = m')) as [->|].
  - rewrite lookup_insert_eq in H. simplify_eq. destruct (Im _ _ Hx). eauto.
  - rewrite lookup_insert_ne in H by done. eauto.
Qed.

Lemma tags_ok_set_slot i v p :
  tags_ok cfg v → tags_ok cfg (fst p) → tags_ok cfg (snd p) →
  tags_ok cfg (fst (set_slot i v p)) ∧ tags_ok cfg (snd (set_slot i v p)).
Proof. unfold set_slot. by case_match. Qed.

Lemma toggleview_tags_inv fuel ui s s' :
  tags_inv cfg s → toggleview cfg fuel ui s = Some s' → tags_inv cfg s'.
Proof.
  unfold toggleview. intros I H. do 2 bind_inv H.
  destruct (Z.lxor _ _ =? 0) eqn:E; [by simplify_eq|].
  do 2 bind_inv H. apply Z.eqb_neq in E.
  eapply tags_inv_frame;
    [eapply tags_frame_trans;
       [by eapply focus_tags_frame|by eapply arrange_tags_frame]|].
  assert (tags_ok cfg (curtags x0)) as [_ Hcur].
  { destruct (proj2 I _ _ Hx0). by apply tags_ok_curtags. }
  unfold updm in Hx1. bind_inv Hx1. simplify_eq.
  destruct I as [Ic Im]. split; [done|].
  intros m' mon' Hm'. simpl in Hm'. destruct (decide (x = m')) as [->|].
  - rewrite lookup_insert_eq in Hm'. simplify_eq. simpl.
    destruct (Im _ _ Hx0).
    apply tags_ok_set_slot; [|done..]. by apply tags_ok_toggled.
  - rewrite lookup_insert_ne in Hm' by done. eauto.
Qed.

Lemma view_tags_inv fuel ui s s' :
  tags_inv cfg s → view cfg fuel ui s = Some s' → tags_inv cfg s'.
Proof.
  unfold view. intros I H. do 2 bind_inv H.
  case_match; [by simplify_eq|].
  do 3 bind_inv H.
  eapply tags_inv_frame;
    [eapply tags_frame_trans;
       [by eapply focus_tags_frame|by eapply arrange_tags_frame]|].
  assert (tags_inv cfg x1) as I1.
  { eapply tags_inv_frame; [|exact I].
    eapply updm_tags_frame; [|eassumption]. done. }
  destruct (Z.land ui (TAGMASK cfg) =? 0) eqn:E; [by simplify_eq|].
  apply Z.eqb_neq in E.
  eapply tagsets_ok_updm; [|exact I1|exact Hx2].
  intros mon ??. simpl. apply tags_ok_set_slot; [|done..].
  by apply tags_ok_masked.
Qed.

Lemma attach_tags_frame ex c s s' : attach c s = Some s' → tags_frame_but ex s s'.
Proof. intros H. eapply link_frame_tags_frame, attach_link_frame, H. Qed.

Lemma attachBelow_tags_frame ex fuel c s s' :
  attachBelow fuel c s = Some s' → tags_frame_but ex s s'.
Proof. intros H. eapply link_frame_tags_frame, attachBelow_link_frame, H. Qed.

Lemma attachStack_tags_frame ex c s s' :
  attachStack c s = Some s' → tags_frame_but ex s s'.
Proof. intros H. eapply link_frame_tags_frame, attachStack_link_frame, H. Qed.

Lemma detach_tags_frame ex fuel c s s' :
  detach fuel c s = Some s' → tags_frame_but ex s s'.
Proof. intros H. eapply link_frame_tags_frame, detach_link_frame, H. Qed.

Lemma detachStack_tags_frame ex fuel c s s' :
  detachStack fuel c s = Some s' → tags_frame_but ex s s'.
Proof. intros H. eapply link_frame_tags_frame, detachStack_link_frame, H. Qed.

Lemma sendmon_tags_inv fuel c m s s' :
  tags_inv cfg s → sendmon cfg fuel c m s = Some s' → tags_inv cfg s'.
Proof.
  unfold sendmon. intros I H. bind_inv H.
  case_decide; [by simplify_eq|]. do 7 bind_inv H.
  assert (tags_inv cfg x1) as I1.
  { eapply tags_inv_frame; [|exact I].
    eapply tags_frame_trans;
      [by eapply detach_tags_frame|by eapply detachStack_tags_frame]. }
  assert (tags_inv cfg x3) as I3.
  { eapply tags_inv_frame_but; [by eapply updc_tags_frame_but|exact I1|].
    intros cl' Hcl'. unfold updc in Hx3. bind_inv Hx3. simplify_eq.
    simpl in Hcl'. rewrite lookup_insert_eq in Hcl'. simplify_eq. simpl.
    destruct (proj2 I1 _ _ Hx2). by apply tags_ok_curtags. }
  eapply tags_inv_frame; [|exact I3].
  eapply tags_frame_trans; [by eapply attachBelow_tags_frame|].
  eapply tags_frame_trans; [by eapply attachStack_tags_frame|].
  eapply tags_frame_trans; [by eapply focus_tags_frame|].
  by eapply arrange_tags_frame.
Qed.

Lemma apply_rule_list_tags_frame fuel c class instance rs s s' :
  apply_rule_list fuel c class instance rs s = Some s' →
  tags_frame_but (Some c) s s'.
Proof.
  revert s. induction rs as [|r rs IH]; simpl; intros s H.
  - simplify_eq. apply tags_frame_refl.
  - do 2 bind_inv H. eapply tags_frame_trans; [|by eapply IH].
    revert Hx0. case_match; intros Hx0.
    + bind_inv Hx0. by eapply updc_tags_frame_but.
    + simplify_eq. apply tags_frame_refl.
Qed.

Lemma applyrules_tags_inv fuel c rc rn s s' :
  tags_inv_but cfg c s → applyrules cfg fuel c rc rn s = Some s' →
  tags_inv cfg s'.
Proof.
  unfold applyrules. intros I H. do 4 bind_inv H.
  assert (tags_frame_but (Some c) s x0) as F.
  { eapply tags_frame_trans;
      [by eapply updc_tags_frame_but|by eapply apply_rule_list_tags_frame]. }
  eapply tags_inv_but_frame;
    [eapply tags_frame_trans; [exact F|by eapply updc_tags_frame_but]|exact I|].
  intros cl' Hcl'. unfold updc in H. bind_inv H. simplify_eq.
  simpl in Hcl'. rewrite lookup_insert_eq in Hcl'. simplify_eq. simpl.
  destruct (Z.land (Client.tags x1) (TAGMASK cfg) =? 0) eqn:E.
  - destruct (proj2 F _ _ Hx2) as (mon & Hmon & Et).
    destruct (proj2 I _ _ Hmon). apply tags_ok_curtags; by rewrite Et.
  - apply Z.eqb_neq in E. by apply tags_ok_masked.
Qed.

Lemma seturgent_tags_frame ex c u s s' :
  seturgent c u s = Some s' → tags_frame_but ex s s'.
Proof. intros H. eapply link_frame_tags_frame, seturgent_link_frame, H. Qed.

Lemma updatewindowtype_tags_frame ex fuel c fs dlg s s' :
  updatewindowtype cfg fuel c fs dlg s = Some s' → tags_frame_but ex s s'.
Proof.
  unfold updatewindowtype. intros H. bind_inv H.
  eapply tags_frame_trans with x.
  - destruct fs; [by eapply setfullscreen_tags_frame|].
    simplify_eq. apply tags_frame_refl.
  - destruct dlg; [eapply updc_tags_frame; [|eassumption]; done|].
    simplify_eq. apply tags_frame_refl.
Qed.

Lemma propertynotify_transient_tags_frame ex fuel c trans s s' :
  propertynotify_transient cfg fuel c trans s = Some s' →
  tags_frame_but ex s s'.
Proof.
  unfold propertynotify_transient. intros H. bind_inv H.
  destruct (Client.isFloating x); [simplify_eq; apply tags_frame_refl|].
  destruct trans as [w|]; [|simplify_eq; apply tags_frame_refl].
  do 2 bind_inv H. eapply tags_frame_trans with x1.
  - eapply updc_tags_frame; [|eassumption]. done.
  - case_bool_decide; [by eapply arrange_tags_frame|].
    simplify_eq. apply tags_frame_refl.
Qed.

Lemma updatesizehints_tags_frame ex c hints s s' :
  updatesizehints c hints s = Some s' → tags_frame_but ex s s'.
Proof.
  intros H. eapply updc_tags_frame; [|exact H].
  intros cl. by repeat case_match.
Qed.

Lemma updatewmhints_tags_frame ex c hints s s' :
  updatewmhints c hints s = Some s' → tags_frame_but ex s s'.
Proof.
  unfold updatewmhints. intros H.
  destruct hints as [wmh|]; [|simplify_eq; apply tags_frame_refl].
  do 3 bind_inv H.
  eapply tags_frame_trans with x1;
    [|eapply updc_tags_frame; [|eassumption]; done].
  match type of Hx1 with (if ?b then _ else _) = _ => destruct b end.
  - simplify_eq. apply tags_frame_refl.
  - eapply updc_tags_frame; [|eassumption]; done.
Qed.

Lemma configurerequest_tags_frame ex fuel ev s s' :
  configurerequest fuel ev s = Some s' → tags_frame_but ex s s'.
Proof.
  unfold configurerequest. intros H. bind_inv H.
  destruct x as [c|]; [|simplify_eq; apply tags_frame_refl].
  bind_inv H. destruct (CWBorderWidth ev).
  - eapply updc_tags_frame; [|eassumption]; done.
  - bind_inv H. destruct x0; [|simplify_eq; apply tags_frame_refl].
    bind_inv H. eapply updc_tags_frame; [|eassumption].
    intros cl. by repeat case_match.
Qed.

Lemma manage_tags_inv fuel nw s s' :
  tags_inv cfg s → manage cfg fuel nw s = Some s' → tags_inv cfg s'.
Proof.
  unfold manage. intros I H. do 2 bind_inv H.
  assert (tags_inv cfg x0) as I0.
  { destruct x as [t0|].
    - bind_inv Hx0. simplify_eq. destruct I as [Ic Im]. split; [|done].
      intros c cl Hc. simpl in Hc.
      destruct (decide (fresh_id (cs s) = c)) as [<-|].
      + rewrite lookup_insert_eq in Hc. simplify_eq. simpl. eauto.
      + rewrite lookup_insert_ne in Hc by done. eauto.
    - bind_inv Hx0. eapply applyrules_tags_inv; [|eassumption].
      destruct I as [Ic Im]. split; [|done].
      intros c' cl Hne Hc. simpl in Hc.
      rewrite lookup_insert_ne in Hc by done. eauto. }
  do 12 bind_inv H.
  eapply tags_inv_frame; [|exact I0].
  eapply tags_frame_trans; [eapply updc_tags_frame; [|eassumption]; done|].
  eapply tags_frame_trans; [by eapply updatewindowtype_tags_frame|].
  eapply tags_frame_trans; [by eapply updatesizehints_tags_frame|].
  eapply tags_frame_trans; [by eapply updatewmhints_tags_frame|].
  eapply tags_frame_trans;
    [eapply updc_tags_frame; [|eassumption];
     intros cl; simpl; by destruct (Client.isFloating cl)|].
  eapply tags_frame_trans; [by eapply attachBelow_tags_frame|].
  eapply tags_frame_trans; [by eapply attachStack_tags_frame|].
  eapply tags_frame_trans; [eapply updm_tags_frame; [|eassumption]; done|].
  eapply tags_frame_trans; [by eapply arrange_tags_frame|].
  by eapply focus_tags_frame.
Qed.

End TagFrames.

Section GeometryTagFrames.

Variable cfg : Config.t.
Hypothesis ntags_pos : 1 ≤ Config.ntags cfg.

Lemma createMonitor_tags_inv s :
  tags_inv cfg s → tags_inv cfg (createMonitor cfg s).2.
Proof.
  intros [Ic Im]. split; [done|].
  intros m mon H.
  change (ms (createMonitor cfg s).2)
    with (<[fresh_id (ms s) := new_monitor cfg]> (ms s)) in H.
  destruct (decide (fresh_id (ms s) = m)) as [<-|].
  - rewrite lookup_insert_eq in H. simplify_eq.
    change (Monitor.tagSet (new_monitor cfg)) with (1, 1).
    split; by apply tags_ok_one.
  - rewrite lookup_insert_ne in H by done. eauto.
Qed.

Lemma append_monitor_tags_inv fuel s s' :
  tags_inv cfg s → append_monitor cfg fuel s = Some s' → tags_inv cfg s'.
Proof.
  unfold append_monitor. intros I H. bind_inv H.
  pose proof (createMonitor_tags_inv s I) as I1.
  destruct (createMonitor cfg s) as [m s1]. simpl in I1.
  destruct x as [lm|].
  - eapply tags_inv_frame; [|exact I1].
    eapply updm_tags_frame; [|eassumption]. done.
  - simplify_eq. eapply tags_inv_frame; [|exact I1].
    apply set_monitors_tags_frame.
Qed.

Lemma append_monitors_tags_inv fuel k s s' :
  tags_inv cfg s →
  Nat.iter k (fun r => s ← r; append_monitor cfg fuel s) (Some s) = Some s' →
  tags_inv cfg s'.
Proof.
  intros I. revert s'. induction k as [|k IH]; simpl; intros s' H.
  - by simplify_eq.
  - bind_inv H. eapply append_monitor_tags_inv; [|eassumption]. by apply IH.
Qed.

Lemma updatebarpos_tags_frame ex m s s' :
  updatebarpos m s = Some s' → tags_frame_but ex s s'.
Proof.
  intros H. eapply updm_tags_frame; [|exact H].
  intros mon. simpl. by case_match.
Qed.

Lemma update_geoms_tags_frame ex n i unique m d s d' s' :
  update_geoms n i unique m d s = Some (d', s') → tags_frame_but ex s s'.
Proof.
  revert i m d s.
  induction unique as [|u rest IH]; intros i [m|] d s H; simpl in H;
    simplify_eq; try apply tags_frame_refl.
  bind_inv H. case_match; [|by eapply IH].
  do 3 bind_inv H.
  eapply tags_frame_trans; [eapply updm_tags_frame; [|eassumption]; done|].
  eapply tags_frame_trans; [by eapply updatebarpos_tags_frame|by eapply IH].
Qed.

Lemma migrate_clients_tags_frame ex fuel k m d s d' s' :
  migrate_clients fuel k m d s = Some (d', s') → tags_frame_but ex s s'.
Proof.
  revert d s. induction k as [|k IH]; intros d s H; simpl in H; bind_inv H.
  - destruct (Monitor.clients x); by simplify_eq; apply tags_frame_refl.
  - destruct (Monitor.clients x) as [c|];
      [|by simplify_eq; apply tags_frame_refl].
    do 8 bind_inv H.
    eapply tags_frame_trans; [eapply updm_tags_frame; [|eassumption]; done|].
    eapply tags_frame_trans; [by eapply detachStack_tags_frame|].
    eapply tags_frame_trans; [eapply updc_tags_frame; [|eassumption]; done|].
    eapply tags_frame_trans; [by eapply attach_tags_frame|].
    eapply tags_frame_trans; [by eapply attachBelow_tags_frame|].
    eapply tags_frame_trans; [by eapply attachStack_tags_frame|].
    by eapply IH.
Qed.

Lemma cleanupmon_tags_frame ex fuel mon s s' :
  cleanupmon fuel mon s = Some s' → tags_frame_but ex s s'.
Proof.
  unfold cleanupmon. intros H. do 2 bind_inv H. simplify_eq.
  eapply tags_frame_trans; [|apply free_monitor_tags_frame].
  case_decide.
  - simplify_eq. apply set_monitors_tags_frame.
  - do 2 bind_inv Hx0. eapply updm_tags_frame; [|eassumption]. done.
Qed.

Lemma remove_monitors_tags_frame ex fuel k d s d' s' :
  remove_monitors fuel k d s = Some (d', s') → tags_frame_but ex s s'.
Proof.
  revert d s. induction k as [|k IH]; intros d s H; simpl in H.
  - simplify_eq. apply tags_frame_refl.
  - do 3 bind_inv H. destruct x1 as [d1 s1]. bind_inv H.
    eapply tags_frame_trans; [by eapply migrate_clients_tags_frame|].
    eapply tags_frame_trans; [|by eapply IH].
    eapply tags_frame_trans; [|by eapply cleanupmon_tags_frame].
    case_decide; [apply set_selectedMonitor_tags_frame|apply tags_frame_refl].
Qed.

Lemma updateGeometry_tags_inv fuel xin root ptr s d s' :
  tags_inv cfg s → updateGeometry cfg fuel xin root ptr s = Some (d, s') →
  tags_inv cfg s'.
Proof.
  unfold updateGeometry. intros I H. bind_inv H. destruct x as [d1 s1].
  assert (tags_inv cfg s1) as I1.
  { destruct xin as [info|].
    - bind_inv Hx. destruct (x <=? _).
      + bind_inv Hx. eapply tags_inv_frame;
          [by eapply update_geoms_tags_frame|].
        by eapply append_monitors_tags_inv.
      + eapply tags_inv_frame; [by eapply remove_monitors_tags_frame|done].
    - set (s0 := match monitors s with
                 | Some _ => s
                 | None => let '(m, s1) := createMonitor cfg s in
                           set_monitors (Some m) s1
                 end) in *.
      assert (tags_inv cfg s0) as I0.
      { subst s0. destruct (monitors s); [done|].
        pose proof (createMonitor_tags_inv s I) as I1.
        destruct (createMonitor cfg s) as [m s2].
        eapply tags_inv_frame; [apply set_monitors_tags_frame|exact I1]. }
      clearbody s0. do 2 bind_inv Hx.
      destruct (negb _ || negb _).
      + do 2 bind_inv Hx. simplify_eq.
        eapply tags_inv_frame; [|exact I0].
        eapply tags_frame_trans;
          [eapply updm_tags_frame; [|eassumption]; done
          |by eapply updatebarpos_tags_frame]. 
      + by simplify_eq. }
  destruct d1; [|by simplify_eq].
  bind_inv H. simplify_eq. done.
Qed.

End GeometryTagFrames.

Section Reachability.

Variable cfg : Config.t.
Hypothesis ntags_pos : 1 ≤ Config.ntags cfg.

Lemma run_tags_inv fuel a s s' :
  tags_inv cfg s → run cfg fuel a s = Some s' → tags_inv cfg s'.
Proof.
  intros I H. destruct a; simpl in H.
  - by eapply manage_tags_inv.
  - eapply tags_inv_frame; [by eapply unmanage_tags_frame|done].
  - eapply tags_inv_frame; [by eapply configurerequest_tags_frame|done].
  - eapply tags_inv_frame; [by eapply setfullscreen_tags_frame|done].
  - eapply tags_inv_frame; [by eapply updatewindowtype_tags_frame|done].
  - eapply tags_inv_frame; [by eapply updatesizehints_tags_frame|done].
  - eapply tags_inv_frame; [by eapply updatewmhints_tags_frame|done].
  - eapply tags_inv_frame; [by eapply seturgent_tags_frame|done].
  - by eapply view_tags_inv.
  - by eapply toggleview_tags_inv.
  - by eapply tag_tags_inv.
  - by eapply toggletag_tags_inv.
  - eapply tags_inv_frame; [by eapply togglefloating_tags_frame|done].
  - by eapply sendmon_tags_inv.
  - apply fmap_Some in H as ([d s1] & H & ->).
    by eapply updateGeometry_tags_inv.
  - eapply tags_inv_frame; [by eapply focus_tags_frame|done].
  - eapply tags_inv_frame; [by eapply arrange_tags_frame|done].
  - eapply tags_inv_frame; [by eapply movemouse_motion_tags_frame|done].
  - eapply tags_inv_frame; [by eapply resize_tags_frame|done].
  - eapply tags_inv_frame;
      [by eapply propertynotify_transient_tags_frame|done].
Qed.

Lemma reachable_tags_inv s0 s :
  tags_inv cfg s0 → reachable cfg s0 s → tags_inv cfg s.
Proof.
  intros I R. induction R as [|s1 s2 s3 (fuel & a & H) _ IH]; [done|].
  apply IH. by eapply run_tags_inv.
Qed.

End Reachability.

Lemma init_state_tags_inv cfg sw sh bh : tags_inv cfg (init_state sw sh bh).
Proof. split; intros ?? H; simpl in H; by rewrite lookup_empty in H. Qed.

(** C8. In every state the modelled operations can reach, a [toggletag]
    whose bits are exactly the tags of the selected client — so that
    toggling them would leave none — returns the state as it is, without
    focusing or arranging; and every client has a tag mask that is not
    empty and lies inside [TAGMASK]. *)
Theorem toggletag_keeps_tags_nonempty (cfg : Config.t) (s0 s : State) :
  1 ≤ Config.ntags cfg →
  tags_inv cfg s0 →
  reachable cfg s0 s →
  (∀ fuel ui sm smon sc scl,
     selectedMonitor s = Some sm → ms s !! sm = Some smon →
     Monitor.selectedClient smon = Some sc → cs s !! sc = Some scl →
     Z.lxor (Client.tags scl) (Z.land ui (TAGMASK cfg)) = 0 →
     toggletag cfg fuel ui s = Some s)
  ∧ (∀ c cl, cs s !! c = Some cl →
       Client.tags cl ≠ 0
       ∧ Z.land (Client.tags cl) (TAGMASK cfg) = Client.tags cl).
Proof.
  intros Hn I R. split.
  - intros fuel ui sm smon sc scl Hsm Hsmon Hsc Hscl Hz.
    unfold toggletag. rewrite Hsm. simpl. rewrite Hsmon. simpl.
    rewrite Hsc, Hscl. simpl. by rewrite Hz.
  - intros c cl H.
    destruct (reachable_tags_inv cfg Hn s0 s I R) as [Ic _]. exact (Ic c cl H).
Qed.

(** C10. [createMonitor] stores, at a pointer that was free, a monitor
    with both tag-set slots equal to 1, which shows tag set 1; and in
    every state the modelled operations can reach: the tag set every
    monitor shows is not empty; a [toggleview] that would empty the shown
    tag set returns the state as it is; a [view] with no valid bit only
    flips the slot selector of the selected monitor, leaving both slots as
    they were; and after a [view] with a valid bit the selected monitor
    shows just the valid bits given. *)
Theorem viewed_tagset_never_empty (cfg : Config.t) (s0 s : State) :
  1 ≤ Config.ntags cfg →
  tags_inv cfg s0 →
  reachable cfg s0 s →
  (∀ t, ms t !! (createMonitor cfg t).1 = None
        ∧ ∃ mon, ms (createMonitor cfg t).2 !! (createMonitor cfg t).1
                 = Some mon
                 ∧ Monitor.tagSet mon = (1, 1) ∧ curtags mon = 1)
  ∧ (∀ m mon, ms s !! m = Some mon → curtags mon ≠ 0)
  ∧ (∀ fuel ui sm smon,
       selectedMonitor s = Some sm → ms s !! sm = Some smon →
       Z.lxor (curtags smon) (Z.land ui (TAGMASK cfg)) = 0 →
       toggleview cfg fuel ui s = Some s)
  ∧ (∀ fuel ui s' sm smon,
       selectedMonitor s = Some sm → ms s !! sm = Some smon →
       Z.land ui (TAGMASK cfg) = 0 →
       view cfg fuel ui s = Some s' →
       ∃ smon', ms s' !! sm = Some smon'
                ∧ Monitor.tagSet smon' = Monitor.tagSet smon
                ∧ Monitor.selectedTags smon'
                  = Z.lxor (Monitor.selectedTags smon) 1)
  ∧ (∀ fuel ui s' sm smon,
       selectedMonitor s = Some sm → ms s !! sm = Some smon →
       Z.land ui (TAGMASK cfg) ≠ 0 →
       view cfg fuel ui s = Some s' →
       ∃ smon', ms s' !! sm = Some smon'
                ∧ curtags smon' = Z.land ui (TAGMASK cfg)).
Proof.
  intros Hn I R.
  pose proof (reachable_tags_inv cfg Hn s0 s I R) as [Ic Im].
  split; [|split; [|split; [|split]]].
  - intros t. split; [apply fresh_id_fresh|].
    exists (new_monitor cfg). split; [apply lookup_insert_eq|done].
  - intros m mon H. destruct (Im m mon H) as [H1 H2].
    by destruct (tags_ok_curtags cfg mon H1 H2).
  - intros fuel ui sm smon Hsm Hsmon Hz.
    unfold toggleview. rewrite Hsm. simpl. rewrite Hsmon. simpl. by rewrite Hz.
  - intros fuel ui s' sm smon Hsm Hsmon Hz H.
    unfold view in H. rewrite Hsm in H. simpl in H. rewrite Hsmon in H.
    simpl in H. rewrite Hz in H.
    destruct (Im sm smon Hsmon) as [H1 H2].
    destruct (tags_ok_curtags cfg smon H1 H2) as [Hcur _].
    destruct (0 =? curtags smon) eqn:E; [apply Z.eqb_eq in E; congruence|].
    simpl in H. do 2 bind_inv H.
    assert (link_frame x s') as F.
    { eapply link_frame_trans;
        [by eapply focus_link_frame|by eapply arrange_link_frame]. }
    unfold updm in Hx. rewrite Hsmon in Hx. simpl in Hx. simplify_eq.
    destruct F as (_ & Fm & _).
    assert ((Monitor.erase_links <$> ms s') !! sm
            = Some (Monitor.erase_links
                      (Monitor.set_selectedTags
                         (Z.lxor (Monitor.selectedTags smon) 1) smon))) as E1.
    { rewrite Fm. simpl. by rewrite lookup_fmap, lookup_insert_eq. }
    rewrite lookup_fmap in E1.
    destruct (ms s' !! sm) as [smon'|]; [|done].
    apply (inj Some) in E1. exists smon'. split; [done|]. split.
    + exact (f_equal Monitor.tagSet E1).
    + exact (f_equal Monitor.selectedTags E1).
  - intros fuel ui s' sm smon Hsm Hsmon Hnz H.
    unfold view in H. rewrite Hsm in H. simpl in H. rewrite Hsmon in H.
    simpl in H.
    destruct (Z.land ui (TAGMASK cfg) =? curtags smon) eqn:E.
    { apply Z.eqb_eq in E. simplify_eq. by exists smon. }
    destruct (Z.land ui (TAGMASK cfg) =? 0) eqn:E0;
      [apply Z.eqb_eq in E0; congruence|].
    do 3 bind_inv H.
    assert (link_frame x0 s') as F.
    { eapply link_frame_trans;
        [by eapply focus_link_frame|by eapply arrange_link_frame]. }
    unfold updm in Hx. rewrite Hsmon in Hx. simpl in Hx. simplify_eq.
    unfold updm in Hx0. simpl in Hx0. rewrite lookup_insert_eq in Hx0.
    simpl in Hx0. simplify_eq.
    destruct F as (_ & Fm & _).
    match type of Fm with
    | _ = Monitor.erase_links <$> ms (set_ms (<[sm := ?m2]> _) _) =>
        set (mon2 := m2) in *
    end.
    assert ((Monitor.erase_links <$> ms s') !! sm
            = Some (Monitor.erase_links mon2)) as E1
      by (rewrite Fm; simpl; by rewrite lookup_fmap, lookup_insert_eq).
    rewrite lookup_fmap in E1.
    destruct (ms s' !! sm) as [smon'|]; [|done].
    apply (inj Some) in E1. exists smon'. split; [done|].
    assert (Monitor.tagSet smon' = Monitor.tagSet mon2) as Et
      by exact (f_equal Monitor.tagSet E1).
    assert (Monitor.selectedTags smon' = Monitor.selectedTags mon2) as Es
      by exact (f_equal Monitor.selectedTags E1).
    unfold curtags. rewrite Et, Es. subst mon2.
    destruct smon as []. simpl. unfold slot, set_slot.
    by destruct (Z.lxor _ 1 =? 0).
Qed.

(** ** Sample runs for the tag theorems *)

Lemma tags_inv_decide cfg s :
  bool_decide (map_Forall (λ _ cl, tags_ok cfg (Client.tags cl)) (cs s)) = true →
  bool_decide (map_Forall (λ _ mon, tags_ok cfg (fst (Monitor.tagSet mon))
                                    ∧ tags_ok cfg (snd (Monitor.tagSet mon)))
                 (ms s)) = true →
  tags_inv cfg s.
Proof.
  intros H1 H2. apply bool_decide_eq_true in H1, H2. by split.
Qed.

Lemma two_tiled_tags_inv : tags_inv config_def two_tiled.
Proof. apply tags_inv_decide; vm_compute; reflexivity. Defined.

Lemma toggletag_keeps_tags_nonempty_witness :
  let s := default two_tiled (toggletag config_def 8 2 two_tiled) in
  1 ≤ Config.ntags config_def
  ∧ tags_inv config_def two_tiled
  ∧ reachable config_def two_tiled s
  ∧ (∀ fuel ui sm smon sc scl,
       selectedMonitor s = Some sm → ms s !! sm = Some smon →
       Monitor.selectedClient smon = Some sc → cs s !! sc = Some scl →
       Z.lxor (Client.tags scl) (Z.land ui (TAGMASK config_def)) = 0 →
       toggletag config_def fuel ui s = Some s)
  ∧ (∀ c cl, cs s !! c = Some cl →
       Client.tags cl ≠ 0
       ∧ Z.land (Client.tags cl) (TAGMASK config_def) = Client.tags cl).
Proof.
  intros s.
  assert (1 ≤ Config.ntags config_def) as Hn by (simpl; lia).
  assert (reachable config_def two_tiled s) as R.
  { apply rtc_once. exists 8%nat, (AToggleTag 2). vm_compute. reflexivity. }
  split; [exact Hn|]. split; [exact two_tiled_tags_inv|]. split; [exact R|].
  exact (toggletag_keeps_tags_nonempty config_def two_tiled s Hn
           two_tiled_tags_inv R).
Defined.

Lemma viewed_tagset_never_empty_witness :
  let s := default two_tiled (view config_def 8 4 two_tiled) in
  (1 ≤ Config.ntags config_def
   ∧ tags_inv config_def two_tiled
   ∧ reachable config_def two_tiled s)
  ∧ (∀ t, ms t !! (createMonitor config_def t).1 = None
          ∧ ∃ mon, ms (createMonitor config_def t).2
                     !! (createMonitor config_def t).1 = Some mon
                   ∧ Monitor.tagSet mon = (1, 1) ∧ curtags mon = 1)
  ∧ (∀ m mon, ms s !! m = Some mon → curtags mon ≠ 0)
  ∧ (∀ fuel ui sm smon,
       selectedMonitor s = Some sm → ms s !! sm = Some smon →
       Z.lxor (curtags smon) (Z.land ui (TAGMASK config_def)) = 0 →
       toggleview config_def fuel ui s = Some s)
  ∧ (∀ fuel ui s' sm smon,
       selectedMonitor s = Some sm → ms s !! sm = Some smon →
       Z.land ui (TAGMASK config_def) = 0 →
       view config_def fuel ui s = Some s' →
       ∃ smon', ms s' !! sm = Some smon'
                ∧ Monitor.tagSet smon' = Monitor.tagSet smon
                ∧ Monitor.selectedTags smon'
                  = Z.lxor (Monitor.selectedTags smon) 1)
  ∧ (∀ fuel ui s' sm smon,
       selectedMonitor s = Some sm → ms s !! sm = Some smon →
       Z.land ui (TAGMASK config_def) ≠ 0 →
       view config_def fuel ui s = Some s' →
       ∃ smon', ms s' !! sm = Some smon'
                ∧ curtags smon' = Z.land ui (TAGMASK config_def)).
Proof.
  intros s.
  assert (1 ≤ Config.ntags config_def) as Hn by (simpl; lia).
  assert (reachable config_def two_tiled s) as R.
  { apply rtc_once. exists 8%nat, (AView 4). vm_compute. reflexivity. }
  split; [split; [exact Hn|split; [exact two_tiled_tags_inv|exact R]]|].
  exact (viewed_tagset_never_empty config_def two_tiled s Hn
           two_tiled_tags_inv R).
Defined.

Example view_then_toggle :
  (s ← view config_def 8 4 two_tiled;
   s ← toggleview config_def 8 4 s;
   mon ← ms s !! 0%nat;
   Some (Monitor.tagSet mon, Monitor.selectedTags mon))
  = Some ((1, 4), 1).
Proof. vm_compute. reflexivity. Qed.

(** * Fullscreen clients stay floating *)

Section FullscreenInv.

Variable cfg : Config.t.
Variable b : bool.







































End FullscreenInv.




(** ** Chains of links in the store *)

Section Chains.

Variable nx : Client.t → option nat.

Lemma chain_list_Some_inv k h c l :
  chain_list nx k h (Some c) = Some l →
  ∃ k' cl l', k = S k' ∧ h !! c = Some cl ∧ l = c :: l'
              ∧ chain_list nx k' h (nx cl) = Some l'.
Proof.
  destruct k as [|k']; simpl; [done|]. intros H. bind_inv H.
  apply fmap_Some in H as (l' & H & ->). eauto 10.
Qed.

Lemma chain_list_length k h p l :
  chain_list nx k h p = Some l → (length l ≤ k)%nat.
Proof.
  revert p l. induction k as [|k IH]; intros [c|] l H; simpl in H;
    simplify_eq; simpl; try lia.
  bind_inv H. apply fmap_Some in H as (l' & H & ->).
  apply IH in H. simpl. lia.
Qed.

Lemma chain_list_mono k k' h p l :
  chain_list nx k h p = Some l → (k ≤ k')%nat → chain_list nx k' h p = Some l.
Proof.
  revert k' p l. induction k as [|k IH]; intros k' [c|] l H Hk; simpl in H;
    simplify_eq.
  - by destruct k'.
  - destruct k' as [|k']; [lia|]. simpl. bind_inv H.
    apply fmap_Some in H as (l' & H & ->).
    rewrite Hx. simpl. erewrite IH; [done|done|lia].
  - by destruct k'.
Qed.

Lemma chain_list_tight k h p l :
  chain_list nx k h p = Some l → chain_list nx (length l) h p = Some l.
Proof.
  revert p l. induction k as [|k IH]; intros [c|] l H; simpl in H;
    simplify_eq; try done.
  bind_inv H. apply fmap_Some in H as (l' & H & ->).
  simpl. rewrite Hx. simpl. by erewrite IH.
Qed.

(** Any budget that covers the length will do. *)
Lemma chain_list_refuel k k' h p l :
  chain_list nx k h p = Some l → (length l ≤ k')%nat →
  chain_list nx k' h p = Some l.
Proof.
  intros H Hk. eapply chain_list_mono; [by eapply chain_list_tight|done].
Qed.

(** A store that agrees on the links of the listed clients has the same
    chain. *)
Lemma chain_list_ext k h h' p l :
  (∀ c, c ∈ l → nx <$> h' !! c = nx <$> h !! c) →
  chain_list nx k h p = Some l → chain_list nx k h' p = Some l.
Proof.
  revert p l. induction k as [|k IH]; intros [c|] l Hext H; simpl in H;
    simplify_eq; try done.
  bind_inv H. apply fmap_Some in H as (l' & H & ->).
  simpl. pose proof (Hext c ltac:(left)) as Hc. rewrite Hx in Hc. simpl in Hc.
  destruct (h' !! c) as [cl'|]; [|done]. apply (inj Some) in Hc. simpl.
  rewrite Hc. erewrite IH; [done| |done].
  intros c' Hc'. apply Hext. by right.
Qed.

(** The part of a chain from one of its members on is the chain from that
    member. *)
Lemma chain_list_suffix k h p l1 c l2 :
  chain_list nx k h p = Some (l1 ++ c :: l2) →
  chain_list nx k h (Some c) = Some (c :: l2).
Proof.
  revert k p. induction l1 as [|a l1 IH]; intros k p H.
  - destruct p as [c'|]; [|destruct k; simpl in H; done].
    apply chain_list_Some_inv in H as (k' & cl & l' & -> & Hc & E & H).
    simpl in E. simplify_eq. simpl. rewrite Hc. simpl. by rewrite H.
  - destruct p as [c'|]; [|destruct k; simpl in H; done].
    apply chain_list_Some_inv in H as (k' & cl & l' & -> & Hc & E & H).
    simpl in E. simplify_eq.
    eapply chain_list_mono; [by eapply IH|lia].
Qed.

Lemma chain_list_NoDup k h p l :
  chain_list nx k h p = Some l → NoDup l.
Proof.
  revert p l. induction k as [|k IH]; intros [c|] l H; simpl in H;
    simplify_eq; try by constructor.
  bind_inv H. apply fmap_Some in H as (l' & H & ->).
  constructor; [|by eapply IH].
  intros Hin. apply list_elem_of_split in Hin as (l1 & l2 & ->).
  pose proof (chain_list_suffix _ _ _ _ _ _ H) as Hs.
  apply (chain_list_mono _ (S k)) in Hs; [|lia].
  simpl in Hs. rewrite Hx in Hs. simpl in Hs. rewrite H in Hs. simpl in Hs.
  simplify_eq. apply (f_equal length) in Hs.
  rewrite length_app in Hs. simpl in Hs. lia.
Qed.

Lemma chain_list_allocated k h p l c :
  chain_list nx k h p = Some l → c ∈ l → is_Some (h !! c).
Proof.
  intros H Hin. apply list_elem_of_split in Hin as (l1 & l2 & ->).
  apply chain_list_suffix in H.
  apply chain_list_Some_inv in H as (? & cl & ? & _ & Hc & _). eauto.
Qed.

End Chains.

(** ** The focus stack *)

Lemma first_visible_chain fuel s p l :
  chain_list Client.selectionNext fuel (cs s) p = Some l →
  Forall (λ c, ∃ cl, cs s !! c = Some cl ∧ is_Some (ms s !! Client.monitor cl)) l →
  first_visible fuel s p = Some (find (is_visible s) l).
Proof.
  revert p l. induction fuel as [|k IH]; intros [c|] l H Hm; simpl in H;
    simplify_eq; try done.
  bind_inv H. apply fmap_Some in H as (l' & H & ->).
  apply Forall_cons in Hm as [(cl & Hcl & [mon Hmon]) Hm]. simplify_eq.
  simpl. rewrite Hx. simpl. unfold is_visible at 1. rewrite Hx.
  unfold ISVISIBLE. rewrite Hmon. simpl.
  destruct (ISVISIBLEONTAG x (curtags mon)); [done|]. by apply IH.
Qed.

Lemma find_link_chain l2 c s l1 tc k p :
  read_selectionNext s tc = Some p →
  chain_list Client.selectionNext k (cs s) p = Some (l1 ++ c :: l2) →
  c ∉ l1 →
  find_link read_selectionNext k s c tc = Some (link_before tc l1).
Proof.
  revert tc k p. induction l1 as [|a l1 IH]; intros tc k p Hr H Hn.
  - destruct p as [c'|]; [|destruct k; done].
    apply chain_list_Some_inv in H as (k' & cl & l' & -> & Hc & E & H).
    simpl in E. simplify_eq. simpl. rewrite Hr. simpl.
    by rewrite decide_True.
  - destruct p as [c'|]; [|destruct k; done].
    apply chain_list_Some_inv in H as (k' & cl & l' & -> & Hc & E & H).
    simpl in E. simplify_eq. simpl. rewrite Hr. simpl.
    rewrite decide_False by (intros ->; apply Hn; left).
    erewrite IH; [|simpl; by rewrite Hc|done|].
    + unfold link_before. rewrite last_cons. by destruct (last l1).
    + intros Hin. apply Hn. by right.
Qed.

(** Writing the link of the last member of [l1 ++ [a]] so that it skips
    [c]. *)
Lemma chain_list_skip k h l1 a c l2 p cla v :
  chain_list Client.selectionNext k h p = Some (l1 ++ a :: c :: l2) →
  h !! a = Some cla →
  chain_list Client.selectionNext k h v = Some l2 →
  chain_list Client.selectionNext k
    (<[a := Client.set_selectionNext v cla]> h) p = Some (l1 ++ a :: l2).
Proof.
  intros H Ha Hv.
  pose proof (chain_list_NoDup _ _ _ _ _ H) as Hnd.
  revert k p H Hv. induction l1 as [|b l1 IH]; intros k p H Hv.
  - destruct p as [p0|]; [|destruct k; done].
    apply chain_list_Some_inv in H as (k' & cl & l' & -> & Hc & E & H).
    simpl in E. simplify_eq. simpl. rewrite lookup_insert_eq. simpl.
    apply NoDup_cons in Hnd as [Hn1 Hnd].
    apply chain_list_length in H as Hlen. simpl in Hlen.
    apply (chain_list_refuel _ _ k') in Hv; [|lia].
    erewrite (chain_list_ext _ k' h); [done| |done].
    intros c' Hc'. rewrite lookup_insert_ne; [done|].
    intros ->. apply Hn1. by right.
  - destruct p as [p0|]; [|destruct k; done].
    apply chain_list_Some_inv in H as (k' & cl & l' & -> & Hc & E & H).
    simpl in E. simplify_eq. simpl.
    apply NoDup_cons in Hnd as [Hn1 Hnd].
    rewrite lookup_insert_ne
      by (intros ->; apply Hn1; rewrite elem_of_app; right; left).
    rewrite Hc. simpl.
    apply chain_list_length in H as Hlen. rewrite length_app in Hlen.
    simpl in Hlen.
    apply (chain_list_refuel _ _ k') in Hv; [|lia].
    by erewrite IH.
Qed.

Lemma on_monitor_allocated s m l mon :
  ms s !! m = Some mon → on_monitor s m l →
  Forall (λ c, ∃ cl, cs s !! c = Some cl ∧ is_Some (ms s !! Client.monitor cl)) l.
Proof.
  intros Hm Hon. eapply Forall_impl; [exact Hon|].
  intros c (cl & Hc & <-). eauto.
Qed.

(** Taking a client off the focus stack. *)
Lemma detachStack_chain fuel s m mon c cl l1 l2 :
  ms s !! m = Some mon →
  cs s !! c = Some cl → Client.monitor cl = m →
  chain_list Client.selectionNext fuel (cs s) (Monitor.stack mon)
    = Some (l1 ++ c :: l2) →
  on_monitor s m (l1 ++ c :: l2) →
  ∃ s1 mon1,
    detachStack fuel c s = Some s1
    ∧ ms s1 !! m = Some mon1
    ∧ chain_list Client.selectionNext fuel (cs s1) (Monitor.stack mon1)
      = Some (l1 ++ l2).
Proof.
  intros Hm Hc Hmc H Hon.
  pose proof (chain_list_NoDup _ _ _ _ _ H) as Hnd.
  assert (c ∉ l1) as Hn1.
  { apply NoDup_app in Hnd as (_ & Hd & _). intros Hin.
    apply (Hd c Hin). left. }
  assert (chain_list Client.selectionNext fuel (cs s)
            (Client.selectionNext cl) = Some l2) as Hl2.
  { pose proof (chain_list_suffix _ _ _ _ _ _ _ H) as Hs.
    apply chain_list_Some_inv in Hs as (k' & cl' & l' & -> & Hc' & E & Hs).
    simplify_eq. eapply chain_list_mono; [exact Hs|lia]. }
  (* the state once the link that points at [c] is rewritten *)
  assert (∃ s1 mon1,
            (tc ← find_link read_selectionNext fuel s c (LHead m);
             write_selectionNext tc (Client.selectionNext cl) s) = Some s1
            ∧ ms s1 !! m = Some mon1
            ∧ (∀ c' cl', cs s1 !! c' = Some cl' →
                 ∃ cl0, cs s !! c' = Some cl0
                        ∧ Client.monitor cl' = Client.monitor cl0
                        ∧ Client.tags cl' = Client.tags cl0)
            ∧ (∀ m' mon', ms s1 !! m' = Some mon' → is_Some (ms s !! m'))
            ∧ (∀ m' mon', ms s1 !! m' = Some mon' →
                 ∃ mon0, ms s !! m' = Some mon0 ∧ curtags mon' = curtags mon0)
            ∧ chain_list Client.selectionNext fuel (cs s1) (Monitor.stack mon1)
              = Some (l1 ++ l2)) as (s1 & mon1 & Hs1 & Hm1 & Hcs1 & Hms1 & Hcur & Hch1).
  { erewrite find_link_chain; [| |exact H|exact Hn1]; [|simpl; by rewrite Hm].
    simpl. unfold link_before.
    destruct (last l1) as [a|] eqn:El.
    - apply last_Some in El as [l1' ->]. simpl.
      assert (is_Some (cs s !! a)) as [cla Ha].
      { eapply chain_list_allocated; [exact H|].
        rewrite !elem_of_app. left. right. left. }
      unfold updc. rewrite Ha. simpl. eexists _, mon. split; [done|].
      simpl. split; [done|]. split; [|split; [eauto|split; [eauto|]]].
      + intros c' cl' Hl. destruct (decide (a = c')) as [->|].
        * rewrite lookup_insert_eq in Hl. simplify_eq. eauto.
        * rewrite lookup_insert_ne in Hl by done. eauto.
      + rewrite <- app_assoc in H. simpl in H.
        rewrite <- app_assoc. simpl. by eapply chain_list_skip.
    - apply last_None in El as ->. simpl in *.
      unfold updm. rewrite Hm. simpl. eexists _, _. split; [done|].
      simpl. rewrite lookup_insert_eq. split; [done|].
      split; [eauto|]. split; [|split; [|done]].
      + intros m' mon' Hl. destruct (decide (m = m')) as [->|].
        * eauto.
        * rewrite lookup_insert_ne in Hl by done. eauto.
      + intros m' mon' Hl. destruct (decide (m = m')) as [->|].
        * rewrite lookup_insert_eq in Hl. simplify_eq. eauto.
        * rewrite lookup_insert_ne in Hl by done. eauto. }
  unfold detachStack. rewrite Hc. simpl. rewrite Hmc.
  apply bind_Some in Hs1 as (tc & Htc & Hw). rewrite Htc. simpl.
  rewrite Hw. simpl. rewrite Hm1. simpl.
  case_decide; [|eauto].
  erewrite first_visible_chain; [|exact Hch1|].
  - simpl. unfold updm. rewrite Hm1. simpl. eexists _, _.
    split; [done|]. simpl. rewrite lookup_insert_eq. split; [done|]. done.
  - apply Forall_forall. intros c' Hin.
    assert (is_Some (cs s1 !! c')) as [cl' Hcl'].
    { eapply chain_list_allocated; [exact Hch1|done]. }
    destruct (Hcs1 _ _ Hcl') as (cl0 & Hcl0 & Emon & _).
    exists cl'. split; [done|]. rewrite Emon.
    assert (c' ∈ l1 ++ c :: l2) as Hin'.
    { rewrite elem_of_app in Hin. rewrite elem_of_app, elem_of_cons.
      destruct Hin as [?|?]; [by left|by right; right]. }
    unfold on_monitor in Hon. rewrite Forall_forall in Hon.
    destruct (Hon _ Hin') as (cl2 & Hcl2 & Hmon2). simplify_eq.
    rewrite Hmon2. eauto.
Qed.

Lemma link_frame_client_inv s s' c cl :
  link_frame s s' → cs s !! c = Some cl →
  ∃ cl', cs s' !! c = Some cl' ∧ Client.erase_links cl' = Client.erase_links cl.
Proof.
  intros (Hc&_) H.
  assert (Hl : (Client.erase_links <$> cs s') !! c
               = (Client.erase_links <$> cs s) !! c) by by rewrite Hc.
  rewrite !lookup_fmap, H in Hl. simpl in Hl.
  destruct (cs s' !! c) as [cl'|]; [|done]. apply (inj Some) in Hl. eauto.
Qed.

Lemma updc_selectedMonitor c f s s' :
  updc c f s = Some s' → selectedMonitor s' = selectedMonitor s.
Proof. unfold updc. intros H. bind_inv H. by simplify_eq. Qed.

Lemma updm_selectedMonitor m f s s' :
  updm m f s = Some s' → selectedMonitor s' = selectedMonitor s.
Proof. unfold updm. intros H. bind_inv H. by simplify_eq. Qed.

Lemma detachStack_selectedMonitor fuel c s s' :
  detachStack fuel c s = Some s' → selectedMonitor s' = selectedMonitor s.
Proof.
  unfold detachStack. intros H. do 4 bind_inv H.
  assert (selectedMonitor x1 = selectedMonitor s) as E.
  { destruct x0; simpl in Hx1;
      eauto using updc_selectedMonitor, updm_selectedMonitor. }
  case_decide.
  - bind_inv H. apply updm_selectedMonitor in H. congruence.
  - by simplify_eq.
Qed.

Lemma attachStack_selectedMonitor c s s' :
  attachStack c s = Some s' → selectedMonitor s' = selectedMonitor s.
Proof.
  unfold attachStack. intros H. do 3 bind_inv H.
  apply updc_selectedMonitor in Hx1. apply updm_selectedMonitor in H.
  congruence.
Qed.

(** The links [focus] writes when it falls back on the focus stack. *)
Lemma focus_links_fallback (fuel : nat) (s : State) (sm : nat)
    (target : option nat) (l : list nat) :
  selectedMonitor s = Some sm →
  stack_list fuel s sm = Some l →
  on_monitor s sm l →
  match target with
  | None => True
  | Some t => ∃ cl, cs s !! t = Some cl ∧ ISVISIBLE s cl = Some false
  end →
  ∃ s' smon',
    focus_links fuel target s = Some s'
    ∧ selectedMonitor s' = Some sm
    ∧ ms s' !! sm = Some smon'
    ∧ Monitor.selectedClient smon' = find (is_visible s) l.
Proof.
  intros Hsm Hl Hon Ht.
  unfold stack_list in Hl. apply bind_Some in Hl as (smon & Hsmon & Hl).
  unfold focus_links. rewrite Hsm. simpl. rewrite Hsmon. simpl.
  assert (match target with
          | Some c => cs s !! c ≫= λ cl, negb <$> ISVISIBLE s cl
          | None => Some true
          end = Some true) as ->.
  { destruct target as [t|]; [|done].
    destruct Ht as (cl & -> & Hv). simpl. by rewrite Hv. }
  simpl.
  erewrite first_visible_chain;
    [|exact Hl|by eapply on_monitor_allocated]. simpl.
  destruct (find (is_visible s) l) as [c|] eqn:Ef.
  - apply find_some in Ef as [Hin Hvis]. apply list_elem_of_In in Hin.
    unfold on_monitor in Hon. rewrite Forall_forall in Hon.
    destruct (Hon c Hin) as (cl & Hcl & Hmon).
    rewrite Hcl. simpl. rewrite decide_True by done.
    (* the state after the urgency flag is cleared *)
    assert (∃ sU clU,
              (if Client.isUrgent cl then seturgent c false s else Some s)
              = Some sU
              ∧ link_frame s sU ∧ ms sU = ms s
              ∧ selectedMonitor sU = selectedMonitor s
              ∧ cs sU !! c = Some clU ∧ Client.monitor clU = sm
              ∧ (∀ c', Client.selectionNext <$> cs sU !! c'
                       = Client.selectionNext <$> cs s !! c')
              ∧ (∀ c' cl', cs s !! c' = Some cl' →
                   ∃ cl'', cs sU !! c' = Some cl''
                           ∧ Client.monitor cl'' = Client.monitor cl'))
      as (sU & clU & -> & FU & EmU & EsU & HclU & HmonU & HnxU & HcsU).
    { destruct (Client.isUrgent cl).
      - unfold seturgent, updc. rewrite Hcl. simpl.
        eexists _, _. split; [done|]. simpl. rewrite lookup_insert_eq.
        split; [|repeat split; try done].
        + eapply (updc_link_frame c (Client.set_isUrgent false)); [done|].
          unfold updc. by rewrite Hcl.
        + intros c'. destruct (decide (c = c')) as [<-|].
          * by rewrite lookup_insert_eq, Hcl.
          * by rewrite lookup_insert_ne.
        + intros c' cl' Hc'. destruct (decide (c = c')) as [<-|].
          * rewrite lookup_insert_eq. simplify_eq. eauto.
          * rewrite lookup_insert_ne by done. eauto.
      - eexists s, cl. split; [done|]. split; [apply link_frame_refl|].
        repeat split; try done. eauto. }
    simpl.
    apply list_elem_of_split in Hin as (l1 & l2 & ->).
    destruct (detachStack_chain fuel sU sm smon c clU l1 l2)
      as (s1 & mon1 & Hd & Hm1 & Hch1); try done.
    { by rewrite EmU. }
    { eapply chain_list_ext; [|exact Hl]. intros c' _. apply HnxU. }
    { unfold on_monitor. rewrite Forall_forall. intros c' Hc'.
      destruct (Hon c' Hc') as (cl' & Hcl' & Hmon').
      destruct (HcsU _ _ Hcl') as (cl'' & ? & ?). exists cl''.
      split; [done|congruence]. }
    rewrite Hd. simpl.
    pose proof (detachStack_link_frame _ _ _ _ Hd) as F1.
    destruct (link_frame_client_inv _ _ _ _ F1 HclU) as (cl1 & Hcl1 & E1).
    pose proof (f_equal Client.monitor E1) as Em1. simpl in Em1.
    unfold attachStack. rewrite Hcl1. simpl. rewrite Em1, HmonU, Hm1. simpl.
    unfold updc at 1. rewrite Hcl1. simpl.
    unfold updm at 2. simpl. rewrite Hm1. simpl.
    rewrite (detachStack_selectedMonitor _ _ _ _ Hd), EsU, Hsm. simpl.
    unfold updm. simpl. rewrite lookup_insert_eq. simpl.
    eexists _, _. split; [done|]. simpl.
    rewrite (detachStack_selectedMonitor _ _ _ _ Hd), EsU, Hsm.
    split; [done|]. rewrite lookup_insert_eq. split; [done|]. done.
  - simpl. rewrite Hsm. simpl. unfold updm. rewrite Hsmon. simpl.
    eexists _, _. split; [done|]. simpl. split; [done|].
    rewrite lookup_insert_eq. split; [done|]. done.
Qed.

(** ** What a geometry frame cannot change *)

Lemma chain_list_ext_eq nx k h h' p :
  (∀ c, nx <$> h' !! c = nx <$> h !! c) →
  chain_list nx k h' p = chain_list nx k h p.
Proof.
  intros Hext. revert p. induction k as [|k IH]; intros [c|]; simpl; try done.
  pose proof (Hext c) as Hc.
  destruct (h' !! c) as [cl'|], (h !! c) as [cl|]; simpl in *;
    [|discriminate..|done].
  apply (inj Some) in Hc. by rewrite Hc, IH.
Qed.

Section GeomFrameReads.

Variables s s' : State.
Hypothesis F : geom_frame s s'.

Lemma geom_frame_shape c :
  Client.erase_geom <$> cs s' !! c = Client.erase_geom <$> cs s !! c.
Proof. destruct F as (Hc & _). by rewrite <- !lookup_fmap, Hc. Qed.

Lemma geom_frame_mon_shape m :
  Monitor.erase_symbol <$> ms s' !! m = Monitor.erase_symbol <$> ms s !! m.
Proof. destruct F as (_ & Hm & _). by rewrite <- !lookup_fmap, Hm. Qed.

Lemma geom_frame_proj {B} (f : Client.t → B) c :
  (∀ cl, f (Client.erase_geom cl) = f cl) →
  f <$> cs s' !! c = f <$> cs s !! c.
Proof.
  intros Hf. pose proof (geom_frame_shape c) as H.
  destruct (cs s' !! c) as [a|], (cs s !! c) as [b|]; simpl in *;
    [|discriminate..|done].
  apply (inj Some) in H. by rewrite <- (Hf a), <- (Hf b), H.
Qed.

Lemma geom_frame_mon_proj {B} (f : Monitor.t → B) m :
  (∀ mon, f (Monitor.erase_symbol mon) = f mon) →
  f <$> ms s' !! m = f <$> ms s !! m.
Proof.
  intros Hf. pose proof (geom_frame_mon_shape m) as H.
  destruct (ms s' !! m) as [a|], (ms s !! m) as [b|]; simpl in *;
    [|discriminate..|done].
  apply (inj Some) in H. by rewrite <- (Hf a), <- (Hf b), H.
Qed.

Lemma geom_frame_visible_tiled c :
  is_visible s' c = is_visible s c ∧ is_tiled s' c = is_tiled s c.
Proof.
  unfold is_visible, is_tiled, ISVISIBLE.
  pose proof (geom_frame_proj
                (λ cl, (Client.isFloating cl, Client.tags cl, Client.monitor cl))
                c ltac:(done)) as H.
  destruct (cs s' !! c) as [a|], (cs s !! c) as [b|]; simpl in *;
    [|discriminate..|done].
  apply (inj Some) in H.
  assert (Client.isFloating a = Client.isFloating b) as E1 by congruence.
  assert (Client.tags a = Client.tags b) as E2 by congruence.
  assert (Client.monitor a = Client.monitor b) as E3 by congruence.
  rewrite E1, E3. unfold ISVISIBLEONTAG. rewrite E2.
  pose proof (geom_frame_mon_proj curtags (Client.monitor b) ltac:(done)) as Hm.
  destruct (ms s' !! Client.monitor b) as [ma|],
           (ms s !! Client.monitor b) as [mb|]; simpl in *;
    [|discriminate..|done].
  apply (inj Some) in Hm. by rewrite Hm.
Qed.

Lemma geom_frame_chain nx k p :
  (∀ cl, nx (Client.erase_geom cl) = nx cl) →
  chain_list nx k (cs s') p = chain_list nx k (cs s) p.
Proof. intros Hnx. apply chain_list_ext_eq. intros c. by apply geom_frame_proj. Qed.

Lemma geom_frame_client_list k m : client_list k s' m = client_list k s m.
Proof.
  unfold client_list.
  pose proof (geom_frame_mon_proj Monitor.clients m ltac:(done)) as H.
  destruct (ms s' !! m) as [a|], (ms s !! m) as [b|]; simpl in *;
    [|discriminate..|done].
  apply (inj Some) in H. rewrite H. by apply geom_frame_chain.
Qed.

Lemma geom_frame_stack_list k m : stack_list k s' m = stack_list k s m.
Proof.
  unfold stack_list.
  pose proof (geom_frame_mon_proj Monitor.stack m ltac:(done)) as H.
  destruct (ms s' !! m) as [a|], (ms s !! m) as [b|]; simpl in *;
    [|discriminate..|done].
  apply (inj Some) in H. rewrite H. by apply geom_frame_chain.
Qed.

Lemma geom_frame_on_monitor m l : on_monitor s m l → on_monitor s' m l.
Proof.
  unfold on_monitor. intros Hon. eapply Forall_impl; [exact Hon|].
  intros c (cl & Hc & Hm).
  pose proof (geom_frame_proj Client.monitor c ltac:(done)) as H.
  rewrite Hc in H. destruct (cs s' !! c) as [a|]; [|done].
  apply (inj Some) in H. exists a. split; [done|congruence].
Qed.

Lemma geom_frame_tiled_clients l : tiled_clients s' l = tiled_clients s l.
Proof.
  unfold tiled_clients. apply List.filter_ext. intros c.
  apply geom_frame_visible_tiled.
Qed.

Lemma geom_frame_tiled_from k p lt : tiled_from k s p lt → tiled_from k s' p lt.
Proof.
  intros (lc & Hch & Hall & Hf). exists lc. split; [|split].
  - by rewrite geom_frame_chain.
  - eapply Forall_impl; [exact Hall|]. intros c (cl & Hc & [mon Hmon]).
    pose proof (geom_frame_proj Client.monitor c ltac:(done)) as H.
    rewrite Hc in H. destruct (cs s' !! c) as [a|]; [|done].
    apply (inj Some) in H. exists a. split; [done|]. rewrite H.
    pose proof (geom_frame_mon_shape (Client.monitor cl)) as Hm.
    rewrite Hmon in Hm. destruct (ms s' !! Client.monitor cl); [eauto|done].
  - rewrite <- Hf. apply List.filter_ext. intros c.
    apply geom_frame_visible_tiled.
Qed.

End GeomFrameReads.

Lemma geom_frame_sym s s' : geom_frame s s' → geom_frame s' s.
Proof. intros (?&?&?&?&?&?&?). by repeat split. Qed.

(** ** Walking the tiled clients *)

Lemma is_tiled_lookup s c cl mon :
  cs s !! c = Some cl → ms s !! Client.monitor cl = Some mon →
  is_tiled s c = negb (Client.isFloating cl) && ISVISIBLEONTAG cl (curtags mon).
Proof.
  intros Hc Hm. unfold is_tiled, ISVISIBLE. by rewrite Hc, Hm.
Qed.

Lemma nexttiled_tiled_from fuel s p lt :
  tiled_from fuel s p lt → nexttiled fuel s p = Some (head lt).
Proof.
  intros (lc & Hch & Hall & <-). revert p lc Hch Hall.
  induction fuel as [|k IH]; intros [c|] lc Hch Hall; simpl in Hch;
    simplify_eq; try done.
  bind_inv Hch. apply fmap_Some in Hch as (l' & Hch & ->).
  apply Forall_cons in Hall as [(cl & Hcl & [mon Hmon]) Hall]. simplify_eq.
  simpl. rewrite Hx. simpl.
  rewrite (is_tiled_lookup _ _ _ _ Hx Hmon).
  unfold ISVISIBLE. rewrite Hmon. simpl.
  destruct (Client.isFloating x); simpl.
  - by apply IH.
  - destruct (ISVISIBLEONTAG x (curtags mon)); simpl; [done|]. by apply IH.
Qed.

Lemma tiled_from_refuel k k' s p lt :
  tiled_from k s p lt → (k ≤ k')%nat → tiled_from k' s p lt.
Proof.
  intros (lc & Hch & Hall & Hf) Hk. exists lc.
  split; [by eapply chain_list_mono|done].
Qed.

Lemma tiled_from_tail fuel s p c0 rest :
  tiled_from fuel s p (c0 :: rest) →
  ∃ cl0, cs s !! c0 = Some cl0 ∧ is_tiled s c0 = true
         ∧ tiled_from fuel s (Client.next cl0) rest.
Proof.
  intros (lc & Hch & Hall & Hf). revert fuel p Hch Hall Hf.
  induction lc as [|a lc IH]; intros fuel p Hch Hall Hf; [done|].
  destruct p as [p0|]; [|destruct fuel; done].
  apply chain_list_Some_inv in Hch as (k' & cl & l' & -> & Hc & E & Hch).
  injection E as <- <-. apply Forall_cons in Hall as [_ Hall]. simpl in Hf.
  destruct (is_tiled s a) eqn:Et.
  - injection Hf as <- <-. exists cl. split; [done|]. split; [done|].
    exists lc. split; [eapply chain_list_mono; [done|lia]|done].
  - destruct (IH k' _ Hch Hall Hf) as (cl0 & ? & ? & Ht).
    exists cl0. split; [done|]. split; [done|].
    eapply tiled_from_refuel; [done|lia].
Qed.

Lemma tiled_from_client_list fuel s m mon lc :
  ms s !! m = Some mon →
  client_list fuel s m = Some lc → on_monitor s m lc →
  tiled_from fuel s (Monitor.clients mon) (tiled_clients s lc).
Proof.
  intros Hm Hl Hon. unfold client_list in Hl. rewrite Hm in Hl. simpl in Hl.
  exists lc. split; [done|]. split; [|done].
  eapply Forall_impl; [exact Hon|]. intros c (cl & Hc & <-). eauto.
Qed.

(** ** What [resize] leaves behind *)

Lemma set_cs_same s : set_cs (cs s) s = s.
Proof. by destruct s. Qed.

Lemma resize_spec cfg fuel c x y w h i s cl mon lc :
  cs s !! c = Some cl →
  ms s !! Client.monitor cl = Some mon →
  client_list fuel s (Client.monitor cl) = Some lc →
  on_monitor s (Client.monitor cl) lc →
  resize cfg fuel c x y w h i s
  = Some (set_cs (<[c := resized cfg s (bool_decide (tiled_clients s lc = [c]))
                          cl mon x y w h i]> (cs s)) s).
Proof.
  intros Hc Hm Hl Hon. unfold resize, resized. rewrite Hc. simpl.
  rewrite Hm. simpl.
  destruct (applysizehints cfg s cl mon x y w h i)
    as [[[[x' y'] w'] h'] changed].
  destruct changed; [|by rewrite insert_id, set_cs_same].
  unfold resizeclient, updc. rewrite Hc. simpl.
  set (cl1 := Client.set_h h' _).
  set (s1 := set_cs (<[c := cl1]> (cs s)) s).
  assert (geom_frame s s1) as F.
  { repeat split; try done. simpl. by eapply fmap_insert_same. }
  change (cs s1 !! c) with ((<[c := cl1]> (cs s)) !! c).
  rewrite lookup_insert_eq. simpl.
  change (ms s1) with (ms s). change (Client.monitor cl1) with (Client.monitor cl).
  rewrite Hm. simpl.
  pose proof (tiled_from_client_list _ _ _ _ _ Hm Hl Hon) as Ht.
  apply (geom_frame_tiled_from _ _ F) in Ht.
  rewrite (nexttiled_tiled_from _ _ _ _ Ht). simpl.
  change (Client.isFullscreen cl1) with (Client.isFullscreen cl).
  change (Client.isFloating cl1) with (Client.isFloating cl).
  assert ((if decide (head (tiled_clients s lc) = Some c)
           then nexttiled fuel s1 (Client.next cl)
                ≫= λ nxt, Some (bool_decide (nxt = None))
           else Some false)
          = Some (bool_decide (tiled_clients s lc = [c]))) as ->.
  { destruct (tiled_clients s lc) as [|c0 rest] eqn:Elt; simpl.
    - done.
    - destruct (decide (Some c0 = Some c)) as [E|E].
      + simplify_eq.
        destruct (tiled_from_tail _ _ _ _ _ Ht) as (cl0 & Hcl0 & _ & Ht').
        change (cs s1 !! c) with ((<[c := cl1]> (cs s)) !! c) in Hcl0.
        rewrite lookup_insert_eq in Hcl0. apply (inj Some) in Hcl0. subst cl0.
        change (Client.next cl1) with (Client.next cl) in Ht'.
        rewrite (nexttiled_tiled_from _ _ _ _ Ht'). simpl. f_equal.
        destruct rest; simpl.
        * by rewrite !bool_decide_eq_true_2.
        * by rewrite !bool_decide_eq_false_2.
      + rewrite bool_decide_eq_false_2; [done|]. intros ?. simplify_eq. }
  simpl.
  match goal with |- (if ?b then _ else _) = _ => destruct b end; [|done].
  subst s1. simpl. by rewrite insert_insert_eq.
Qed.

(** ** The placing loops on the list of tiled clients *)

Lemma ins_all_notin placed h c :
  c ∉ map fst placed → ins_all placed h !! c = h !! c.
Proof.
  revert h. induction placed as [|[c0 cl0] placed IH]; intros h Hn; [done|].
  simpl in *. rewrite IH.
  - rewrite lookup_insert_ne; [done|]. intros ->. apply Hn. left.
  - intros Hin. apply Hn. by right.
Qed.

Lemma ins_all_in placed h c cl :
  NoDup (map fst placed) → (c, cl) ∈ placed → ins_all placed h !! c = Some cl.
Proof.
  revert h. induction placed as [|[c0 cl0] placed IH]; intros h Hnd Hin.
  - by apply elem_of_nil in Hin.
  - simpl in *. apply NoDup_cons in Hnd as [Hn Hnd].
    apply elem_of_cons in Hin as [E|Hin].
    + injection E as -> ->. rewrite ins_all_notin by done.
      apply lookup_insert_eq.
    + by apply IH.
Qed.

Lemma resized_shape cfg s sole cl mon x y w h i :
  Client.erase_geom (resized cfg s sole cl mon x y w h i) = Client.erase_geom cl.
Proof.
  unfold resized.
  destruct (applysizehints cfg s cl mon x y w h i) as [[[[??]?]?] []]; [|done].
  by case_match.
Qed.

Lemma resized_set_cs cfg hp s sole cl mon x y w h i :
  resized cfg (set_cs hp s) sole cl mon x y w h i
  = resized cfg s sole cl mon x y w h i.
Proof. reflexivity. Qed.

Lemma sole_by_length (l : list nat) c :
  c ∈ l → bool_decide (l = [c]) = bool_decide (length l = 1%nat).
Proof.
  intros Hin. destruct l as [|a [|b l]]; simpl.
  - by apply elem_of_nil in Hin.
  - apply list_elem_of_singleton in Hin as ->.
    by rewrite !bool_decide_eq_true_2.
  - by rewrite !bool_decide_eq_false_2.
Qed.

Section PlacingSpec.

Context {A : Type}.
Variable cfg : Config.t.
Variable propose : A → Monitor.t → Client.t → Z * Z * Z * Z.
Variable advance : A → Monitor.t → Client.t → Client.t → A.

Lemma place_list_keys s mon sole a recs :
  map fst (place_list cfg propose advance s mon sole a recs) = map fst recs.
Proof.
  revert a. induction recs as [|[c cl] recs IH]; intros a; [done|].
  simpl. destruct (propose a mon cl) as [[[??]?]?]. simpl. by rewrite IH.
Qed.

Lemma place_list_set_cs hp s mon sole a recs :
  place_list cfg propose advance (set_cs hp s) mon sole a recs
  = place_list cfg propose advance s mon sole a recs.
Proof.
  revert a. induction recs as [|[c cl] recs IH]; intros a; [done|].
  simpl. destruct (propose a mon cl) as [[[??]?]?].
  rewrite resized_set_cs. by rewrite IH.
Qed.

Lemma place_loop_spec fuel m mon lc sole recs :
  ∀ k a p s,
    ms s !! m = Some mon →
    client_list fuel s m = Some lc →
    on_monitor s m lc →
    sole = bool_decide (length (tiled_clients s lc) = 1%nat) →
    tiled_from fuel s p (map fst recs) →
    Forall (λ r, cs s !! r.1 = Some r.2 ∧ r.1 ∈ tiled_clients s lc
                 ∧ Client.monitor r.2 = m) recs →
    NoDup (map fst recs) →
    (length recs ≤ k)%nat →
    place_loop cfg propose advance fuel k m a (head (map fst recs)) s
    = Some (set_cs (ins_all (place_list cfg propose advance s mon sole a recs)
                            (cs s)) s).
Proof.
  induction recs as [|[c0 cl0] rest IH];
    intros k a p s Hm Hl Hon Hsole Ht Hrecs Hnd Hk.
  - simpl. destruct k; simpl; by rewrite set_cs_same.
  - destruct k as [|k]; [simpl in Hk; lia|].
    apply Forall_cons in Hrecs as [(Hc0 & Hin0 & Hmon0) Hrecs].
    simpl in Hc0, Hin0, Hmon0. simpl in Hnd.
    apply NoDup_cons in Hnd as [Hn0 Hnd].
    simpl. rewrite Hm. simpl. rewrite Hc0. simpl.
    destruct (propose a mon cl0) as [[[x y] w] h].
    subst m.
    rewrite (resize_spec cfg fuel c0 x y w h false s cl0 mon lc Hc0 Hm Hl Hon).
    simpl. rewrite (sole_by_length _ _ Hin0), <- Hsole.
    set (cl0' := resized cfg s sole cl0 mon x y w h false).
    set (s1 := set_cs (<[c0 := cl0']> (cs s)) s).
    assert (geom_frame s s1) as F.
    { repeat split; try done. simpl.
      eapply fmap_insert_same; [done|apply resized_shape]. }
    rewrite lookup_insert_eq. simpl.
    simpl in Ht.
    destruct (tiled_from_tail _ _ _ _ _ Ht) as (cl0_ & Hcl0_ & _ & Ht').
    rewrite Hc0 in Hcl0_. apply (inj Some) in Hcl0_. subst cl0_.
    apply (geom_frame_tiled_from _ _ F) in Ht'.
    assert (Client.next cl0' = Client.next cl0) as ->.
    { exact (f_equal Client.next (resized_shape cfg s sole cl0 mon x y w h false)). }
    rewrite (nexttiled_tiled_from _ _ _ _ Ht'). simpl.
    erewrite (IH k _ (Client.next cl0) s1); try done.
    + subst s1. simpl. by rewrite place_list_set_cs.
    + by rewrite (geom_frame_client_list s s1 F).
    + by apply (geom_frame_on_monitor s s1 F).
    + by rewrite (geom_frame_tiled_clients s s1 F).
    + apply Forall_forall. intros [c cl] Hin.
      rewrite Forall_forall in Hrecs.
      destruct (Hrecs _ Hin) as (Hc & Hin' & Hmon). simpl in *.
      split; [|split; [|done]].
      * subst s1. simpl. rewrite lookup_insert_ne; [done|].
        intros ->. apply Hn0. apply list_elem_of_In, in_map_iff.
        exists (c, cl). split; [done|]. by apply list_elem_of_In.
      * by rewrite (geom_frame_tiled_clients s s1 F).
    + simpl in Hk. lia.
Qed.

End PlacingSpec.

(** ** The three layouts as placing loops *)

Lemma updc_ms c f s s' : updc c f s = Some s' → ms s' = ms s.
Proof. unfold updc. intros H. bind_inv H. by simplify_eq. Qed.

Lemma resizeclient_ms fuel c x y w h s s' :
  resizeclient fuel c x y w h s = Some s' → ms s' = ms s.
Proof.
  unfold resizeclient. intros H. do 5 bind_inv H.
  apply updc_ms in Hx. case_match.
  - apply updc_ms in H. congruence.
  - by simplify_eq.
Qed.

Lemma resize_ms cfg fuel c x y w h i s s' :
  resize cfg fuel c x y w h i s = Some s' → ms s' = ms s.
Proof.
  unfold resize. intros H. do 2 bind_inv H.
  destruct (applysizehints _ _ _ _ _ _ _ _) as [[[[??]?]?] []].
  - by eapply resizeclient_ms.
  - by simplify_eq.
Qed.

Section LayoutsAsLoops.

Variable cfg : Config.t.

Lemma tile_loop_place fuel m n mw k :
  ∀ i my ty c s,
    tile_loop cfg fuel k m n mw i my ty c s
    = place_loop cfg (tile_propose n mw) tile_advance fuel k m (i, my, ty) c s.
Proof.
  induction k as [|k IH]; intros i my ty [c|] s; simpl; try done.
  destruct (ms s !! m) as [mon|] eqn:Hm; simpl; [|done].
  destruct (cs s !! c) as [cl|] eqn:Hc; simpl; [|done].
  destruct (i <? u32 (Monitor.nMaster mon)) eqn:Ei.
  - destruct (resize cfg fuel c _ _ _ _ false s) as [s1|] eqn:Hr; simpl; [|done].
    destruct (cs s1 !! c) as [cl1|]; simpl; [|done].
    rewrite (resize_ms _ _ _ _ _ _ _ _ _ _ Hr), Hm. simpl.
    destruct (nexttiled fuel s1 (Client.next cl1)); simpl; [|done].
    by rewrite IH.
  - destruct (resize cfg fuel c _ _ _ _ false s) as [s1|] eqn:Hr; simpl; [|done].
    destruct (cs s1 !! c) as [cl1|]; simpl; [|done].
    rewrite (resize_ms _ _ _ _ _ _ _ _ _ _ Hr), Hm. simpl.
    destruct (nexttiled fuel s1 (Client.next cl1)); simpl; [|done].
    by rewrite IH.
Qed.

Lemma dwindle_loop_place fuel m n k :
  ∀ a c s,
    dwindle_loop cfg fuel k m n a.1.1.1.1 a.1.1.1.2 a.1.1.2 a.1.2 a.2 c s
    = place_loop cfg (dwindle_propose n) (dwindle_advance n) fuel k m a c s.
Proof.
  induction k as [|k IH]; intros [[[[i nx] ny] nw] nh] [c|] s; simpl; try done.
  destruct (ms s !! m) as [mon|] eqn:Hm; simpl; [|done].
  destruct (cs s !! c) as [cl|] eqn:Hc; simpl; [|done].
  unfold dwindle_propose, dwindle_advance, dwindle_step.
  destruct (if (_ && _) || (_ && _) then _ else _)
    as [[[[i' nx'] ny'] nw'] nh'] eqn:Ee.
  destruct (resize cfg fuel c _ _ _ _ false s) as [s1|] eqn:Hr; simpl; [|done].
  destruct (cs s1 !! c) as [cl1|]; simpl; [|done].
  destruct (nexttiled fuel s1 (Client.next cl1)); simpl; [|done].
  by rewrite <- IH.
Qed.

Lemma monocle_loop_place fuel m k :
  ∀ c s,
    monocle_loop cfg fuel k m c s
    = place_loop cfg monocle_propose monocle_advance fuel k m tt c s.
Proof.
  induction k as [|k IH]; intros [c|] s; simpl; try done.
  destruct (ms s !! m) as [mon|] eqn:Hm; simpl; [|done].
  destruct (cs s !! c) as [cl|] eqn:Hc; simpl; [|done].
  destruct (resize cfg fuel c _ _ _ _ false s) as [s1|] eqn:Hr; simpl; [|done].
  destruct (cs s1 !! c) as [cl1|]; simpl; [|done].
  destruct (nexttiled fuel s1 (Client.next cl1)); simpl; [|done].
  by rewrite IH.
Qed.

End LayoutsAsLoops.

(** ** The layouts on a well-formed client list *)

Lemma count_tiled_spec fuel s lt :
  ∀ k p n0,
    tiled_from fuel s p lt → (length lt ≤ k)%nat →
    0 ≤ n0 → n0 + Z.of_nat (length lt) < 2 ^ 32 →
    count_tiled fuel k s (head lt) n0 = Some (n0 + Z.of_nat (length lt)).
Proof.
  induction lt as [|c0 rest IH]; intros k p n0 Ht Hk Hn0 Hlt.
  - destruct k; simpl; f_equal; lia.
  - destruct k as [|k]; [simpl in Hk; lia|].
    destruct (tiled_from_tail _ _ _ _ _ Ht) as (cl0 & Hcl0 & _ & Ht').
    simpl. rewrite Hcl0. simpl.
    rewrite (nexttiled_tiled_from _ _ _ _ Ht'). simpl.
    simpl length in Hlt.
    assert (u32 (n0 + 1) = n0 + 1) as ->.
    { unfold u32. apply Z.mod_small. lia. }
    erewrite IH; [f_equal; lia|exact Ht'|simpl in Hk; lia|lia|lia].
Qed.

Lemma count_visible_spec s lc :
  ∀ k p n0,
    chain_list Client.next k (cs s) p = Some lc →
    Forall (λ c, ∃ cl, cs s !! c = Some cl
                       ∧ is_Some (ms s !! Client.monitor cl)) lc →
    0 ≤ n0 → n0 + Z.of_nat (length lc) < 2 ^ 32 →
    count_visible k s p n0
    = Some (n0 + Z.of_nat (length (visible_clients s lc))).
Proof.
  induction lc as [|c0 rest IH]; intros k p n0 Hch Hall Hn0 Hlt.
  - destruct p as [p0|].
    + apply chain_list_Some_inv in Hch as (? & ? & ? & _ & _ & ? & _). done.
    + destruct k; simpl; f_equal; lia.
  - destruct p as [p0|]; [|destruct k; done].
    apply chain_list_Some_inv in Hch as (k' & cl & l' & -> & Hc & E & Hch).
    injection E as <- <-.
    apply Forall_cons in Hall as [(cl' & Hcl' & [mon Hmon]) Hall].
    rewrite Hc in Hcl'. apply (inj Some) in Hcl'. subst cl'.
    simpl. rewrite Hc. simpl. unfold ISVISIBLE at 1. rewrite Hmon. simpl.
    unfold visible_clients. simpl. unfold is_visible at 1.
    rewrite Hc. unfold ISVISIBLE. rewrite Hmon. simpl.
    simpl length in Hlt.
    pose proof (List.filter_length_le (is_visible s) rest) as Hle.
    destruct (ISVISIBLEONTAG cl (curtags mon)).
    + assert (u32 (n0 + 1) = n0 + 1) as ->.
      { unfold u32. apply Z.mod_small. lia. }
      erewrite IH; [|done|done|lia|lia].
      unfold visible_clients. simpl length. f_equal. lia.
    + erewrite IH; [|done|done|lia|lia]. done.
Qed.

Lemma records_cons s c cl l :
  cs s !! c = Some cl → records s (c :: l) = (c, cl) :: records s l.
Proof. intros H. unfold records. simpl. by rewrite H. Qed.

Lemma records_spec s l :
  Forall (λ c, is_Some (cs s !! c)) l →
  map fst (records s l) = l
  ∧ Forall (λ r, cs s !! r.1 = Some r.2) (records s l).
Proof.
  induction l as [|c l IH]; intros Hall; [done|].
  apply Forall_cons in Hall as [[cl Hcl] Hall].
  destruct (IH Hall) as [IH1 IH2].
  rewrite (records_cons _ _ _ _ Hcl). simpl.
  split; [by rewrite IH1|]. by constructor.
Qed.

(** What the hypotheses on a client list give for its tiled clients. *)
Lemma tiled_records s m mon fuel lc :
  ms s !! m = Some mon →
  client_list fuel s m = Some lc →
  on_monitor s m lc →
  let lt := tiled_clients s lc in
  map fst (records s lt) = lt
  ∧ Forall (λ r, cs s !! r.1 = Some r.2 ∧ r.1 ∈ lt ∧ Client.monitor r.2 = m)
           (records s lt)
  ∧ NoDup lt ∧ (length lt ≤ fuel)%nat ∧ (length lt ≤ length lc)%nat.
Proof.
  intros Hm Hl Hon lt.
  assert (∀ c, c ∈ lt → c ∈ lc) as Hsub.
  { intros c Hin. apply list_elem_of_In in Hin.
    apply List.filter_In in Hin as [Hin _]. by apply list_elem_of_In. }
  unfold on_monitor in Hon. rewrite Forall_forall in Hon.
  destruct (records_spec s lt) as [Hk Hr].
  { apply Forall_forall. intros c Hin.
    destruct (Hon c (Hsub c Hin)) as (cl & -> & _). eauto. }
  unfold client_list in Hl. rewrite Hm in Hl. simpl in Hl.
  pose proof (List.filter_length_le (is_tiled s) lc) as Hle.
  fold (tiled_clients s lc) in Hle. fold lt in Hle.
  split; [done|]. split; [|split; [|split; [|done]]].
  - apply Forall_forall. intros [c cl] Hin.
    rewrite Forall_forall in Hr. pose proof (Hr _ Hin) as Hc. simpl in *.
    assert (c ∈ lt) as Hc'.
    { rewrite <- Hk. apply list_elem_of_In, in_map_iff.
      exists (c, cl). split; [done|]. by apply list_elem_of_In. }
    split; [done|]. split; [done|].
    destruct (Hon c (Hsub c Hc')) as (cl' & Hcl' & Hmon). congruence.
  - apply NoDup_ListNoDup, List.NoDup_filter, NoDup_ListNoDup.
    by eapply chain_list_NoDup.
  - apply chain_list_length in Hl. lia.
Qed.

Section LayoutSpecs.

Variable cfg : Config.t.

Lemma tile_spec fuel m s mon lc :
  ms s !! m = Some mon →
  client_list fuel s m = Some lc →
  on_monitor s m lc →
  Z.of_nat (length lc) < 2 ^ 32 →
  tile cfg fuel m s
  = Some (if Z.of_nat (length (tiled_clients s lc)) =? 0 then s
          else set_cs (ins_all (tile_placed cfg s mon lc) (cs s)) s).
Proof.
  intros Hm Hl Hon Hlen.
  destruct (tiled_records s m mon fuel lc Hm Hl Hon)
    as (Hk & Hr & Hnd & Hf & Hle).
  pose proof (tiled_from_client_list _ _ _ _ _ Hm Hl Hon) as Ht.
  unfold tile. rewrite Hm. simpl.
  rewrite (nexttiled_tiled_from _ _ _ _ Ht). simpl.
  erewrite count_tiled_spec; [|exact Ht|done|lia|lia]. simpl.
  rewrite Z.add_0_l.
  destruct (Z.of_nat (length (tiled_clients s lc)) =? 0) eqn:E; [done|].
  rewrite tile_loop_place.
  pose proof (place_loop_spec cfg
                (tile_propose (Z.of_nat (length (tiled_clients s lc)))
                   (tile_mw mon (Z.of_nat (length (tiled_clients s lc)))))
                tile_advance fuel m mon lc _ (records s (tiled_clients s lc))
                fuel (0, 0, 0) (Monitor.clients mon) s Hm Hl Hon eq_refl) as Hp.
  rewrite Hk in Hp. apply Hp; [done|done|done|].
  rewrite <- Hk in Hf. by rewrite length_map in Hf.
Qed.

Lemma dwindle_spec fuel m s mon lc :
  ms s !! m = Some mon →
  client_list fuel s m = Some lc →
  on_monitor s m lc →
  Z.of_nat (length lc) < 2 ^ 32 →
  dwindle cfg fuel m s
  = Some (if Z.of_nat (length (tiled_clients s lc)) =? 0 then s
          else set_cs (ins_all (dwindle_placed cfg s mon lc) (cs s)) s).
Proof.
  intros Hm Hl Hon Hlen.
  destruct (tiled_records s m mon fuel lc Hm Hl Hon)
    as (Hk & Hr & Hnd & Hf & Hle).
  pose proof (tiled_from_client_list _ _ _ _ _ Hm Hl Hon) as Ht.
  unfold dwindle. rewrite Hm. simpl.
  rewrite (nexttiled_tiled_from _ _ _ _ Ht). simpl.
  erewrite count_tiled_spec; [|exact Ht|done|lia|lia]. simpl.
  rewrite Z.add_0_l.
  destruct (Z.of_nat (length (tiled_clients s lc)) =? 0) eqn:E; [done|].
  rewrite (dwindle_loop_place cfg fuel m _ fuel
             (0, u32 (Monitor.windowX mon), 0, u32 (Monitor.windowWidth mon),
              u32 (Monitor.windowHeight mon))).
  pose proof (place_loop_spec cfg
                (dwindle_propose (Z.of_nat (length (tiled_clients s lc))))
                (dwindle_advance (Z.of_nat (length (tiled_clients s lc))))
                fuel m mon lc _ (records s (tiled_clients s lc))
                fuel (0, u32 (Monitor.windowX mon), 0,
                      u32 (Monitor.windowWidth mon),
                      u32 (Monitor.windowHeight mon))
                (Monitor.clients mon) s Hm Hl Hon eq_refl) as Hp.
  rewrite Hk in Hp. apply Hp; [done|done|done|].
  rewrite <- Hk in Hf. by rewrite length_map in Hf.
Qed.

End LayoutSpecs.

Section MonocleSpec.

Variable cfg : Config.t.

Lemma place_list_set_ms {A} (propose : A → Monitor.t → Client.t → Z * Z * Z * Z)
    (advance : A → Monitor.t → Client.t → Client.t → A) hm s mon sole a recs :
  place_list cfg propose advance (set_ms hm s) mon sole a recs
  = place_list cfg propose advance s mon sole a recs.
Proof.
  revert a. induction recs as [|[c cl] recs IH]; intros a; [done|].
  simpl. destruct (propose a mon cl) as [[[??]?]?].
  rewrite IH. reflexivity.
Qed.

(** The monitor as [monocle] leaves it: the symbol is overwritten when
    the count is positive. *)
Lemma monocle_spec fuel m s mon lc :
  ms s !! m = Some mon →
  client_list fuel s m = Some lc →
  on_monitor s m lc →
  Z.of_nat (length lc) < 2 ^ 32 →
  let nv := Z.of_nat (length (visible_clients s lc)) in
  let mon1 := if 0 <? nv then Monitor.set_layoutSymbol (monocle_symbol nv) mon
              else mon in
  monocle cfg fuel m s
  = Some (set_cs (ins_all (monocle_placed cfg s mon1 lc) (cs s))
                 (set_ms (<[m := mon1]> (ms s)) s)).
Proof.
  intros Hm Hl Hon Hlen nv mon1.
  unfold monocle. rewrite Hm. simpl.
  assert (chain_list Client.next fuel (cs s) (Monitor.clients mon) = Some lc)
    as Hch.
  { unfold client_list in Hl. by rewrite Hm in Hl. }
  erewrite count_visible_spec;
    [|exact Hch|by eapply on_monitor_allocated|lia|lia].
  rewrite Z.add_0_l. simpl. fold nv.
  set (s1 := set_ms (<[m := mon1]> (ms s)) s).
  assert ((if 0 <? nv
           then updm m (Monitor.set_layoutSymbol (monocle_symbol nv)) s
           else Some s) = Some s1) as ->.
  { subst s1 mon1. destruct (0 <? nv).
    - unfold updm. by rewrite Hm.
    - by rewrite insert_id, (match s with mkState _ _ _ _ _ _ _ => eq_refl end
                              : set_ms (ms s) s = s). }
  simpl.
  assert (geom_frame s s1) as F.
  { subst s1. repeat split; try done. simpl.
    eapply fmap_insert_same; [done|]. subst mon1. by destruct (0 <? nv). }
  assert (ms s1 !! m = Some mon1) as Hm1.
  { subst s1. simpl. apply lookup_insert_eq. }
  assert (client_list fuel s1 m = Some lc) as Hl1.
  { by rewrite (geom_frame_client_list s s1 F). }
  pose proof (geom_frame_on_monitor s s1 F _ _ Hon) as Hon1.
  destruct (tiled_records s1 m mon1 fuel lc Hm1 Hl1 Hon1)
    as (Hk & Hr & Hnd & Hf & Hle).
  pose proof (tiled_from_client_list _ _ _ _ _ Hm1 Hl1 Hon1) as Ht.
  change (<[m:=mon1]> (ms s) !! m) with (ms s1 !! m).
  rewrite Hm1. simpl.
  rewrite (nexttiled_tiled_from _ _ _ _ Ht). simpl.
  rewrite monocle_loop_place.
  pose proof (place_loop_spec cfg monocle_propose monocle_advance fuel m mon1 lc
                _ (records s1 (tiled_clients s1 lc)) fuel tt
                (Monitor.clients mon1) s1 Hm1 Hl1 Hon1 eq_refl) as Hp.
  rewrite Hk in Hp. rewrite Hp; [|done|done|done|].
  - unfold monocle_placed.
    rewrite (geom_frame_tiled_clients s s1 F).
    subst s1. by rewrite place_list_set_ms.
  - rewrite <- Hk in Hf. by rewrite length_map in Hf.
Qed.

End MonocleSpec.

(** * Size hints *)

Lemma MAX_max a b : MAX a b = Z.max a b.
Proof. unfold MAX. zbool; lia. Qed.

Lemma MIN_min a b : MIN a b = Z.min a b.
Proof. unfold MIN. zbool; lia. Qed.

Lemma adj_size_lower bh hints minv v :
  1 ≤ adj_size bh hints minv v ∧ MAX 1 v ≤ adj_size bh hints minv v.
Proof. unfold adj_size. cbv zeta. rewrite !MAX_max. destruct hints; zbool; lia. Qed.

Lemma adj_size_idemp bh hints minv v :
  adj_size bh hints minv (adj_size bh hints minv v) = adj_size bh hints minv v.
Proof. unfold adj_size. cbv zeta. rewrite !MAX_max. destruct hints; zbool; lia. Qed.

Lemma adj_pos_idemp interact scr lo ext cw bw sz sz' v :
  0 ≤ scr → 0 < ext → sz ≤ sz' →
  adj_pos interact scr lo ext cw bw sz' (adj_pos interact scr lo ext cw bw sz v)
  = adj_pos interact scr lo ext cw bw sz v.
Proof. intros. unfold adj_pos. cbv zeta. destruct interact; zbool; lia. Qed.

Section SizeHints.

Variable cfg : Config.t.

(** Without aspect limits, increments and maximum sizes the four values
    are adjusted independently. *)
Lemma adjust_without_limits s c m i x y w h :
  no_aspect c → no_increments c → no_max c →
  adjust cfg s c m i (x, y, w, h)
  = (adj_pos i (screenWidth s) (Monitor.windowX m) (Monitor.windowWidth m)
       (WIDTH c) (Client.borderWidth c) (MAX 1 w) x,
     adj_pos i (screenHeight s) (Monitor.windowY m) (Monitor.windowHeight m)
       (HEIGHT c) (Client.borderWidth c) (MAX 1 h) y,
     adj_size (barHeight s) (respects_hints cfg c m) (Client.minw c) w,
     adj_size (barHeight s) (respects_hints cfg c m) (Client.minh c) h).
Proof.
  intros Ha [Hiw Hih] [Hxw Hxh].
  unfold adjust, applysizehints, adj_pos, adj_size, respects_hints.
  unfold no_aspect in Ha. rewrite Ha, Hiw, Hih, Hxw, Hxh. simpl.
  destruct i; simpl;
    destruct (Config.resizeHints cfg || Client.isFloating c
              || bool_decide (arrange_fn (curlayout m) = None)); simpl;
    try reflexivity;
    destruct ((Client.basew c =? Client.minw c)
              && (Client.baseh c =? Client.minh c)); simpl;
    repeat f_equal; lia.
Qed.

End SizeHints.

(** C3, as amended. For a client without aspect limits, resize increments
    and maximum size, on a screen of non-negative size and a monitor whose
    window area is not empty, [applysizehints] is idempotent: applied to
    its own output, with the same client, monitor and [interact] flag, it
    returns that output. *)
Theorem applysizehints_idempotent_without_limits (cfg : Config.t) (s : State)
    (c : Client.t) (m : Monitor.t) (interact : bool) (g : Z * Z * Z * Z) :
  no_aspect c → no_increments c → no_max c →
  0 ≤ screenWidth s → 0 ≤ screenHeight s →
  0 < Monitor.windowWidth m → 0 < Monitor.windowHeight m →
  adjust cfg s c m interact (adjust cfg s c m interact g)
  = adjust cfg s c m interact g.
Proof.
  intros Ha Hi Hx Hsw Hsh Hww Hwh.
  destruct g as [[[x y] w] h].
  rewrite (adjust_without_limits cfg s c m interact x y w h) by done.
  rewrite adjust_without_limits by done.
  pose proof (adj_size_lower (barHeight s) (respects_hints cfg c m)
                (Client.minw c) w) as [Hw1 Hw2].
  pose proof (adj_size_lower (barHeight s) (respects_hints cfg c m)
                (Client.minh c) h) as [Hh1 Hh2].
  rewrite !adj_size_idemp.
  rewrite !adj_pos_idemp; [done|done|done| |done|done|].
  - rewrite (MAX_max 1 (adj_size _ _ _ h)). lia.
  - rewrite (MAX_max 1 (adj_size _ _ _ w)). lia.
Qed.

Lemma applysizehints_idempotent_without_limits_witness :
  let c := plain_client 0 1 false 0 0 498 798 1 None None in
  let once := adjust config_def empty_monitor c bare_monitor false
                (2000, -5, 0, 7) in
  once = (1000 - 500, -5, 20, 20)
  ∧ adjust config_def empty_monitor c bare_monitor false once = once.
Proof.
  intros c once. split; [vm_compute; reflexivity|].
  apply (applysizehints_idempotent_without_limits config_def empty_monitor c
           bare_monitor false (2000, -5, 0, 7)).
  - reflexivity.
  - split; reflexivity.
  - split; reflexivity.
  - simpl; lia.
  - simpl; lia.
  - simpl; lia.
  - simpl; lia.
Defined.

(** The claim of C3 as written fails: a client with a maximum width of 25
    and a width increment of 10, asked for a width of 100, is given 25, and
    20 when the adjustment is applied to that. *)
Lemma applysizehints_stepped_twice :
  adjust config_def empty_monitor stepped_client bare_monitor true
    (0, 0, 100, 100) = (0, 0, 25, 100)
  ∧ adjust config_def empty_monitor stepped_client bare_monitor true
      (0, 0, 25, 100) = (0, 0, 20, 100)
  ∧ ¬ (∀ (s : State) (c : Client.t) (m : Monitor.t) (i : bool)
         (g : Z * Z * Z * Z),
         adjust config_def s c m i (adjust config_def s c m i g)
         = adjust config_def s c m i g).
Proof.
  split; [vm_compute; reflexivity|]. split; [vm_compute; reflexivity|].
  intros H.
  specialize (H empty_monitor stepped_client bare_monitor true (0, 0, 100, 100)).
  vm_compute in H. discriminate H.
Qed.

(** ** The geometry [resize] leaves *)

Section ResizedGeometry.

Variable cfg : Config.t.

Lemma applysizehints_adjust s c m x y w h i :
  applysizehints cfg s c m x y w h i
  = (adjust cfg s c m i (x, y, w, h),
     differs c (adjust cfg s c m i (x, y, w, h))).
Proof.
  unfold adjust.
  destruct (applysizehints cfg s c m x y w h i) as [[[[x' y'] w'] h'] b] eqn:E.
  simpl. f_equal.
  unfold applysizehints in E.
  repeat match type of E with
  | context [let '(_, _) := ?e in _] => destruct e
  end.
  by injection E as <- <- <- <- <-.
Qed.

(** The rectangle the client ends with: the adjusted one, grown by the
    border when the border is dropped. *)
Lemma resized_geometry s sole cl mon x y w h i :
  let g := adjust cfg s cl mon i (x, y, w, h) in
  let r := resized cfg s sole cl mon x y w h i in
  let d := if differs cl g && grows sole cl mon
           then 2 * Client.borderWidth cl else 0 in
  geometry r = (g.1.1.1, g.1.1.2, g.1.2 + d, g.2 + d)
  ∧ Client.erase_geom r = Client.erase_geom cl.
Proof.
  intros g r d. split; [|apply resized_shape].
  subst r d. unfold resized. rewrite applysizehints_adjust. fold g.
  destruct g as [[[x' y'] w'] h'] eqn:Eg. cbv beta iota zeta.
  destruct (differs cl (x', y', w', h')) eqn:Ed; simpl.
  - unfold grows. destruct cl; simpl.
    repeat case_match; simpl; unfold geometry; simpl;
      repeat (apply pair_equal_spec; split); lia.
  - unfold differs in Ed. apply negb_false_iff in Ed.
    repeat (apply andb_true_iff in Ed as [Ed ?]).
    repeat match goal with H : (_ =? _) = true |- _ => apply Z.eqb_eq in H end.
    unfold geometry. repeat (apply pair_equal_spec; split); lia.
Qed.

End ResizedGeometry.

(** ** Rectangles that pass [applysizehints] unchanged *)

Lemma adj_pos_fits scr lo ext cw bw sz v :
  lo ≤ v < lo + ext → 1 ≤ sz → 0 ≤ bw →
  adj_pos false scr lo ext cw bw sz v = v.
Proof. intros. unfold adj_pos. cbv zeta. zbool; lia. Qed.

Lemma adj_size_fits bh hints minv v :
  Z.max 1 bh ≤ v → minv ≤ v → adj_size bh hints minv v = v.
Proof.
  intros. unfold adj_size. cbv zeta. rewrite !MAX_max.
  destruct hints; zbool; lia.
Qed.

Lemma MAX_1_lower v : 1 ≤ MAX 1 v.
Proof. rewrite MAX_max. lia. Qed.

Lemma records_elem s l c cl :
  c ∈ l → cs s !! c = Some cl → (c, cl) ∈ records s l.
Proof.
  intros Hin Hc. unfold records. apply list_elem_of_omap.
  exists c. split; [done|]. by rewrite Hc.
Qed.

Lemma is_tiled_not_floating s c cl :
  is_tiled s c = true → cs s !! c = Some cl → Client.isFloating cl = false.
Proof.
  unfold is_tiled. intros H Hc. rewrite Hc in H.
  apply andb_true_iff in H as [H _]. by apply negb_true_iff in H.
Qed.

Lemma tiled_clients_elem s lc c :
  c ∈ tiled_clients s lc ↔ c ∈ lc ∧ is_tiled s c = true.
Proof.
  unfold tiled_clients. rewrite !list_elem_of_In. apply List.filter_In.
Qed.

Lemma resized_same cfg s sole cl mon x y w h i :
  differs cl (adjust cfg s cl mon i (x, y, w, h)) = false →
  resized cfg s sole cl mon x y w h i = cl.
Proof.
  intros H. unfold resized. rewrite applysizehints_adjust.
  destruct (adjust cfg s cl mon i (x, y, w, h)) as [[[x' y'] w'] h'].
  cbv beta iota zeta. by rewrite H.
Qed.

Section PlacingConst.

Context {A : Type}.
Variable cfg : Config.t.
Variable propose : A → Monitor.t → Client.t → Z * Z * Z * Z.
Variable advance : A → Monitor.t → Client.t → Client.t → A.

(** A loop whose variables stay put treats every client alike. *)
Lemma place_list_const s mon sole a recs c cl :
  (∀ mon cl cl', advance a mon cl cl' = a) →
  (c, cl) ∈ recs →
  (c, let '(x, y, w, h) := propose a mon cl in
      resized cfg s sole cl mon x y w h false)
  ∈ place_list cfg propose advance s mon sole a recs.
Proof.
  intros Ha. induction recs as [|[c0 cl0] recs IH]; intros Hin.
  - by apply elem_of_nil in Hin.
  - simpl. destruct (propose a mon cl0) as [[[x0 y0] w0] h0] eqn:E0.
    apply elem_of_cons in Hin as [E|Hin].
    + injection E as -> ->. rewrite E0. apply elem_of_cons. by left.
    + apply elem_of_cons. right. rewrite Ha. by apply IH.
Qed.

End PlacingConst.

(** * The monocle layout *)

Lemma resized_symbol cfg s sole cl mon sym x y w h i :
  resized cfg s sole cl (Monitor.set_layoutSymbol sym mon) x y w h i
  = resized cfg s sole cl mon x y w h i.
Proof. by destruct mon. Qed.

(** A tiled client without size hints in the monocle layout: the window
    area, unless the client sits there inside its border already. *)
Lemma resized_monocle cfg s sole cl mon :
  arrange_fn (curlayout mon) = Some Monocle →
  hint_free cl → Client.isFullscreen cl = false → Client.isFloating cl = false →
  has_room s (Monitor.windowWidth mon) cl →
  has_room s (Monitor.windowHeight mon) cl →
  let bw := Client.borderWidth cl in
  let r := resized cfg s sole cl mon (Monitor.windowX mon) (Monitor.windowY mon)
             (Monitor.windowWidth mon - 2 * bw)
             (Monitor.windowHeight mon - 2 * bw) false in
  geometry r = (Monitor.windowX mon, Monitor.windowY mon,
                Monitor.windowWidth mon, Monitor.windowHeight mon)
  ∨ (r = cl
     ∧ geometry cl = (Monitor.windowX mon, Monitor.windowY mon,
                      Monitor.windowWidth mon - 2 * bw,
                      Monitor.windowHeight mon - 2 * bw)).
Proof.
  intros Hm (Ha & Hi & Hx & Hbw & Hbh & Hmw & Hmh) Hfs Hfl [Hb Hw] [_ Hh] bw r.
  pose proof (resized_geometry cfg s sole cl mon (Monitor.windowX mon)
                (Monitor.windowY mon) (Monitor.windowWidth mon - 2 * bw)
                (Monitor.windowHeight mon - 2 * bw) false) as [Hg _].
  cbv zeta in Hg. fold r in Hg.
  assert (adjust cfg s cl mon false
            (Monitor.windowX mon, Monitor.windowY mon,
             Monitor.windowWidth mon - 2 * bw,
             Monitor.windowHeight mon - 2 * bw)
          = (Monitor.windowX mon, Monitor.windowY mon,
             Monitor.windowWidth mon - 2 * bw,
             Monitor.windowHeight mon - 2 * bw)) as Hadj.
  { rewrite adjust_without_limits by done.
    rewrite !adj_pos_fits, !adj_size_fits;
      [done|fold bw; lia..|apply MAX_1_lower|done|fold bw; lia
      |apply MAX_1_lower|done]. }
  rewrite Hadj in Hg. cbn [fst snd] in Hg.
  assert (grows sole cl mon = true) as Hgr.
  { unfold grows. rewrite Hm, Hfs, Hfl, orb_true_r. done. }
  rewrite Hgr, andb_true_r in Hg.
  destruct (differs cl _) eqn:Ed in Hg.
  - left. rewrite Hg. fold bw.
    repeat (apply pair_equal_spec; split); lia.
  - right. assert (r = cl) as Hr.
    { subst r. apply resized_same. by rewrite Hadj. }
    split; [done|]. rewrite Hr in Hg. rewrite Hg.
    repeat (apply pair_equal_spec; split); lia.
Qed.

(** C6, as amended. [monocle] counts the clients of the monitor that are
    shown, floating ones included, and when that count is positive it
    overwrites the layout symbol with the count in brackets. It resizes
    every tiled client; in the monocle layout a tiled client that has no
    size hints, is not fullscreen and whose border leaves room in the
    window area ends with exactly the window area as its geometry (its
    border is dropped), unless it sat at the window area shrunk by its
    border already, in which case it is left as it was. No other client
    is touched. *)
Theorem monocle_counts_visible_clients (cfg : Config.t) (fuel : nat)
    (m : nat) (s : State) (mon : Monitor.t) (lc : list nat) :
  ms s !! m = Some mon →
  client_list fuel s m = Some lc →
  on_monitor s m lc →
  Z.of_nat (length lc) < 2 ^ 32 →
  arrange_fn (curlayout mon) = Some Monocle →
  let nv := Z.of_nat (length (visible_clients s lc)) in
  ∃ s' mon',
    monocle cfg fuel m s = Some s'
    ∧ ms s' !! m = Some mon'
    ∧ Monitor.layoutSymbol mon'
      = (if 0 <? nv then monocle_symbol nv else Monitor.layoutSymbol mon)
    ∧ (∀ c cl,
         c ∈ tiled_clients s lc → cs s !! c = Some cl →
         hint_free cl → Client.isFullscreen cl = false →
         has_room s (Monitor.windowWidth mon) cl →
         has_room s (Monitor.windowHeight mon) cl →
         ∃ cl', cs s' !! c = Some cl'
           ∧ (geometry cl'
              = (Monitor.windowX mon, Monitor.windowY mon,
                 Monitor.windowWidth mon, Monitor.windowHeight mon)
              ∨ (cl' = cl
                 ∧ geometry cl
                   = (Monitor.windowX mon, Monitor.windowY mon,
                      Monitor.windowWidth mon - 2 * Client.borderWidth cl,
                      Monitor.windowHeight mon - 2 * Client.borderWidth cl))))
    ∧ (∀ c, c ∉ tiled_clients s lc → cs s' !! c = cs s !! c).
Proof.
  intros Hm Hl Hon Hlen Hlay nv.
  pose proof (monocle_spec cfg fuel m s mon lc Hm Hl Hon Hlen) as Hs.
  cbv zeta in Hs. fold nv in Hs.
  set (mon1 := if 0 <? nv then Monitor.set_layoutSymbol (monocle_symbol nv) mon
               else mon) in Hs.
  destruct (tiled_records s m mon fuel lc Hm Hl Hon) as (Hk & Hr & Hnd & _).
  assert (map fst (monocle_placed cfg s mon1 lc) = tiled_clients s lc) as Hkeys.
  { unfold monocle_placed. by rewrite place_list_keys. }
  eexists _, mon1. split; [exact Hs|]. split; [apply lookup_insert_eq|].
  split; [subst mon1; by destruct (0 <? nv)|]. split.
  - intros c cl Hc Hcl Hhf Hfs Hrw Hrh.
    pose proof (proj1 (tiled_clients_elem s lc c) Hc) as [_ Ht].
    pose proof (is_tiled_not_floating s c cl Ht Hcl) as Hfl.
    pose proof (place_list_const cfg monocle_propose monocle_advance s mon1
                  (bool_decide (length (tiled_clients s lc) = 1%nat)) tt
                  (records s (tiled_clients s lc)) c cl
                  (λ _ _ _, eq_refl) (records_elem s _ c cl Hc Hcl)) as Hin.
    eexists. split.
    + simpl. apply ins_all_in; [by rewrite Hkeys|exact Hin].
    + unfold monocle_propose.
      assert (∀ sole x y w h,
                resized cfg s sole cl mon1 x y w h false
                = resized cfg s sole cl mon x y w h false) as ->.
      { intros. subst mon1. destruct (0 <? nv); [|done].
        apply resized_symbol. }
      assert (Monitor.windowX mon1 = Monitor.windowX mon
              ∧ Monitor.windowY mon1 = Monitor.windowY mon
              ∧ Monitor.windowWidth mon1 = Monitor.windowWidth mon
              ∧ Monitor.windowHeight mon1 = Monitor.windowHeight mon)
        as (-> & -> & -> & ->).
      { subst mon1. destruct (0 <? nv); [|done]. by destruct mon. }
      by apply resized_monocle.
  - intros c Hc. simpl. apply ins_all_notin. by rewrite Hkeys.
Qed.

(** [on_monitor] by evaluation. *)
Lemma on_monitor_decide s m l :
  forallb (λ c, match cs s !! c with
                | Some cl => bool_decide (Client.monitor cl = m)
                | None => false
                end) l = true →
  on_monitor s m l.
Proof.
  intros H. apply Forall_forall. intros c Hin.
  rewrite forallb_forall in H. apply list_elem_of_In in Hin.
  specialize (H c Hin). destruct (cs s !! c) as [cl|]; [|done].
  apply bool_decide_eq_true in H. eauto.
Qed.

Lemma monocle_counts_visible_clients_witness :
  let s := tiled_and_floating in
  let mon := plain_monitor layout_monocle 1 1000 800
               (Some 1%nat) (Some 1%nat) (Some 1%nat) None in
  let lc := [1%nat; 2%nat] in
  (ms s !! 0%nat = Some mon ∧ client_list 8 s 0 = Some lc
   ∧ visible_clients s lc = lc ∧ tiled_clients s lc = [1%nat])
  ∧ ∃ s' mon',
      monocle config_def 8 0 s = Some s'
      ∧ ms s' !! 0%nat = Some mon'
      ∧ Monitor.layoutSymbol mon' = (if 0 <? 2 then monocle_symbol 2
                                     else Monitor.layoutSymbol mon)
      ∧ (∀ c cl,
           c ∈ tiled_clients s lc → cs s !! c = Some cl →
           hint_free cl → Client.isFullscreen cl = false →
           has_room s (Monitor.windowWidth mon) cl →
           has_room s (Monitor.windowHeight mon) cl →
           ∃ cl', cs s' !! c = Some cl'
             ∧ (geometry cl'
                = (Monitor.windowX mon, Monitor.windowY mon,
                   Monitor.windowWidth mon, Monitor.windowHeight mon)
                ∨ (cl' = cl
                   ∧ geometry cl
                     = (Monitor.windowX mon, Monitor.windowY mon,
                        Monitor.windowWidth mon - 2 * Client.borderWidth cl,
                        Monitor.windowHeight mon
                        - 2 * Client.borderWidth cl))))
      ∧ (∀ c, c ∉ tiled_clients s lc → cs s' !! c = cs s !! c).
Proof.
  intros s mon lc. split.
  - repeat split; vm_compute; reflexivity.
  - apply (monocle_counts_visible_clients config_def 8 0 s mon lc).
    + vm_compute; reflexivity.
    + vm_compute; reflexivity.
    + apply on_monitor_decide. vm_compute; reflexivity.
    + simpl; lia.
    + reflexivity.
Defined.

(** The claim of C6 as written fails on the symbol: with one tiled and
    one floating client shown, the tiled-client count is 1 and the symbol
    is overwritten with [[2]]. *)
Lemma monocle_symbol_counts_floating_client :
  client_list 8 tiled_and_floating 0 = Some [1%nat; 2%nat]
  ∧ tiled_clients tiled_and_floating [1%nat; 2%nat] = [1%nat]
  ∧ (s' ← monocle config_def 8 0 tiled_and_floating;
     mon' ← ms s' !! 0%nat;
     Some (Monitor.layoutSymbol mon')) = Some "[2]"%string
  ∧ monocle_symbol 1 = "[1]"%string.
Proof. repeat split; vm_compute; reflexivity. Qed.

(** * The dwindle layout *)

Lemma u32_small z : 0 ≤ z < 2 ^ 32 → u32 z = z.
Proof. intros. unfold u32. by apply Z.mod_small. Qed.

Lemma s32_u32 z : - 2 ^ 31 ≤ z < 2 ^ 31 → s32 (u32 z) = z.
Proof.
  intros. unfold s32, u32.
  rewrite Zplus_mod_idemp_l.
  rewrite Z.mod_small by lia. lia.
Qed.

Section Positive.

Variable cfg : Config.t.

(** Without aspect limits and increments the adjusted size is at least one
    pixel each way. *)
Lemma adjust_positive s c m i x y w h :
  no_aspect c → no_increments c → 0 ≤ Client.maxw c → 0 ≤ Client.maxh c →
  1 ≤ (adjust cfg s c m i (x, y, w, h)).1.2
  ∧ 1 ≤ (adjust cfg s c m i (x, y, w, h)).2.
Proof.
  intros Ha [Hiw Hih] Hxw Hxh.
  unfold adjust, applysizehints. unfold no_aspect in Ha.
  rewrite Ha, Hiw, Hih. simpl.
  destruct i; simpl;
    destruct (Config.resizeHints cfg || Client.isFloating c
              || bool_decide (arrange_fn (curlayout m) = None)); simpl;
    try destruct ((Client.basew c =? Client.minw c)
                  && (Client.baseh c =? Client.minh c)); simpl;
    rewrite ?MAX_max, ?MIN_min; split; zbool; lia.
Qed.

Lemma resized_positive s sole cl mon x y w h i :
  no_aspect cl → no_increments cl →
  0 ≤ Client.maxw cl → 0 ≤ Client.maxh cl → 0 ≤ Client.borderWidth cl →
  1 ≤ Client.w (resized cfg s sole cl mon x y w h i)
  ∧ 1 ≤ Client.h (resized cfg s sole cl mon x y w h i).
Proof.
  intros Ha Hi Hxw Hxh Hb.
  pose proof (resized_geometry cfg s sole cl mon x y w h i) as [Hg _].
  pose proof (adjust_positive s cl mon i x y w h Ha Hi Hxw Hxh) as [Hw Hh].
  cbv zeta in Hg. unfold geometry in Hg.
  injection Hg as _ _ -> ->.
  cbv beta iota delta [adjust] in Hw, Hh.
  destruct (differs cl _ && grows sole cl mon); lia.
Qed.

End Positive.

Section PlacingElem.

Context {A : Type}.
Variable cfg : Config.t.
Variable propose : A → Monitor.t → Client.t → Z * Z * Z * Z.
Variable advance : A → Monitor.t → Client.t → Client.t → A.

(** Every client of the list is resized to some rectangle. *)
Lemma place_list_elem s mon sole recs c cl :
  ∀ a, (c, cl) ∈ recs →
    ∃ x y w h,
      (c, resized cfg s sole cl mon x y w h false)
      ∈ place_list cfg propose advance s mon sole a recs.
Proof.
  induction recs as [|[c0 cl0] recs IH]; intros a Hin.
  - by apply elem_of_nil in Hin.
  - simpl. destruct (propose a mon cl0) as [[[x0 y0] w0] h0] eqn:E0.
    apply elem_of_cons in Hin as [E|Hin].
    + injection E as -> ->. exists x0, y0, w0, h0. apply elem_of_cons. by left.
    + destruct (IH (advance a mon cl0
                      (resized cfg s sole cl0 mon x0 y0 w0 h0 false)) Hin)
        as (x & y & w & h & H).
      exists x, y, w, h. apply elem_of_cons. by right.
Qed.

End PlacingElem.

(** A property of the records of listed clients, by evaluation. *)
Lemma clients_forall_decide (P : Client.t → Prop) `{!∀ cl, Decision (P cl)}
    (s : State) (l : list nat) :
  forallb (λ c, match cs s !! c with
                | Some cl => bool_decide (P cl)
                | None => true
                end) l = true →
  ∀ c cl, c ∈ l → cs s !! c = Some cl → P cl.
Proof.
  intros Hall c cl Hin Hc. rewrite forallb_forall in Hall.
  apply list_elem_of_In in Hin. specialize (Hall c Hin). rewrite Hc in Hall.
  by apply bool_decide_eq_true in Hall.
Qed.

(** When the test of the loop fails no split is made: the loop variables
    stay, and the client is offered the rectangle they describe. When it
    passes the counter moves on. *)
Lemma dwindle_step_reuses n i nx ny nw nh mon cl :
  dwindle_splits i nw nh cl = false →
  dwindle_step n (i, nx, ny, nw, nh) mon cl = (i, nx, ny, nw, nh)
  ∧ dwindle_propose n (i, nx, ny, nw, nh) mon cl
    = (s32 nx, s32 ny, s32 (u32 (nw - 2 * Client.borderWidth cl)),
       s32 (u32 (nh - 2 * Client.borderWidth cl))).
Proof.
  intros H. unfold dwindle_splits in H.
  unfold dwindle_propose, dwindle_step. by rewrite H.
Qed.

Lemma dwindle_step_splits n i nx ny nw nh mon cl :
  dwindle_splits i nw nh cl = true →
  (dwindle_step n (i, nx, ny, nw, nh) mon cl).1.1.1.1 = u32 (i + 1).
Proof.
  intros H. unfold dwindle_splits in H. unfold dwindle_step. rewrite H.
  by repeat case_match.
Qed.

(** Each client of the list is resized to the rectangle offered to it. *)
Lemma dwindle_offers_placed cfg s mon sole n
    (P : nat * Client.t → Z * Z * Z * Z → Prop) recs :
  ∀ a,
    (∀ r x y w h,
       r ∈ recs →
       (r.1, resized cfg s sole r.2 mon x y w h false)
       ∈ place_list cfg (dwindle_propose n) (dwindle_advance n) s mon sole a
           recs →
       P r (x, y, w, h)) →
    Forall2 P recs (dwindle_offers n mon a recs).
Proof.
  induction recs as [|[c cl] recs IH]; intros a HP; [constructor|].
  simpl. constructor.
  - destruct (dwindle_propose n a mon cl) as [[[x y] w] h] eqn:E.
    apply (HP (c, cl)); [by left|]. simpl. rewrite E. by left.
  - apply IH. intros r x y w h Hr Hin. apply HP; [by right|].
    simpl. destruct (dwindle_propose n a mon cl) as [[[x0 y0] w0] h0].
    right. exact Hin.
Qed.

(** ** What the test of the loop secures *)

Section Guard.

Variable mon : Monitor.t.
Variables n bw : Z.

Hypothesis Hbw : 0 ≤ bw.
Hypothesis Hn : n < 2 ^ 32.
Hypothesis Hww : 2 * bw < Monitor.windowWidth mon < 2 ^ 31.
Hypothesis Hwh : 2 * bw < Monitor.windowHeight mon < 2 ^ 31.
Hypothesis Hsw :
  2 ≤ n →
  2 * bw < scale_width mon
  ∧ 2 * bw < Monitor.windowWidth mon - scale_width mon.

Lemma roomy_start :
  roomy mon n bw (0, u32 (Monitor.windowX mon), 0, u32 (Monitor.windowWidth mon),
         u32 (Monitor.windowHeight mon)).
Proof.
  unfold roomy. rewrite !u32_small by lia. repeat split; lia.
Qed.

Lemma dwindle_step_roomy a cl :
  roomy mon n bw a → Client.borderWidth cl = bw → a.1.1.1.1 + 1 ≤ n →
  roomy mon n bw (dwindle_step n a mon cl)
  ∧ (dwindle_step n a mon cl).1.1.1.1 ≤ a.1.1.1.1 + 1.
Proof.
  destruct a as [[[[i nx] ny] nw] nh]. simpl.
  intros (Hi & Hnw & Hnh & H1) Hb Hle.
  unfold dwindle_step. rewrite Hb.
  rewrite (u32_small (2 * bw)) by lia.
  rewrite (u32_small (n - 1)) by lia.
  rewrite (u32_small (i + 1)) by lia.
  assert (0 ≤ nw / 2 ≤ nw ∧ 0 ≤ nh / 2 ≤ nh) as [Hhw Hhh]
    by (split; Z.div_mod_to_equations; lia).
  destruct (negb (i mod 2 =? 0)) eqn:Eodd; simpl.
  - (* an odd turn: the height is halved *)
    destruct (Z.ltb_spec (2 * bw) (nh / 2)) as [Hg|Hg]; simpl;
      [|split; [done|lia]].
    assert (i ≠ 0) as Hi0 by (intros ->; done).
    destruct (Z.eqb_spec i 0) as [|_]; [done|].
    destruct (i <? n - 1);
      destruct (i mod 4 =? 0), (i mod 4 =? 1), (i mod 4 =? 2),
        (i mod 4 =? 3);
      destruct (Z.eqb_spec i 1) as [E1|E1];
      (split; [|simpl; lia]); unfold roomy;
      try (rewrite (H1 E1 ltac:(lia)));
      try (rewrite (u32_small (Monitor.windowWidth mon - scale_width mon))
             by (destruct (Hsw ltac:(lia)); lia));
      repeat split; try lia;
      try (destruct (Hsw ltac:(lia)); lia).
  - (* an even turn: the width is halved *)
    destruct (Z.ltb_spec (2 * bw) (nw / 2)) as [Hg|Hg]; simpl;
      [|split; [done|lia]].
    assert (i ≠ 1) as Hi1 by (intros ->; done).
    destruct (Z.eqb_spec i 1) as [|_]; [done|].
    destruct (Z.ltb_spec i (n - 1));
      destruct (i mod 4 =? 0), (i mod 4 =? 1), (i mod 4 =? 2),
        (i mod 4 =? 3);
      destruct (Z.eqb_spec i 0) as [E0|E0];
      try destruct (Z.eqb_spec n 1) as [En|En]; simpl;
      (split; [|simpl; lia]); unfold roomy;
      repeat split; try lia;
      try (destruct (Hsw ltac:(lia)); lia).
Qed.

Lemma dwindle_propose_positive a cl :
  roomy mon n bw a → Client.borderWidth cl = bw → a.1.1.1.1 + 1 ≤ n →
  1 ≤ (dwindle_propose n a mon cl).1.2 ∧ 1 ≤ (dwindle_propose n a mon cl).2.
Proof.
  intros Ha Hb Hle.
  destruct (dwindle_step_roomy a cl Ha Hb Hle) as [Hr _].
  unfold dwindle_propose.
  destruct (dwindle_step n a mon cl) as [[[[i nx] ny] nw] nh].
  destruct Hr as (_ & Hnw & Hnh & _). rewrite Hb. simpl.
  rewrite !s32_u32 by lia. lia.
Qed.

Lemma dwindle_offers_positive recs :
  ∀ a,
    roomy mon n bw a →
    Forall (λ r, Client.borderWidth r.2 = bw) recs →
    a.1.1.1.1 + Z.of_nat (length recs) ≤ n →
    Forall (λ off, 1 ≤ off.1.2 ∧ 1 ≤ off.2) (dwindle_offers n mon a recs).
Proof.
  induction recs as [|[c cl] recs IH]; intros a Ha Hall Hle; [constructor|].
  apply Forall_cons in Hall as [Hb Hall]. simpl in Hb.
  simpl length in Hle.
  destruct (dwindle_step_roomy a cl Ha Hb ltac:(lia)) as [Hr Hi].
  simpl. constructor.
  - apply dwindle_propose_positive; [done..|lia].
  - apply IH; [done..|lia].
Qed.

End Guard.

(** C7, as amended. For a monitor with any number of tiled clients, the
    lists in order, [dwindle] returns, and
    - every tiled client is resized to the rectangle the loop offers it;
    - the loop makes a split for a client only when half of the side to
      be split, the height at odd turns and the width at even ones,
      exceeds two borders of the client; otherwise the loop variables
      stay as they are and the client is offered the rectangle they
      describe, less its border;
    - when the tiled clients have one border width, not negative, twice
      of which is less than the width and than the height of the window
      area and, with two or more tiled clients, less than the width of
      the master area and than the width beside it, every rectangle
      offered has a width and a height of at least one pixel;
    - when the tiled clients have no aspect limits and no resize
      increments, and their maximum sizes and border widths are not
      negative, every tiled client is left with a width and a height of
      at least one pixel. *)
Theorem dwindle_leaves_positive_sizes (cfg : Config.t) (fuel : nat) (m : nat)
    (s : State) (mon : Monitor.t) (lc : list nat) :
  ms s !! m = Some mon →
  client_list fuel s m = Some lc →
  on_monitor s m lc →
  Z.of_nat (length lc) < 2 ^ 32 →
  let lt := tiled_clients s lc in
  let n := Z.of_nat (length lt) in
  let offers :=
    dwindle_offers n mon
      (0, u32 (Monitor.windowX mon), 0, u32 (Monitor.windowWidth mon),
       u32 (Monitor.windowHeight mon)) (records s lt) in
  ∃ s',
    dwindle cfg fuel m s = Some s'
    ∧ Forall2 (λ c '(x, y, w, h),
                 ∃ cl, cs s !! c = Some cl
                       ∧ cs s' !! c
                         = Some (resized cfg s
                                   (bool_decide (length lt = 1%nat))
                                   cl mon x y w h false))
        lt offers
    ∧ (∀ i nx ny nw nh cl,
         (dwindle_splits i nw nh cl = false →
          dwindle_step n (i, nx, ny, nw, nh) mon cl = (i, nx, ny, nw, nh)
          ∧ dwindle_propose n (i, nx, ny, nw, nh) mon cl
            = (s32 nx, s32 ny,
               s32 (u32 (nw - 2 * Client.borderWidth cl)),
               s32 (u32 (nh - 2 * Client.borderWidth cl))))
         ∧ (dwindle_splits i nw nh cl = true →
            (dwindle_step n (i, nx, ny, nw, nh) mon cl).1.1.1.1
            = u32 (i + 1)))
    ∧ (∀ bw,
         (∀ c cl, c ∈ lt → cs s !! c = Some cl →
                  Client.borderWidth cl = bw) →
         0 ≤ bw →
         2 * bw < Monitor.windowWidth mon < 2 ^ 31 →
         2 * bw < Monitor.windowHeight mon < 2 ^ 31 →
         (2 ≤ n →
          2 * bw < scale_width mon
          ∧ 2 * bw < Monitor.windowWidth mon - scale_width mon) →
         Forall (λ '(x, y, w, h), 1 ≤ w ∧ 1 ≤ h) offers)
    ∧ ((∀ c cl, c ∈ lt → cs s !! c = Some cl →
          no_aspect cl ∧ no_increments cl
          ∧ 0 ≤ Client.maxw cl ∧ 0 ≤ Client.maxh cl
          ∧ 0 ≤ Client.borderWidth cl) →
       ∀ c, c ∈ lt →
         ∃ cl', cs s' !! c = Some cl' ∧ 1 ≤ Client.w cl' ∧ 1 ≤ Client.h cl').
Proof.
  intros Hm Hl Hon Hlen lt n offers.
  rewrite (dwindle_spec cfg fuel m s mon lc Hm Hl Hon Hlen).
  destruct (tiled_records s m mon fuel lc Hm Hl Hon)
    as (Hk & Hr & Hnd & _ & Hle).
  fold lt in Hk, Hr, Hnd, Hle. fold lt. fold n.
  assert (∀ c, c ∈ lt → ∃ cl, cs s !! c = Some cl) as Hcl.
  { intros c Hc. apply tiled_clients_elem in Hc as [Hc _].
    unfold on_monitor in Hon. rewrite Forall_forall in Hon.
    destruct (Hon c Hc) as (cl & H & _). eauto. }
  set (sole := bool_decide (length lt = 1%nat)).
  set (a := (0, u32 (Monitor.windowX mon), 0, u32 (Monitor.windowWidth mon),
             u32 (Monitor.windowHeight mon))) in *.
  assert (dwindle_placed cfg s mon lc
          = place_list cfg (dwindle_propose n) (dwindle_advance n) s mon sole
              a (records s lt)) as Epl by done.
  assert (NoDup (map fst (dwindle_placed cfg s mon lc))) as Hndp
    by (by rewrite Epl, place_list_keys, Hk).
  eexists. split; [done|]. split; [|split; [|split]].
  - (* each client gets its offer *)
    destruct (Z.eqb_spec n 0) as [E0|_].
    { assert (lt = []) as E by (destruct lt; [done|simpl in n; lia]).
      subst offers. rewrite E. constructor. }
    rewrite <- Hk at 1. apply Forall2_fmap_l.
    apply (dwindle_offers_placed cfg s mon sole n).
    intros [c cl] x y w h Hin Hpl. simpl in *.
    rewrite Forall_forall in Hr. destruct (Hr _ Hin) as (Hc & _). simpl in Hc.
    exists cl. split; [done|].
    apply ins_all_in; [done|]. by rewrite Epl.
  - intros i nx ny nw nh cl. split.
    + apply dwindle_step_reuses.
    + apply dwindle_step_splits.
  - (* the offers are positive *)
    intros bw Hb Hbw Hww Hwh Hsw.
    assert (Forall (λ off : Z * Z * Z * Z, 1 ≤ off.1.2 ∧ 1 ≤ off.2) offers)
      as Hpos.
    { apply (dwindle_offers_positive mon n bw Hbw ltac:(lia) Hww Hwh Hsw).
      - apply roomy_start; lia.
      - apply Forall_forall. intros [c cl] Hin.
        rewrite Forall_forall in Hr. destruct (Hr _ Hin) as (Hc & Hc' & _).
        simpl in *. by eapply Hb.
      - simpl. rewrite <- (length_map fst), Hk. subst n. lia. }
    eapply Forall_impl; [exact Hpos|]. by intros [[[x y] w] h].
  - (* the clamp of applysizehints *)
    intros Hh c Hc.
    destruct (Hcl c Hc) as [cl Hc1].
    destruct (Hh c cl Hc Hc1) as (Ha & Hi & Hxw & Hxh & Hb).
    destruct (Z.eqb_spec n 0) as [E0|_].
    { assert (lt = []) as E by (destruct lt; [done|simpl in n; lia]).
      rewrite E in Hc. by apply elem_of_nil in Hc. }
    destruct (place_list_elem cfg (dwindle_propose n) (dwindle_advance n) s
                mon sole (records s lt) c cl a
                (records_elem s _ c cl Hc Hc1)) as (x & y & w & h & Hin).
    eexists. split.
    + simpl. apply ins_all_in; [done|]. rewrite Epl. exact Hin.
    + by apply resized_positive.
Qed.

Lemma dwindle_leaves_positive_sizes_witness :
  let s := two_dwindling in
  let lc := [1%nat; 2%nat] in
  let mon := plain_monitor layout_dwindle 1 1000 800
               (Some 1%nat) (Some 1%nat) (Some 1%nat) None in
  (ms s !! 0%nat = Some mon ∧ client_list 8 s 0 = Some lc
   ∧ tiled_clients s lc = lc)
  ∧ ∃ s',
      dwindle config_def 8 0 s = Some s'
      ∧ Forall2 (λ c '(x, y, w, h),
                   ∃ cl, cs s !! c = Some cl
                         ∧ cs s' !! c
                           = Some (resized config_def s false cl mon x y w h
                                     false))
          lc [(0, 0, 498, 798); (500, 0, 498, 798)]
      ∧ Forall (λ '(x, y, w, h), 1 ≤ w ∧ 1 ≤ h)
          [(0, 0, 498, 798); (500, 0, 498, 798)]
      ∧ ∀ c, c ∈ lc →
          ∃ cl', cs s' !! c = Some cl' ∧ 1 ≤ Client.w cl' ∧ 1 ≤ Client.h cl'.
Proof.
  intros s lc mon.
  assert (tiled_clients s lc = lc) as Et by (vm_compute; reflexivity).
  split; [repeat split; vm_compute; reflexivity|].
  destruct (dwindle_leaves_positive_sizes config_def 8 0 s mon lc)
    as (s' & Hd & Hres & _ & Hpos & Hfin).
  - vm_compute; reflexivity.
  - vm_compute; reflexivity.
  - apply on_monitor_decide. vm_compute; reflexivity.
  - simpl; lia.
  - assert (dwindle_offers (Z.of_nat (length (tiled_clients s lc))) mon
              (0, u32 (Monitor.windowX mon), 0, u32 (Monitor.windowWidth mon),
               u32 (Monitor.windowHeight mon))
              (records s (tiled_clients s lc))
            = [(0, 0, 498, 798); (500, 0, 498, 798)]) as Eo
      by (vm_compute; reflexivity).
    rewrite Eo in Hres, Hpos. rewrite Et in Hres.
    exists s'. split; [exact Hd|]. split; [exact Hres|]. split.
    + apply (Hpos 1).
      * apply (clients_forall_decide (λ cl, Client.borderWidth cl = 1)).
        vm_compute; reflexivity.
      * lia.
      * simpl; lia.
      * simpl; lia.
      * intros _. vm_compute. split; reflexivity.
    + rewrite Et in Hfin. apply Hfin.
      rewrite <- Et.
      apply (clients_forall_decide
               (λ cl, no_aspect cl ∧ no_increments cl ∧ 0 ≤ Client.maxw cl
                      ∧ 0 ≤ Client.maxh cl ∧ 0 ≤ Client.borderWidth cl)).
      vm_compute; reflexivity.
Defined.

(** The claim of C7 as written fails. Of two tiled clients the second,
    which asks for heights in steps of 1000, is left with a height of 0.
    A sole client whose border is 400 pixels wide is offered a rectangle
    of height 0 on a window area of 1000 by 800, no split being made. Of
    two clients with borders of 1 and of 300 pixels the second fails the
    test at its turn and is offered the rectangle of the first, which is
    narrower than its two borders. And of two clients with borders of 125
    pixels, the master area taking three quarters of the width, the
    second passes the test, which looks at the height, and is offered
    what is left beside the master area, a width of 0. *)
Lemma dwindle_leaves_zero_height :
  client_list 8 tall_steps 0 = Some [1%nat; 2%nat]
  ∧ tiled_clients tall_steps [1%nat; 2%nat] = [1%nat; 2%nat]
  ∧ (s' ← dwindle config_def 8 0 tall_steps;
     cl ← cs s' !! 2%nat;
     Some (geometry cl)) = Some (500, 0, 498, 0)
  ∧ dwindle_offers 1 bare_monitor (0, 0, 0, 1000, 800) [(1%nat, thick_client)]
    = [(0, 0, 200, 0)]
  ∧ dwindle_offers 2 bare_monitor (0, 0, 0, 1000, 800)
      [(1%nat, bordered_client 1); (2%nat, bordered_client 300)]
    = [(0, 0, 498, 798); (0, 0, -100, 200)]
  ∧ dwindle_offers 2 wide_master_monitor (0, 0, 0, 1000, 800)
      [(1%nat, bordered_client 125); (2%nat, bordered_client 125)]
    = [(0, 0, 500, 550); (750, 0, 0, 550)].
Proof. repeat split; vm_compute; reflexivity. Qed.

(** * The tile layout *)

(** ** Arithmetic of the slots *)

(** A slot is the remaining height [R] over the remaining count [len];
    when every slot is owed at least [q], so is this one and so are the
    ones after it; the last slot takes all that remains. *)
Lemma slot_height R len q :
  1 ≤ len → 1 ≤ q → len * q ≤ R →
  let h := Z.quot R len in
  q ≤ h ≤ R
  ∧ (len = 1 → h = R)
  ∧ (2 ≤ len → h < R ∧ (len - 1) * q ≤ R - h).
Proof.
  intros Hlen Hq HR h. subst h.
  rewrite Z.quot_div_nonneg by nia.
  assert (q ≤ R / len) as H1 by (apply Z.div_le_lower_bound; lia).
  assert (len * (R / len) ≤ R) as H2 by (apply Z.mul_div_le; lia).
  split; [split; [done|nia]|]. split.
  - intros ->. by rewrite Z.div_1_r.
  - intros H. assert ((len - 1) * q ≤ R - R / len) as H3.
    { assert (R < len * (R / len) + len) as H4.
      { pose proof (Z.mod_pos_bound R len ltac:(lia)).
        pose proof (Z.div_mod R len ltac:(lia)). lia. }
      nia. }
    split; [nia|done].
Qed.

Lemma abutting_total y0 yend col :
  abutting y0 yend col → total_height col = yend - y0.
Proof.
  revert y0. induction col as [|c col IH]; intros y0 H; simpl in *.
  - lia.
  - destruct H as [_ H]. rewrite (IH _ H). lia.
Qed.

Lemma slotted_abutting y0 yend col :
  slotted y0 yend col → abutting y0 yend col.
Proof.
  revert y0. induction col as [|c col IH]; intros y0 H; [done|].
  destruct H as (Hy & _ & H). split; [done|]. by apply IH.
Qed.

(** The slot after one of [R `quot` len] is no smaller. *)
Lemma quot_ascend R len :
  0 ≤ R → 2 ≤ len →
  let h := Z.quot R len in
  0 ≤ h ≤ R ∧ h ≤ Z.quot (R - h) (len - 1).
Proof.
  intros HR Hlen h. subst h.
  rewrite Z.quot_div_nonneg by lia.
  assert (0 ≤ R / len) as H0 by (apply Z.div_pos; lia).
  assert (len * (R / len) ≤ R) as H1 by (apply Z.mul_div_le; lia).
  split; [nia|].
  rewrite Z.quot_div_nonneg by nia.
  apply Z.div_le_lower_bound; nia.
Qed.

Lemma slotted_ascend y0 yend col :
  y0 ≤ yend → slotted y0 yend col → heights_ascend col.
Proof.
  revert y0. induction col as [|c col IH]; intros y0 Hle H; [done|].
  destruct H as (Hy & Hh & H).
  destruct col as [|c' col]; [done|].
  assert (2 ≤ Z.of_nat (length (c :: c' :: col))) as Hlen
    by (simpl length; lia).
  destruct (quot_ascend (yend - y0) _ ltac:(lia) Hlen) as [Hb Hn].
  rewrite <- Hh in Hb, Hn.
  split; [|apply (IH (y0 + HEIGHT c)); [lia|done]].
  destruct H as (_ & Hh' & _). rewrite Hh'.
  replace (yend - (y0 + HEIGHT c)) with (yend - y0 - HEIGHT c) by lia.
  replace (Z.of_nat (length (c' :: col)))
    with (Z.of_nat (length (c :: c' :: col)) - 1)
    by (simpl length; lia).
  done.
Qed.

Lemma erase_geom_borderWidth c c' :
  Client.erase_geom c = Client.erase_geom c' →
  Client.borderWidth c = Client.borderWidth c'.
Proof. intros H. exact (f_equal Client.borderWidth H). Qed.

Section PlacingApp.

Context {A : Type}.
Variable cfg : Config.t.
Variable propose : A → Monitor.t → Client.t → Z * Z * Z * Z.
Variable advance : A → Monitor.t → Client.t → Client.t → A.

Lemma place_list_app s mon sole r1 r2 :
  ∀ a,
    place_list cfg propose advance s mon sole a (r1 ++ r2)
    = place_list cfg propose advance s mon sole a r1
      ++ place_list cfg propose advance s mon sole
           (place_end cfg propose advance s mon sole a r1) r2.
Proof.
  induction r1 as [|[c cl] r1 IH]; intros a; [done|].
  simpl. destruct (propose a mon cl) as [[[x y] w] h]. simpl.
  by rewrite IH.
Qed.

Lemma place_list_length s mon sole a recs :
  length (place_list cfg propose advance s mon sole a recs) = length recs.
Proof.
  revert a. induction recs as [|[c cl] recs IH]; intros a; [done|].
  simpl. destruct (propose a mon cl) as [[[??]?]?]. simpl. by rewrite IH.
Qed.

End PlacingApp.

Lemma records_app s l1 l2 :
  records s (l1 ++ l2) = records s l1 ++ records s l2.
Proof. unfold records. apply omap_app. Qed.

(** ** One client in a column *)

Lemma resized_in_column cfg s cl mon x y w h :
  arrange_fn (curlayout mon) = Some Tile →
  hint_free cl → 0 ≤ Client.borderWidth cl →
  Z.max 1 (barHeight s) ≤ h →
  Monitor.windowY mon ≤ y < Monitor.windowY mon + Monitor.windowHeight mon →
  let r := resized cfg s false cl mon x y w h false in
  Client.y r = y ∧ Client.h r = h ∧ HEIGHT r = h + 2 * Client.borderWidth cl.
Proof.
  intros Hlay (Ha & Hi & Hx & Hbw & Hbh & Hmw & Hmh) Hb Hh Hy r.
  pose proof (resized_geometry cfg s false cl mon x y w h false) as [Hg He].
  cbv zeta in Hg. fold r in Hg, He.
  assert (grows false cl mon = false) as Hgr.
  { unfold grows. by rewrite Hlay. }
  rewrite Hgr, andb_false_r in Hg.
  rewrite adjust_without_limits in Hg by done. cbn [fst snd] in Hg.
  rewrite (adj_pos_fits _ (Monitor.windowY mon)) in Hg;
    [|done|apply MAX_1_lower|done].
  rewrite (adj_size_fits _ _ (Client.minh cl)) in Hg; [|done|lia].
  unfold geometry in Hg. injection Hg as _ Hy' _ Hh'.
  unfold HEIGHT. rewrite (erase_geom_borderWidth _ _ He). lia.
Qed.

Section TileColumns.

Variable cfg : Config.t.
Variable s : State.
Variable mon : Monitor.t.
Variables n mw q : Z.

Hypothesis Hlay : arrange_fn (curlayout mon) = Some Tile.
Hypothesis Hnm : 0 ≤ Monitor.nMaster mon < 2 ^ 31.
Hypothesis Hn : 0 ≤ n < 2 ^ 31.
Hypothesis Hwh : 0 < Monitor.windowHeight mon ≤ 2 ^ 30.
Hypothesis Hwy : - 2 ^ 30 ≤ Monitor.windowY mon ≤ 2 ^ 30.
Hypothesis Hq : 1 ≤ q.

(** The master column: the clients that remain when [i] masters have
    been placed down to [my]. *)
Lemma master_column recs :
  ∀ i my ty,
    0 ≤ i →
    i + Z.of_nat (length recs) = MIN n (u32 (Monitor.nMaster mon)) →
    0 ≤ my →
    Z.of_nat (length recs) * q ≤ Monitor.windowHeight mon - my →
    Forall (λ r, hint_free r.2 ∧ has_room s q r.2) recs →
    (recs ≠ [] →
     slotted (Monitor.windowY mon + my)
       (Monitor.windowY mon + Monitor.windowHeight mon)
       (map snd (place_list cfg (tile_propose n mw) tile_advance s mon false
                   (i, my, ty) recs)))
    ∧ ∃ my', place_end cfg (tile_propose n mw) tile_advance s mon false
               (i, my, ty) recs
             = (i + Z.of_nat (length recs), my', ty).
Proof.
  induction recs as [|[c cl] rest IH]; intros i my ty Hi Hlen Hmy HR Hall.
  { split; [done|]. exists my. simpl. by rewrite Z.add_0_r. }
  apply Forall_cons in Hall as [[Hhf [Hb Hroom]] Hall]. simpl in Hhf, Hb, Hroom.
  set (len := Z.of_nat (length ((c, cl) :: rest))) in *.
  set (len' := Z.of_nat (length rest)).
  assert (len = len' + 1) as Elen by (subst len len'; simpl length; lia).
  assert (0 ≤ len') as Hlen' by (subst len'; lia).
  assert (u32 (Monitor.nMaster mon) = Monitor.nMaster mon) as Enm
    by (apply u32_small; lia).
  rewrite Enm in Hlen.
  assert (MIN n (Monitor.nMaster mon) ≤ Monitor.nMaster mon
          ∧ MIN n (Monitor.nMaster mon) ≤ n) as [Hk1 Hk2]
    by (rewrite MIN_min; lia).
  set (R := Monitor.windowHeight mon - my) in *.
  destruct (slot_height R len q ltac:(lia) Hq HR) as (Hh1 & Hh2 & Hh3).
  set (h := Z.quot R len) in *.
  set (bw := Client.borderWidth cl) in *.
  assert (tile_propose n mw (i, my, ty) mon cl
          = (Monitor.windowX mon, Monitor.windowY mon + my,
             s32 (u32 (mw - 2 * bw)), h - 2 * bw)) as Ep.
  { unfold tile_propose. rewrite Enm.
    destruct (Z.ltb_spec i (Monitor.nMaster mon)); [|lia].
    replace (MIN n (Monitor.nMaster mon) - i) with len by lia.
    rewrite (u32_small len) by lia.
    fold R. rewrite (u32_small R) by lia. fold h. fold bw.
    rewrite (s32_u32 (Monitor.windowY mon + my)) by lia.
    rewrite (s32_u32 (h - 2 * bw)) by lia. done. }
  cbn [place_list place_end]. rewrite Ep.
  destruct (resized_in_column cfg s cl mon (Monitor.windowX mon)
              (Monitor.windowY mon + my) (s32 (u32 (mw - 2 * bw)))
              (h - 2 * bw) Hlay Hhf Hb ltac:(fold bw; lia) ltac:(lia))
    as (Hy & Hh & HH).
  set (r := resized cfg s false cl mon (Monitor.windowX mon)
              (Monitor.windowY mon + my) (s32 (u32 (mw - 2 * bw)))
              (h - 2 * bw) false) in *.
  fold bw in HH. replace (h - 2 * bw + 2 * bw) with h in HH by lia.
  assert (∃ my', tile_advance (i, my, ty) mon cl r = (i + 1, my', ty)
                 ∧ (2 ≤ len → my' = my + h)) as (my' & Ea & Hmy').
  { unfold tile_advance. rewrite Enm.
    destruct (Z.ltb_spec i (Monitor.nMaster mon)); [|lia].
    rewrite (u32_small (i + 1)) by lia. eexists. split; [done|].
    intros H2. destruct (Hh3 H2) as [Hlt _]. rewrite HH.
    rewrite !u32_small by lia.
    destruct (Z.ltb_spec (my + h) (Monitor.windowHeight mon)); [done|lia]. }
  rewrite Ea.
  destruct rest as [|r2 rest].
  - split.
    + intros _. cbn [map snd slotted place_list]. split; [done|].
      rewrite HH, Hh2 by done. split; [|subst R; lia].
      simpl length. change (Z.of_nat 1) with 1. rewrite Z.quot_1_r.
      subst R. lia.
    + exists my'. simpl. done.
  - assert (2 ≤ len) as H2 by (subst len; simpl length; lia).
    destruct (Hh3 H2) as [Hlt Hrest]. rewrite (Hmy' H2).
    destruct (IH (i + 1) (my + h) ty) as [IH1 (my'' & IH2)];
      [lia|rewrite Enm; fold len'; lia|lia|fold len'; subst R; lia|done|].
    split.
    + intros _. cbn [map snd slotted]. split; [exact Hy|].
      rewrite HH. split; [|rewrite <- Z.add_assoc; by apply IH1].
      cbn [length]. rewrite length_map, place_list_length.
      subst h len R. f_equal. lia.
    + exists my''. rewrite IH2. f_equal. f_equal. fold len'. lia.
Qed.

(** The stack column: the clients that remain when [i] clients, all
    masters among them, have been placed, the stack down to [ty]. *)
Lemma stack_column recs :
  ∀ i my ty,
    0 ≤ i →
    Monitor.nMaster mon ≤ i →
    i + Z.of_nat (length recs) = n →
    0 ≤ ty →
    Z.of_nat (length recs) * q ≤ Monitor.windowHeight mon - ty →
    Forall (λ r, hint_free r.2 ∧ has_room s q r.2) recs →
    (recs ≠ [] →
     slotted (Monitor.windowY mon + ty)
       (Monitor.windowY mon + Monitor.windowHeight mon)
       (map snd (place_list cfg (tile_propose n mw) tile_advance s mon false
                   (i, my, ty) recs)))
    ∧ ∃ ty', place_end cfg (tile_propose n mw) tile_advance s mon false
               (i, my, ty) recs
             = (i + Z.of_nat (length recs), my, ty').
Proof.
  induction recs as [|[c cl] rest IH]; intros i my ty Hi Hge Hlen Hty HR Hall.
  { split; [done|]. exists ty. simpl. by rewrite Z.add_0_r. }
  apply Forall_cons in Hall as [[Hhf [Hb Hroom]] Hall]. simpl in Hhf, Hb, Hroom.
  set (len := Z.of_nat (length ((c, cl) :: rest))) in *.
  set (len' := Z.of_nat (length rest)).
  assert (len = len' + 1) as Elen by (subst len len'; simpl length; lia).
  assert (0 ≤ len') as Hlen' by (subst len'; lia).
  assert (u32 (Monitor.nMaster mon) = Monitor.nMaster mon) as Enm
    by (apply u32_small; lia).
  set (R := Monitor.windowHeight mon - ty) in *.
  destruct (slot_height R len q ltac:(lia) Hq HR) as (Hh1 & Hh2 & Hh3).
  set (h := Z.quot R len) in *.
  set (bw := Client.borderWidth cl) in *.
  assert (tile_propose n mw (i, my, ty) mon cl
          = (s32 (u32 (Monitor.windowX mon + mw)), Monitor.windowY mon + ty,
             s32 (u32 (Monitor.windowWidth mon - mw - 2 * bw)),
             h - 2 * bw)) as Ep.
  { unfold tile_propose. rewrite Enm.
    destruct (Z.ltb_spec i (Monitor.nMaster mon)); [lia|].
    replace (n - i) with len by lia.
    rewrite (u32_small len) by lia.
    fold R. rewrite (u32_small R) by lia. fold h. fold bw.
    rewrite (s32_u32 (Monitor.windowY mon + ty)) by lia.
    rewrite (s32_u32 (h - 2 * bw)) by lia. done. }
  cbn [place_list place_end]. rewrite Ep.
  destruct (resized_in_column cfg s cl mon
              (s32 (u32 (Monitor.windowX mon + mw)))
              (Monitor.windowY mon + ty)
              (s32 (u32 (Monitor.windowWidth mon - mw - 2 * bw)))
              (h - 2 * bw) Hlay Hhf Hb ltac:(fold bw; lia) ltac:(lia))
    as (Hy & Hh & HH).
  set (r := resized cfg s false cl mon
              (s32 (u32 (Monitor.windowX mon + mw)))
              (Monitor.windowY mon + ty)
              (s32 (u32 (Monitor.windowWidth mon - mw - 2 * bw)))
              (h - 2 * bw) false) in *.
  fold bw in HH. replace (h - 2 * bw + 2 * bw) with h in HH by lia.
  assert (∃ ty', tile_advance (i, my, ty) mon cl r = (i + 1, my, ty')
                 ∧ (2 ≤ len → ty' = ty + h)) as (ty' & Ea & Hty').
  { unfold tile_advance. rewrite Enm.
    destruct (Z.ltb_spec i (Monitor.nMaster mon)); [lia|].
    rewrite (u32_small (i + 1)) by lia. eexists. split; [done|].
    intros H2. destruct (Hh3 H2) as [Hlt _]. rewrite HH.
    rewrite !u32_small by lia.
    destruct (Z.ltb_spec (ty + h) (Monitor.windowHeight mon)); [done|lia]. }
  rewrite Ea.
  destruct rest as [|r2 rest].
  - split.
    + intros _. cbn [map snd slotted place_list]. split; [done|].
      rewrite HH, Hh2 by done. split; [|subst R; lia].
      simpl length. change (Z.of_nat 1) with 1. rewrite Z.quot_1_r.
      subst R. lia.
    + exists ty'. simpl. done.
  - assert (2 ≤ len) as H2 by (subst len; simpl length; lia).
    destruct (Hh3 H2) as [Hlt Hrest]. rewrite (Hty' H2).
    destruct (IH (i + 1) my (ty + h)) as [IH1 (ty'' & IH2)];
      [lia|lia|fold len'; lia|lia|fold len'; subst R; lia|done|].
    split.
    + intros _. cbn [map snd slotted]. split; [exact Hy|].
      rewrite HH. split; [|rewrite <- Z.add_assoc; by apply IH1].
      cbn [length]. rewrite length_map, place_list_length.
      subst h len R. f_equal. lia.
    + exists ty''. rewrite IH2. f_equal. f_equal. fold len'. lia.
Qed.


End TileColumns.

(** ** From the placed list to the store *)

Lemma column_of_placed s placed part :
  NoDup (map fst placed) →
  (∀ p, p ∈ part → p ∈ placed) →
  column_of (set_cs (ins_all placed (cs s)) s) (map fst part) (map snd part).
Proof.
  intros Hnd Hsub. unfold column_of.
  induction part as [|[c cl] part IH]; [constructor|].
  simpl. constructor.
  - simpl. apply ins_all_in; [done|]. apply Hsub. by left.
  - apply IH. intros p Hp. apply Hsub. by right.
Qed.

Lemma records_keys s l :
  Forall (λ c, is_Some (cs s !! c)) l → map fst (records s l) = l.
Proof. intros H. by destruct (records_spec s l H). Qed.

Lemma records_Forall s l (P : Client.t → Prop) :
  (∀ c cl, c ∈ l → cs s !! c = Some cl → P cl) →
  Forall (λ r, P r.2) (records s l).
Proof.
  intros H. apply Forall_forall. intros [c cl] Hin.
  unfold records in Hin. apply list_elem_of_omap in Hin as (c' & Hc' & Hr).
  destruct (cs s !! c') as [cl'|] eqn:E; [|done].
  simpl in Hr. injection Hr as <- <-. by eapply H.
Qed.

Lemma records_length s l :
  Forall (λ c, is_Some (cs s !! c)) l → length (records s l) = length l.
Proof. intros H. by rewrite <- (records_keys s l H) at 2; rewrite length_map. Qed.

(** ** Both columns *)

Lemma fills_height_placed s mon placed part col :
  NoDup (map fst placed) →
  (∀ p, p ∈ part → p ∈ placed) →
  map fst part = col →
  (col ≠ [] →
   abutting (Monitor.windowY mon)
     (Monitor.windowY mon + Monitor.windowHeight mon) (map snd part)) →
  fills_height (set_cs (ins_all placed (cs s)) s) mon col.
Proof.
  intros Hnd Hsub Hk Hab. destruct col as [|c col]; [by left|].
  right. exists (map snd part). split; [|split].
  - rewrite <- Hk. by apply column_of_placed.
  - by apply Hab.
  - rewrite (abutting_total _ _ _ (Hab ltac:(done))). lia.
Qed.

Lemma shares_height_placed s mon placed part col :
  NoDup (map fst placed) →
  (∀ p, p ∈ part → p ∈ placed) →
  map fst part = col →
  0 ≤ Monitor.windowHeight mon →
  (col ≠ [] →
   slotted (Monitor.windowY mon)
     (Monitor.windowY mon + Monitor.windowHeight mon) (map snd part)) →
  fills_height (set_cs (ins_all placed (cs s)) s) mon col
  ∧ shares_height (set_cs (ins_all placed (cs s)) s) mon col.
Proof.
  intros Hnd Hsub Hk Hwh Hsl. split.
  - apply (fills_height_placed s mon placed part); [done..|].
    intros Hne. by apply slotted_abutting, Hsl.
  - destruct col as [|c col]; [by left|].
    right. exists (map snd part). split; [|split].
    + rewrite <- Hk. by apply column_of_placed.
    + by apply Hsl.
    + eapply slotted_ascend; [|by apply Hsl]. lia.
Qed.

Lemma tile_placed_columns cfg s mon lt :
  let n := Z.of_nat (length lt) in
  let nm := Monitor.nMaster mon in
  let placed := place_list cfg (tile_propose n (tile_mw mon n)) tile_advance
                  s mon false (0, 0, 0) (records s lt) in
  arrange_fn (curlayout mon) = Some Tile →
  0 ≤ nm < 2 ^ 31 →
  n < 2 ^ 31 →
  0 < Monitor.windowHeight mon ≤ 2 ^ 30 →
  - 2 ^ 30 ≤ Monitor.windowY mon ≤ 2 ^ 30 →
  2 ≤ n →
  NoDup lt →
  Forall (λ c, is_Some (cs s !! c)) lt →
  (∀ c cl, c ∈ lt → cs s !! c = Some cl →
     hint_free cl ∧ has_room s (Monitor.windowHeight mon / n) cl) →
  (fills_height (set_cs (ins_all placed (cs s)) s) mon
     (take (Z.to_nat nm) lt)
   ∧ shares_height (set_cs (ins_all placed (cs s)) s) mon
       (take (Z.to_nat nm) lt))
  ∧ (fills_height (set_cs (ins_all placed (cs s)) s) mon
       (drop (Z.to_nat nm) lt)
     ∧ shares_height (set_cs (ins_all placed (cs s)) s) mon
         (drop (Z.to_nat nm) lt)).
Proof.
  intros n nm placed Hlay Hnm Hn Hwh Hwy H2 Hnd Hsome Hfit.
  set (q := Monitor.windowHeight mon / n) in *.
  set (masters := take (Z.to_nat nm) lt).
  set (stackers := drop (Z.to_nat nm) lt).
  assert (lt = masters ++ stackers) as Elt
    by (subst masters stackers; by rewrite take_drop).
  assert (Forall (λ c, is_Some (cs s !! c)) masters) as Hsm
    by (by apply Forall_take).
  assert (Forall (λ c, is_Some (cs s !! c)) stackers) as Hss
    by (by apply Forall_drop).
  assert (1 ≤ q) as Hq.
  { destruct lt as [|c lt']; [simpl in n; lia|].
    apply Forall_cons in Hsome as [[cl Hcl] _].
    destruct (Hfit c cl ltac:(by left) Hcl) as [_ [Hb Hr]]. lia. }
  assert (n * q ≤ Monitor.windowHeight mon) as Hnq
    by (subst q; apply Z.mul_div_le; lia).
  assert (Z.of_nat (length masters) = MIN n (u32 nm)) as Hlm.
  { subst masters. rewrite length_take, MIN_min, u32_small by lia.
    subst n. lia. }
  assert (Z.of_nat (length masters) + Z.of_nat (length stackers) = n) as Hls.
  { subst n. transitivity (Z.of_nat (length (masters ++ stackers)));
      [rewrite length_app; lia|by rewrite <- Elt]. }
  assert (stackers ≠ [] → nm ≤ Z.of_nat (length masters)) as Hge.
  { intros Hne. subst masters stackers.
    rewrite length_take. destruct (drop (Z.to_nat nm) lt) eqn:E; [done|].
    assert (length (drop (Z.to_nat nm) lt) ≠ 0%nat) as Hd by (by rewrite E).
    rewrite length_drop in Hd. lia. }
  assert (Forall (λ r, hint_free r.2 ∧ has_room s q r.2) (records s masters))
    as Hfm.
  { apply (records_Forall s masters (λ cl, hint_free cl ∧ has_room s q cl)).
    intros c cl Hc. apply Hfit. rewrite Elt. apply elem_of_app. by left. }
  assert (Forall (λ r, hint_free r.2 ∧ has_room s q r.2) (records s stackers))
    as Hfs.
  { apply (records_Forall s stackers (λ cl, hint_free cl ∧ has_room s q cl)).
    intros c cl Hc. apply Hfit. rewrite Elt. apply elem_of_app. by right. }
  pose proof (records_length s masters Hsm) as Lm.
  pose proof (records_length s stackers Hss) as Ls.
  assert (Z.of_nat (length masters) * q ≤ Monitor.windowHeight mon - 0
          ∧ Z.of_nat (length stackers) * q ≤ Monitor.windowHeight mon - 0)
    as [Hmq Hsq].
  { assert (Z.of_nat (length masters) * q ≤ n * q)
      by (apply Z.mul_le_mono_nonneg_r; lia).
    assert (Z.of_nat (length stackers) * q ≤ n * q)
      by (apply Z.mul_le_mono_nonneg_r; lia).
    lia. }
  set (mw := tile_mw mon n) in *.
  destruct (master_column cfg s mon n mw q Hlay Hnm Hwh Hwy Hq
              (records s masters) 0 0 0)
    as [HM (my' & HE)]; [lia|by rewrite Lm, Hlm|lia|by rewrite Lm|done|].
  assert (placed
          = place_list cfg (tile_propose n mw) tile_advance s mon false
              (0, 0, 0) (records s masters)
            ++ place_list cfg (tile_propose n mw) tile_advance s mon false
                 (Z.of_nat (length masters), my', 0) (records s stackers))
    as Epl.
  { subst placed. rewrite Elt at 1. rewrite records_app, place_list_app.
    rewrite HE, Lm. done. }
  assert (NoDup (map fst placed)) as Hndp.
  { subst placed. rewrite place_list_keys, records_keys by done. done. }
  split.
  - apply (shares_height_placed s mon placed
             (place_list cfg (tile_propose n mw) tile_advance s mon false
                (0, 0, 0) (records s masters))); [done| | |lia|].
    + intros p Hp. rewrite Epl. apply elem_of_app. by left.
    + rewrite place_list_keys. by apply records_keys.
    + intros Hne. rewrite <- (Z.add_0_r (Monitor.windowY mon)) at 1.
      apply HM. intros E. apply Hne.
      rewrite <- (records_keys s masters Hsm), E. done.
  - apply (shares_height_placed s mon placed
             (place_list cfg (tile_propose n mw) tile_advance s mon false
                (Z.of_nat (length masters), my', 0) (records s stackers)));
      [done| | |lia|].
    + intros p Hp. rewrite Epl. apply elem_of_app. by right.
    + rewrite place_list_keys. by apply records_keys.
    + intros Hne.
      destruct (stack_column cfg s mon n mw q Hlay Hnm ltac:(lia) Hwh Hwy Hq
                  (records s stackers) (Z.of_nat (length masters)) my' 0)
        as [HS _]; [lia|by apply Hge|rewrite Ls; lia|lia|by rewrite Ls|done|].
      rewrite <- (Z.add_0_r (Monitor.windowY mon)) at 1.
      apply HS. intros E. apply Hne.
      rewrite <- (records_keys s stackers Hss), E. done.
Qed.

(** ** A sole tiled client *)

Lemma resized_sole_in_column cfg s cl mon x y w h :
  arrange_fn (curlayout mon) = Some Tile →
  hint_free cl → Client.isFullscreen cl = false → Client.isFloating cl = false →
  0 ≤ Client.borderWidth cl →
  Z.max 1 (barHeight s) ≤ h →
  Monitor.windowY mon ≤ y < Monitor.windowY mon + Monitor.windowHeight mon →
  let r := resized cfg s true cl mon x y w h false in
  Client.y r = y
  ∧ (Client.h r = h + 2 * Client.borderWidth cl ∨ (r = cl ∧ Client.h cl = h)).
Proof.
  intros Hlay (Ha & Hi & Hx & Hbw & Hbh & Hmw & Hmh) Hfs Hfl Hb Hh Hy r.
  pose proof (resized_geometry cfg s true cl mon x y w h false) as [Hg He].
  cbv zeta in Hg. fold r in Hg, He.
  assert (grows true cl mon = true) as Hgr.
  { unfold grows. by rewrite Hlay, Hfs, Hfl. }
  rewrite Hgr, andb_true_r in Hg.
  destruct (differs cl (adjust cfg s cl mon false (x, y, w, h))) eqn:Ed.
  - rewrite adjust_without_limits in Hg by done. cbn [fst snd] in Hg.
    rewrite (adj_pos_fits _ (Monitor.windowY mon)) in Hg;
      [|done|apply MAX_1_lower|done].
    rewrite (adj_size_fits _ _ (Client.minh cl)) in Hg; [|done|lia].
    unfold geometry in Hg. injection Hg as _ Hy' _ Hh'.
    split; [done|]. by left.
  - assert (r = cl) as Er by (subst r; by apply resized_same).
    rewrite Er in Hg |- *.
    rewrite adjust_without_limits in Hg by done. cbn [fst snd] in Hg.
    rewrite (adj_pos_fits _ (Monitor.windowY mon)) in Hg;
      [|done|apply MAX_1_lower|done].
    rewrite (adj_size_fits _ _ (Client.minh cl)) in Hg; [|done|lia].
    unfold geometry in Hg. injection Hg as _ Hy' _ Hh'.
    split; [done|]. right. split; [done|lia].
Qed.

Lemma tile_placed_sole cfg s mon c cl :
  arrange_fn (curlayout mon) = Some Tile →
  0 ≤ Monitor.nMaster mon < 2 ^ 31 →
  0 < Monitor.windowHeight mon ≤ 2 ^ 30 →
  - 2 ^ 30 ≤ Monitor.windowY mon ≤ 2 ^ 30 →
  hint_free cl → Client.isFullscreen cl = false → Client.isFloating cl = false →
  has_room s (Monitor.windowHeight mon) cl →
  ∃ cl',
    place_list cfg (tile_propose 1 (tile_mw mon 1)) tile_advance s mon true
      (0, 0, 0) [(c, cl)] = [(c, cl')]
    ∧ Client.y cl' = Monitor.windowY mon
    ∧ (Client.h cl' = Monitor.windowHeight mon
       ∨ (cl' = cl
          ∧ Client.h cl
            = Monitor.windowHeight mon - 2 * Client.borderWidth cl)).
Proof.
  intros Hlay Hnm Hwh Hwy Hhf Hfs Hfl [Hb Hroom].
  set (bw := Client.borderWidth cl) in *.
  assert (∃ x w, tile_propose 1 (tile_mw mon 1) (0, 0, 0) mon cl
                 = (x, Monitor.windowY mon, w,
                    Monitor.windowHeight mon - 2 * bw)) as (x & w & Ep).
  { unfold tile_propose. rewrite Z.sub_0_r, Z.add_0_r.
    rewrite (u32_small (Monitor.nMaster mon)) by lia.
    rewrite (u32_small (Monitor.windowHeight mon)) by lia.
    rewrite (s32_u32 (Monitor.windowY mon)) by lia. fold bw.
    destruct (Z.ltb_spec 0 (Monitor.nMaster mon)).
    - assert (MIN 1 (Monitor.nMaster mon) = 1) as -> by (rewrite MIN_min; lia).
      change (u32 (1 - 0)) with 1. rewrite Z.quot_1_r.
      rewrite (s32_u32 (Monitor.windowHeight mon - 2 * bw)) by lia. eauto.
    - change (u32 (1 - 0)) with 1. rewrite Z.quot_1_r.
      rewrite (s32_u32 (Monitor.windowHeight mon - 2 * bw)) by lia. eauto. }
  cbn [place_list]. rewrite Ep.
  destruct (resized_sole_in_column cfg s cl mon x (Monitor.windowY mon) w
              (Monitor.windowHeight mon - 2 * bw) Hlay Hhf Hfs Hfl Hb
              ltac:(lia) ltac:(lia)) as [Hy Hh].
  eexists. split; [done|]. split; [done|].
  destruct Hh as [Hh|[Hr Hh]]; [left|right].
  - rewrite Hh. fold bw. lia.
  - done.
Qed.

(** C2, as amended. Take a monitor in the tile layout whose tiled clients
    have no size hints and are not fullscreen, with a window area of
    positive height, values within the range of [int], and room in an
    [n]-th of the height for each client's border, a pixel and the bar
    height. Then [tile] returns, and
    - with two or more tiled clients, the master column (the first
      [nMaster] tiled clients) and the stack column (the others) are each
      empty or run from the top of the window area to its bottom with no
      gap and no overlap, so that the heights of a column, borders
      included, add up to the height of the window area;
    - in each of the two columns every client is as high, borders
      included, as the height that remains below its top edge divided by
      the number of clients of the column that remain, the division
      rounding down, so that no client is higher than the one below it;
    - a sole tiled client is put at the top of the window area with the
      height of the window area, its border being dropped, unless it sat
      there inside its border already. *)
Theorem tile_columns_fill_height (cfg : Config.t) (fuel : nat) (m : nat)
    (s : State) (mon : Monitor.t) (lc : list nat) :
  ms s !! m = Some mon →
  client_list fuel s m = Some lc →
  on_monitor s m lc →
  Z.of_nat (length lc) < 2 ^ 31 →
  arrange_fn (curlayout mon) = Some Tile →
  0 ≤ Monitor.nMaster mon < 2 ^ 31 →
  0 < Monitor.windowHeight mon ≤ 2 ^ 30 →
  - 2 ^ 30 ≤ Monitor.windowY mon ≤ 2 ^ 30 →
  let lt := tiled_clients s lc in
  let n := Z.of_nat (length lt) in
  1 ≤ n →
  (∀ c cl, c ∈ lt → cs s !! c = Some cl →
     hint_free cl ∧ Client.isFullscreen cl = false
     ∧ has_room s (Monitor.windowHeight mon / n) cl) →
  ∃ s',
    tile cfg fuel m s = Some s'
    ∧ (2 ≤ n →
       fills_height s' mon (take (Z.to_nat (Monitor.nMaster mon)) lt)
       ∧ fills_height s' mon (drop (Z.to_nat (Monitor.nMaster mon)) lt))
    ∧ (2 ≤ n →
       shares_height s' mon (take (Z.to_nat (Monitor.nMaster mon)) lt)
       ∧ shares_height s' mon (drop (Z.to_nat (Monitor.nMaster mon)) lt))
    ∧ (∀ c cl, lt = [c] → cs s !! c = Some cl →
         ∃ cl', cs s' !! c = Some cl'
           ∧ Client.y cl' = Monitor.windowY mon
           ∧ (Client.h cl' = Monitor.windowHeight mon
              ∨ (cl' = cl
                 ∧ Client.h cl
                   = Monitor.windowHeight mon - 2 * Client.borderWidth cl))).
Proof.
  intros Hm Hl Hon Hlen Hlay Hnm Hwh Hwy lt n Hn Hfit.
  rewrite (tile_spec cfg fuel m s mon lc Hm Hl Hon ltac:(lia)).
  destruct (tiled_records s m mon fuel lc Hm Hl Hon)
    as (Hk & Hr & Hnd & _ & Hle).
  fold lt in Hk, Hr, Hnd, Hle. fold lt. fold n.
  destruct (Z.eqb_spec n 0) as [|_]; [lia|].
  assert (Forall (λ c, is_Some (cs s !! c)) lt) as Hsome.
  { apply Forall_forall. intros c Hc.
    apply tiled_clients_elem in Hc as [Hc _].
    unfold on_monitor in Hon. rewrite Forall_forall in Hon.
    destruct (Hon c Hc) as (cl & -> & _). eauto. }
  assert (2 ≤ n →
          (fills_height (set_cs (ins_all (tile_placed cfg s mon lc) (cs s)) s)
             mon (take (Z.to_nat (Monitor.nMaster mon)) lt)
           ∧ shares_height
               (set_cs (ins_all (tile_placed cfg s mon lc) (cs s)) s)
               mon (take (Z.to_nat (Monitor.nMaster mon)) lt))
          ∧ (fills_height
               (set_cs (ins_all (tile_placed cfg s mon lc) (cs s)) s)
               mon (drop (Z.to_nat (Monitor.nMaster mon)) lt)
             ∧ shares_height
                 (set_cs (ins_all (tile_placed cfg s mon lc) (cs s)) s)
                 mon (drop (Z.to_nat (Monitor.nMaster mon)) lt))) as Hcols.
  { intros H2. unfold tile_placed. fold lt. fold n.
    assert (bool_decide (length lt = 1%nat) = false) as ->.
    { apply bool_decide_eq_false. subst n. lia. }
    apply (tile_placed_columns cfg s mon lt); try done; [subst n; lia|].
    intros c cl Hc Hcl. destruct (Hfit c cl Hc Hcl) as (? & _ & ?). done. }
  eexists. split; [done|]. split; [|split].
  - intros H2. destruct (Hcols H2) as [[? _] [? _]]. done.
  - intros H2. destruct (Hcols H2) as [[_ ?] [_ ?]]. done.
  - intros c cl Elt Hcl.
    assert (c ∈ lt) as Hc by (rewrite Elt; by left).
    destruct (Hfit c cl Hc Hcl) as (Hhf & Hfs & Hroom).
    assert (n = 1) as En by (subst n; by rewrite Elt).
    rewrite En, Z.div_1_r in Hroom.
    pose proof (proj1 (tiled_clients_elem s lc c) Hc) as [_ Ht].
    pose proof (is_tiled_not_floating s c cl Ht Hcl) as Hfl.
    destruct (tile_placed_sole cfg s mon c cl Hlay Hnm Hwh Hwy Hhf Hfs Hfl
                Hroom) as (cl' & Epl & Hy & Hh).
    exists cl'. split; [|done]. simpl. unfold tile_placed. fold lt. fold n.
    rewrite En, Elt. simpl length.
    rewrite bool_decide_eq_true_2 by done.
    rewrite (records_cons s c cl [] Hcl). change (records s []) with (@nil (nat * Client.t)).
    rewrite Epl. simpl. apply lookup_insert_eq.
Qed.

Lemma tile_columns_fill_height_witness :
  let s := three_masters in
  let mon := plain_monitor layout_tile 3 1000 800
               (Some 1%nat) (Some 1%nat) (Some 1%nat) None in
  let lc := [1%nat; 2%nat; 3%nat; 4%nat] in
  (ms s !! 0%nat = Some mon ∧ client_list 8 s 0 = Some lc
   ∧ tiled_clients s lc = lc)
  ∧ ∃ s',
      tile config_def 8 0 s = Some s'
      ∧ (2 ≤ Z.of_nat (length (tiled_clients s lc)) →
         fills_height s' mon
           (take (Z.to_nat (Monitor.nMaster mon)) (tiled_clients s lc))
         ∧ fills_height s' mon
             (drop (Z.to_nat (Monitor.nMaster mon)) (tiled_clients s lc)))
      ∧ (2 ≤ Z.of_nat (length (tiled_clients s lc)) →
         shares_height s' mon
           (take (Z.to_nat (Monitor.nMaster mon)) (tiled_clients s lc))
         ∧ shares_height s' mon
             (drop (Z.to_nat (Monitor.nMaster mon)) (tiled_clients s lc)))
      ∧ (∀ c cl, tiled_clients s lc = [c] → cs s !! c = Some cl →
           ∃ cl', cs s' !! c = Some cl'
             ∧ Client.y cl' = Monitor.windowY mon
             ∧ (Client.h cl' = Monitor.windowHeight mon
                ∨ (cl' = cl
                   ∧ Client.h cl
                     = Monitor.windowHeight mon
                       - 2 * Client.borderWidth cl))).
Proof.
  intros s mon lc. split; [repeat split; vm_compute; reflexivity|].
  apply (tile_columns_fill_height config_def 8 0 s mon lc).
  - vm_compute; reflexivity.
  - vm_compute; reflexivity.
  - apply on_monitor_decide. vm_compute; reflexivity.
  - simpl; lia.
  - reflexivity.
  - simpl; lia.
  - simpl; lia.
  - simpl; lia.
  - vm_compute; discriminate.
  - apply (clients_forall_decide
             (λ cl, hint_free cl ∧ Client.isFullscreen cl = false
                    ∧ has_room s (800 / 4) cl)).
    vm_compute; reflexivity.
Defined.

(** The remainder of the division goes to the later slots: three masters
    share 800 pixels as 266, 267 and 267. *)
Example tile_three_masters :
  (s' ← tile config_def 8 0 three_masters;
   Some (omap (λ c, (λ cl, (Client.y cl, HEIGHT cl)) <$> cs s' !! c)
           [1%nat; 2%nat; 3%nat; 4%nat]))
  = Some [(0, 266); (266, 267); (533, 267); (0, 800)].
Proof. vm_compute. reflexivity. Qed.

(** The claim of C2 as written fails: with two tiled clients and one
    master, a master that will not be taller than 100 pixels is left 102
    pixels high, border included, in a window area of height 800; and a
    sole tiled client is left 800 pixels high, 802 with the border its
    record still carries. *)
Lemma tile_leaves_gap_below_capped_master :
  tiled_clients capped_master [1%nat; 2%nat] = [1%nat; 2%nat]
  ∧ (s' ← tile config_def 8 0 capped_master;
     cl ← cs s' !! 1%nat;
     Some (geometry cl, HEIGHT cl)) = Some ((0, 0, 498, 100), 102)
  ∧ (mon ← ms capped_master !! 0%nat;
     Some (Monitor.nMaster mon, Monitor.windowHeight mon)) = Some (1, 800)
  ∧ (s' ← tile config_def 8 0 one_tiled;
     cl ← cs s' !! 1%nat;
     Some (Client.h cl, HEIGHT cl)) = Some (800, 802).
Proof. repeat split; vm_compute; reflexivity. Qed.

(** * Arranging a monitor *)

(** ** Updates that keep the lists *)

Section LinksReads.

Variables s s' : State.
Hypothesis Hlinks : ∀ c, links <$> cs s' !! c = links <$> cs s !! c.
Hypothesis Hms : ms s' = ms s.

Lemma links_proj {B} (f : option nat * option nat * nat → B) c :
  (λ cl, f (links cl)) <$> cs s' !! c = (λ cl, f (links cl)) <$> cs s !! c.
Proof.
  pose proof (Hlinks c) as H.
  destruct (cs s' !! c) as [a|], (cs s !! c) as [b|]; simpl in *;
    [|discriminate..|done].
  apply (inj Some) in H. by rewrite H.
Qed.

Lemma links_client_list k m : client_list k s' m = client_list k s m.
Proof.
  unfold client_list. rewrite Hms. destruct (ms s !! m) as [mon|]; [|done].
  simpl. apply chain_list_ext_eq. intros c.
  exact (links_proj (λ l, l.1.1) c).
Qed.

Lemma links_stack_list k m : stack_list k s' m = stack_list k s m.
Proof.
  unfold stack_list. rewrite Hms. destruct (ms s !! m) as [mon|]; [|done].
  simpl. apply chain_list_ext_eq. intros c.
  exact (links_proj (λ l, l.1.2) c).
Qed.

Lemma links_on_monitor m l : on_monitor s m l → on_monitor s' m l.
Proof.
  unfold on_monitor. intros Hon. eapply Forall_impl; [exact Hon|].
  intros c (cl & Hc & Hm).
  pose proof (links_proj (λ l, l.2) c) as H. rewrite Hc in H.
  destruct (cs s' !! c) as [a|]; [|done].
  apply (inj Some) in H. exists a. split; [done|]. simpl in H. congruence.
Qed.

Lemma links_lists_ok k m : lists_ok k s m → lists_ok k s' m.
Proof.
  intros (mon & lc & ls & Hm & Hl & Hon & Hs & Hons & Hlen).
  exists mon, lc, ls. rewrite Hms, links_client_list, links_stack_list.
  repeat split; try done; by apply links_on_monitor.
Qed.

End LinksReads.

Lemma updc_links c f s s' :
  (∀ cl, links (f cl) = links cl) →
  updc c f s = Some s' →
  (∀ c0, links <$> cs s' !! c0 = links <$> cs s !! c0) ∧ ms s' = ms s.
Proof.
  intros Hf H. unfold updc in H.
  destruct (cs s !! c) as [cl|] eqn:Hc; [|done].
  apply (inj Some) in H. subst s'. split; [|done].
  intros c0. simpl. destruct (decide (c0 = c)) as [->|Hne].
  - rewrite lookup_insert_eq, Hc. simpl. by rewrite Hf.
  - by rewrite lookup_insert_ne.
Qed.

Lemma geom_frame_links s s' :
  geom_frame s s' → ∀ c, links <$> cs s' !! c = links <$> cs s !! c.
Proof. intros F c. by apply (geom_frame_proj s s' F links). Qed.

Lemma geom_frame_lists_ok s s' k m :
  geom_frame s s' → lists_ok k s m → lists_ok k s' m.
Proof.
  intros F (mon & lc & ls & Hm & Hl & Hon & Hs & Hons & Hlen).
  destruct (geom_frame_monitor_inv s s' m mon F Hm) as (mon' & Hm' & _).
  exists mon', lc, ls.
  rewrite (geom_frame_client_list s s' F), (geom_frame_stack_list s s' F).
  repeat split; try done; by apply (geom_frame_on_monitor s s' F).
Qed.

(** ** What [resizeclient] leaves behind *)


(** ** What [showhide] leaves behind *)

Lemma resized_floating_sole cfg s b cl mon x y w h i :
  bool_decide (arrange_fn (curlayout mon) = None) || Client.isFloating cl
  = true →
  resized cfg s b cl mon x y w h i = resized cfg s false cl mon x y w h i.
Proof.
  intros H. unfold resized.
  destruct (applysizehints cfg s cl mon x y w h i)
    as [[[[x' y'] w'] h'] []]; [|done].
  destruct cl; simpl in *.
  destruct (bool_decide (arrange_fn (curlayout mon) = None)), isFloating,
    isFullscreen, b; simpl in *; try done;
    by destruct (bool_decide (arrange_fn (curlayout mon) = Some Monocle)).
Qed.

Lemma showhide_placed_insert cfg s mon ls c0 cl0 :
  c0 ∉ ls →
  showhide_placed cfg (set_cs (<[c0 := cl0]> (cs s)) s) mon ls
  = showhide_placed cfg s mon ls.
Proof.
  intros Hn. unfold showhide_placed.
  apply list_omap_ext, Forall_Forall2_diag, Forall_forall.
  intros c Hc. simpl. rewrite lookup_insert_ne; [done|].
  intros ->. by apply Hn.
Qed.

Lemma showhide_placed_cons cfg s mon c cl ls :
  cs s !! c = Some cl →
  showhide_placed cfg s mon (c :: ls)
  = (if shown_resize mon cl
     then [(c, resized cfg s false cl mon (Client.x cl) (Client.y cl)
                 (Client.w cl) (Client.h cl) false)]
     else []) ++ showhide_placed cfg s mon ls.
Proof.
  intros Hc. unfold showhide_placed. csimpl. rewrite Hc. simpl.
  by destruct (shown_resize mon cl).
Qed.

Lemma set_cs_set_cs h h' s : set_cs h (set_cs h' s) = set_cs h s.
Proof. by destruct s. Qed.

Lemma showhide_spec cfg fuel m mon lc :
  ∀ ls k p s,
    ms s !! m = Some mon →
    client_list fuel s m = Some lc →
    on_monitor s m lc →
    chain_list Client.selectionNext k (cs s) p = Some ls →
    on_monitor s m ls →
    showhide cfg fuel k p s
    = Some (set_cs (ins_all (showhide_placed cfg s mon ls) (cs s)) s).
Proof.
  induction ls as [|c0 rest IH]; intros k p s Hm Hl Hon Hch Hons.
  - destruct p as [c|].
    + apply chain_list_Some_inv in Hch as (? & ? & ? & _ & _ & ? & _). done.
    + destruct k; simpl; by rewrite set_cs_same.
  - pose proof (chain_list_NoDup _ _ _ _ _ Hch) as Hnd.
    apply NoDup_cons in Hnd as [Hn0 Hnd].
    destruct p as [c|]; [|by destruct k].
    apply chain_list_Some_inv in Hch as (k' & cl & l' & -> & Hc & E & Hch).
    injection E as <- <-.
    apply Forall_cons in Hons as [(cl_ & Hc_ & Hmon) Hons].
    rewrite Hc in Hc_. apply (inj Some) in Hc_. subst cl_.
    rewrite (showhide_placed_cons cfg s mon c0 cl rest Hc).
    simpl. rewrite Hc. simpl. unfold ISVISIBLE. rewrite Hmon, Hm. simpl.
    unfold shown_resize.
    destruct (ISVISIBLEONTAG cl (curtags mon)) eqn:Ev; simpl;
      [|by apply IH].
    destruct (bool_decide (arrange_fn (curlayout mon) = None)
              || Client.isFloating cl) eqn:Ec; simpl;
      [|rewrite Hc; simpl; by apply IH].
    destruct (Client.isFullscreen cl) eqn:Ef; simpl;
      [rewrite Hc; simpl; by apply IH|].
    rewrite <- Hmon in Hm, Hl, Hon.
    rewrite (resize_spec cfg fuel c0 _ _ _ _ false s cl mon lc Hc Hm Hl Hon).
    rewrite resized_floating_sole by done. simpl.
    set (cl' := resized cfg s false cl mon _ _ _ _ false).
    set (s1 := set_cs (<[c0 := cl']> (cs s)) s).
    assert (geom_frame s s1) as F.
    { repeat split; try done. simpl.
      eapply fmap_insert_same; [done|apply resized_shape]. }
    rewrite lookup_insert_eq. simpl.
    assert (Client.selectionNext cl' = Client.selectionNext cl) as ->.
    { exact (f_equal Client.selectionNext (resized_shape _ _ _ _ _ _ _ _ _ _)). }
    rewrite Hmon in Hm, Hl, Hon.
    rewrite (IH k' (Client.selectionNext cl) s1); [| | | | |].
    + subst s1. rewrite showhide_placed_insert by done.
      simpl. by rewrite set_cs_set_cs.
    + done.
    + by rewrite (geom_frame_client_list s s1 F).
    + by apply (geom_frame_on_monitor s s1 F).
    + by rewrite (geom_frame_chain s s1 F).
    + by apply (geom_frame_on_monitor s s1 F).
Qed.

(** ** What [arrange] leaves behind on one monitor *)

Lemma ins_all_same placed :
  ∀ (h : gmap nat Client.t) c cl,
    h !! c = Some cl →
    (∀ cl', (c, cl') ∈ placed → cl' = cl) →
    ins_all placed h !! c = Some cl.
Proof.
  induction placed as [|[c0 cl0] placed IH]; intros h c cl Hc Hsame; [done|].
  simpl. apply IH.
  - destruct (decide (c0 = c)) as [->|Hne].
    + rewrite lookup_insert_eq. f_equal. apply Hsame. by left.
    + by rewrite lookup_insert_ne.
  - intros cl' Hin. apply Hsame. by right.
Qed.

Lemma differs_geometry cl : differs cl (geometry cl) = false.
Proof. unfold differs, geometry. by rewrite !Z.eqb_refl. Qed.

(** A client [showhide] does not resize, or resizes to where it is. *)
Lemma showhide_placed_same cfg s mon ls c cl :
  cs s !! c = Some cl →
  shown_resize mon cl = false ∨ settled cfg s mon cl →
  ∀ cl', (c, cl') ∈ showhide_placed cfg s mon ls → cl' = cl.
Proof.
  intros Hc Hcond cl' Hin. unfold showhide_placed in Hin.
  apply list_elem_of_omap in Hin as (c1 & _ & H).
  destruct (cs s !! c1) as [cl1|] eqn:Hc1; [|done]. simpl in H.
  destruct (shown_resize mon cl1) eqn:Es; [|done].
  injection H as -> <-. rewrite Hc in Hc1. apply (inj Some) in Hc1. subst cl1.
  destruct Hcond as [Hn|Hst]; [congruence|].
  apply resized_same. unfold settled, geometry in Hst.
  rewrite Hst. apply differs_geometry.
Qed.

Section ArrangeSpec.

Variable cfg : Config.t.

Lemma showhide_mon_spec fuel m s mon lc ls :
  ms s !! m = Some mon →
  client_list fuel s m = Some lc → on_monitor s m lc →
  stack_list fuel s m = Some ls → on_monitor s m ls →
  showhide_mon cfg fuel m s
  = Some (set_cs (ins_all (showhide_placed cfg s mon ls) (cs s)) s).
Proof.
  intros Hm Hl Hon Hs Hons. unfold showhide_mon. rewrite Hm. simpl.
  unfold stack_list in Hs. rewrite Hm in Hs. simpl in Hs.
  by apply (showhide_spec cfg fuel m mon lc).
Qed.

(** The layout functions return and touch tiled clients only. *)
Lemma arrangemon_spec fuel m s mon lc :
  ms s !! m = Some mon →
  client_list fuel s m = Some lc → on_monitor s m lc →
  Z.of_nat (length lc) < 2 ^ 31 →
  ∃ s', arrangemon cfg fuel m s = Some s'
    ∧ ∀ c, c ∉ tiled_clients s lc → cs s' !! c = cs s !! c.
Proof.
  intros Hm Hl Hon Hlen. unfold arrangemon, updm. rewrite Hm. simpl.
  set (mon1 := Monitor.set_layoutSymbol (symbol (curlayout mon)) mon).
  set (s1 := set_ms (<[m := mon1]> (ms s)) s).
  assert (geom_frame s s1) as F.
  { repeat split; try done. simpl. by eapply fmap_insert_same. }
  assert (ms s1 !! m = Some mon1) as Hm1 by apply lookup_insert_eq.
  assert (client_list fuel s1 m = Some lc) as Hl1
    by (by rewrite (geom_frame_client_list s s1 F)).
  pose proof (geom_frame_on_monitor s s1 F _ _ Hon) as Hon1.
  pose proof (geom_frame_tiled_clients s s1 F lc) as Ht.
  destruct (tiled_records s1 m mon1 fuel lc Hm1 Hl1 Hon1) as (Hk & _).
  destruct (arrange_fn (curlayout mon)) as [[| |]|]; simpl.
  - rewrite (dwindle_spec cfg fuel m s1 mon1 lc Hm1 Hl1 Hon1 ltac:(lia)).
    eexists. split; [done|]. intros c Hc.
    destruct (_ =? 0); [done|]. simpl. apply ins_all_notin.
    unfold dwindle_placed. by rewrite place_list_keys, Hk, Ht.
  - rewrite (tile_spec cfg fuel m s1 mon1 lc Hm1 Hl1 Hon1 ltac:(lia)).
    eexists. split; [done|]. intros c Hc.
    destruct (_ =? 0); [done|]. simpl. apply ins_all_notin.
    unfold tile_placed. by rewrite place_list_keys, Hk, Ht.
  - pose proof (monocle_spec cfg fuel m s1 mon1 lc Hm1 Hl1 Hon1 ltac:(lia))
      as Hs. cbv zeta in Hs. rewrite Hs.
    eexists. split; [done|]. intros c Hc. simpl. apply ins_all_notin.
    unfold monocle_placed. by rewrite place_list_keys, Hk, Ht.
  - eexists. split; [done|]. done.
Qed.

Lemma arrange_spec fuel m s mon lc ls :
  ms s !! m = Some mon →
  client_list fuel s m = Some lc → on_monitor s m lc →
  stack_list fuel s m = Some ls → on_monitor s m ls →
  Z.of_nat (length lc) < 2 ^ 31 →
  ∃ s', arrange cfg fuel (Some m) s = Some s'
    ∧ geom_frame s s'
    ∧ ∀ c cl,
        cs s !! c = Some cl → is_tiled s c = false →
        shown_resize mon cl = false ∨ settled cfg s mon cl →
        cs s' !! c = Some cl.
Proof.
  intros Hm Hl Hon Hs Hons Hlen.
  pose proof (showhide_mon_spec fuel m s mon lc ls Hm Hl Hon Hs Hons) as H1.
  set (s1 := set_cs (ins_all (showhide_placed cfg s mon ls) (cs s)) s) in H1.
  pose proof (showhide_mon_geom_frame cfg fuel m s s1 H1) as F.
  destruct (arrangemon_spec fuel m s1 mon lc) as (s' & H2 & Hout);
    [done|by rewrite (geom_frame_client_list s s1 F)
    |by apply (geom_frame_on_monitor s s1 F)|done|].
  exists s'. split; [|split].
  - unfold arrange. rewrite H1. simpl. exact H2.
  - eapply geom_frame_trans; [exact F|].
    by eapply arrangemon_geom_frame.
  - intros c cl Hc Hnt Hcond. rewrite Hout.
    + subst s1. simpl. apply ins_all_same; [done|].
      by apply showhide_placed_same.
    + rewrite (geom_frame_tiled_clients s s1 F).
      intros Hin. apply tiled_clients_elem in Hin as [_ Hin]. congruence.
Qed.

End ArrangeSpec.

(** * Dragging a tiled client *)

Section Drag.

Variable cfg : Config.t.

Lemma resize_ok fuel c x y w h i s cl m mon :
  lists_ok fuel s m → ms s !! m = Some mon →
  cs s !! c = Some cl → Client.monitor cl = m →
  ∃ sole,
    resize cfg fuel c x y w h i s
    = Some (set_cs (<[c := resized cfg s sole cl mon x y w h i]> (cs s)) s).
Proof.
  intros (mon' & lc & ls & Hm' & Hl & Hon & _) Hm Hc Hmon.
  rewrite Hm in Hm'. apply (inj Some) in Hm'. subst mon' m.
  eexists. by apply (resize_spec cfg fuel c x y w h i s cl mon lc).
Qed.

Lemma arrange_ok fuel m s mon :
  lists_ok fuel s m → ms s !! m = Some mon →
  ∃ s', arrange cfg fuel (Some m) s = Some s'
    ∧ geom_frame s s'
    ∧ ∀ c cl,
        cs s !! c = Some cl → is_tiled s c = false →
        shown_resize mon cl = false ∨ settled cfg s mon cl →
        cs s' !! c = Some cl.
Proof.
  intros (mon' & lc & ls & Hm' & Hl & Hon & Hs & Hons & Hlen) Hm.
  rewrite Hm in Hm'. apply (inj Some) in Hm'. subst mon'.
  by apply (arrange_spec cfg fuel m s mon lc ls).
Qed.

Lemma movemouse_motion_unfold fuel c ocx ocy x y evx evy s :
  movemouse_motion cfg fuel c ocx ocy x y evx evy s
  = (sm ← selectedMonitor s;
     smon ← ms s !! sm;
     cl ← cs s !! c;
     let p := snap_candidate cfg smon cl ocx ocy x y evx evy in
     s1 ← (if negb (Client.isFloating cl)
              && negb (bool_decide (arrange_fn (curlayout smon) = None))
              && exceeds_snap cfg cl p
           then togglefloating cfg fuel s
           else Some s);
     sm1 ← selectedMonitor s1;
     smon1 ← ms s1 !! sm1;
     cl1 ← cs s1 !! c;
     if bool_decide (arrange_fn (curlayout smon1) = None)
        || Client.isFloating cl1
     then resize cfg fuel c p.1 p.2 (Client.w cl1) (Client.h cl1) true s1
     else Some s1).
Proof. reflexivity. Qed.

(** [togglefloating] on a tiled selected client: it returns, and the
    client is floating afterwards. *)
Lemma togglefloating_floats fuel s sm smon c cl :
  selectedMonitor s = Some sm → ms s !! sm = Some smon →
  Monitor.selectedClient smon = Some c →
  cs s !! c = Some cl → Client.monitor cl = sm →
  Client.isFullscreen cl = false → Client.isFloating cl = false →
  lists_ok fuel s sm →
  ∃ s1 cl1 smon1,
    togglefloating cfg fuel s = Some s1
    ∧ selectedMonitor s1 = Some sm
    ∧ ms s1 !! sm = Some smon1
    ∧ Monitor.erase_symbol smon1 = Monitor.erase_symbol smon
    ∧ cs s1 !! c = Some cl1
    ∧ Client.isFloating cl1 = true
    ∧ Client.monitor cl1 = sm
    ∧ lists_ok fuel s1 sm.
Proof.
  intros Hsm Hsmon Hsel Hc Hmon Hfs Hfl Hok.
  unfold togglefloating. rewrite Hsm. simpl. rewrite Hsmon. simpl.
  rewrite Hsel, Hc. simpl. rewrite Hfs.
  set (f := λ cl0, Client.set_isFloating
                     (negb (Client.isFloating cl0) || Client.isFixed cl0) cl0).
  assert (updc c f s = Some (set_cs (<[c := f cl]> (cs s)) s)) as Hu
    by (unfold updc; by rewrite Hc).
  rewrite Hu. simpl. set (sa := set_cs (<[c := f cl]> (cs s)) s).
  destruct (updc_links c f s sa ltac:(by intros []) Hu) as [HL HM].
  pose proof (links_lists_ok s sa HL HM fuel sm Hok) as Hoka.
  rewrite lookup_insert_eq. simpl.
  assert (Client.isFloating (f cl) = true) as Hfa.
  { subst f. destruct cl; simpl in *. by rewrite Hfl. }
  rewrite Hfl. cbn [negb orb].
  destruct (resize_ok fuel c (Client.x cl) (Client.y cl)
              (Client.w cl) (Client.h cl) false sa (f cl) sm smon
              Hoka ltac:(by rewrite HM) ltac:(apply lookup_insert_eq)
              ltac:(by destruct cl)) as [sole Hr].
  rewrite Hr. simpl.
  set (clb := resized cfg sa sole (f cl) smon _ _ _ _ false) in *.
  set (sb := set_cs (<[c := clb]> (cs sa)) sa) in *.
  pose proof (resize_geom_frame cfg fuel c _ _ _ _ false sa sb Hr) as Fb.
  pose proof (geom_frame_lists_ok sa sb fuel sm Fb Hoka) as Hokb.
  change (selectedMonitor sb) with (selectedMonitor s). rewrite Hsm.
  destruct (arrange_ok fuel sm sb smon Hokb ltac:(done))
    as (s1 & Ha & F1 & _).
  pose proof (geom_frame_lists_ok sb s1 fuel sm F1 Hokb) as Hok1.
  destruct (geom_frame_monitor_inv sb s1 sm smon F1 ltac:(done))
    as (smon1 & Hsmon1 & Es).
  destruct (geom_frame_client_inv sb s1 c clb F1 ltac:(apply lookup_insert_eq))
    as (cl1 & Hc1 & Ec).
  assert (Client.erase_geom cl1 = Client.erase_geom (f cl)) as Ec'.
  { rewrite Ec. apply resized_shape. }
  exists s1, cl1, smon1. split; [done|]. split.
  { destruct F1 as (_ & _ & _ & -> & _). done. }
  split; [done|]. split; [done|]. split; [done|]. split; [|split; [|done]].
  - rewrite <- Hfa. exact (f_equal Client.isFloating Ec').
  - transitivity (Client.monitor (f cl));
      [exact (f_equal Client.monitor Ec')|by destruct cl].
Qed.

End Drag.

(** The [MotionNotify] case of the mouse-move sub-loop for a client [c]
    that is still the selected client of the selected monitor, is neither
    fullscreen nor floating, under a layout with an arrange function, with
    the lists of the monitor in order. When
    the snapped candidate position differs from the position of [c] by
    more than the snap distance on either axis, [togglefloating] runs
    first and makes [c] floating, and only then is [c] resized to the
    candidate position: the case returns, [c] is floating afterwards, and
    its geometry is what [applysizehints] makes of the candidate position
    and the size [c] had after the conversion. *)
Theorem drag_floats_selected_tiled_client (cfg : Config.t) (fuel : nat)
    (c : nat) (ocx ocy x y evx evy : Z) (s : State) (sm : nat)
    (smon : Monitor.t) (cl : Client.t) :
  selectedMonitor s = Some sm →
  ms s !! sm = Some smon →
  Monitor.selectedClient smon = Some c →
  cs s !! c = Some cl →
  Client.monitor cl = sm →
  Client.isFullscreen cl = false →
  Client.isFloating cl = false →
  arrange_fn (curlayout smon) ≠ None →
  lists_ok fuel s sm →
  let p := snap_candidate cfg smon cl ocx ocy x y evx evy in
  exceeds_snap cfg cl p = true →
  ∃ s1 cl1 smon1 s' cl',
    togglefloating cfg fuel s = Some s1
    ∧ cs s1 !! c = Some cl1
    ∧ ms s1 !! sm = Some smon1
    ∧ Client.isFloating cl1 = true
    ∧ movemouse_motion cfg fuel c ocx ocy x y evx evy s
      = resize cfg fuel c p.1 p.2 (Client.w cl1) (Client.h cl1) true s1
    ∧ movemouse_motion cfg fuel c ocx ocy x y evx evy s = Some s'
    ∧ cs s' !! c = Some cl'
    ∧ Client.isFloating cl' = true
    ∧ geometry cl'
      = adjust cfg s1 cl1 smon1 true
          (p.1, p.2, Client.w cl1, Client.h cl1).
Proof.
  intros Hsm Hsmon Hsel Hc Hmon Hfs Hfl Harr Hok p Hex.
  destruct (togglefloating_floats cfg fuel s sm smon c cl Hsm Hsmon Hsel Hc
              Hmon Hfs Hfl Hok)
    as (s1 & cl1 & smon1 & Ht & Hsm1 & Hsmon1 & Es & Hc1 & Hfl1 & Hmon1 & Hok1).
  destruct (resize_ok cfg fuel c p.1 p.2 (Client.w cl1) (Client.h cl1) true
              s1 cl1 sm smon1 Hok1 Hsmon1 Hc1 Hmon1) as [sole Hr].
  assert (movemouse_motion cfg fuel c ocx ocy x y evx evy s
          = resize cfg fuel c p.1 p.2 (Client.w cl1) (Client.h cl1) true s1)
    as Hmm.
  { rewrite movemouse_motion_unfold. rewrite Hsm. simpl. rewrite Hsmon. simpl.
    rewrite Hc. simpl. fold p. rewrite Hfl, Hex.
    rewrite bool_decide_eq_false_2 by done. simpl.
    rewrite Ht. simpl. rewrite Hsm1. simpl. rewrite Hsmon1. simpl.
    rewrite Hc1. simpl. by rewrite Hfl1, orb_true_r. }
  eexists s1, cl1, smon1, _, _.
  split; [done|]. split; [done|]. split; [done|]. split; [done|].
  split; [done|]. split; [by rewrite Hmm|]. split.
  { simpl. apply lookup_insert_eq. }
  pose proof (resized_geometry cfg s1 sole cl1 smon1 p.1 p.2 (Client.w cl1)
                (Client.h cl1) true) as [Hg He].
  cbv zeta in Hg. split.
  - transitivity (Client.isFloating cl1); [|done].
    exact (f_equal Client.isFloating He).
  - etransitivity; [exact Hg|].
    assert (grows sole cl1 smon1 = false) as ->.
    { unfold grows. rewrite Hfl1. simpl. by rewrite !andb_false_r. }
    rewrite andb_false_r, !Z.add_0_r.
    by destruct (adjust cfg s1 cl1 smon1 true _) as [[[??]?]?].
Qed.

(** [lists_ok] by evaluation. *)
Lemma lists_ok_intro fuel s m mon lc ls :
  ms s !! m = Some mon →
  client_list fuel s m = Some lc →
  stack_list fuel s m = Some ls →
  forallb (λ c, match cs s !! c with
                | Some cl => bool_decide (Client.monitor cl = m)
                | None => false
                end) (lc ++ ls) = true →
  Z.of_nat (length lc) < 2 ^ 31 →
  lists_ok fuel s m.
Proof.
  intros Hm Hl Hs Hall Hlen. rewrite forallb_app in Hall.
  apply andb_true_iff in Hall as [H1 H2].
  exists mon, lc, ls. repeat split; try done; by apply on_monitor_decide.
Qed.

Lemma drag_floats_selected_tiled_client_witness :
  let s := two_tiled in
  let smon := plain_monitor layout_tile 1 1000 800
                (Some 1%nat) (Some 1%nat) (Some 1%nat) None in
  let cl := plain_client 0 1 false 0 0 498 798 1 (Some 2%nat) (Some 2%nat) in
  let p := snap_candidate config_def smon cl 0 0 500 300 540 300 in
  (p = (40, 0) ∧ exceeds_snap config_def cl p = true)
  ∧ ∃ s1 cl1 smon1 s' cl',
      togglefloating config_def 8 s = Some s1
      ∧ cs s1 !! 1%nat = Some cl1
      ∧ ms s1 !! 0%nat = Some smon1
      ∧ Client.isFloating cl1 = true
      ∧ movemouse_motion config_def 8 1 0 0 500 300 540 300 s
        = resize config_def 8 1 p.1 p.2 (Client.w cl1) (Client.h cl1) true s1
      ∧ movemouse_motion config_def 8 1 0 0 500 300 540 300 s = Some s'
      ∧ cs s' !! 1%nat = Some cl'
      ∧ Client.isFloating cl' = true
      ∧ geometry cl'
        = adjust config_def s1 cl1 smon1 true
            (p.1, p.2, Client.w cl1, Client.h cl1).
Proof.
  intros s smon cl p. split; [split; vm_compute; reflexivity|].
  apply (drag_floats_selected_tiled_client config_def 8 1 0 0 500 300 540 300
           s 0 smon cl).
  - reflexivity.
  - vm_compute; reflexivity.
  - reflexivity.
  - vm_compute; reflexivity.
  - reflexivity.
  - reflexivity.
  - reflexivity.
  - vm_compute; discriminate.
  - apply (lists_ok_intro 8 s 0 smon [1%nat; 2%nat] [1%nat; 2%nat]).
    + vm_compute; reflexivity.
    + vm_compute; reflexivity.
    + vm_compute; reflexivity.
    + vm_compute; reflexivity.
    + simpl; lia.
  - vm_compute; reflexivity.
Defined.

(** A drag by 40 pixels to the right, snap distance 32: the tiled client
    floats and sits 40 pixels to the right. *)
Example drag_by_forty :
  (s' ← movemouse_motion config_def 8 1 0 0 500 300 540 300 two_tiled;
   cl' ← cs s' !! 1%nat;
   Some (Client.isFloating cl', geometry cl'))
  = Some (true, (40, 0, 498, 798)).
Proof. vm_compute. reflexivity. Qed.

(** C9. The sub-loop tests the floating flag of the dragged client and
    moves that client only once it floats, but the conversion in between
    is [togglefloating] on the selected client. A window that is mapped
    during the drag takes the selection, and from then on a motion that
    exceeds the snap distance makes the new window floating; the dragged
    client, still tiled under the tile layout, is not converted and is
    not moved. First the [MotionNotify] case alone after the new window
    has been managed, then the whole loop over the three events. *)
Lemma drag_after_map_request_floats_other_client :
  (s1 ← manage config_def 8 new_window two_tiled;
   smon ← ms s1 !! 0%nat;
   cl ← cs s1 !! 1%nat;
   s2 ← movemouse_motion config_def 8 1 0 0 500 300 540 300 s1;
   cl' ← cs s2 !! 1%nat;
   new' ← cs s2 !! 3%nat;
   Some (Monitor.selectedClient smon, arrange_fn (curlayout smon),
         Client.isFloating cl, geometry cl,
         snap_candidate config_def smon cl 0 0 500 300 540 300,
         exceeds_snap config_def cl
           (snap_candidate config_def smon cl 0 0 500 300 540 300),
         Client.isFloating cl', geometry cl', Client.isFloating new'))
  = Some (Some 3%nat, Some Tile, false, (0, 0, 498, 798), (40, 0), true,
          false, (0, 0, 498, 798), true)
  ∧ (s' ← movemouse config_def (manage config_def 8) 8 true (Some (500, 300))
            [EvDelegated new_window; EvMotion 100 540 300; EvButtonRelease]
            two_tiled;
     Some (omap (λ c, (λ cl, (c, Client.isFloating cl)) <$> cs s' !! c)
             [1%nat; 3%nat]))
    = Some [(1%nat, false); (3%nat, true)].
Proof. split; vm_compute; reflexivity. Qed.

(** * Fullscreen *)


Lemma reshaped_geometry sole cl mon x y w h :
  let d := if grows sole cl mon then 2 * Client.borderWidth cl else 0 in
  geometry (reshaped sole cl mon x y w h) = (x, y, w + d, h + d)
  ∧ old_geometry (reshaped sole cl mon x y w h) = geometry cl.
Proof.
  unfold reshaped, geometry, old_geometry.
  destruct (grows sole cl mon), cl; simpl; split; try done;
    repeat (apply pair_equal_spec; split); lia.
Qed.












Section Fullscreen.

Variable cfg : Config.t.



End Fullscreen.





(** A tiled client on a tag that is not shown, in the monocle layout:
    [resizeclient] adds two border widths to the rectangle
    [setfullscreen] puts back, and [arrange] does not place a client that
    is hidden anew. *)
Example setfullscreen_hidden_tiled_grows :
  (cl ← cs hidden_tiled !! 1%nat;
   s1 ← setfullscreen config_def 8 1 true hidden_tiled;
   s2 ← setfullscreen config_def 8 1 false s1;
   cl2 ← cs s2 !! 1%nat;
   Some (geometry cl, geometry cl2))
  = Some ((0, 0, 1000, 800), (0, 0, 1002, 802)).
Proof. vm_compute; reflexivity. Qed.

(** * The client list *)

(** ** Walks that can be followed *)

(** Allocation of the listed clients and of their monitors, by
    evaluation. *)
Lemma allocated_decide s l :
  forallb (λ c, match cs s !! c with
                | Some cl => bool_decide (is_Some (ms s !! Client.monitor cl))
                | None => false
                end) l = true →
  Forall (λ c, ∃ cl, cs s !! c = Some cl
                     ∧ is_Some (ms s !! Client.monitor cl)) l.
Proof.
  intros H. apply Forall_forall. intros c Hin.
  rewrite forallb_forall in H. apply list_elem_of_In in Hin.
  specialize (H c Hin). destruct (cs s !! c) as [cl|]; [|done].
  apply bool_decide_eq_true in H. eauto.
Qed.

(** [nexttiled] returns the first client, from [p] on along the client
    list, that is neither floating nor hidden, and null when there is
    none. *)
Theorem nexttiled_first_tiled (fuel : nat) (s : State) (p : option nat)
    (l : list nat) :
  chain_list Client.next fuel (cs s) p = Some l →
  Forall (λ c, ∃ cl, cs s !! c = Some cl
                     ∧ is_Some (ms s !! Client.monitor cl)) l →
  nexttiled fuel s p = Some (head (List.filter (is_tiled s) l)).
Proof.
  intros Hch Hall. apply nexttiled_tiled_from. by exists l.
Qed.

Lemma nexttiled_first_tiled_witness :
  nexttiled 8 (three_stacked 2) (Some 1%nat) = Some (Some 1%nat)
  ∧ nexttiled 8 (three_stacked 2) (Some 3%nat)
    = Some (head (List.filter (is_tiled (three_stacked 2)) [3%nat])).
Proof.
  split; [vm_compute; reflexivity|].
  apply (nexttiled_first_tiled 8 (three_stacked 2) (Some 3%nat) [3%nat]).
  - vm_compute; reflexivity.
  - apply allocated_decide. vm_compute; reflexivity.
Defined.

(** ** Links of either list *)

Section LinkKind.

Variable nx : Client.t → option nat.
Variable set_nx : option nat → Client.t → Client.t.
Variable rd : State → Link → option (option nat).
Variable hd : Monitor.t → option nat.

Hypothesis nx_set : ∀ v cl, nx (set_nx v cl) = v.
Hypothesis rd_head : ∀ s m, rd s (LHead m) = hd <$> ms s !! m.
Hypothesis rd_link : ∀ s c, rd s (LLink c) = nx <$> cs s !! c.

Lemma find_link_walk l2 c s l1 tc k p :
  rd s tc = Some p →
  chain_list nx k (cs s) p = Some (l1 ++ c :: l2) →
  c ∉ l1 →
  find_link rd k s c tc = Some (link_before tc l1).
Proof.
  revert tc k p. induction l1 as [|a l1 IH]; intros tc k p Hr H Hn.
  - destruct p as [c'|]; [|destruct k; done].
    apply chain_list_Some_inv in H as (k' & cl & l' & -> & Hc & E & H).
    simpl in E. simplify_eq. simpl. rewrite Hr. simpl.
    by rewrite decide_True.
  - destruct p as [c'|]; [|destruct k; done].
    apply chain_list_Some_inv in H as (k' & cl & l' & -> & Hc & E & H).
    simpl in E. simplify_eq. simpl. rewrite Hr. simpl.
    rewrite decide_False by (intros ->; apply Hn; left).
    erewrite IH; [|rewrite rd_link; by rewrite Hc|done|].
    + unfold link_before. rewrite last_cons. by destruct (last l1).
    + intros Hin. apply Hn. by right.
Qed.

Lemma chain_list_bypass k h l1 a c l2 p cla v :
  chain_list nx k h p = Some (l1 ++ a :: c :: l2) →
  h !! a = Some cla →
  chain_list nx k h v = Some l2 →
  chain_list nx k (<[a := set_nx v cla]> h) p = Some (l1 ++ a :: l2).
Proof.
  intros H Ha Hv.
  pose proof (chain_list_NoDup _ _ _ _ _ H) as Hnd.
  revert k p H Hv. induction l1 as [|b l1 IH]; intros k p H Hv.
  - destruct p as [p0|]; [|destruct k; done].
    apply chain_list_Some_inv in H as (k' & cl & l' & -> & Hc & E & H).
    simpl in E. simplify_eq. simpl. rewrite lookup_insert_eq. simpl.
    rewrite nx_set.
    apply NoDup_cons in Hnd as [Hn1 Hnd].
    apply chain_list_length in H as Hlen. simpl in Hlen.
    apply (chain_list_refuel _ _ k') in Hv; [|lia].
    erewrite (chain_list_ext _ k' h); [done| |done].
    intros c' Hc'. rewrite lookup_insert_ne; [done|].
    intros ->. apply Hn1. by right.
  - destruct p as [p0|]; [|destruct k; done].
    apply chain_list_Some_inv in H as (k' & cl & l' & -> & Hc & E & H).
    simpl in E. simplify_eq. simpl.
    apply NoDup_cons in Hnd as [Hn1 Hnd].
    rewrite lookup_insert_ne
      by (intros ->; apply Hn1; rewrite elem_of_app; right; left).
    rewrite Hc. simpl.
    apply chain_list_length in H as Hlen. rewrite length_app in Hlen.
    simpl in Hlen.
    apply (chain_list_refuel _ _ k') in Hv; [|lia].
    by erewrite IH.
Qed.

End LinkKind.

(** ** [attach] and [detach] *)

Lemma chain_list_suffix_next k (h : gmap nat Client.t) p l1 c cl l2 :
  chain_list Client.next k h p = Some (l1 ++ c :: l2) →
  h !! c = Some cl →
  chain_list Client.next k h (Client.next cl) = Some l2.
Proof.
  intros H Hc.
  pose proof (chain_list_suffix _ _ _ _ _ _ _ H) as Hs.
  apply chain_list_Some_inv in Hs as (k' & cl' & l' & -> & Hc' & E & Hs).
  simplify_eq. eapply chain_list_mono; [exact Hs|lia].
Qed.

(** Taking a client off the client list of its monitor: only the member
    before the client, or the monitor, is written. *)
Lemma detach_spec fuel s m mon c cl l1 l2 :
  ms s !! m = Some mon →
  cs s !! c = Some cl →
  Client.monitor cl = m →
  client_list fuel s m = Some (l1 ++ c :: l2) →
  ∃ s',
    detach fuel c s = Some s'
    ∧ client_list fuel s' m = Some (l1 ++ l2)
    ∧ (∀ c', c' ∉ l1 → cs s' !! c' = cs s !! c')
    ∧ (∀ m', m' ≠ m → ms s' !! m' = ms s !! m')
    ∧ (∀ k m', stack_list k s' m' = stack_list k s m').
Proof.
  intros Hm Hc Hmc Hl.
  unfold client_list in Hl. rewrite Hm in Hl. simpl in Hl.
  pose proof (chain_list_NoDup _ _ _ _ _ Hl) as Hnd.
  assert (c ∉ l1) as Hn1.
  { apply NoDup_app in Hnd as (_ & Hd & _). intros Hin.
    apply (Hd c Hin). left. }
  pose proof (chain_list_suffix_next _ _ _ _ _ _ _ Hl Hc) as Hl2.
  unfold detach. rewrite Hc. simpl. rewrite Hmc.
  erewrite (find_link_walk Client.next read_next (λ _ _, eq_refl));
    [|simpl; by rewrite Hm|exact Hl|exact Hn1].
  simpl. unfold link_before.
  destruct (last l1) as [a|] eqn:El.
  - apply last_Some in El as [l1' ->]. simpl.
    assert (is_Some (cs s !! a)) as [cla Ha].
    { eapply chain_list_allocated; [exact Hl|].
      rewrite !elem_of_app. left. right. left. }
    assert (a ≠ c) as Hac.
    { intros ->. apply Hn1. rewrite elem_of_app. right. left. }
    unfold updc. rewrite Ha. simpl. eexists. split; [done|].
    split; [|split; [|split]].
    + unfold client_list. simpl. rewrite Hm. simpl.
      rewrite <- app_assoc in Hl. simpl in Hl.
      rewrite <- app_assoc. simpl.
      by eapply (chain_list_bypass Client.next Client.set_next (λ _ _, eq_refl)).
    + intros c' Hc'. simpl. rewrite lookup_insert_ne; [done|].
      intros ->. apply Hc'. rewrite elem_of_app. right. left.
    + done.
    + intros k m'. unfold stack_list. simpl.
      destruct (ms s !! m') as [mon'|]; [|done]. simpl.
      apply chain_list_ext_eq. intros c'.
      destruct (decide (c' = a)) as [->|Hne].
      * by rewrite lookup_insert_eq, Ha.
      * by rewrite lookup_insert_ne.
  - apply last_None in El as ->. simpl in *.
    unfold updm. rewrite Hm. simpl. eexists. split; [done|].
    split; [|split; [|split]].
    + unfold client_list. simpl. rewrite lookup_insert_eq. simpl. done.
    + done.
    + intros m' Hne. simpl. by rewrite lookup_insert_ne.
    + intros k m'. unfold stack_list. simpl.
      destruct (decide (m' = m)) as [->|Hne].
      * by rewrite lookup_insert_eq, Hm.
      * by rewrite lookup_insert_ne.
Qed.

(** [detach] takes the client out of the client list of its monitor and
    keeps the order of the others; the client stays allocated, and no
    focus stack changes. *)
Theorem detach_removes_client (fuel : nat) (s : State) (m : nat)
    (mon : Monitor.t) (c : nat) (cl : Client.t) (l1 l2 : list nat) :
  ms s !! m = Some mon →
  cs s !! c = Some cl →
  Client.monitor cl = m →
  client_list fuel s m = Some (l1 ++ c :: l2) →
  ∃ s',
    detach fuel c s = Some s'
    ∧ client_list fuel s' m = Some (l1 ++ l2)
    ∧ cs s' !! c = Some cl
    ∧ (∀ k m', stack_list k s' m' = stack_list k s m').
Proof.
  intros Hm Hc Hmc Hl.
  destruct (detach_spec fuel s m mon c cl l1 l2 Hm Hc Hmc Hl)
    as (s' & Hd & Hl' & Hcs & _ & Hst).
  exists s'. repeat (split; [done|]). split; [|done].
  rewrite Hcs; [done|].
  unfold client_list in Hl. rewrite Hm in Hl. simpl in Hl.
  pose proof (chain_list_NoDup _ _ _ _ _ Hl) as Hnd.
  apply NoDup_app in Hnd as (_ & Hd' & _). intros Hin.
  apply (Hd' c Hin). left.
Qed.

Lemma detach_removes_client_witness :
  let s := three_stacked 1 in
  ∃ s',
    detach 8 1 s = Some s'
    ∧ client_list 8 s' 0 = Some ([2%nat] ++ [3%nat])
    ∧ cs s' !! 1%nat
      = Some (plain_client 0 1 false 0 0 498 798 1 (Some 3%nat) (Some 2%nat))
    ∧ (∀ k m', stack_list k s' m' = stack_list k s m').
Proof.
  intros s.
  apply (detach_removes_client 8 s 0
           (plain_monitor layout_tile 1 1000 800
              (Some 2%nat) (Some 3%nat) (Some 3%nat) None)
           1 _ [2%nat] [3%nat]).
  - vm_compute; reflexivity.
  - vm_compute; reflexivity.
  - reflexivity.
  - vm_compute; reflexivity.
Defined.

(** Putting a client at the head of the client list of its monitor. *)
Lemma attach_spec fuel s m mon c cl l :
  ms s !! m = Some mon →
  cs s !! c = Some cl →
  Client.monitor cl = m →
  client_list fuel s m = Some l →
  c ∉ l →
  ∃ s',
    attach c s = Some s'
    ∧ client_list (S fuel) s' m = Some (c :: l)
    ∧ (∀ k m', stack_list k s' m' = stack_list k s m').
Proof.
  intros Hm Hc Hmc Hl Hn.
  unfold client_list in Hl. rewrite Hm in Hl. simpl in Hl.
  unfold attach. rewrite Hc. simpl. rewrite Hmc, Hm. simpl.
  unfold updc. rewrite Hc. simpl. unfold updm. simpl. rewrite Hm. simpl.
  eexists. split; [done|]. split.
  - unfold client_list. cbn [ms cs set_ms set_cs]. rewrite lookup_insert_eq.
    cbn [fmap option_fmap option_map mbind option_bind].
    replace (Monitor.clients (Monitor.set_clients (Some c) mon))
      with (Some c) by (by destruct mon).
    cbn [chain_list]. rewrite lookup_insert_eq.
    cbn [fmap option_fmap option_map mbind option_bind].
    replace (Client.next (Client.set_next (Monitor.clients mon) cl))
      with (Monitor.clients mon) by (by destruct cl).
    erewrite (chain_list_ext _ fuel (cs s)); [done| |exact Hl].
    intros c' Hc'. rewrite lookup_insert_ne; [done|]. by intros ->.
  - intros k m'. unfold stack_list. simpl.
    assert (∀ p, chain_list Client.selectionNext k
                   (<[c := Client.set_next (Monitor.clients mon) cl]> (cs s)) p
                 = chain_list Client.selectionNext k (cs s) p) as E.
    { intros p. apply chain_list_ext_eq. intros c'.
      destruct (decide (c' = c)) as [->|Hne].
      - by rewrite lookup_insert_eq, Hc.
      - by rewrite lookup_insert_ne. }
    destruct (decide (m' = m)) as [->|Hne].
    + rewrite lookup_insert_eq, Hm. simpl. apply E.
    + rewrite lookup_insert_ne by done.
      destruct (ms s !! m'); [|done]. simpl. apply E.
Qed.

(** [attach] puts a client that is not in the client list of its monitor
    at the head of that list; no focus stack changes. *)
Theorem attach_puts_client_first (fuel : nat) (s : State) (m : nat)
    (mon : Monitor.t) (c : nat) (cl : Client.t) (l : list nat) :
  ms s !! m = Some mon →
  cs s !! c = Some cl →
  Client.monitor cl = m →
  client_list fuel s m = Some l →
  c ∉ l →
  ∃ s',
    attach c s = Some s'
    ∧ client_list (S fuel) s' m = Some (c :: l)
    ∧ (∀ k m', stack_list k s' m' = stack_list k s m').
Proof. apply attach_spec. Qed.

(** The failing case of the hypothesis: a client that is attached while
    it is in the list already, at its head, becomes its own successor. *)
Example attach_twice_loops :
  (s1 ← attach 2 (three_stacked 1);
   cl ← cs s1 !! 2%nat;
   Some (Client.next cl, client_list 8 s1 0))
  = Some (Some 2%nat, None).
Proof. vm_compute. reflexivity. Qed.

Lemma attach_puts_client_first_witness :
  ∃ s1 s',
    detach 8 1 (three_stacked 1) = Some s1
    ∧ attach 1 s1 = Some s'
    ∧ client_list 9 s' 0 = Some [1%nat; 2%nat; 3%nat]
    ∧ (∀ k m', stack_list k s' m' = stack_list k s1 m').
Proof.
  destruct (detach 8 1 (three_stacked 1)) as [s1|] eqn:E;
    [|vm_compute in E; discriminate].
  exists s1.
  assert (∃ mon cl,
            ms s1 !! 0%nat = Some mon ∧ cs s1 !! 1%nat = Some cl
            ∧ Client.monitor cl = 0%nat
            ∧ client_list 8 s1 0 = Some [2%nat; 3%nat])
    as (mon & cl & Hm & Hc & Hmc & Hl).
  { vm_compute in E. injection E as <-.
    eexists _, _. repeat split; vm_compute; reflexivity. }
  destruct (attach_puts_client_first 8 s1 0 mon 1 cl [2%nat; 3%nat] Hm Hc Hmc
              Hl) as (s' & Ha & Hl' & Hs).
  - intros Hin. apply elem_of_cons in Hin as [Hin|Hin]; [discriminate|].
    apply elem_of_cons in Hin as [Hin|Hin]; [discriminate|].
    by apply elem_of_nil in Hin.
  - exists s'. split; [done|]. split; [done|]. split; [done|]. done.
Defined.

(** * Lookups *)

(** ** [windowToClient] *)

Lemma find_window_chain fuel s window p l :
  chain_list Client.next fuel (cs s) p = Some l →
  find_window fuel s window p = Some (find (has_window s window) l).
Proof.
  revert p l. induction fuel as [|k IH]; intros [c|] l H; simpl in H;
    simplify_eq; try done.
  bind_inv H. apply fmap_Some in H as (l' & H & ->).
  simpl. rewrite Hx. simpl. unfold has_window at 1. rewrite Hx.
  destruct (Client.window x =? window); [done|]. by apply IH.
Qed.

Lemma find_app_first {A} (f : A → bool) l1 l2 :
  find f (l1 ++ l2) = match find f l1 with Some a => Some a | None => find f l2 end.
Proof. induction l1 as [|a l1 IH]; simpl; [done|]. by destruct (f a). Qed.

Lemma windowToClient_from_lists fuel s window k m lm lc :
  monitor_list k (ms s) m = Some lm →
  client_lists fuel s lm = Some lc →
  windowToClient_from fuel k s window m
  = Some (find (has_window s window) lc).
Proof.
  revert m lm lc. induction k as [|k IH]; intros [m0|] lm lc Hm Hc;
    simpl in Hm; simplify_eq; simpl in Hc; simplify_eq; try done.
  bind_inv Hm. apply fmap_Some in Hm as (lm' & Hm & ->).
  simpl in Hc. bind_inv Hc. apply fmap_Some in Hc as (lc' & Hc & ->).
  unfold client_list in Hx0. rewrite Hx in Hx0. simpl in Hx0.
  simpl. rewrite Hx. simpl.
  rewrite (find_window_chain _ _ _ _ _ Hx0). simpl.
  rewrite find_app_first.
  destruct (find (has_window s window) x0); [done|]. by eapply IH.
Qed.

(** [windowToClient] returns the first client with the window, in the
    order of the monitors and then of their client lists, and null when
    no listed client has it. *)
Theorem windowToClient_first_match (fuel : nat) (s : State) (window : Z)
    (lm : list nat) (lc : list nat) :
  monitor_list fuel (ms s) (monitors s) = Some lm →
  client_lists fuel s lm = Some lc →
  windowToClient fuel s window = Some (find (has_window s window) lc).
Proof. apply windowToClient_from_lists. Qed.

Lemma windowToClient_first_match_witness :
  windowToClient 8 three_windows 12
  = Some (find (has_window three_windows 12) [1%nat; 3%nat; 2%nat])
  ∧ find (has_window three_windows 12) [1%nat; 3%nat; 2%nat] = Some 2%nat
  ∧ windowToClient 8 three_windows 14 = Some None.
Proof.
  split; [|split; vm_compute; reflexivity].
  apply (windowToClient_first_match 8 three_windows 12 [0%nat; 1%nat]).
  - vm_compute; reflexivity.
  - vm_compute; reflexivity.
Defined.

(** ** [rectangleToMonitor] *)

Lemma INTERSECT_nonneg x y w h mon : 0 ≤ INTERSECT x y w h mon.
Proof.
  unfold INTERSECT. rewrite !MAX_max.
  apply Z.mul_nonneg_nonneg; lia.
Qed.

Lemma rectangleToMonitor_from_spec s x y w h k m lm area r :
  monitor_list k (ms s) m = Some lm →
  ∃ r',
    rectangleToMonitor_from k s x y w h m area r = Some r'
    ∧ ((Forall (λ m', overlap s x y w h m' ≤ area) lm ∧ r' = r)
       ∨ ∃ l1 m1 l2,
           lm = l1 ++ m1 :: l2 ∧ r' = Some m1
           ∧ area < overlap s x y w h m1
           ∧ Forall (λ m', overlap s x y w h m' < overlap s x y w h m1) l1
           ∧ Forall (λ m', overlap s x y w h m' ≤ overlap s x y w h m1) l2).
Proof.
  revert m lm area r. induction k as [|k IH]; intros [m0|] lm area r Hm;
    simpl in Hm; simplify_eq.
  2: { bind_inv Hm. apply fmap_Some in Hm as (lm' & Hm & ->).
    simpl. rewrite Hx. simpl.
    assert (overlap s x y w h m0 = INTERSECT x y w h x0) as Eo
      by (unfold overlap; by rewrite Hx).
    destruct (Z.ltb_spec area (INTERSECT x y w h x0)) as [Hlt|Hge].
    + destruct (IH _ _ (INTERSECT x y w h x0) (Some m0) Hm)
        as (r' & Hr & [[Hall ->]|(l1 & m1 & l2 & -> & -> & H1 & H2 & H3)]).
      * exists (Some m0). split; [done|]. right.
        exists [], m0, lm'. rewrite Eo. repeat split; try done.
      * exists (Some m1). split; [done|]. right.
        exists (m0 :: l1), m1, l2. repeat split; try done; [lia|].
        constructor; [lia|done].
    + destruct (IH _ _ area r Hm)
        as (r' & Hr & [[Hall ->]|(l1 & m1 & l2 & -> & -> & H1 & H2 & H3)]).
      * exists r. split; [done|]. left. split; [|done].
        constructor; [lia|done].
      * exists (Some m1). split; [done|]. right.
        exists (m0 :: l1), m1, l2. repeat split; try done.
        constructor; [lia|done]. }
  all: eexists; (split; [done|]); left; (split; [constructor|done]).
Qed.

(** [rectangleToMonitor] returns the selected monitor when the rectangle
    overlaps the window area of no monitor, and otherwise the monitor it
    overlaps most, the first such one in the order of the monitor list. *)
Theorem rectangleToMonitor_largest_overlap (fuel : nat) (s : State)
    (x y w h : Z) (lm : list nat) :
  monitor_list fuel (ms s) (monitors s) = Some lm →
  ∃ r,
    rectangleToMonitor fuel s x y w h = Some r
    ∧ ((Forall (λ m, overlap s x y w h m = 0) lm ∧ r = selectedMonitor s)
       ∨ ∃ l1 m1 l2,
           lm = l1 ++ m1 :: l2 ∧ r = Some m1
           ∧ 0 < overlap s x y w h m1
           ∧ Forall (λ m, overlap s x y w h m < overlap s x y w h m1) l1
           ∧ Forall (λ m, overlap s x y w h m ≤ overlap s x y w h m1) l2).
Proof.
  intros Hm.
  destruct (rectangleToMonitor_from_spec s x y w h _ _ _ 0 (selectedMonitor s) Hm)
    as (r & Hr & [[Hall ->]|H]).
  - eexists. split; [exact Hr|]. left. split; [|done].
    eapply Forall_impl; [exact Hall|]. intros m Hle. simpl in Hle.
    assert (0 ≤ overlap s x y w h m); [|lia].
    unfold overlap. destruct (ms s !! m); [apply INTERSECT_nonneg|done].
  - eexists. split; [exact Hr|]. by right.
Qed.

Lemma rectangleToMonitor_largest_overlap_witness :
  ∃ r,
    rectangleToMonitor 8 three_windows 900 0 300 100 = Some r
    ∧ ((Forall (λ m, overlap three_windows 900 0 300 100 m = 0)
          [0%nat; 1%nat]
        ∧ r = selectedMonitor three_windows)
       ∨ ∃ l1 m1 l2,
           [0%nat; 1%nat] = l1 ++ m1 :: l2 ∧ r = Some m1
           ∧ 0 < overlap three_windows 900 0 300 100 m1
           ∧ Forall (λ m, overlap three_windows 900 0 300 100 m
                          < overlap three_windows 900 0 300 100 m1) l1
           ∧ Forall (λ m, overlap three_windows 900 0 300 100 m
                          ≤ overlap three_windows 900 0 300 100 m1) l2).
Proof.
  apply (rectangleToMonitor_largest_overlap 8 three_windows 900 0 300 100
           [0%nat; 1%nat]).
  vm_compute; reflexivity.
Defined.

(** The rectangle of the witness lies a hundred pixels wide on the first
    monitor and two hundred on the second: the second is returned. *)
Example rectangleToMonitor_two_monitors :
  rectangleToMonitor 8 three_windows 900 0 300 100 = Some (Some 1%nat)
  ∧ rectangleToMonitor 8 three_windows 5000 0 300 100 = Some (Some 0%nat).
Proof. split; vm_compute; reflexivity. Qed.

(** ** Screens of the same geometry *)

Lemma same_geom_eq a b : same_geom a b = true ↔ a = b.
Proof.
  unfold same_geom. rewrite !andb_true_iff, !Z.eqb_eq.
  split.
  - intros [[[? ?] ?] ?]. destruct a, b; simpl in *. congruence.
  - intros ->. done.
Qed.

Lemma isuniquegeom_notin unique i : isuniquegeom unique i = true ↔ i ∉ unique.
Proof.
  unfold isuniquegeom. rewrite negb_true_iff.
  rewrite <- not_true_iff_false, existsb_exists.
  split.
  - intros H Hin. apply H. exists i. split; [by apply list_elem_of_In|].
    by apply same_geom_eq.
  - intros H (u & Hin & He). apply same_geom_eq in He. subst u.
    apply H. by apply list_elem_of_In.
Qed.

Lemma unique_fold info acc :
  NoDup acc →
  let r := fold_left (λ unique i,
                        if isuniquegeom unique i then unique ++ [i] else unique)
                     info acc in
  NoDup r ∧ (∀ i, i ∈ r ↔ i ∈ acc ∨ i ∈ info) ∧ (length r ≤ length acc + length info)%nat.
Proof.
  revert acc. induction info as [|i0 info IH]; intros acc Hnd; simpl.
  - split; [done|]. split; [|lia]. intros i. rewrite elem_of_nil. tauto.
  - destruct (isuniquegeom acc i0) eqn:E.
    + apply isuniquegeom_notin in E.
      destruct (IH (acc ++ [i0])) as (H1 & H2 & H3).
      { apply NoDup_app. split; [done|]. split; [|apply NoDup_singleton].
        intros x Hx Hx'. apply list_elem_of_singleton in Hx'. by subst. }
      split; [done|]. split.
      * intros i. rewrite H2, elem_of_app, !elem_of_cons, elem_of_nil.
        tauto.
      * rewrite length_app in H3. simpl in H3. lia.
    + destruct (IH acc Hnd) as (H1 & H2 & H3).
      split; [done|]. split; [|lia].
      intros i. rewrite H2, elem_of_cons.
      assert (i0 ∈ acc).
      { unfold isuniquegeom in E. apply negb_false_iff in E.
        apply existsb_exists in E as (u & Hin & He).
        apply same_geom_eq in He. subst u. by apply list_elem_of_In. }
      split; [tauto|]. intros [?|[->|?]]; tauto.
Qed.

(** The screens that [updateGeometry] keeps of those Xinerama reports:
    every reported geometry once. *)
Theorem unique_geoms_each_once (info : list ScreenInfo) :
  NoDup (unique_geoms info)
  ∧ (∀ i, i ∈ unique_geoms info ↔ i ∈ info)
  ∧ (length (unique_geoms info) ≤ length info)%nat.
Proof.
  destruct (unique_fold info [] (NoDup_nil_2)) as (H1 & H2 & H3).
  split; [done|]. split; [|done].
  intros i. unfold unique_geoms. rewrite H2, elem_of_nil. tauto.
Qed.

(** ** Size hints *)

(** Where the hints of a client are applied, the size [applysizehints]
    returns does not exceed a maximum the client gave, and does not fall
    below its minimum unless that is above the maximum. *)
Theorem applysizehints_within_limits (cfg : Config.t) (s : State)
    (c : Client.t) (m : Monitor.t) (x y w h : Z) (interact : bool) :
  hints_apply cfg c m = true →
  let '(_, _, w', h', _) := applysizehints cfg s c m x y w h interact in
  (Client.maxw c ≠ 0 → w' ≤ Client.maxw c)
  ∧ (Client.maxh c ≠ 0 → h' ≤ Client.maxh c)
  ∧ (Client.maxw c = 0 ∨ Client.minw c ≤ Client.maxw c → Client.minw c ≤ w')
  ∧ (Client.maxh c = 0 ∨ Client.minh c ≤ Client.maxh c → Client.minh c ≤ h').
Proof.
  unfold hints_apply, applysizehints. intros ->.
  cbv zeta.
  destruct (if interact then _ else _) as [x1 y1].
  destruct (if negb _ then _ else _) as [w0 h0].
  destruct (if F32.ltb F32.zero (Client.mina c) && _ then _ else _)
    as [w1 h1].
  destruct (if (Client.basew c =? Client.minw c) && _ then _ else _)
    as [w2 h2].
  rewrite !MAX_max, !MIN_min.
  destruct (Z.eqb_spec (Client.maxw c) 0), (Z.eqb_spec (Client.maxh c) 0);
    repeat split; intros ?; lia.
Qed.

Lemma applysizehints_within_limits_witness :
  hints_apply config_def stepped_client
    (plain_monitor layout_tile 1 1000 800 None None None None) = true
  ∧ let '(_, _, w', h', _) :=
      applysizehints config_def empty_monitor stepped_client
        (plain_monitor layout_tile 1 1000 800 None None None None)
        0 0 50 50 false in
    (Client.maxw stepped_client ≠ 0 → w' ≤ Client.maxw stepped_client)
    ∧ (Client.maxh stepped_client ≠ 0 → h' ≤ Client.maxh stepped_client)
    ∧ (Client.maxw stepped_client = 0
       ∨ Client.minw stepped_client ≤ Client.maxw stepped_client
       → Client.minw stepped_client ≤ w')
    ∧ (Client.maxh stepped_client = 0
       ∨ Client.minh stepped_client ≤ Client.maxh stepped_client
       → Client.minh stepped_client ≤ h').
Proof.
  split; [vm_compute; reflexivity|].
  apply (applysizehints_within_limits config_def empty_monitor stepped_client
           (plain_monitor layout_tile 1 1000 800 None None None None)
           0 0 50 50 false).
  vm_compute; reflexivity.
Defined.

(** * Monitors *)

(** ** The monitor list *)

Lemma monitor_list_Some_inv k h m l :
  monitor_list k h (Some m) = Some l →
  ∃ k' mon l', k = S k' ∧ h !! m = Some mon ∧ l = m :: l'
               ∧ monitor_list k' h (Monitor.next mon) = Some l'.
Proof.
  destruct k as [|k']; simpl; [done|]. intros H. bind_inv H.
  apply fmap_Some in H as (l' & H & ->). eauto 10.
Qed.

Lemma monitor_list_mono k k' h p l :
  monitor_list k h p = Some l → (k ≤ k')%nat → monitor_list k' h p = Some l.
Proof.
  revert k' p l. induction k as [|k IH]; intros k' [c|] l H Hk; simpl in H;
    simplify_eq.
  - by destruct k'.
  - destruct k' as [|k']; [lia|]. simpl. bind_inv H.
    apply fmap_Some in H as (l' & H & ->).
    rewrite Hx. simpl. erewrite IH; [done|done|lia].
  - by destruct k'.
Qed.

Lemma monitor_list_suffix k h p l1 m l2 :
  monitor_list k h p = Some (l1 ++ m :: l2) →
  monitor_list k h (Some m) = Some (m :: l2).
Proof.
  revert k p. induction l1 as [|a l1 IH]; intros k p H.
  - destruct p as [c'|]; [|destruct k; simpl in H; done].
    apply monitor_list_Some_inv in H as (k' & cl & l' & -> & Hc & E & H).
    simpl in E. simplify_eq. simpl. rewrite Hc. simpl. by rewrite H.
  - destruct p as [c'|]; [|destruct k; simpl in H; done].
    apply monitor_list_Some_inv in H as (k' & cl & l' & -> & Hc & E & H).
    simpl in E. simplify_eq.
    eapply monitor_list_mono; [by eapply IH|lia].
Qed.

Lemma monitor_list_NoDup k h p l :
  monitor_list k h p = Some l → NoDup l.
Proof.
  revert p l. induction k as [|k IH]; intros [c|] l H; simpl in H;
    simplify_eq; try by constructor.
  bind_inv H. apply fmap_Some in H as (l' & H & ->).
  constructor; [|by eapply IH].
  intros Hin. apply list_elem_of_split in Hin as (l1 & l2 & ->).
  pose proof (monitor_list_suffix _ _ _ _ _ _ H) as Hs.
  apply (monitor_list_mono _ (S k)) in Hs; [|lia].
  simpl in Hs. rewrite Hx in Hs. simpl in Hs. rewrite H in Hs. simpl in Hs.
  simplify_eq. apply (f_equal length) in Hs.
  rewrite length_app in Hs. simpl in Hs. lia.
Qed.

(** ** [dirtomon] *)

Lemma last_from_last k s m l :
  monitor_list k (ms s) (Some m) = Some l →
  Some <$> last_from k s m = Some (last l).
Proof.
  revert m l. induction k as [|k IH]; intros m l H; [done|].
  apply monitor_list_Some_inv in H as (k' & mon & l' & E & Hm & -> & H).
  simplify_eq. simpl. rewrite Hm. simpl.
  destruct (Monitor.next mon) as [m1|] eqn:En.
  - pose proof H as H'.
    apply monitor_list_Some_inv in H' as (? & ? & l'' & -> & _ & -> & _).
    rewrite (IH _ _ H). by rewrite (last_cons_cons m m1 l'').
  - destruct k'; simpl in H; by simplify_eq.
Qed.

Lemma before_from_last k s m la p t l2 :
  monitor_list k (ms s) (Some m) = Some (la ++ p :: t :: l2) →
  before_from k s (Some t) m = Some p.
Proof.
  revert k m. induction la as [|a la IH]; intros k m H.
  - apply monitor_list_Some_inv in H as (k' & mon & l' & -> & Hm & E & H).
    simpl in E. simplify_eq.
    destruct (Monitor.next mon) as [m1|] eqn:En;
      [|destruct k'; simpl in H; by simplify_eq].
    apply monitor_list_Some_inv in H as (? & ? & ? & -> & _ & E & _).
    simplify_eq. simpl. rewrite Hm. simpl. rewrite En.
    by rewrite decide_True.
  - pose proof (monitor_list_NoDup _ _ _ _ H) as Hnd.
    apply monitor_list_Some_inv in H as (k' & mon & l' & -> & Hm & E & H).
    simpl in E. simplify_eq.
    destruct (Monitor.next mon) as [m1|] eqn:En;
      [|destruct k', la; simpl in H; by simplify_eq].
    pose proof H as H'.
    apply monitor_list_Some_inv in H' as (k'' & ? & ? & -> & _ & E & _).
    simpl. rewrite Hm. simpl. rewrite En.
    rewrite decide_False.
    + simpl. apply (IH (S k'') m1 H).
    + intros Et. apply (inj Some) in Et. subst m1.
      apply NoDup_cons in Hnd as [_ Hnd].
      destruct la as [|a' la]; simpl in E; simplify_eq.
      * apply NoDup_cons in Hnd as [Hn _]. apply Hn. left.
      * apply NoDup_cons in Hnd as [Hn _]. apply Hn.
        rewrite elem_of_app. right. right. left.
Qed.

Lemma dirtomon_spec fuel dir s l1 l2 sm :
  monitor_list fuel (ms s) (monitors s) = Some (l1 ++ sm :: l2) →
  selectedMonitor s = Some sm →
  dirtomon fuel dir s
  = Some (if 0 <? dir then head (l2 ++ l1 ++ [sm])
          else last (sm :: l2 ++ l1)).
Proof.
  intros Hl Hsm.
  pose proof (monitor_list_NoDup _ _ _ _ Hl) as Hnd.
  pose proof (monitor_list_suffix _ _ _ _ _ _ Hl) as Hs.
  pose proof Hs as Hs'.
  apply monitor_list_Some_inv in Hs' as (k' & smon & ? & -> & Hm & E & Hn).
  simplify_eq.
  destruct (monitors s) as [first|] eqn:Ef;
    [|destruct l1; simpl in Hl; by simplify_eq].
  assert (head (l1 ++ [sm]) = Some first) as Hfirst.
  { apply monitor_list_Some_inv in Hl as (? & ? & ? & _ & _ & E & _).
    destruct l1; simpl in *; by simplify_eq. }
  unfold dirtomon. destruct (0 <? dir).
  - rewrite Hsm. simpl. rewrite Hm. simpl. f_equal.
    destruct (Monitor.next smon) as [m1|] eqn:En.
    + apply monitor_list_Some_inv in Hn as (? & ? & ? & _ & _ & -> & _).
      done.
    + destruct k'; simpl in Hn; simplify_eq; by rewrite Ef.
  - rewrite Hsm, Ef. destruct (decide (Some sm = Some first)) as [E|E].
    + apply (inj Some) in E. subst first. cbn [mbind option_bind].
      assert (l1 = []) as ->.
      { destruct l1 as [|a l1]; [done|]. simpl in Hfirst. simplify_eq.
        apply NoDup_cons in Hnd as [Hn' _]. exfalso. apply Hn'.
        rewrite elem_of_app. right. left. }
      rewrite app_nil_r. by apply last_from_last.
    + cbn [mbind option_bind].
      destruct (last l1) as [p|] eqn:El.
      * apply last_Some in El as [la ->].
        rewrite <- app_assoc in Hl. cbn [app] in Hl.
        rewrite (before_from_last _ _ _ _ _ _ _ Hl). simpl. f_equal.
        rewrite app_assoc, app_comm_cons. by rewrite last_snoc.
      * apply last_None in El as ->. simpl in Hfirst. by simplify_eq.
Qed.

(** [dirtomon] returns the neighbour of the selected monitor in the
    monitor list: the next one for a positive direction and the previous
    one otherwise, the list being taken as a ring. *)
Theorem dirtomon_neighbour (fuel : nat) (dir : Z) (s : State)
    (l1 l2 : list nat) (sm : nat) :
  monitor_list fuel (ms s) (monitors s) = Some (l1 ++ sm :: l2) →
  selectedMonitor s = Some sm →
  dirtomon fuel dir s
  = Some (if 0 <? dir then head (l2 ++ l1 ++ [sm])
          else last (sm :: l2 ++ l1)).
Proof. apply dirtomon_spec. Qed.

Lemma dirtomon_neighbour_witness :
  dirtomon 8 1 three_windows = Some (Some 1%nat)
  ∧ dirtomon 8 (-1) three_windows
    = Some (if 0 <? -1 then head ([1%nat] ++ [] ++ [0%nat])
            else last (0%nat :: [1%nat] ++ [])).
Proof.
  split; [vm_compute; reflexivity|].
  apply (dirtomon_neighbour 8 (-1) three_windows [] [1%nat] 0).
  - vm_compute; reflexivity.
  - reflexivity.
Defined.

(** * Moving clients within the lists *)

(** ** Lists kept *)

Lemma keeps_client_lists_refl s : keeps_client_lists s s.
Proof. by split. Qed.

Lemma keeps_client_lists_trans s1 s2 s3 :
  keeps_client_lists s1 s2 → keeps_client_lists s2 s3 →
  keeps_client_lists s1 s3.
Proof. intros [H1 H2] [H3 H4]. split; intros; congruence. Qed.

Lemma keeps_stacks_refl s : keeps_stacks s s.
Proof. by repeat split. Qed.

Lemma keeps_stacks_trans s1 s2 s3 :
  keeps_stacks s1 s2 → keeps_stacks s2 s3 → keeps_stacks s1 s3.
Proof. intros (H1 & H2 & ?) (H3 & H4 & ?). repeat split; intros; congruence. Qed.

Lemma updc_proj {B} (g : Client.t → B) c f s s' :
  (∀ cl, g (f cl) = g cl) → updc c f s = Some s' →
  ∀ c', g <$> cs s' !! c' = g <$> cs s !! c'.
Proof.
  unfold updc. intros Hf H c'.
  destruct (cs s !! c) as [cl|] eqn:Hc; simplify_eq/=.
  destruct (decide (c' = c)) as [->|Hne].
  - by rewrite lookup_insert_eq, Hc; simpl; rewrite Hf.
  - by rewrite lookup_insert_ne.
Qed.

Lemma updm_proj {B} (g : Monitor.t → B) m f s s' :
  (∀ mon, g (f mon) = g mon) → updm m f s = Some s' →
  ∀ m', g <$> ms s' !! m' = g <$> ms s !! m'.
Proof.
  unfold updm. intros Hf H m'.
  destruct (ms s !! m) as [mon|] eqn:Hm; simplify_eq/=.
  destruct (decide (m' = m)) as [->|Hne].
  - by rewrite lookup_insert_eq, Hm; simpl; rewrite Hf.
  - by rewrite lookup_insert_ne.
Qed.

Lemma updc_cs_ms c f s s' : updc c f s = Some s' → ms s' = ms s.
Proof. unfold updc. intros H. bind_inv H. by simplify_eq. Qed.

Lemma updm_cs m f s s' : updm m f s = Some s' → cs s' = cs s.
Proof. unfold updm. intros H. bind_inv H. by simplify_eq. Qed.

Lemma updc_keeps_client_lists c f s s' :
  (∀ cl, Client.next (f cl) = Client.next cl) →
  updc c f s = Some s' → keeps_client_lists s s'.
Proof.
  intros Hf H. split.
  - by eapply updc_proj.
  - intros m. by rewrite (updc_cs_ms _ _ _ _ H).
Qed.

Lemma updm_keeps_client_lists m f s s' :
  (∀ mon, Monitor.clients (f mon) = Monitor.clients mon) →
  updm m f s = Some s' → keeps_client_lists s s'.
Proof.
  intros Hf H. split.
  - intros c. by rewrite (updm_cs _ _ _ _ H).
  - by eapply updm_proj.
Qed.

Lemma updc_keeps_stacks c f s s' :
  (∀ cl, Client.selectionNext (f cl) = Client.selectionNext cl) →
  updc c f s = Some s' → keeps_stacks s s'.
Proof.
  intros Hf H. split; [|split].
  - by eapply updc_proj.
  - intros m. by rewrite (updc_cs_ms _ _ _ _ H).
  - by eapply updc_selectedMonitor.
Qed.

Lemma updm_keeps_stacks m f s s' :
  (∀ mon, Monitor.stack (f mon) = Monitor.stack mon) →
  (∀ mon, Monitor.selectedClient (f mon) = Monitor.selectedClient mon) →
  updm m f s = Some s' → keeps_stacks s s'.
Proof.
  intros Hf Hg H. split; [|split].
  - intros c. by rewrite (updm_cs _ _ _ _ H).
  - eapply updm_proj; [|done]. intros mon. simpl. by rewrite Hf, Hg.
  - by eapply updm_selectedMonitor.
Qed.

Lemma keeps_client_lists_read s s' k m :
  keeps_client_lists s s' → client_list k s' m = client_list k s m.
Proof.
  intros [Hc Hm]. unfold client_list. pose proof (Hm m) as H.
  destruct (ms s' !! m) as [a|], (ms s !! m) as [b|]; simpl in *;
    [|discriminate..|done].
  apply (inj Some) in H. rewrite H. by apply chain_list_ext_eq.
Qed.

Lemma keeps_stacks_read s s' k m :
  keeps_stacks s s' → stack_list k s' m = stack_list k s m.
Proof.
  intros (Hc & Hm & _). unfold stack_list. pose proof (Hm m) as H.
  destruct (ms s' !! m) as [a|], (ms s !! m) as [b|]; simpl in *;
    [|discriminate..|done].
  apply (inj Some) in H. apply (f_equal fst) in H. simpl in H.
  rewrite H. by apply chain_list_ext_eq.
Qed.

Lemma keeps_stacks_selectedClient s s' m :
  keeps_stacks s s' →
  Monitor.selectedClient <$> ms s' !! m = Monitor.selectedClient <$> ms s !! m.
Proof.
  intros (_ & Hm & _). pose proof (Hm m) as H.
  destruct (ms s' !! m) as [a|], (ms s !! m) as [b|]; simpl in *;
    [|discriminate..|done].
  apply (inj Some) in H. apply (f_equal snd) in H. simpl in H. by rewrite H.
Qed.

(** ** The operations on the client list keep the stacks, and conversely *)

Lemma write_next_keeps_stacks l v s s' :
  write_next l v s = Some s' → keeps_stacks s s'.
Proof.
  destruct l; simpl; intros H.
  - eapply updm_keeps_stacks; [| |eassumption]; done.
  - eapply updc_keeps_stacks; [|eassumption]; done.
Qed.

Lemma detach_keeps_stacks fuel c s s' :
  detach fuel c s = Some s' → keeps_stacks s s'.
Proof.
  unfold detach. intros H. binds H. by eapply write_next_keeps_stacks.
Qed.

Lemma attach_keeps_stacks c s s' : attach c s = Some s' → keeps_stacks s s'.
Proof.
  unfold attach. intros H. binds H.
  eapply keeps_stacks_trans.
  - eapply updc_keeps_stacks; [|eassumption]; done.
  - eapply updm_keeps_stacks; [| |eassumption]; done.
Qed.

Lemma write_selectionNext_keeps_client_lists l v s s' :
  write_selectionNext l v s = Some s' → keeps_client_lists s s'.
Proof.
  destruct l; simpl; intros H.
  - eapply updm_keeps_client_lists; [|eassumption]; done.
  - eapply updc_keeps_client_lists; [|eassumption]; done.
Qed.

Lemma detachStack_keeps_client_lists fuel c s s' :
  detachStack fuel c s = Some s' → keeps_client_lists s s'.
Proof.
  unfold detachStack. intros H. do 4 bind_inv H.
  eapply keeps_client_lists_trans;
    [by eapply write_selectionNext_keeps_client_lists|].
  case_match.
  - bind_inv H. eapply updm_keeps_client_lists; [|eassumption]; done.
  - simplify_eq. apply keeps_client_lists_refl.
Qed.

Lemma attachStack_keeps_client_lists c s s' :
  attachStack c s = Some s' → keeps_client_lists s s'.
Proof.
  unfold attachStack. intros H. binds H.
  eapply keeps_client_lists_trans.
  - eapply updc_keeps_client_lists; [|eassumption]; done.
  - eapply updm_keeps_client_lists; [|eassumption]; done.
Qed.

Lemma focus_links_keeps_client_lists fuel client s s' :
  focus_links fuel client s = Some s' → keeps_client_lists s s'.
Proof.
  unfold focus_links. intros H. do 5 bind_inv H. bind_inv H.
  eapply keeps_client_lists_trans;
    [|eapply updm_keeps_client_lists; [|eassumption]; done].
  destruct x2 as [c|]; [|simplify_eq; apply keeps_client_lists_refl].
  do 3 bind_inv Hx3.
  assert (keeps_client_lists s
            (if decide (Client.monitor x2 = x) then s
             else set_selectedMonitor (Some (Client.monitor x2)) s)) as H0.
  { case_decide; by split. }
  eapply keeps_client_lists_trans; [exact H0|].
  eapply keeps_client_lists_trans;
    [|by eapply attachStack_keeps_client_lists].
  eapply keeps_client_lists_trans;
    [|by eapply detachStack_keeps_client_lists].
  destruct (Client.isUrgent x2).
  - eapply updc_keeps_client_lists; [|eassumption]; done.
  - simplify_eq. apply keeps_client_lists_refl.
Qed.

Lemma focus_keeps_client_lists fuel client s s' :
  focus fuel client s = Some s' → keeps_client_lists s s'.
Proof.
  unfold focus. intros H. bind_inv H. apply drawBars_same in H. subst s'.
  by eapply focus_links_keeps_client_lists.
Qed.

Lemma geom_frame_keeps_client_lists s s' :
  geom_frame s s' → keeps_client_lists s s'.
Proof.
  intros F. split.
  - intros c. by apply (geom_frame_proj s s' F).
  - intros m. by apply (geom_frame_mon_proj s s' F).
Qed.

Lemma geom_frame_keeps_stacks s s' : geom_frame s s' → keeps_stacks s s'.
Proof.
  intros F. split; [|split].
  - intros c. by apply (geom_frame_proj s s' F).
  - intros m. by apply (geom_frame_mon_proj s s' F).
  - by destruct F as (_ & _ & _ & ? & _).
Qed.

(** ** Reading through a link frame *)

Lemma link_frame_proj s s' {B} (f : Client.t → B) c :
  link_frame s s' →
  (∀ cl, f (Client.erase_links cl) = f cl) →
  f <$> cs s' !! c = f <$> cs s !! c.
Proof.
  intros (Hc & _) Hf.
  assert (Client.erase_links <$> cs s' !! c
          = Client.erase_links <$> cs s !! c) as H
    by (by rewrite <- !lookup_fmap, Hc).
  destruct (cs s' !! c) as [a|], (cs s !! c) as [b|]; simpl in *;
    [|discriminate..|done].
  apply (inj Some) in H. by rewrite <- (Hf a), <- (Hf b), H.
Qed.

Lemma link_frame_mon_proj s s' {B} (f : Monitor.t → B) m :
  link_frame s s' →
  (∀ mon, f (Monitor.erase_links mon) = f mon) →
  f <$> ms s' !! m = f <$> ms s !! m.
Proof.
  intros (_ & Hm & _) Hf.
  assert (Monitor.erase_links <$> ms s' !! m
          = Monitor.erase_links <$> ms s !! m) as H
    by (by rewrite <- !lookup_fmap, Hm).
  destruct (ms s' !! m) as [a|], (ms s !! m) as [b|]; simpl in *;
    [|discriminate..|done].
  apply (inj Some) in H. by rewrite <- (Hf a), <- (Hf b), H.
Qed.

Lemma link_frame_on_monitor s s' m l :
  link_frame s s' → on_monitor s m l → on_monitor s' m l.
Proof.
  intros F Hon. eapply Forall_impl; [exact Hon|].
  intros c (cl & Hc & Hm).
  pose proof (link_frame_proj s s' Client.monitor c F ltac:(done)) as H.
  rewrite Hc in H. destruct (cs s' !! c) as [a|]; [|done].
  apply (inj Some) in H. exists a. split; [done|]. simpl in H. congruence.
Qed.

Lemma link_frame_visible s s' c :
  link_frame s s' → is_visible s' c = is_visible s c.
Proof.
  intros F. unfold is_visible, ISVISIBLE.
  pose proof (link_frame_proj s s'
                (λ cl, (Client.tags cl, Client.monitor cl)) c F ltac:(done))
    as H.
  destruct (cs s' !! c) as [a|], (cs s !! c) as [b|]; simpl in *;
    [|discriminate..|done].
  apply (inj Some) in H.
  assert (Client.tags a = Client.tags b) as E2 by congruence.
  assert (Client.monitor a = Client.monitor b) as E3 by congruence.
  rewrite E3.
  pose proof (link_frame_mon_proj s s' curtags (Client.monitor b) F
                ltac:(done)) as Hm.
  destruct (ms s' !! Client.monitor b) as [ma|],
    (ms s !! Client.monitor b) as [mb|]; simpl in *;
    [|discriminate..|done].
  apply (inj Some) in Hm. unfold ISVISIBLEONTAG. by rewrite E2, Hm.
Qed.

Lemma link_frame_tiled s s' c :
  link_frame s s' → is_tiled s' c = is_tiled s c.
Proof.
  intros F. pose proof (link_frame_visible s s' c F) as Hv.
  unfold is_tiled, is_visible in *.
  pose proof (link_frame_proj s s' Client.isFloating c F ltac:(done)) as H.
  destruct (cs s' !! c) as [a|], (cs s !! c) as [b|]; simpl in *;
    [|discriminate..|done].
  apply (inj Some) in H. by rewrite H, Hv.
Qed.

(** ** The focus stack, one operation at a time *)

Lemma find_ext_in {A} (f g : A → bool) l :
  (∀ x, x ∈ l → f x = g x) → find f l = find g l.
Proof.
  induction l as [|a l IH]; intros H; simpl; [done|].
  rewrite (H a) by left. destruct (g a); [done|].
  apply IH. intros x Hx. apply H. by right.
Qed.

(** Taking a client off the focus stack of its monitor: the stack loses
    the client and keeps its order, the selection moves to the first
    visible client left when the client was selected, and only the
    member before the client and the monitor are written. *)
Lemma detachStack_spec fuel s m mon c cl l1 l2 :
  ms s !! m = Some mon →
  cs s !! c = Some cl → Client.monitor cl = m →
  chain_list Client.selectionNext fuel (cs s) (Monitor.stack mon)
    = Some (l1 ++ c :: l2) →
  on_monitor s m (l1 ++ c :: l2) →
  ∃ s1 mon1,
    detachStack fuel c s = Some s1
    ∧ ms s1 !! m = Some mon1
    ∧ chain_list Client.selectionNext fuel (cs s1) (Monitor.stack mon1)
      = Some (l1 ++ l2)
    ∧ Monitor.selectedClient mon1
      = (if decide (Monitor.selectedClient mon = Some c)
         then find (is_visible s) (l1 ++ l2)
         else Monitor.selectedClient mon)
    ∧ (∀ c', c' ∉ l1 → cs s1 !! c' = cs s !! c')
    ∧ (∀ m', m' ≠ m → ms s1 !! m' = ms s !! m').
Proof.
  intros Hm Hc Hmc H Hon.
  pose proof (chain_list_NoDup _ _ _ _ _ H) as Hnd.
  assert (c ∉ l1) as Hn1.
  { apply NoDup_app in Hnd as (_ & Hd & _). intros Hin.
    apply (Hd c Hin). left. }
  assert (chain_list Client.selectionNext fuel (cs s)
            (Client.selectionNext cl) = Some l2) as Hl2.
  { pose proof (chain_list_suffix _ _ _ _ _ _ _ H) as Hs.
    apply chain_list_Some_inv in Hs as (k' & cl' & l' & -> & Hc' & E & Hs).
    simplify_eq. eapply chain_list_mono; [exact Hs|lia]. }
  (* the state once the link that points at [c] is rewritten *)
  assert (∃ s1 mon1,
            (tc ← find_link read_selectionNext fuel s c (LHead m);
             write_selectionNext tc (Client.selectionNext cl) s) = Some s1
            ∧ ms s1 !! m = Some mon1
            ∧ chain_list Client.selectionNext fuel (cs s1) (Monitor.stack mon1)
              = Some (l1 ++ l2)
            ∧ Monitor.selectedClient mon1 = Monitor.selectedClient mon
            ∧ (∀ c', c' ∉ l1 → cs s1 !! c' = cs s !! c')
            ∧ (∀ m', m' ≠ m → ms s1 !! m' = ms s !! m'))
    as (s1 & mon1 & Hs1 & Hm1 & Hch1 & Hsel1 & Hcs1 & Hms1).
  { erewrite find_link_chain; [| |exact H|exact Hn1]; [|simpl; by rewrite Hm].
    simpl. unfold link_before.
    destruct (last l1) as [a|] eqn:El.
    - apply last_Some in El as [l1' ->]. simpl.
      assert (is_Some (cs s !! a)) as [cla Ha].
      { eapply chain_list_allocated; [exact H|].
        rewrite !elem_of_app. left. right. left. }
      unfold updc. rewrite Ha. simpl. eexists _, mon. split; [done|].
      simpl. split; [done|]. split; [|split; [done|split; [|done]]].
      + rewrite <- app_assoc in H. simpl in H.
        rewrite <- app_assoc. simpl. by eapply chain_list_skip.
      + intros c' Hc'. rewrite lookup_insert_ne; [done|].
        intros ->. apply Hc'. rewrite elem_of_app. right. left.
    - apply last_None in El as ->. simpl in *.
      unfold updm. rewrite Hm. simpl. eexists _, _. split; [done|].
      simpl. rewrite lookup_insert_eq. split; [done|].
      split; [by destruct mon|]. split; [by destruct mon|].
      split; [done|].
      intros m' Hne. by rewrite lookup_insert_ne. }
  unfold detachStack. rewrite Hc. simpl. rewrite Hmc.
  pose proof Hs1 as Hs1'.
  apply bind_Some in Hs1 as (tc & Htc & Hw). rewrite Htc. simpl.
  rewrite Hw. simpl. rewrite Hm1. simpl. rewrite Hsel1.
  case_decide; [|by eauto 10].
  assert (link_frame s s1) as F1 by (by eapply write_selectionNext_link_frame).
  erewrite first_visible_chain; [|exact Hch1|].
  - simpl. unfold updm. rewrite Hm1. simpl. eexists _, _.
    split; [done|]. simpl. rewrite lookup_insert_eq. split; [done|].
    split; [by destruct mon1|].
    split.
    { transitivity (find (is_visible s1) (l1 ++ l2)); [by destruct mon1|].
      apply find_ext_in. intros c' _. by apply link_frame_visible. }
    split; [done|].
    intros m' Hne. rewrite lookup_insert_ne by done. by apply Hms1.
  - assert (on_monitor s1 m (l1 ++ c :: l2)) as Hon1
      by (by eapply link_frame_on_monitor).
    apply Forall_forall. intros c' Hin.
    unfold on_monitor in Hon1. rewrite Forall_forall in Hon1.
    destruct (Hon1 c') as (cl' & Hcl' & Hm').
    { rewrite elem_of_app in Hin. rewrite elem_of_app, elem_of_cons.
      destruct Hin as [?|?]; [by left|by right; right]. }
    exists cl'. split; [done|]. rewrite Hm'. eauto.
Qed.

(** Putting a client on top of the focus stack of its monitor. *)
Lemma attachStack_spec k s m mon c cl l :
  ms s !! m = Some mon →
  cs s !! c = Some cl → Client.monitor cl = m →
  chain_list Client.selectionNext k (cs s) (Monitor.stack mon) = Some l →
  c ∉ l →
  ∃ s2 mon2 cl2,
    attachStack c s = Some s2
    ∧ ms s2 !! m = Some mon2
    ∧ Monitor.stack mon2 = Some c
    ∧ Monitor.selectedClient mon2 = Monitor.selectedClient mon
    ∧ chain_list Client.selectionNext (S k) (cs s2) (Some c) = Some (c :: l)
    ∧ cs s2 !! c = Some cl2
    ∧ Client.isUrgent cl2 = Client.isUrgent cl
    ∧ (∀ c', c' ≠ c → cs s2 !! c' = cs s !! c')
    ∧ (∀ m', m' ≠ m → ms s2 !! m' = ms s !! m')
    ∧ selectedMonitor s2 = selectedMonitor s.
Proof.
  intros Hm Hc Hmc Hl Hn.
  unfold attachStack. rewrite Hc. simpl. rewrite Hmc, Hm. simpl.
  unfold updc. rewrite Hc. simpl. unfold updm. simpl. rewrite Hm. simpl.
  eexists _, _, _. split; [done|]. simpl.
  rewrite !lookup_insert_eq.
  split; [done|]. split; [by destruct mon|]. split; [by destruct mon|].
  split.
  { simpl.
    replace (Client.selectionNext
               (Client.set_selectionNext (Monitor.stack mon) cl))
      with (Monitor.stack mon) by (by destruct cl).
    erewrite (chain_list_ext _ k (cs s)); [done| |exact Hl].
    intros c' Hc'. rewrite lookup_insert_ne; [done|]. by intros ->. }
  split; [done|]. split; [by destruct cl|].
  split; [|split; [|done]].
  - intros c' Hne. by rewrite lookup_insert_ne.
  - intros m' Hne. by rewrite lookup_insert_ne.
Qed.

(** * Walks over every client *)

Lemma monitor_list_ext_eq k h h' p :
  (∀ m, Monitor.next <$> h' !! m = Monitor.next <$> h !! m) →
  monitor_list k h' p = monitor_list k h p.
Proof.
  intros Hext. revert p. induction k as [|k IH]; intros [m|]; simpl; try done.
  pose proof (Hext m) as Hm.
  destruct (h' !! m) as [a|], (h !! m) as [b|]; simpl in *;
    [|discriminate..|done].
  apply (inj Some) in Hm. by rewrite Hm, IH.
Qed.

Lemma link_frame_monitor_list s s' k :
  link_frame s s' →
  monitor_list k (ms s') (monitors s') = monitor_list k (ms s) (monitors s).
Proof.
  intros F. pose proof F as (_ & _ & -> & _).
  apply monitor_list_ext_eq. intros m.
  by apply (link_frame_mon_proj s s' Monitor.next m F).
Qed.

Lemma geom_frame_monitor_list s s' k p :
  geom_frame s s' → monitor_list k (ms s') p = monitor_list k (ms s) p.
Proof.
  intros F. apply monitor_list_ext_eq. intros m.
  by apply (geom_frame_mon_proj s s' F Monitor.next m).
Qed.

Lemma drawBar_loop_ok k s p l n occ urg :
  chain_list Client.next k (cs s) p = Some l →
  Forall (λ c, ∃ cl, cs s !! c = Some cl
                 ∧ is_Some (ms s !! Client.monitor cl)) l →
  is_Some (drawBar_loop k s p n occ urg).
Proof.
  revert p l n occ urg.
  induction k as [|k IH]; intros [c|] l n occ urg H Hall; simpl in *;
    try done; try by eauto.
  apply bind_Some in H as (cl & Hc & H).
  apply fmap_Some in H as (l' & H & ->).
  apply Forall_cons in Hall as [(cl' & Hc' & [mon Hm]) Hall].
  rewrite Hc in Hc'. apply (inj Some) in Hc'. subst cl'.
  rewrite Hc. cbn [mbind option_bind]. unfold ISVISIBLE. rewrite Hm.
  cbn [mbind option_bind]. by eapply IH.
Qed.

Lemma client_windows_ok k s p l :
  chain_list Client.next k (cs s) p = Some l →
  is_Some (client_windows k s p).
Proof.
  revert p l. induction k as [|k IH]; intros [c|] l H; simpl in *;
    try done; try by eauto.
  apply bind_Some in H as (cl & Hc & H).
  apply fmap_Some in H as (l' & H & ->).
  rewrite Hc. cbn [mbind option_bind].
  destruct (IH _ _ H) as [r ->]. by eauto.
Qed.

Lemma for_monitors_walk k body m s lmn :
  monitor_list k (ms s) m = Some lmn →
  Forall (λ m0, body m0 s = Some s) lmn →
  for_monitors k body m s = Some s.
Proof.
  revert m lmn. induction k as [|k IH]; intros [m|] lmn H Hall; simpl in *;
    try done.
  apply bind_Some in H as (mon & Hm & H).
  apply fmap_Some in H as (l' & H & ->).
  apply Forall_cons in Hall as [-> Hall]. cbn [mbind option_bind].
  rewrite Hm. cbn [mbind option_bind]. by eapply IH.
Qed.

(** The bars are drawn, and the client list is sent to the server, when
    the walks over every client end. *)
Lemma drawBars_ok fuel s : walks_end fuel s → drawBars fuel s = Some s.
Proof.
  intros (lmn & Hl & Hall). unfold drawBars.
  eapply for_monitors_walk; [exact Hl|].
  eapply Forall_impl; [exact Hall|]. intros m (l & Hcl & Hal).
  unfold drawBar. unfold client_list in Hcl.
  apply bind_Some in Hcl as (mon & -> & Hcl). cbn [mbind option_bind].
  destruct (drawBar_loop_ok fuel s _ l 0 0 0 Hcl Hal) as [r ->]. done.
Qed.

Lemma updateclientlist_ok fuel s :
  walks_end fuel s → updateclientlist fuel s = Some s.
Proof.
  intros (lmn & Hl & Hall). unfold updateclientlist.
  eapply for_monitors_walk; [exact Hl|].
  eapply Forall_impl; [exact Hall|]. intros m (l & Hcl & _).
  unfold client_list in Hcl.
  apply bind_Some in Hcl as (mon & -> & Hcl). cbn [mbind option_bind].
  destruct (client_windows_ok fuel s _ l Hcl) as [r ->]. done.
Qed.

(** The walks end in a state that has the same links along [next], the
    same residences and the same monitor list. *)
Lemma walks_end_ext fuel s s' :
  (∀ c, (λ cl, (Client.next cl, Client.monitor cl)) <$> cs s' !! c
        = (λ cl, (Client.next cl, Client.monitor cl)) <$> cs s !! c) →
  (∀ m, (λ mon, (Monitor.clients mon, Monitor.next mon)) <$> ms s' !! m
        = (λ mon, (Monitor.clients mon, Monitor.next mon)) <$> ms s !! m) →
  monitors s' = monitors s →
  walks_end fuel s → walks_end fuel s'.
Proof.
  intros Hc Hm Hmons (lmn & Hl & Hall).
  assert (∀ m, is_Some (ms s !! m) → is_Some (ms s' !! m)) as Hdom.
  { intros m [mon Hmon]. pose proof (Hm m) as E. rewrite Hmon in E.
    destruct (ms s' !! m); [by eauto|done]. }
  exists lmn. split.
  { rewrite Hmons, <- Hl. apply monitor_list_ext_eq. intros m.
    pose proof (Hm m) as E.
    destruct (ms s' !! m) as [a|], (ms s !! m) as [b|]; simpl in *;
      [|discriminate..|done].
    by injection E as _ ->. }
  eapply Forall_impl; [exact Hall|]. intros m (l & Hcl & Hal).
  exists l. split.
  - rewrite <- Hcl. unfold client_list.
    pose proof (Hm m) as E.
    destruct (ms s' !! m) as [a|], (ms s !! m) as [b|]; simpl in *;
      [|discriminate..|done].
    injection E as -> _. apply chain_list_ext_eq. intros c.
    pose proof (Hc c) as E.
    destruct (cs s' !! c) as [x|], (cs s !! c) as [y|]; simpl in *;
      [|discriminate..|done].
    by injection E as -> _.
  - eapply Forall_impl; [exact Hal|]. intros c (cl & Hcl' & Hmon).
    pose proof (Hc c) as E. rewrite Hcl' in E.
    destruct (cs s' !! c) as [x|]; [|done]. simpl in E.
    injection E as _ E. exists x. split; [done|]. rewrite E. by apply Hdom.
Qed.

Lemma walks_end_kept fuel s s' :
  link_frame s s' → keeps_client_lists s s' →
  walks_end fuel s → walks_end fuel s'.
Proof.
  intros F [Kc Km]. apply walks_end_ext.
  - intros c. pose proof (Kc c) as E1.
    pose proof (link_frame_proj s s' Client.monitor c F ltac:(done)) as E2.
    destruct (cs s' !! c) as [x|], (cs s !! c) as [y|]; simpl in *;
      [|discriminate..|done].
    apply (inj Some) in E1, E2. by rewrite E1, E2.
  - intros m. pose proof (Km m) as E1.
    pose proof (link_frame_mon_proj s s' Monitor.next m F ltac:(done)) as E2.
    destruct (ms s' !! m) as [x|], (ms s !! m) as [y|]; simpl in *;
      [|discriminate..|done].
    apply (inj Some) in E1, E2. by rewrite E1, E2.
  - by destruct F as (_ & _ & -> & _).
Qed.

Lemma geom_frame_walks_end fuel s s' :
  geom_frame s s' → walks_end fuel s → walks_end fuel s'.
Proof.
  intros G. apply walks_end_kept.
  - by apply geom_frame_link_frame.
  - by apply geom_frame_keeps_client_lists.
Qed.

(** They end when the monitor list ends and the lists of every monitor
    are in order. *)
Lemma lists_ok_walks_end fuel s lmn :
  monitor_list fuel (ms s) (monitors s) = Some lmn →
  Forall (lists_ok fuel s) lmn → walks_end fuel s.
Proof.
  intros Hl Hall. exists lmn. split; [done|].
  eapply Forall_impl; [exact Hall|].
  intros m (mon & lc & ls & Hm & Hlc & Hon & _). exists lc. split; [done|].
  by eapply on_monitor_allocated.
Qed.

Lemma walks_end_intro fuel s lmn :
  monitor_list fuel (ms s) (monitors s) = Some lmn →
  forallb (λ m, match client_list fuel s m with
                | Some l =>
                    forallb (λ c, match cs s !! c with
                                  | Some cl =>
                                      bool_decide
                                        (is_Some (ms s !! Client.monitor cl))
                                  | None => false
                                  end) l
                | None => false
                end) lmn = true →
  walks_end fuel s.
Proof.
  intros Hl Hall. exists lmn. split; [done|].
  apply Forall_forall. intros m Hin.
  rewrite forallb_forall in Hall. apply list_elem_of_In in Hin.
  specialize (Hall m Hin).
  destruct (client_list fuel s m) as [l|]; [|done].
  exists l. split; [done|]. apply Forall_forall. intros c Hc.
  rewrite forallb_forall in Hall. apply list_elem_of_In in Hc.
  specialize (Hall c Hc).
  destruct (cs s !! c) as [cl|]; [|done]. exists cl. split; [done|].
  by apply bool_decide_eq_true in Hall.
Defined.

(** [focus] returns once the links are written and the walks end. *)
Lemma focus_draws fuel target s s' :
  focus_links fuel target s = Some s' → walks_end fuel s →
  focus fuel target s = Some s' ∧ walks_end fuel s'.
Proof.
  intros H W.
  assert (walks_end fuel s') as W'.
  { eapply walks_end_kept; [| |exact W].
    - by eapply focus_links_link_frame.
    - by eapply focus_links_keeps_client_lists. }
  split; [|done]. unfold focus. rewrite H. cbn [mbind option_bind].
  by apply drawBars_ok.
Qed.

(** ** [focus] *)

Lemma focus_unfold fuel target s :
  focus_links fuel target s
  = (sm ← selectedMonitor s;
     smon ← ms s !! sm;
     fallback ← match target with
                | None => Some true
                | Some c => cl ← cs s !! c; negb <$> ISVISIBLE s cl
                end;
     client ← (if fallback : bool
               then first_visible fuel s (Monitor.stack smon)
               else Some target);
     match client with
     | Some c => focus_client fuel sm c s
     | None => updm sm (Monitor.set_selectedClient None) s
     end).
Proof.
  unfold focus_links, focus_client.
  destruct (selectedMonitor s) as [sm|] eqn:Hsm; [|done]. simpl.
  destruct (ms s !! sm); [|done]. simpl.
  destruct (match target with Some _ => _ | None => _ end) as [fb|]; [|done].
  simpl.
  destruct (if fb then _ else _) as [[c|]|]; simpl; [done| |done].
  by rewrite Hsm.
Qed.

(** Once [focus] has settled on a client of a focus stack in order, the
    client is on top of that stack, selected, not urgent, and its monitor
    is the selected one. *)
Lemma focus_client_spec fuel s sm c cl m mon l1 l2 :
  selectedMonitor s = Some sm →
  cs s !! c = Some cl → Client.monitor cl = m →
  ms s !! m = Some mon →
  chain_list Client.selectionNext fuel (cs s) (Monitor.stack mon)
    = Some (l1 ++ c :: l2) →
  on_monitor s m (l1 ++ c :: l2) →
  ∃ s',
    focus_client fuel sm c s = Some s'
    ∧ selectedMonitor s' = Some m
    ∧ stack_list fuel s' m = Some (c :: l1 ++ l2)
    ∧ Monitor.selectedClient <$> ms s' !! m = Some (Some c)
    ∧ Client.isUrgent <$> cs s' !! c = Some false
    ∧ (∀ c', c' ∉ l1 → c' ≠ c → cs s' !! c' = cs s !! c')
    ∧ (∀ m', m' ≠ m → ms s' !! m' = ms s !! m').
Proof.
  intros Hsm Hc Hmc Hm Hl Hon.
  pose proof (chain_list_NoDup _ _ _ _ _ Hl) as Hnd.
  pose proof (chain_list_length _ _ _ _ _ Hl) as Hlen.
  unfold focus_client. rewrite Hc. cbn [mbind option_bind]. rewrite Hmc.
  set (sA := if decide (m = sm) then s
             else set_selectedMonitor (Some m) s).
  (* the state after the urgency flag is cleared *)
  assert (∃ sU clU,
            (if Client.isUrgent cl then seturgent c false sA else Some sA)
            = Some sU
            ∧ ms sU = ms s
            ∧ selectedMonitor sU = selectedMonitor sA
            ∧ cs sU !! c = Some clU ∧ Client.monitor clU = m
            ∧ Client.isUrgent clU = false
            ∧ (∀ c', Client.selectionNext <$> cs sU !! c'
                     = Client.selectionNext <$> cs s !! c')
            ∧ (∀ c', c' ≠ c → cs sU !! c' = cs s !! c')
            ∧ link_frame s sU)
    as (sU & clU & -> & EmU & EsU & HclU & HmonU & HurgU & HnxU & HcsU & FU).
  { assert (cs sA = cs s ∧ ms sA = ms s ∧ link_frame s sA) as (EA & EB & FA).
    { subst sA. case_decide; repeat split; done. }
    destruct (Client.isUrgent cl) eqn:Eu.
    - unfold seturgent, updc. rewrite EA, Hc. simpl.
      eexists _, _. split; [done|]. simpl. rewrite lookup_insert_eq.
      split; [done|]. split; [done|]. split; [done|].
      split; [by destruct cl|]. split; [by destruct cl|].
      split; [|split].
      + intros c'. destruct (decide (c = c')) as [<-|].
        * by rewrite lookup_insert_eq, Hc.
        * by rewrite lookup_insert_ne.
      + intros c' Hne. by rewrite lookup_insert_ne.
      + eapply link_frame_trans; [exact FA|].
        eapply (updc_link_frame c (Client.set_isUrgent false)); [done|].
        unfold updc. by rewrite EA, Hc.
    - exists sA, cl. rewrite EA, EB. by repeat (split; [done|]). }
  cbn [mbind option_bind].
  assert (selectedMonitor sA = Some m) as EsA.
  { subst sA. case_decide; simpl; congruence. }
  rewrite EsA in EsU.
  destruct (detachStack_spec fuel sU m mon c clU l1 l2)
    as (sD & monD & Hd & HmD & HchD & _ & HcsD & HmsD); try done.
  { by rewrite EmU. }
  { eapply chain_list_ext; [|exact Hl]. intros c' _. apply HnxU. }
  { by eapply link_frame_on_monitor. }
  rewrite Hd. cbn [mbind option_bind].
  assert ((c ∉ l1) ∧ (c ∉ l2)) as [Hn1 Hn2].
  { apply NoDup_app in Hnd as (_ & Hd' & Hnd2).
    apply NoDup_cons in Hnd2 as [Hn2 _]. split; [|done].
    intros Hin. apply (Hd' c Hin). left. }
  assert (cs sD !! c = Some clU) as HclD by (by rewrite HcsD).
  pose proof (detachStack_selectedMonitor _ _ _ _ Hd) as EsD.
  rewrite EsU in EsD.
  destruct (attachStack_spec fuel sD m monD c clU (l1 ++ l2))
    as (sT & monT & clT & Ht & HmT & HstT & _ & HchT & HclT & HurgT & HcsT
        & HmsT & EsT); try done.
  { rewrite elem_of_app. tauto. }
  rewrite Ht. cbn [mbind option_bind]. rewrite EsT, EsD.
  cbn [mbind option_bind]. unfold updm. rewrite HmT.
  cbn [mbind option_bind fmap option_fmap option_map].
  eexists. split; [done|]. cbn [selectedMonitor set_ms].
  split; [by rewrite EsT|].
  split; [|split; [|split; [|split]]].
  - unfold stack_list. cbn [ms cs set_ms]. rewrite lookup_insert_eq.
    cbn [mbind option_bind].
    replace (Monitor.stack (Monitor.set_selectedClient (Some c) monT))
      with (Some c) by (destruct monT; simpl in *; congruence).
    eapply chain_list_refuel; [exact HchT|].
    rewrite length_app in Hlen. simpl in *. rewrite length_app. lia.
  - cbn [ms set_ms]. rewrite lookup_insert_eq. by destruct monT.
  - cbn [cs set_ms]. rewrite HclT. simpl. congruence.
  - intros c' Hc1 Hc2. cbn [cs set_ms].
    rewrite HcsT, HcsD, HcsU; done.
  - intros m' Hne. cbn [ms set_ms]. rewrite lookup_insert_ne by done.
    rewrite HmsT, HmsD, EmU; done.
Qed.

Lemma is_visible_ISVISIBLE s c cl mon :
  cs s !! c = Some cl → ms s !! Client.monitor cl = Some mon →
  ISVISIBLE s cl = Some (is_visible s c).
Proof.
  intros Hc Hm. unfold is_visible, ISVISIBLE. by rewrite Hc, Hm.
Qed.

(** [focus] writes its links when the focus stack of the selected monitor
    and the one that holds the client handed over are in order. It
    settles on [focus_choice]; with no choice the selected monitor has no
    client selected and no stack changes, and otherwise the choice is
    moved to the top of the stack of its monitor and selected there, that
    monitor being the selected one. The stacks of the other monitors
    stay. *)
Lemma focus_links_ok fuel s sm target lsm :
  selectedMonitor s = Some sm →
  stack_list fuel s sm = Some lsm → on_monitor s sm lsm →
  match target with
  | None => True
  | Some t => ∃ tl lt, cs s !! t = Some tl
                       ∧ stack_list fuel s (Client.monitor tl) = Some lt
                       ∧ on_monitor s (Client.monitor tl) lt ∧ t ∈ lt
  end →
  ∃ s',
    focus_links fuel target s = Some s'
    ∧ match focus_choice s target lsm with
      | None =>
          selectedMonitor s' = Some sm
          ∧ cs s' = cs s
          ∧ Monitor.selectedClient <$> ms s' !! sm = Some None
          ∧ (∀ k m, stack_list k s' m = stack_list k s m)
      | Some c =>
          ∃ cl l1 l2,
            cs s !! c = Some cl
            ∧ is_visible s c = true
            ∧ stack_list fuel s (Client.monitor cl) = Some (l1 ++ c :: l2)
            ∧ on_monitor s (Client.monitor cl) (l1 ++ c :: l2)
            ∧ selectedMonitor s' = Some (Client.monitor cl)
            ∧ stack_list fuel s' (Client.monitor cl) = Some (c :: l1 ++ l2)
            ∧ Monitor.selectedClient <$> ms s' !! Client.monitor cl
              = Some (Some c)
            ∧ Client.isUrgent <$> cs s' !! c = Some false
            ∧ (∀ c', c' ∉ l1 → c' ≠ c → cs s' !! c' = cs s !! c')
            ∧ (∀ m', m' ≠ Client.monitor cl → ms s' !! m' = ms s !! m')
      end.
Proof.
  intros Hsm Hl Hon Ht.
  pose proof Hl as Hl'.
  unfold stack_list in Hl'. apply bind_Some in Hl' as (smon & Hsmon & Hch).
  rewrite focus_unfold. rewrite Hsm. cbn [mbind option_bind].
  rewrite Hsmon. cbn [mbind option_bind].
  (* the choice *)
  assert (∃ fb,
            match target with
            | Some c => cs s !! c ≫= λ cl, negb <$> ISVISIBLE s cl
            | None => Some true
            end = Some fb
            ∧ (if fb : bool then first_visible fuel s (Monitor.stack smon)
               else Some target) = Some (focus_choice s target lsm))
    as (fb & -> & Hfb).
  { assert (first_visible fuel s (Monitor.stack smon)
            = Some (find (is_visible s) lsm)) as Hfv.
    { erewrite first_visible_chain; [done|exact Hch|].
      by eapply on_monitor_allocated. }
    destruct target as [t|]; [|by exists true].
    destruct Ht as (tl & lt & Htl & Hlt & _ & _).
    unfold stack_list in Hlt. apply bind_Some in Hlt as (tmon & Htmon & _).
    rewrite Htl. simpl.
    rewrite (is_visible_ISVISIBLE _ _ _ _ Htl Htmon). simpl.
    eexists. split; [done|].
    by destruct (is_visible s t). }
  cbn [mbind option_bind]. rewrite Hfb. cbn [mbind option_bind].
  destruct (focus_choice s target lsm) as [c|] eqn:Ech.
  - (* the stack that holds the choice *)
    assert (∃ cl l1 l2,
              cs s !! c = Some cl ∧ is_visible s c = true
              ∧ stack_list fuel s (Client.monitor cl) = Some (l1 ++ c :: l2)
              ∧ on_monitor s (Client.monitor cl) (l1 ++ c :: l2))
      as (cl & l1 & l2 & Hc & Hv & Hlc & Honc).
    { assert (find (is_visible s) lsm = Some c →
              ∃ cl l1 l2,
                cs s !! c = Some cl ∧ is_visible s c = true
                ∧ stack_list fuel s (Client.monitor cl)
                  = Some (l1 ++ c :: l2)
                ∧ on_monitor s (Client.monitor cl) (l1 ++ c :: l2)) as Hfind.
      { intros Ef. apply find_some in Ef as [Hin Hvis].
        apply list_elem_of_In in Hin.
        pose proof Hon as Hon'.
        unfold on_monitor in Hon'. rewrite Forall_forall in Hon'.
        destruct (Hon' c Hin) as (cl & Hcl & Hmon).
        apply list_elem_of_split in Hin as (l1 & l2 & ->).
        exists cl, l1, l2. by rewrite Hmon. }
      unfold focus_choice in Ech. destruct target as [t|]; [|by apply Hfind].
      destruct (is_visible s t) eqn:Ev; [|by apply Hfind].
      simplify_eq. destruct Ht as (tl & lt & Htl & Hlt & Hont & Hin).
      apply list_elem_of_split in Hin as (l1 & l2 & ->).
      by exists tl, l1, l2. }
    unfold stack_list in Hlc. apply bind_Some in Hlc as (mon & Hmon & Hchc).
    destruct (focus_client_spec fuel s sm c cl (Client.monitor cl) mon l1 l2)
      as (s' & Hf & H1 & H2 & H3 & H4 & H5 & H6); try done.
    exists s'. split; [done|]. exists cl, l1, l2.
    split; [done|]. split; [done|].
    split; [unfold stack_list; by rewrite Hmon|]. done.
  - unfold updm. rewrite Hsmon. cbn [mbind option_bind].
    eexists. split; [done|]. cbn [selectedMonitor cs ms set_ms].
    split; [done|]. split; [done|].
    split; [by rewrite lookup_insert_eq|].
    intros k m. unfold stack_list. cbn [ms cs set_ms].
    destruct (decide (m = sm)) as [->|Hne].
    + rewrite lookup_insert_eq, Hsmon. by destruct smon.
    + by rewrite lookup_insert_ne.
Qed.

(** [focus] returns when, besides, the walks over every client end. *)
Lemma focus_ok fuel s sm target lsm :
  walks_end fuel s →
  selectedMonitor s = Some sm →
  stack_list fuel s sm = Some lsm → on_monitor s sm lsm →
  match target with
  | None => True
  | Some t => ∃ tl lt, cs s !! t = Some tl
                       ∧ stack_list fuel s (Client.monitor tl) = Some lt
                       ∧ on_monitor s (Client.monitor tl) lt ∧ t ∈ lt
  end →
  ∃ s',
    focus fuel target s = Some s'
    ∧ match focus_choice s target lsm with
      | None =>
          selectedMonitor s' = Some sm
          ∧ cs s' = cs s
          ∧ Monitor.selectedClient <$> ms s' !! sm = Some None
          ∧ (∀ k m, stack_list k s' m = stack_list k s m)
      | Some c =>
          ∃ cl l1 l2,
            cs s !! c = Some cl
            ∧ is_visible s c = true
            ∧ stack_list fuel s (Client.monitor cl) = Some (l1 ++ c :: l2)
            ∧ on_monitor s (Client.monitor cl) (l1 ++ c :: l2)
            ∧ selectedMonitor s' = Some (Client.monitor cl)
            ∧ stack_list fuel s' (Client.monitor cl) = Some (c :: l1 ++ l2)
            ∧ Monitor.selectedClient <$> ms s' !! Client.monitor cl
              = Some (Some c)
            ∧ Client.isUrgent <$> cs s' !! c = Some false
            ∧ (∀ c', c' ∉ l1 → c' ≠ c → cs s' !! c' = cs s !! c')
            ∧ (∀ m', m' ≠ Client.monitor cl → ms s' !! m' = ms s !! m')
      end.
Proof.
  intros W Hsm Hl Hon Ht.
  destruct (focus_links_ok fuel s sm target lsm Hsm Hl Hon Ht)
    as (s' & Hf & Hspec).
  exists s'. split; [|done]. by apply (focus_draws fuel target s s' Hf W).
Qed.

Lemma focus_walks_end fuel target s s' :
  focus fuel target s = Some s' → walks_end fuel s → walks_end fuel s'.
Proof.
  intros H. apply walks_end_kept.
  - by eapply focus_link_frame.
  - by eapply focus_keeps_client_lists.
Qed.

(** The lists of a monitor stay in order across [focus]. *)
Lemma focus_returns fuel s sm target lsm :
  walks_end fuel s →
  selectedMonitor s = Some sm →
  stack_list fuel s sm = Some lsm → on_monitor s sm lsm →
  match target with
  | None => True
  | Some t => ∃ tl lt, cs s !! t = Some tl
                       ∧ stack_list fuel s (Client.monitor tl) = Some lt
                       ∧ on_monitor s (Client.monitor tl) lt ∧ t ∈ lt
  end →
  ∃ s',
    focus fuel target s = Some s'
    ∧ link_frame s s'
    ∧ keeps_client_lists s s'
    ∧ (∀ m0, lists_ok fuel s m0 → lists_ok fuel s' m0)
    ∧ (∀ m0 ls, stack_list fuel s m0 = Some ls → on_monitor s m0 ls →
         ∃ ls', stack_list fuel s' m0 = Some ls' ∧ ls' ≡ₚ ls)
    ∧ selectedMonitor s'
      = Some (match focus_choice s target lsm with
              | Some c => default sm (Client.monitor <$> cs s !! c)
              | None => sm
              end)
    ∧ Monitor.selectedClient
        <$> (selectedMonitor s' ≫= λ m, ms s' !! m)
      = Some (focus_choice s target lsm).
Proof.
  intros W Hsm Hl Hon Ht.
  destruct (focus_ok fuel s sm target lsm W Hsm Hl Hon Ht)
    as (s' & Hf & Hspec).
  pose proof (focus_link_frame _ _ _ _ Hf) as F.
  pose proof (focus_keeps_client_lists _ _ _ _ Hf) as K.
  exists s'. split; [done|]. split; [done|]. split; [done|].
  assert (∀ m0 ls, stack_list fuel s m0 = Some ls → on_monitor s m0 ls →
            ∃ ls', stack_list fuel s' m0 = Some ls' ∧ ls' ≡ₚ ls) as Hst.
  { intros m0 ls Hls Hons.
    destruct (focus_choice s target lsm) as [c|].
    - destruct Hspec as (cl & l1 & l2 & Hc & Hv & Hlc & Honc & Hsel & Hlc'
                         & _ & _ & Hcs & Hms).
      destruct (decide (m0 = Client.monitor cl)) as [->|Hne].
      + rewrite Hls in Hlc. simplify_eq. eexists. split; [done|].
        by rewrite Permutation_middle.
      + exists ls. split; [|done].
        unfold stack_list in *. rewrite Hms by done.
        destruct (ms s !! m0) as [mon0|]; [|done]. simpl in *.
        eapply chain_list_ext; [|exact Hls].
        intros c' Hin. rewrite Hcs; [done| |].
        * intros Hin1. unfold on_monitor in Hons, Honc.
          rewrite Forall_forall in Hons, Honc.
          destruct (Hons c' Hin) as (a & Ha & Hma).
          destruct (Honc c') as (b & Hb & Hmb);
            [rewrite elem_of_app; by left|]. congruence.
        * intros ->. unfold on_monitor in Hons.
          rewrite Forall_forall in Hons.
          destruct (Hons c Hin) as (a & Ha & Hma). congruence.
    - destruct Hspec as (_ & _ & _ & Hs). exists ls. by rewrite Hs. }
  split; [|split; [done|]].
  - intros m0 (mon0 & lc & ls & Hm0 & Hlc & Honc & Hls & Hons & Hlen).
    destruct (Hst m0 ls Hls Hons) as (ls' & Hls' & Hp).
    pose proof Hls' as Hal. unfold stack_list in Hal.
    apply bind_Some in Hal as (mon0' & Hm0' & _).
    exists mon0', lc, ls'.
    rewrite (keeps_client_lists_read _ _ _ _ K).
    repeat split; try done.
    + by eapply link_frame_on_monitor.
    + eapply link_frame_on_monitor; [done|].
      unfold on_monitor. by rewrite Hp.
  - destruct (focus_choice s target lsm) as [c|].
    + destruct Hspec as (cl & l1 & l2 & Hc & Hv & Hlc & Honc & Hsel & Hlc'
                         & Hsc & _).
      rewrite Hsel, Hc. simpl. split; [done|]. done.
    + destruct Hspec as (Hsel & _ & Hsc & _). rewrite Hsel. simpl. done.
Qed.

Lemma focus_visible_spec fuel s sm c cl l1 l2 :
  walks_end fuel s →
  selectedMonitor s = Some sm →
  is_Some (ms s !! sm) →
  cs s !! c = Some cl →
  is_visible s c = true →
  stack_list fuel s (Client.monitor cl) = Some (l1 ++ c :: l2) →
  on_monitor s (Client.monitor cl) (l1 ++ c :: l2) →
  ∃ s',
    focus fuel (Some c) s = Some s'
    ∧ selectedMonitor s' = Some (Client.monitor cl)
    ∧ stack_list fuel s' (Client.monitor cl) = Some (c :: l1 ++ l2)
    ∧ Monitor.selectedClient <$> ms s' !! Client.monitor cl = Some (Some c)
    ∧ Client.isUrgent <$> cs s' !! c = Some false
    ∧ (∀ k m, client_list k s' m = client_list k s m).
Proof.
  intros W Hsm [smon Hsmon] Hc Hv Hl Hon.
  pose proof Hl as Hl'. unfold stack_list in Hl'.
  apply bind_Some in Hl' as (mon & Hmon & Hch).
  destruct (focus_client_spec fuel s sm c cl (Client.monitor cl) mon l1 l2)
    as (s' & Hf & H1 & H2 & H3 & H4 & _); try done.
  assert (focus fuel (Some c) s = Some s') as Hfocus.
  { apply focus_draws; [|done].
    rewrite focus_unfold, Hsm. cbn [mbind option_bind]. rewrite Hsmon.
    cbn [mbind option_bind]. rewrite Hc. cbn [mbind option_bind].
    rewrite (is_visible_ISVISIBLE _ _ _ _ Hc Hmon), Hv. simpl. done. }
  exists s'. repeat (split; [done|]).
  intros k m. apply keeps_client_lists_read.
  by eapply focus_keeps_client_lists.
Qed.

(** [focus] of a visible client of a focus stack in order returns when
    the monitor list and the client list of every monitor end. It moves
    the client to the top of that stack, keeping the order of the others,
    selects it on its monitor, makes that monitor the selected one and
    clears the urgency mark of the client. The client lists stay as they
    are. *)
Theorem focus_raises_client (fuel : nat) (s : State) (sm c : nat)
    (cl : Client.t) (l1 l2 : list nat) :
  walks_end fuel s →
  selectedMonitor s = Some sm →
  is_Some (ms s !! sm) →
  cs s !! c = Some cl →
  is_visible s c = true →
  stack_list fuel s (Client.monitor cl) = Some (l1 ++ c :: l2) →
  on_monitor s (Client.monitor cl) (l1 ++ c :: l2) →
  ∃ s',
    focus fuel (Some c) s = Some s'
    ∧ selectedMonitor s' = Some (Client.monitor cl)
    ∧ stack_list fuel s' (Client.monitor cl) = Some (c :: l1 ++ l2)
    ∧ Monitor.selectedClient <$> ms s' !! Client.monitor cl = Some (Some c)
    ∧ Client.isUrgent <$> cs s' !! c = Some false
    ∧ (∀ k m, client_list k s' m = client_list k s m).
Proof. apply focus_visible_spec. Qed.

Lemma focus_raises_client_witness :
  let s := three_stacked 1 in
  ∃ s',
    focus 8 (Some 2%nat) s = Some s'
    ∧ selectedMonitor s' = Some 0%nat
    ∧ stack_list 8 s' 0 = Some (2%nat :: [3%nat; 1%nat] ++ [])
    ∧ Monitor.selectedClient <$> ms s' !! 0%nat = Some (Some 2%nat)
    ∧ Client.isUrgent <$> cs s' !! 2%nat = Some false
    ∧ (∀ k m, client_list k s' m = client_list k s m).
Proof.
  intros s.
  apply (focus_raises_client 8 s 0 2
           (plain_client 0 1 false 0 0 498 798 1 (Some 1%nat) None)
           [3%nat; 1%nat] []).
  - apply (walks_end_intro 8 s [0%nat]); vm_compute; reflexivity.
  - reflexivity.
  - eexists. vm_compute. reflexivity.
  - vm_compute; reflexivity.
  - vm_compute; reflexivity.
  - vm_compute; reflexivity.
  - apply on_monitor_decide. vm_compute; reflexivity.
Defined.

(** * The fallback of [focus] *)

(** C5. When [focus] is handed no client, or a client that is not
    visible, the client it selects on the selected monitor is the first
    visible one of that monitor's focus stack, in stack order — whatever
    the order of the client list; it is none when the stack has no visible
    client. The call returns for every budget that covers the stack, the
    monitor list and the client list of every monitor, which the bars
    drawn at the end walk through. *)
Theorem focus_fallback_stack_order (fuel : nat) (s : State) (sm : nat)
    (target : option nat) (l : list nat) :
  walks_end fuel s →
  selectedMonitor s = Some sm →
  stack_list fuel s sm = Some l →
  on_monitor s sm l →
  match target with
  | None => True
  | Some t => ∃ cl, cs s !! t = Some cl ∧ ISVISIBLE s cl = Some false
  end →
  ∃ s' smon',
    focus fuel target s = Some s'
    ∧ selectedMonitor s' = Some sm
    ∧ ms s' !! sm = Some smon'
    ∧ Monitor.selectedClient smon' = find (is_visible s) l.
Proof.
  intros W Hsm Hl Hon Ht.
  destruct (focus_links_fallback fuel s sm target l Hsm Hl Hon Ht)
    as (s' & smon' & Hf & Hsel & Hm & Hsc).
  exists s', smon'. split; [|done].
  by apply (focus_draws fuel target s s' Hf W).
Qed.

(** ** Sample runs for the focus theorem *)

Lemma focus_fallback_stack_order_witness :
  let s := three_stacked 2 in
  (client_list 8 s 0 = Some [2%nat; 1%nat; 3%nat]
   ∧ stack_list 8 s 0 = Some [3%nat; 1%nat; 2%nat]
   ∧ find (is_visible s) [3%nat; 1%nat; 2%nat] = Some 1%nat)
  ∧ ∃ s' smon',
      focus 8 None s = Some s'
      ∧ selectedMonitor s' = Some 0%nat
      ∧ ms s' !! 0%nat = Some smon'
      ∧ Monitor.selectedClient smon'
        = find (is_visible s) [3%nat; 1%nat; 2%nat].
Proof.
  intros s. split; [repeat split; vm_compute; reflexivity|].
  apply (focus_fallback_stack_order 8 s 0 None [3%nat; 1%nat; 2%nat]).
  - apply (walks_end_intro 8 s [0%nat]); vm_compute; reflexivity.
  - reflexivity.
  - vm_compute; reflexivity.
  - apply on_monitor_decide. vm_compute; reflexivity.
  - exact I.
Defined.

(** The scenario of the specification: the stack runs 3, 1, 2, all three
    clients are shown, and client 3 is removed; client 1 is selected,
    although client 2 comes first in the client list. *)
Example unmanage_falls_back_in_stack_order :
  (s' ← unmanage config_def 8 3 (three_stacked 1);
   mon ← ms s' !! 0%nat;
   Some (Monitor.selectedClient mon, client_list 8 s' 0, stack_list 8 s' 0))
  = Some (Some 1%nat, Some [2%nat; 1%nat], Some [1%nat; 2%nat]).
Proof. vm_compute. reflexivity. Qed.

(** * Monitors that go away *)

(** A client that is its own successor ends no walk. *)
Lemma chain_list_self_loop nx k (h : gmap nat Client.t) c cl :
  h !! c = Some cl → nx cl = Some c → chain_list nx k h (Some c) = None.
Proof.
  intros Hc Hn. induction k as [|k IH]; [done|].
  simpl. rewrite Hc. simpl. by rewrite Hn, IH.
Qed.

Lemma find_window_self_loop k s window c cl :
  cs s !! c = Some cl → Client.next cl = Some c →
  Client.window cl ≠ window →
  find_window k s window (Some c) = None.
Proof.
  intros Hc Hn Hw. apply Z.eqb_neq in Hw.
  induction k as [|k IH]; simpl; rewrite Hc; simpl; rewrite Hw; [done|].
  by rewrite Hn.
Qed.

Lemma windowToClient_self_loop fuel s window m mon c cl :
  monitors s = Some m → ms s !! m = Some mon →
  Monitor.clients mon = Some c →
  cs s !! c = Some cl → Client.next cl = Some c →
  Client.window cl ≠ window →
  windowToClient fuel s window = None.
Proof.
  intros Hms Hm Hmc Hc Hn Hw. unfold windowToClient. rewrite Hms.
  generalize fuel at 2. intros k.
  destruct k; simpl; rewrite Hm; simpl; rewrite Hmc;
    by rewrite (find_window_self_loop fuel s window c cl).
Qed.

(** C1. The migration loop of [updateGeometry] attaches every client of
    a removed monitor twice, with [attach] and then with [attachBelow],
    and the client list of the first monitor does not survive it. With two
    monitors that hold one tiled client each and the second monitor gone:
    when the first monitor has its client selected, that client drops out
    of the client list while it stays in the focus stack; when the first
    monitor has no client selected, the migrated client becomes its own
    successor, and no walk over the client list ends, whatever the budget.
    The call itself returns there when the pointer is on the screen; when
    it is not, [windowToMonitor] goes on to [windowToClient], whose walk
    over that client list does not end, and the call does not return.
    [sendmon], which calls [attachBelow] alone, leaves both clients in the
    client list once and in the stack once. *)
Theorem updateGeometry_migration_breaks_client_list :
  (client_list 8 (two_monitors (Some 1%nat)) 0 = Some [1%nat]
   ∧ client_list 8 (two_monitors (Some 1%nat)) 1 = Some [2%nat])
  ∧ (r ← updateGeometry config_def 8 (Some one_screen) 1 None
           (two_monitors (Some 1%nat));
     Some (r.1, map fst (map_to_list (ms r.2)),
           client_list 8 r.2 0, stack_list 8 r.2 0,
           Client.next <$> cs r.2 !! 1%nat))
    = Some (true, [0%nat], Some [2%nat], Some [2%nat; 1%nat],
            Some (Some 2%nat))
  ∧ (∃ r cl,
       updateGeometry config_def 8 (Some one_screen) 1 (Some (10, 10))
         (two_monitors None)
       = Some r
       ∧ cs r.2 !! 2%nat = Some cl
       ∧ Client.next cl = Some 2%nat
       ∧ stack_list 8 r.2 0 = Some [2%nat; 1%nat]
       ∧ (∀ fuel, client_list fuel r.2 0 = None)
       ∧ (∀ fuel, windowToMonitor fuel 1 None 1 r.2 = None))
  ∧ updateGeometry config_def 8 (Some one_screen) 1 None (two_monitors None)
    = None
  ∧ (s ← sendmon config_def 8 2 0 (two_monitors (Some 1%nat));
     Some (client_list 8 s 0, stack_list 8 s 0))
    = Some (Some [1%nat; 2%nat], Some [2%nat; 1%nat]).
Proof.
  split; [split; vm_compute; reflexivity|].
  split; [vm_compute; reflexivity|].
  split; [|split; vm_compute; reflexivity].
  destruct (updateGeometry config_def 8 (Some one_screen) 1 (Some (10, 10))
              (two_monitors None)) as [r|] eqn:E; [|vm_compute in E; discriminate].
  assert (∃ cl mon,
            cs r.2 !! 2%nat = Some cl ∧ Client.next cl = Some 2%nat
            ∧ Client.window cl = 0
            ∧ stack_list 8 r.2 0 = Some [2%nat; 1%nat]
            ∧ monitors r.2 = Some 0%nat
            ∧ ms r.2 !! 0%nat = Some mon
            ∧ Monitor.clients mon = Some 2%nat
            ∧ Monitor.next mon = None
            ∧ Monitor.barWindow mon = 0)
    as (cl & mon & Hc & Hn & Hw & Hs & Hms & Hm & Hmc & Hmn & Hmb).
  { vm_compute in E. injection E as <-. eexists _, _.
    repeat split; vm_compute; reflexivity. }
  exists r, cl. split; [done|]. split; [done|]. split; [done|]. split; [done|].
  split.
  - intros fuel. unfold client_list. rewrite Hm. simpl. rewrite Hmc.
    by apply (chain_list_self_loop _ _ _ _ cl).
  - intros fuel. unfold windowToMonitor. change (1 =? 1) with true.
    cbv iota. rewrite Hms.
    destruct fuel as [|k]; simpl; rewrite Hm; simpl; rewrite Hmb; simpl;
      [done|].
    rewrite Hmn. assert (bar_monitor k r.2 1 None = Some None) as ->
      by (by destruct k).
    cbn [mbind option_bind].
    by rewrite (windowToClient_self_loop (S k) r.2 1 0 mon 2 cl Hms Hm Hmc
                  Hc Hn ltac:(lia)).
Qed.

(** * Commands that refocus and arrange *)

(** ** Lists in order, kept *)

Lemma lists_ok_kept k s s' m :
  keeps_client_lists s s' → keeps_stacks s s' →
  (∀ c, Client.monitor <$> cs s' !! c = Client.monitor <$> cs s !! c) →
  lists_ok k s m → lists_ok k s' m.
Proof.
  intros K1 K2 Hmon (mon & lc & ls & Hm & Hl & Hon & Hs & Hons & Hlen).
  assert (∀ l, on_monitor s m l → on_monitor s' m l) as Hon'.
  { intros l H. eapply Forall_impl; [exact H|].
    intros c (cl & Hc & Hmc). pose proof (Hmon c) as E. rewrite Hc in E.
    destruct (cs s' !! c) as [a|]; [|done]. apply (inj Some) in E.
    exists a. split; [done|]. simpl in E. congruence. }
  rewrite <- (keeps_client_lists_read _ _ k m K1) in Hl.
  rewrite <- (keeps_stacks_read _ _ k m K2) in Hs.
  pose proof Hl as Hal. unfold client_list in Hal.
  apply bind_Some in Hal as (mon' & Hm' & _).
  exists mon', lc, ls. repeat split; try done; by apply Hon'.
Qed.

Lemma updc_lists_ok k c f s s' m :
  (∀ cl, links (f cl) = links cl) →
  updc c f s = Some s' → lists_ok k s m → lists_ok k s' m.
Proof.
  intros Hf H. destruct (updc_links c f s s' Hf H) as [Hl Hms].
  by apply links_lists_ok.
Qed.

Lemma updm_lists_ok k m0 f s s' m :
  (∀ mon, Monitor.clients (f mon) = Monitor.clients mon) →
  (∀ mon, Monitor.stack (f mon) = Monitor.stack mon) →
  (∀ mon, Monitor.selectedClient (f mon) = Monitor.selectedClient mon) →
  updm m0 f s = Some s' → lists_ok k s m → lists_ok k s' m.
Proof.
  intros H1 H2 H3 H. apply lists_ok_kept.
  - by eapply updm_keeps_client_lists.
  - by eapply updm_keeps_stacks.
  - intros c. by rewrite (updm_cs _ _ _ _ H).
Qed.

Lemma updc_walks_end k c f s s' :
  (∀ cl, links (f cl) = links cl) →
  updc c f s = Some s' → walks_end k s → walks_end k s'.
Proof.
  intros Hf H. unfold updc in H. apply bind_Some in H as (cl & Hc & H).
  apply (inj Some) in H. subst s'. apply walks_end_ext; [|done|done].
  intros c'. cbn [cs set_cs]. destruct (decide (c' = c)) as [->|Hne].
  - rewrite lookup_insert_eq, Hc. simpl. pose proof (Hf cl) as E.
    unfold links in E. by injection E as -> _ ->.
  - by rewrite lookup_insert_ne.
Qed.

Lemma updm_walks_end k m f s s' :
  (∀ mon, Monitor.clients (f mon) = Monitor.clients mon) →
  (∀ mon, Monitor.next (f mon) = Monitor.next mon) →
  updm m f s = Some s' → walks_end k s → walks_end k s'.
Proof.
  intros H1 H2 H. unfold updm in H. apply bind_Some in H as (mon & Hm & H).
  apply (inj Some) in H. subst s'. apply walks_end_ext; [done| |done].
  intros m'. cbn [ms set_ms]. destruct (decide (m' = m)) as [->|Hne].
  - rewrite lookup_insert_eq, Hm. simpl. by rewrite H1, H2.
  - by rewrite lookup_insert_ne.
Qed.

(** ** Focus on what is visible, then arrange *)

Section Refocus.

Variable cfg : Config.t.

(** The tail of the commands that change what is visible: [focus(NULL)]
    and [arrange(selectedMonitor)] return when the walks over every
    client end, keep the selected monitor and its lists, and leave
    selected the first visible client of the focus stack. *)
Lemma refocus_ok fuel s sm ls :
  walks_end fuel s →
  selectedMonitor s = Some sm →
  lists_ok fuel s sm →
  stack_list fuel s sm = Some ls →
  ∃ s2 s',
    focus fuel None s = Some s2
    ∧ arrange cfg fuel (selectedMonitor s2) s2 = Some s'
    ∧ link_frame s s'
    ∧ keeps_client_lists s s'
    ∧ selectedMonitor s' = Some sm
    ∧ lists_ok fuel s' sm
    ∧ Monitor.selectedClient <$> ms s' !! sm
      = Some (find (is_visible s) ls).
Proof.
  intros W Hsm L Hls.
  pose proof L as (mon & lc & ls0 & Hm & Hl & Hon & Hs & Hons & Hlen).
  rewrite Hls in Hs. simplify_eq.
  destruct (focus_returns fuel s sm None ls0 W Hsm Hls Hons I)
    as (s2 & Hf & F2 & K2 & L2 & _ & Hsel2 & Hsc2).
  simpl in Hsel2, Hsc2.
  assert (selectedMonitor s2 = Some sm) as Hsm2.
  { rewrite Hsel2. destruct (find (is_visible s) ls0) as [c|] eqn:Ef; [|done].
    apply find_some in Ef as [Hin _]. apply list_elem_of_In in Hin.
    unfold on_monitor in Hons. rewrite Forall_forall in Hons.
    destruct (Hons c Hin) as (cl & Hc & Hmc). rewrite Hc. simpl. by rewrite Hmc. }
  rewrite Hsm2 in Hsc2. simpl in Hsc2.
  pose proof (L2 sm L) as L2'.
  pose proof L2' as (mon2 & _ & _ & Hm2 & _).
  destruct (arrange_ok cfg fuel sm s2 mon2 L2' Hm2) as (s' & Ha & G & _).
  exists s2, s'. split; [done|]. rewrite Hsm2. split; [done|].
  split; [|split; [|split; [|split]]].
  - eapply link_frame_trans; [exact F2|by apply geom_frame_link_frame].
  - eapply keeps_client_lists_trans;
      [exact K2|by apply geom_frame_keeps_client_lists].
  - destruct G as (_ & _ & _ & -> & _). done.
  - by eapply geom_frame_lists_ok.
  - rewrite <- Hsc2.
    apply (geom_frame_mon_proj s2 s' G Monitor.selectedClient). done.
Qed.

End Refocus.

(** ** [view] and [toggleview] *)

Lemma updm_Some m f s mon :
  ms s !! m = Some mon → updm m f s = Some (set_ms (<[m := f mon]> (ms s)) s).
Proof. intros H. unfold updm. by rewrite H. Qed.

Lemma updc_Some c f s cl :
  cs s !! c = Some cl → updc c f s = Some (set_cs (<[c := f cl]> (cs s)) s).
Proof. intros H. unfold updc. by rewrite H. Qed.

Lemma lists_ok_stack k s m :
  lists_ok k s m → ∃ ls, stack_list k s m = Some ls.
Proof. intros (mon & lc & ls & _ & _ & _ & Hs & _). eauto. Qed.

Section TagCommands.

Variable cfg : Config.t.

(** What [view] leaves behind when it has something to do. *)
Lemma view_spec fuel ui s sm smon :
  walks_end fuel s →
  selectedMonitor s = Some sm → ms s !! sm = Some smon →
  lists_ok fuel s sm →
  Z.land ui (TAGMASK cfg) ≠ curtags smon →
  ∃ s1 smon1,
    view cfg fuel ui s = Some s1
    ∧ selectedMonitor s1 = Some sm
    ∧ lists_ok fuel s1 sm
    ∧ walks_end fuel s1
    ∧ ms s1 !! sm = Some smon1
    ∧ Monitor.selectedTags smon1 = Z.lxor (Monitor.selectedTags smon) 1
    ∧ Monitor.tagSet smon1
      = (if Z.land ui (TAGMASK cfg) =? 0 then Monitor.tagSet smon
         else set_slot (Z.lxor (Monitor.selectedTags smon) 1)
                (Z.land ui (TAGMASK cfg)) (Monitor.tagSet smon))
    ∧ (∀ c, Client.tags <$> cs s1 !! c = Client.tags <$> cs s !! c).
Proof.
  intros W Hsm Hm L Hne.
  unfold view. rewrite Hsm. cbn [mbind option_bind]. rewrite Hm.
  cbn [mbind option_bind].
  rewrite (proj2 (Z.eqb_neq _ _) Hne).
  set (f1 := λ m, Monitor.set_selectedTags
                    (Z.lxor (Monitor.selectedTags m) 1) m).
  set (f2 := λ m, Monitor.set_tagSet
                    (set_slot (Monitor.selectedTags m)
                       (Z.land ui (TAGMASK cfg)) (Monitor.tagSet m)) m).
  rewrite (updm_Some sm f1 s smon Hm). cbn [mbind option_bind].
  set (sa := set_ms (<[sm := f1 smon]> (ms s)) s).
  assert (lists_ok fuel sa sm) as La.
  { eapply (updm_lists_ok fuel sm f1 s sa); [done..| |done].
    by apply updm_Some. }
  assert (ms sa !! sm = Some (f1 smon)) as Hma
    by (subst sa; simpl; by rewrite lookup_insert_eq).
  assert (walks_end fuel sa) as Wa.
  { eapply (updm_walks_end fuel sm f1 s sa); [done..| |done].
    by apply updm_Some. }
  (* the state that [focus] is handed *)
  assert (∃ sb smonb,
            (if Z.land ui (TAGMASK cfg) =? 0 then Some sa
             else updm sm f2 sa) = Some sb
            ∧ walks_end fuel sb
            ∧ lists_ok fuel sb sm ∧ selectedMonitor sb = Some sm
            ∧ ms sb !! sm = Some smonb ∧ cs sb = cs s
            ∧ Monitor.selectedTags smonb
              = Z.lxor (Monitor.selectedTags smon) 1
            ∧ Monitor.tagSet smonb
              = (if Z.land ui (TAGMASK cfg) =? 0 then Monitor.tagSet smon
                 else set_slot (Z.lxor (Monitor.selectedTags smon) 1)
                        (Z.land ui (TAGMASK cfg)) (Monitor.tagSet smon)))
    as (sb & smonb & -> & Wb & Lb & Hsmb & Hmb & Hcsb & Hselb & Htsb).
  { destruct (Z.land ui (TAGMASK cfg) =? 0).
    - exists sa, (f1 smon). repeat split; try done; by destruct smon.
    - rewrite (updm_Some sm f2 sa (f1 smon) Hma).
      eexists _, (f2 (f1 smon)). split; [done|]. split.
      { eapply (updm_walks_end fuel sm f2 sa); [done..| |done].
        by apply updm_Some. }
      split.
      { eapply (updm_lists_ok fuel sm f2 sa); [done..| |done].
        by apply updm_Some. }
      split; [done|]. split; [simpl; by rewrite lookup_insert_eq|].
      split; [done|]. split; by destruct smon. }
  cbn [mbind option_bind].
  destruct (lists_ok_stack _ _ _ Lb) as [ls Hls].
  destruct (refocus_ok cfg fuel sb sm ls Wb Hsmb Lb Hls)
    as (s2 & s1 & -> & Ha & F & K & Hsm1 & L1 & _).
  cbn [mbind option_bind]. rewrite Ha.
  pose proof L1 as (smon1 & _ & _ & Hm1 & _).
  destruct (link_frame_monitor _ _ _ _ F Hm1) as (smonb' & Hmb' & E).
  rewrite Hmb in Hmb'. apply (inj Some) in Hmb'. subst smonb'.
  pose proof (walks_end_kept fuel sb s1 F K Wb) as W1.
  exists s1, smon1. repeat (split; [done|]).
  split; [|split].
  - rewrite <- Hselb. exact (f_equal Monitor.selectedTags E).
  - rewrite <- Htsb. exact (f_equal Monitor.tagSet E).
  - intros c. rewrite <- Hcsb.
    by apply (link_frame_proj sb s1 Client.tags c F).
Qed.

(** When the monitor list and the client list of every monitor end and
    the lists of the selected monitor are in order, [view] with tags other
    than those in view shows them, and [view] with no tags then shows the
    tags that were in view before; both calls return. *)
Theorem view_none_returns_to_previous_tags (fuel : nat) (ui : Z) (s : State)
    (sm : nat) (smon : Monitor.t) :
  walks_end fuel s →
  selectedMonitor s = Some sm →
  ms s !! sm = Some smon →
  lists_ok fuel s sm →
  Monitor.selectedTags smon = 0 ∨ Monitor.selectedTags smon = 1 →
  Z.land ui (TAGMASK cfg) ≠ 0 →
  Z.land ui (TAGMASK cfg) ≠ curtags smon →
  ∃ s1 s2 smon1 smon2,
    view cfg fuel ui s = Some s1
    ∧ ms s1 !! sm = Some smon1
    ∧ curtags smon1 = Z.land ui (TAGMASK cfg)
    ∧ view cfg fuel 0 s1 = Some s2
    ∧ ms s2 !! sm = Some smon2
    ∧ curtags smon2 = curtags smon
    ∧ (∀ c, Client.tags <$> cs s2 !! c = Client.tags <$> cs s !! c).
Proof.
  intros W Hsm Hm L Hsel Hnz Hne.
  destruct (view_spec fuel ui s sm smon W Hsm Hm L Hne)
    as (s1 & smon1 & Hv1 & Hsm1 & L1 & W1 & Hm1 & Hsel1 & Hts1 & Hc1).
  rewrite (proj2 (Z.eqb_neq _ _) Hnz) in Hts1.
  assert (curtags smon1 = Z.land ui (TAGMASK cfg)) as Hcur1.
  { unfold curtags. rewrite Hsel1, Hts1. unfold slot, set_slot.
    destruct Hsel as [-> | ->]; reflexivity. }
  destruct (view_spec fuel 0 s1 sm smon1 W1 Hsm1 Hm1 L1)
    as (s2 & smon2 & Hv2 & Hsm2 & L2 & _ & Hm2 & Hsel2 & Hts2 & Hc2).
  { rewrite Z.land_0_l, Hcur1. congruence. }
  rewrite Z.land_0_l in Hts2. simpl in Hts2.
  exists s1, s2, smon1, smon2. repeat (split; [done|]).
  split.
  - unfold curtags. rewrite Hsel2, Hts2, Hsel1, Hts1. unfold slot, set_slot.
    destruct Hsel as [-> | ->]; reflexivity.
  - intros c. by rewrite Hc2, Hc1.
Qed.

(** What [toggleview] leaves behind when tags stay in view. *)
Lemma toggleview_spec fuel ui s sm smon :
  walks_end fuel s →
  selectedMonitor s = Some sm → ms s !! sm = Some smon →
  lists_ok fuel s sm →
  Z.lxor (curtags smon) (Z.land ui (TAGMASK cfg)) ≠ 0 →
  ∃ s1 smon1,
    toggleview cfg fuel ui s = Some s1
    ∧ selectedMonitor s1 = Some sm
    ∧ lists_ok fuel s1 sm
    ∧ walks_end fuel s1
    ∧ ms s1 !! sm = Some smon1
    ∧ Monitor.selectedTags smon1 = Monitor.selectedTags smon
    ∧ Monitor.tagSet smon1
      = set_slot (Monitor.selectedTags smon)
          (Z.lxor (curtags smon) (Z.land ui (TAGMASK cfg)))
          (Monitor.tagSet smon)
    ∧ (∀ c, Client.tags <$> cs s1 !! c = Client.tags <$> cs s !! c).
Proof.
  intros W Hsm Hm L Hne.
  unfold toggleview. rewrite Hsm. cbn [mbind option_bind]. rewrite Hm.
  cbn [mbind option_bind]. cbv zeta.
  rewrite (proj2 (Z.eqb_neq _ _) Hne).
  set (f1 := λ m, Monitor.set_tagSet
                    (set_slot (Monitor.selectedTags m)
                       (Z.lxor (curtags smon) (Z.land ui (TAGMASK cfg)))
                       (Monitor.tagSet m)) m).
  rewrite (updm_Some sm f1 s smon Hm). cbn [mbind option_bind].
  set (sa := set_ms (<[sm := f1 smon]> (ms s)) s).
  assert (lists_ok fuel sa sm) as La.
  { eapply (updm_lists_ok fuel sm f1 s sa); [done..| |done].
    by apply updm_Some. }
  assert (ms sa !! sm = Some (f1 smon)) as Hma
    by (subst sa; simpl; by rewrite lookup_insert_eq).
  assert (walks_end fuel sa) as Wa.
  { eapply (updm_walks_end fuel sm f1 s sa); [done..| |done].
    by apply updm_Some. }
  destruct (lists_ok_stack _ _ _ La) as [ls Hls].
  destruct (refocus_ok cfg fuel sa sm ls Wa Hsm La Hls)
    as (s2 & s1 & -> & Ha & F & K & Hsm1 & L1 & _).
  cbn [mbind option_bind]. rewrite Ha.
  pose proof L1 as (smon1 & _ & _ & Hm1 & _).
  destruct (link_frame_monitor _ _ _ _ F Hm1) as (smona & Hma' & E).
  rewrite Hma in Hma'. apply (inj Some) in Hma'. subst smona.
  pose proof (walks_end_kept fuel sa s1 F K Wa) as W1.
  exists s1, smon1. repeat (split; [done|]).
  split; [|split].
  - transitivity (Monitor.selectedTags (f1 smon));
      [exact (f_equal Monitor.selectedTags E)|by destruct smon].
  - transitivity (Monitor.tagSet (f1 smon));
      [exact (f_equal Monitor.tagSet E)|by destruct smon].
  - intros c. by apply (link_frame_proj sa s1 Client.tags c F).
Qed.

(** When the monitor list and the client list of every monitor end and
    the lists of the selected monitor are in order, [toggleview] with the
    same tags twice shows the tags that were in view before, unless the
    first call would leave no tag in view; both calls return. *)
Theorem toggleview_twice_restores_view (fuel : nat) (ui : Z) (s : State)
    (sm : nat) (smon : Monitor.t) :
  walks_end fuel s →
  selectedMonitor s = Some sm →
  ms s !! sm = Some smon →
  lists_ok fuel s sm →
  curtags smon ≠ 0 →
  Z.lxor (curtags smon) (Z.land ui (TAGMASK cfg)) ≠ 0 →
  ∃ s1 s2 smon1 smon2,
    toggleview cfg fuel ui s = Some s1
    ∧ ms s1 !! sm = Some smon1
    ∧ curtags smon1 = Z.lxor (curtags smon) (Z.land ui (TAGMASK cfg))
    ∧ toggleview cfg fuel ui s1 = Some s2
    ∧ ms s2 !! sm = Some smon2
    ∧ curtags smon2 = curtags smon
    ∧ Monitor.tagSet smon2 = Monitor.tagSet smon.
Proof.
  intros W Hsm Hm L Hnz Hne.
  destruct (toggleview_spec fuel ui s sm smon W Hsm Hm L Hne)
    as (s1 & smon1 & Hv1 & Hsm1 & L1 & W1 & Hm1 & Hsel1 & Hts1 & Hc1).
  assert (∀ (v : Z) (p : Z * Z),
            slot (Monitor.selectedTags smon)
              (set_slot (Monitor.selectedTags smon) v p) = v) as Hslot.
  { intros v p. unfold slot, set_slot.
    by destruct (Monitor.selectedTags smon =? 0). }
  assert (curtags smon1
          = Z.lxor (curtags smon) (Z.land ui (TAGMASK cfg))) as Hcur1.
  { unfold curtags at 1. by rewrite Hsel1, Hts1, Hslot. }
  assert (Z.lxor (curtags smon1) (Z.land ui (TAGMASK cfg)) = curtags smon)
    as Hback.
  { rewrite Hcur1, Z.lxor_assoc, Z.lxor_nilpotent. apply Z.lxor_0_r. }
  destruct (toggleview_spec fuel ui s1 sm smon1 W1 Hsm1 Hm1 L1)
    as (s2 & smon2 & Hv2 & Hsm2 & L2 & _ & Hm2 & Hsel2 & Hts2 & Hc2).
  { by rewrite Hback. }
  exists s1, s2, smon1, smon2. repeat (split; [done|]).
  rewrite Hback, Hsel1, Hts1 in Hts2.
  assert (Monitor.tagSet smon2 = Monitor.tagSet smon) as Hts.
  { rewrite Hts2. unfold set_slot, curtags, slot.
    destruct (Monitor.selectedTags smon =? 0), (Monitor.tagSet smon); done. }
  split; [|done].
  unfold curtags. by rewrite Hsel2, Hsel1, Hts.
Qed.

End TagCommands.

Lemma two_tiled_walks_end : walks_end 8 two_tiled.
Proof.
  apply (walks_end_intro 8 two_tiled [0%nat]); vm_compute; reflexivity.
Defined.

Lemma two_tiled_lists_ok : lists_ok 8 two_tiled 0.
Proof.
  eapply (lists_ok_intro 8 two_tiled 0 _ [1%nat; 2%nat] [1%nat; 2%nat]);
    vm_compute; reflexivity || done.
Defined.

Lemma view_none_returns_to_previous_tags_witness :
  let smon := plain_monitor layout_tile 1 1000 800
                (Some 1%nat) (Some 1%nat) (Some 1%nat) None in
  ∃ s1 s2 smon1 smon2,
    view config_def 8 4 two_tiled = Some s1
    ∧ ms s1 !! 0%nat = Some smon1
    ∧ curtags smon1 = Z.land 4 (TAGMASK config_def)
    ∧ view config_def 8 0 s1 = Some s2
    ∧ ms s2 !! 0%nat = Some smon2
    ∧ curtags smon2 = curtags smon
    ∧ (∀ c, Client.tags <$> cs s2 !! c = Client.tags <$> cs two_tiled !! c).
Proof.
  intros smon.
  apply (view_none_returns_to_previous_tags config_def 8 4 two_tiled 0 smon).
  - exact two_tiled_walks_end.
  - reflexivity.
  - vm_compute; reflexivity.
  - exact two_tiled_lists_ok.
  - left. reflexivity.
  - vm_compute. discriminate.
  - vm_compute. discriminate.
Defined.

Lemma toggleview_twice_restores_view_witness :
  let smon := plain_monitor layout_tile 1 1000 800
                (Some 1%nat) (Some 1%nat) (Some 1%nat) None in
  ∃ s1 s2 smon1 smon2,
    toggleview config_def 8 6 two_tiled = Some s1
    ∧ ms s1 !! 0%nat = Some smon1
    ∧ curtags smon1 = Z.lxor (curtags smon) (Z.land 6 (TAGMASK config_def))
    ∧ toggleview config_def 8 6 s1 = Some s2
    ∧ ms s2 !! 0%nat = Some smon2
    ∧ curtags smon2 = curtags smon
    ∧ Monitor.tagSet smon2 = Monitor.tagSet smon.
Proof.
  intros smon.
  apply (toggleview_twice_restores_view config_def 8 6 two_tiled 0 smon).
  - exact two_tiled_walks_end.
  - reflexivity.
  - vm_compute; reflexivity.
  - exact two_tiled_lists_ok.
  - vm_compute. discriminate.
  - vm_compute. discriminate.
Defined.

(** ** [tag] and [toggletag] *)

Section Retag.

Variable cfg : Config.t.

(** The tail that [tag] and [toggletag] share: the tags of the selected
    client are written, then [focus(NULL)] and [arrange]. *)
Lemma retag_ok fuel s sm (t : Z) sc scl ls :
  walks_end fuel s →
  selectedMonitor s = Some sm →
  cs s !! sc = Some scl →
  lists_ok fuel s sm →
  stack_list fuel s sm = Some ls →
  ∃ s',
    (s1 ← updc sc (Client.set_tags t) s;
     s2 ← focus fuel None s1;
     arrange cfg fuel (selectedMonitor s2) s2) = Some s'
    ∧ selectedMonitor s' = Some sm
    ∧ lists_ok fuel s' sm
    ∧ walks_end fuel s'
    ∧ Client.tags <$> cs s' !! sc = Some t
    ∧ (∀ c, c ≠ sc → Client.tags <$> cs s' !! c = Client.tags <$> cs s !! c)
    ∧ (∀ m, curtags <$> ms s' !! m = curtags <$> ms s !! m)
    ∧ Monitor.selectedClient <$> ms s' !! sm
      = Some (find (is_visible
                      (set_cs (<[sc := Client.set_tags t scl]> (cs s)) s))
                ls).
Proof.
  intros W Hsm Hc L Hls.
  rewrite (updc_Some sc _ s scl Hc). cbn [mbind option_bind].
  set (sa := set_cs (<[sc := Client.set_tags t scl]> (cs s)) s).
  assert (updc sc (Client.set_tags t) s = Some sa) as Hu
    by (by apply updc_Some).
  assert (lists_ok fuel sa sm) as La
    by (eapply (updc_lists_ok fuel sc (Client.set_tags t) s sa);
        [|exact Hu|exact L]; done).
  assert (stack_list fuel sa sm = Some ls) as Hlsa.
  { rewrite <- Hls. destruct (updc_links sc (Client.set_tags t) s sa ltac:(done) Hu)
      as [Hl Hms].
    by apply links_stack_list. }
  assert (walks_end fuel sa) as Wa
    by (eapply (updc_walks_end fuel sc (Client.set_tags t) s sa);
        [|exact Hu|exact W]; done).
  destruct (refocus_ok cfg fuel sa sm ls Wa Hsm La Hlsa)
    as (s2 & s' & -> & Ha & F & K & Hsm' & L' & Hsel).
  cbn [mbind option_bind]. rewrite Ha.
  pose proof (walks_end_kept fuel sa s' F K Wa) as W'.
  exists s'. repeat (split; [done|]).
  split; [|split; [|split; [|done]]].
  - rewrite (link_frame_proj sa s' Client.tags sc F) by done.
    subst sa. simpl. rewrite lookup_insert_eq. by destruct scl.
  - intros c Hne. rewrite (link_frame_proj sa s' Client.tags c F) by done.
    subst sa. simpl. by rewrite lookup_insert_ne.
  - intros m. by rewrite (link_frame_mon_proj sa s' curtags m F).
Qed.

(** When the monitor list and the client list of every monitor end and
    the lists of the selected monitor are in order, [tag] returns. It
    gives the selected client the tags handed over, within the tag mask,
    and leaves the tags of the others; a client that is tagged out of
    view this way is not the selected one any more. *)
Theorem tag_retags_selected_client (fuel : nat) (ui : Z) (s : State)
    (sm sc : nat) (smon : Monitor.t) (scl : Client.t) :
  walks_end fuel s →
  selectedMonitor s = Some sm →
  ms s !! sm = Some smon →
  Monitor.selectedClient smon = Some sc →
  cs s !! sc = Some scl →
  Client.monitor scl = sm →
  lists_ok fuel s sm →
  Z.land ui (TAGMASK cfg) ≠ 0 →
  ∃ s',
    tag cfg fuel ui s = Some s'
    ∧ Client.tags <$> cs s' !! sc = Some (Z.land ui (TAGMASK cfg))
    ∧ (∀ c, c ≠ sc → Client.tags <$> cs s' !! c = Client.tags <$> cs s !! c)
    ∧ (Z.land (Z.land ui (TAGMASK cfg)) (curtags smon) = 0 →
       Monitor.selectedClient <$> ms s' !! sm ≠ Some (Some sc)).
Proof.
  intros W Hsm Hm Hsel Hc Hmc L Hnz.
  destruct (lists_ok_stack _ _ _ L) as [ls Hls].
  destruct (retag_ok fuel s sm (Z.land ui (TAGMASK cfg)) sc scl ls W Hsm Hc
              L Hls)
    as (s' & Hr & _ & _ & _ & Ht & Ho & _ & Hs).
  exists s'. split; [|split; [done|split; [done|]]].
  - unfold tag. rewrite Hsm. cbn [mbind option_bind]. rewrite Hm.
    cbn [mbind option_bind]. rewrite Hsel.
    by rewrite (proj2 (Z.eqb_neq _ _) Hnz).
  - intros Hout. rewrite Hs. intros E. apply (inj Some) in E.
    apply find_some in E as [_ Hv].
    unfold is_visible, ISVISIBLE in Hv. simpl in Hv.
    rewrite lookup_insert_eq in Hv.
    replace (Client.monitor (Client.set_tags (Z.land ui (TAGMASK cfg)) scl))
      with sm in Hv by (by destruct scl).
    rewrite Hm in Hv. simpl in Hv. unfold ISVISIBLEONTAG in Hv.
    replace (Client.tags (Client.set_tags (Z.land ui (TAGMASK cfg)) scl))
      with (Z.land ui (TAGMASK cfg)) in Hv by (by destruct scl).
    by rewrite Hout in Hv.
Qed.

(** When the monitor list and the client list of every monitor end and
    the lists of the selected monitor are in order, [toggletag] with the
    same tags twice leaves the selected client with the tags it had, when
    the client is on top of the focus stack and stays in view in between;
    both calls return. *)
Theorem toggletag_twice_restores_tags (fuel : nat) (ui : Z) (s : State)
    (sm sc : nat) (smon : Monitor.t) (scl : Client.t) (rest : list nat) :
  walks_end fuel s →
  selectedMonitor s = Some sm →
  ms s !! sm = Some smon →
  Monitor.selectedClient smon = Some sc →
  cs s !! sc = Some scl →
  Client.monitor scl = sm →
  lists_ok fuel s sm →
  stack_list fuel s sm = Some (sc :: rest) →
  Client.tags scl ≠ 0 →
  Z.land (Z.lxor (Client.tags scl) (Z.land ui (TAGMASK cfg))) (curtags smon)
    ≠ 0 →
  ∃ s1 s2,
    toggletag cfg fuel ui s = Some s1
    ∧ Client.tags <$> cs s1 !! sc
      = Some (Z.lxor (Client.tags scl) (Z.land ui (TAGMASK cfg)))
    ∧ toggletag cfg fuel ui s1 = Some s2
    ∧ (∀ c, Client.tags <$> cs s2 !! c = Client.tags <$> cs s !! c).
Proof.
  intros W Hsm Hm Hsel Hc Hmc L Hls Hnz Hin.
  set (t1 := Z.lxor (Client.tags scl) (Z.land ui (TAGMASK cfg))) in *.
  assert (t1 ≠ 0) as Ht1 by (intros E; by rewrite E in Hin).
  destruct (retag_ok fuel s sm t1 sc scl (sc :: rest) W Hsm Hc L Hls)
    as (s1 & Hr1 & Hsm1 & L1 & W1 & Htag1 & Ho1 & Hcur1 & Hs1).
  assert (toggletag cfg fuel ui s = Some s1) as Hg1.
  { unfold toggletag. rewrite Hsm. cbn [mbind option_bind]. rewrite Hm.
    cbn [mbind option_bind]. rewrite Hsel, Hc. cbn [mbind option_bind].
    cbv zeta. fold t1. by rewrite (proj2 (Z.eqb_neq _ _) Ht1). }
  (* the client is still the selected one *)
  assert (Monitor.selectedClient <$> ms s1 !! sm = Some (Some sc)) as Hsel1.
  { rewrite Hs1. f_equal. cbn [find].
    assert (is_visible (set_cs (<[sc := Client.set_tags t1 scl]> (cs s)) s) sc
            = true) as ->; [|done].
    unfold is_visible, ISVISIBLE. simpl. rewrite lookup_insert_eq.
    replace (Client.monitor (Client.set_tags t1 scl)) with sm
      by (by destruct scl).
    rewrite Hm. simpl. unfold ISVISIBLEONTAG.
    replace (Client.tags (Client.set_tags t1 scl)) with t1
      by (by destruct scl).
    by rewrite (proj2 (Z.eqb_neq _ _) Hin). }
  destruct (ms s1 !! sm) as [smon1|] eqn:Hm1; [|done].
  simpl in Hsel1. apply (inj Some) in Hsel1.
  destruct (cs s1 !! sc) as [scl1|] eqn:Hc1; [|done].
  simpl in Htag1. apply (inj Some) in Htag1.
  destruct (lists_ok_stack _ _ _ L1) as [ls1 Hls1].
  assert (Z.lxor t1 (Z.land ui (TAGMASK cfg)) = Client.tags scl) as Hback.
  { subst t1. rewrite Z.lxor_assoc, Z.lxor_nilpotent. apply Z.lxor_0_r. }
  destruct (retag_ok fuel s1 sm (Client.tags scl) sc scl1 ls1 W1 Hsm1 Hc1 L1
              Hls1)
    as (s2 & Hr2 & _ & _ & _ & Htag2 & Ho2 & _ & _).
  exists s1, s2. split; [done|]. split; [rewrite Hc1; simpl; by rewrite Htag1|]. split.
  - unfold toggletag. rewrite Hsm1. cbn [mbind option_bind]. rewrite Hm1.
    cbn [mbind option_bind]. rewrite Hsel1, Hc1. cbn [mbind option_bind].
    cbv zeta. rewrite Htag1, Hback.
    by rewrite (proj2 (Z.eqb_neq _ _) Hnz).
  - intros c. destruct (decide (c = sc)) as [->|Hne].
    + by rewrite Htag2, Hc.
    + by rewrite Ho2, Ho1.
Qed.

End Retag.

Lemma tag_retags_selected_client_witness :
  ∃ s',
    tag config_def 8 2 two_tiled = Some s'
    ∧ Client.tags <$> cs s' !! 1%nat = Some (Z.land 2 (TAGMASK config_def))
    ∧ (∀ c, c ≠ 1%nat →
         Client.tags <$> cs s' !! c = Client.tags <$> cs two_tiled !! c)
    ∧ (Z.land (Z.land 2 (TAGMASK config_def))
         (curtags (plain_monitor layout_tile 1 1000 800
                     (Some 1%nat) (Some 1%nat) (Some 1%nat) None)) = 0 →
       Monitor.selectedClient <$> ms s' !! 0%nat ≠ Some (Some 1%nat)).
Proof.
  apply (tag_retags_selected_client config_def 8 2 two_tiled 0 1
           (plain_monitor layout_tile 1 1000 800
              (Some 1%nat) (Some 1%nat) (Some 1%nat) None)
           (plain_client 0 1 false 0 0 498 798 1 (Some 2%nat) (Some 2%nat))).
  - exact two_tiled_walks_end.
  - reflexivity.
  - vm_compute; reflexivity.
  - reflexivity.
  - vm_compute; reflexivity.
  - reflexivity.
  - exact two_tiled_lists_ok.
  - vm_compute. discriminate.
Defined.

Lemma toggletag_twice_restores_tags_witness :
  ∃ s1 s2,
    toggletag config_def 8 2 two_tiled = Some s1
    ∧ Client.tags <$> cs s1 !! 1%nat
      = Some (Z.lxor 1 (Z.land 2 (TAGMASK config_def)))
    ∧ toggletag config_def 8 2 s1 = Some s2
    ∧ (∀ c, Client.tags <$> cs s2 !! c = Client.tags <$> cs two_tiled !! c).
Proof.
  apply (toggletag_twice_restores_tags config_def 8 2 two_tiled 0 1
           (plain_monitor layout_tile 1 1000 800
              (Some 1%nat) (Some 1%nat) (Some 1%nat) None)
           (plain_client 0 1 false 0 0 498 798 1 (Some 2%nat) (Some 2%nat))
           [2%nat]).
  - exact two_tiled_walks_end.
  - reflexivity.
  - vm_compute; reflexivity.
  - reflexivity.
  - vm_compute; reflexivity.
  - reflexivity.
  - exact two_tiled_lists_ok.
  - vm_compute; reflexivity.
  - vm_compute. discriminate.
  - vm_compute. discriminate.
Defined.

(** * Commands that arrange the selected monitor *)

Lemma insert_monitor_lists_ok k s m0 mon mon' m :
  ms s !! m0 = Some mon →
  Monitor.clients mon' = Monitor.clients mon →
  Monitor.stack mon' = Monitor.stack mon →
  Monitor.selectedClient mon' = Monitor.selectedClient mon →
  lists_ok k s m → lists_ok k (set_ms (<[m0 := mon']> (ms s)) s) m.
Proof.
  intros Hm H1 H2 H3.
  apply lists_ok_kept.
  - split; [done|]. intros m'. simpl.
    destruct (decide (m' = m0)) as [->|Hne].
    + rewrite lookup_insert_eq, Hm. simpl. by rewrite H1.
    + by rewrite lookup_insert_ne.
  - split; [done|]. split; [|done]. intros m'. simpl.
    destruct (decide (m' = m0)) as [->|Hne].
    + rewrite lookup_insert_eq, Hm. simpl. by rewrite H2, H3.
    + by rewrite lookup_insert_ne.
  - done.
Qed.

Section ArrangeCommands.

Variable cfg : Config.t.

(** ** [arrange] *)

(** [arrange] of a monitor whose lists are in order returns. It changes
    nothing but the geometry of clients and the layout symbol of the
    monitor, and it leaves the clients of the monitor that are hidden or
    fullscreen as they are. *)
Theorem arrange_leaves_hidden_and_fullscreen (fuel : nat) (s : State)
    (m : nat) (mon : Monitor.t) :
  lists_ok fuel s m →
  ms s !! m = Some mon →
  ∃ s',
    arrange cfg fuel (Some m) s = Some s'
    ∧ geom_frame s s'
    ∧ ∀ c cl,
        cs s !! c = Some cl → Client.monitor cl = m →
        is_visible s c = false
        ∨ (Client.isFullscreen cl = true ∧ Client.isFloating cl = true) →
        cs s' !! c = Some cl.
Proof.
  intros L Hm.
  destruct (arrange_ok cfg fuel m s mon L Hm) as (s' & Ha & G & Hkeep).
  exists s'. split; [done|]. split; [done|].
  intros c cl Hc Hmc Hcase.
  assert (ISVISIBLE s cl = Some (ISVISIBLEONTAG cl (curtags mon))) as Hv.
  { unfold ISVISIBLE. by rewrite Hmc, Hm. }
  assert (is_visible s c = ISVISIBLEONTAG cl (curtags mon)) as Hv'.
  { unfold is_visible. by rewrite Hc, Hv. }
  apply Hkeep; [done| |].
  - unfold is_tiled. rewrite Hc, Hv. simpl. destruct Hcase as [Hh|[_ Hfl]].
    + rewrite <- Hv', Hh. apply andb_false_r.
    + by rewrite Hfl.
  - left. unfold shown_resize. destruct Hcase as [Hh|[Hfs _]].
    + by rewrite <- Hv', Hh.
    + rewrite Hfs. simpl. apply andb_false_r.
Qed.

(** ** [incnmaster] *)

Lemma incnmaster_spec fuel i s sm smon :
  selectedMonitor s = Some sm → ms s !! sm = Some smon →
  lists_ok fuel s sm →
  ∃ s' smon',
    incnmaster cfg fuel i s = Some s'
    ∧ selectedMonitor s' = Some sm
    ∧ lists_ok fuel s' sm
    ∧ ms s' !! sm = Some smon'
    ∧ Monitor.nMaster smon' = MAX (Monitor.nMaster smon + i) 0
    ∧ Client.erase_geom <$> cs s' = Client.erase_geom <$> cs s.
Proof.
  intros Hsm Hm L.
  unfold incnmaster. rewrite Hsm. cbn [mbind option_bind].
  set (f := λ m, Monitor.set_nMaster (MAX (Monitor.nMaster m + i) 0) m).
  rewrite (updm_Some sm f s smon Hm). cbn [mbind option_bind].
  set (sa := set_ms (<[sm := f smon]> (ms s)) s).
  assert (lists_ok fuel sa sm) as La.
  { eapply (updm_lists_ok fuel sm f s sa); [done..| |done].
    by apply updm_Some. }
  assert (ms sa !! sm = Some (f smon)) as Hma
    by (subst sa; simpl; by rewrite lookup_insert_eq).
  change (selectedMonitor sa) with (selectedMonitor s). rewrite Hsm.
  destruct (arrange_ok cfg fuel sm sa (f smon) La Hma) as (s' & Ha & G & _).
  destruct (geom_frame_monitor_inv sa s' sm (f smon) G Hma)
    as (smon' & Hm' & E).
  exists s', smon'. split; [done|]. split.
  { destruct G as (_ & _ & _ & -> & _). done. }
  split; [by eapply geom_frame_lists_ok|]. split; [done|]. split.
  - transitivity (Monitor.nMaster (f smon));
      [exact (f_equal Monitor.nMaster E)|by destruct smon].
  - by destruct G as (-> & _).
Qed.

(** [incnmaster] never leaves a negative number of masters, and taking
    back an increment that did not run into that bound restores the
    number; both calls return and change no client beyond its
    geometry. *)
Theorem incnmaster_back_and_forth (fuel : nat) (i : Z) (s : State) (sm : nat)
    (smon : Monitor.t) :
  selectedMonitor s = Some sm →
  ms s !! sm = Some smon →
  lists_ok fuel s sm →
  ∃ s1 s2 smon1 smon2,
    incnmaster cfg fuel i s = Some s1
    ∧ ms s1 !! sm = Some smon1
    ∧ 0 ≤ Monitor.nMaster smon1
    ∧ incnmaster cfg fuel (- i) s1 = Some s2
    ∧ ms s2 !! sm = Some smon2
    ∧ (0 ≤ Monitor.nMaster smon + i → 0 ≤ Monitor.nMaster smon →
       Monitor.nMaster smon2 = Monitor.nMaster smon)
    ∧ Client.erase_geom <$> cs s2 = Client.erase_geom <$> cs s.
Proof.
  intros Hsm Hm L.
  destruct (incnmaster_spec fuel i s sm smon Hsm Hm L)
    as (s1 & smon1 & H1 & Hsm1 & L1 & Hm1 & Hn1 & Hc1).
  destruct (incnmaster_spec fuel (- i) s1 sm smon1 Hsm1 Hm1 L1)
    as (s2 & smon2 & H2 & Hsm2 & L2 & Hm2 & Hn2 & Hc2).
  exists s1, s2, smon1, smon2. repeat (split; [done|]).
  rewrite MAX_max in Hn1, Hn2.
  split; [lia|]. split; [done|]. split; [done|]. split; [lia|].
  by rewrite Hc2.
Qed.

(** ** [setlayout] *)

Lemma setlayout_spec fuel v s sm smon :
  selectedMonitor s = Some sm → ms s !! sm = Some smon →
  lists_ok fuel s sm →
  ∃ s' smon',
    setlayout cfg fuel v s = Some s'
    ∧ selectedMonitor s' = Some sm
    ∧ lists_ok fuel s' sm
    ∧ ms s' !! sm = Some smon'
    ∧ Monitor.selectedLayout smon'
      = (if bool_decide (v = Some (curlayout smon))
         then Monitor.selectedLayout smon
         else Z.lxor (Monitor.selectedLayout smon) 1)
    ∧ Monitor.layouts smon'
      = (match v with
         | Some l => set_slot (Monitor.selectedLayout smon') l
                       (Monitor.layouts smon)
         | None => Monitor.layouts smon
         end)
    ∧ Client.erase_geom <$> cs s' = Client.erase_geom <$> cs s.
Proof.
  intros Hsm Hm L.
  unfold setlayout. rewrite Hsm. cbn [mbind option_bind]. rewrite Hm.
  cbn [mbind option_bind]. cbv zeta.
  set (m1 := if bool_decide (v = Some (curlayout smon)) then smon
             else Monitor.set_selectedLayout
                    (Z.lxor (Monitor.selectedLayout smon) 1) smon).
  set (m2 := match v with
             | Some l =>
                 Monitor.set_layouts
                   (set_slot (Monitor.selectedLayout m1) l
                      (Monitor.layouts m1)) m1
             | None => m1
             end).
  set (m3 := Monitor.set_layoutSymbol (symbol (curlayout m2)) m2).
  set (sa := set_ms (<[sm := m3]> (ms s)) s).
  assert (Monitor.selectedLayout m1
          = (if bool_decide (v = Some (curlayout smon))
             then Monitor.selectedLayout smon
             else Z.lxor (Monitor.selectedLayout smon) 1)
          ∧ Monitor.layouts m1 = Monitor.layouts smon
          ∧ Monitor.clients m1 = Monitor.clients smon
          ∧ Monitor.stack m1 = Monitor.stack smon
          ∧ Monitor.selectedClient m1 = Monitor.selectedClient smon)
    as (E1 & E2 & E3 & E4 & E5).
  { subst m1. case_bool_decide; [done|]. by destruct smon. }
  assert (Monitor.selectedLayout m2 = Monitor.selectedLayout m1
          ∧ Monitor.layouts m2
            = (match v with
               | Some l => set_slot (Monitor.selectedLayout m1) l
                             (Monitor.layouts m1)
               | None => Monitor.layouts m1
               end)
          ∧ Monitor.clients m2 = Monitor.clients m1
          ∧ Monitor.stack m2 = Monitor.stack m1
          ∧ Monitor.selectedClient m2 = Monitor.selectedClient m1)
    as (E6 & E7 & E8 & E9 & E10).
  { subst m2. destruct v; [|done]. by destruct m1. }
  assert (Monitor.selectedLayout m3 = Monitor.selectedLayout m2
          ∧ Monitor.layouts m3 = Monitor.layouts m2
          ∧ Monitor.clients m3 = Monitor.clients m2
          ∧ Monitor.stack m3 = Monitor.stack m2
          ∧ Monitor.selectedClient m3 = Monitor.selectedClient m2
          ∧ Monitor.layoutSymbol m3 = symbol (curlayout m3))
    as (E11 & E12 & E13 & E14 & E15 & E16).
  { subst m3. by destruct m2. }
  clearbody m3. clearbody m2. clearbody m1.
  assert (lists_ok fuel sa sm) as La.
  { apply (insert_monitor_lists_ok fuel s sm smon m3 sm Hm); [| | |done];
      congruence. }
  assert (ms sa !! sm = Some m3) as Hma
    by (subst sa; simpl; by rewrite lookup_insert_eq).
  (* with or without a selected client *)
  assert (∃ s', (match Monitor.selectedClient m3 with
                 | Some _ => arrange cfg fuel (Some sm) sa
                 | None => Some sa
                 end) = Some s'
                ∧ geom_frame sa s')
    as (s' & -> & G).
  { destruct (Monitor.selectedClient m3).
    - destruct (arrange_ok cfg fuel sm sa m3 La Hma) as (s' & Ha & G & _).
      by exists s'.
    - exists sa. split; [done|]. apply geom_frame_refl. }
  destruct (geom_frame_monitor_inv sa s' sm m3 G Hma) as (smon' & Hm' & E).
  pose proof (f_equal Monitor.selectedLayout E) as Es. simpl in Es.
  pose proof (f_equal Monitor.layouts E) as El. simpl in El.
  exists s', smon'. split; [done|]. split.
  { destruct G as (_ & _ & _ & -> & _). done. }
  split; [by eapply geom_frame_lists_ok|]. split; [done|].
  split; [congruence|]. split.
  { rewrite El, E12, E7, E2, Es, E11, E6. done. }
  by destruct G as (-> & _).
Qed.

(** [setlayout] with a layout makes it the layout of the selected monitor,
    and [setlayout] with none afterwards returns to the layout the monitor
    had before, when the two differ; both calls return and change no
    client beyond its geometry. *)
Theorem setlayout_none_returns_to_previous_layout (fuel : nat) (l : Layout)
    (s : State) (sm : nat) (smon : Monitor.t) :
  selectedMonitor s = Some sm →
  ms s !! sm = Some smon →
  lists_ok fuel s sm →
  Monitor.selectedLayout smon = 0 ∨ Monitor.selectedLayout smon = 1 →
  ∃ s1 s2 smon1 smon2,
    setlayout cfg fuel (Some l) s = Some s1
    ∧ ms s1 !! sm = Some smon1
    ∧ curlayout smon1 = l
    ∧ setlayout cfg fuel None s1 = Some s2
    ∧ ms s2 !! sm = Some smon2
    ∧ (l ≠ curlayout smon → curlayout smon2 = curlayout smon)
    ∧ Client.erase_geom <$> cs s2 = Client.erase_geom <$> cs s.
Proof.
  intros Hsm Hm L Hsel.
  destruct (setlayout_spec fuel (Some l) s sm smon Hsm Hm L)
    as (s1 & smon1 & H1 & Hsm1 & L1 & Hm1 & Hs1 & Hl1 & Hc1).
  destruct (setlayout_spec fuel None s1 sm smon1 Hsm1 Hm1 L1)
    as (s2 & smon2 & H2 & Hsm2 & L2 & Hm2 & Hs2 & Hl2 & Hc2).
  rewrite bool_decide_eq_false_2 in Hs2 by done.
  assert (curlayout smon1 = l) as Hcur1.
  { unfold curlayout. rewrite Hl1. unfold slot, set_slot.
    by destruct (Monitor.selectedLayout smon1 =? 0). }
  exists s1, s2, smon1, smon2. repeat (split; [done|]).
  split; [|by rewrite Hc2].
  intros Hne. unfold curlayout. rewrite Hs2, Hl2, Hl1, Hs1.
  rewrite bool_decide_eq_false_2 by congruence.
  unfold slot, set_slot. destruct Hsel as [-> | ->]; reflexivity.
Qed.

End ArrangeCommands.

Lemma three_stacked_lists_ok tags3 : lists_ok 8 (three_stacked tags3) 0.
Proof.
  eapply (lists_ok_intro 8 (three_stacked tags3) 0 _
            [2%nat; 1%nat; 3%nat] [3%nat; 1%nat; 2%nat]);
    vm_compute; reflexivity || done.
Defined.

Lemma arrange_leaves_hidden_and_fullscreen_witness :
  let s := three_stacked 2 in
  ∃ s',
    arrange config_def 8 (Some 0%nat) s = Some s'
    ∧ geom_frame s s'
    ∧ ∀ c cl,
        cs s !! c = Some cl → Client.monitor cl = 0%nat →
        is_visible s c = false
        ∨ (Client.isFullscreen cl = true ∧ Client.isFloating cl = true) →
        cs s' !! c = Some cl.
Proof.
  intros s.
  apply (arrange_leaves_hidden_and_fullscreen config_def 8 s 0
           (plain_monitor layout_tile 1 1000 800
              (Some 2%nat) (Some 3%nat) (Some 3%nat) None)).
  - exact (three_stacked_lists_ok 2).
  - vm_compute; reflexivity.
Defined.

Lemma incnmaster_back_and_forth_witness :
  let smon := plain_monitor layout_tile 1 1000 800
                (Some 1%nat) (Some 1%nat) (Some 1%nat) None in
  ∃ s1 s2 smon1 smon2,
    incnmaster config_def 8 (-3) two_tiled = Some s1
    ∧ ms s1 !! 0%nat = Some smon1
    ∧ 0 ≤ Monitor.nMaster smon1
    ∧ incnmaster config_def 8 (- -3) s1 = Some s2
    ∧ ms s2 !! 0%nat = Some smon2
    ∧ (0 ≤ Monitor.nMaster smon + -3 → 0 ≤ Monitor.nMaster smon →
       Monitor.nMaster smon2 = Monitor.nMaster smon)
    ∧ Client.erase_geom <$> cs s2 = Client.erase_geom <$> cs two_tiled.
Proof.
  intros smon.
  apply (incnmaster_back_and_forth config_def 8 (-3) two_tiled 0 smon).
  - reflexivity.
  - vm_compute; reflexivity.
  - exact two_tiled_lists_ok.
Defined.

(** Three masters are taken from one, which leaves none, and given back:
    the monitor ends with three. *)
Example incnmaster_stops_at_zero :
  (s1 ← incnmaster config_def 8 (-3) two_tiled;
   s2 ← incnmaster config_def 8 3 s1;
   m1 ← ms s1 !! 0%nat; m2 ← ms s2 !! 0%nat;
   Some (Monitor.nMaster m1, Monitor.nMaster m2)) = Some (0, 3).
Proof. vm_compute. reflexivity. Qed.

Lemma setlayout_none_returns_to_previous_layout_witness :
  let smon := plain_monitor layout_tile 1 1000 800
                (Some 1%nat) (Some 1%nat) (Some 1%nat) None in
  ∃ s1 s2 smon1 smon2,
    setlayout config_def 8 (Some layout_monocle) two_tiled = Some s1
    ∧ ms s1 !! 0%nat = Some smon1
    ∧ curlayout smon1 = layout_monocle
    ∧ setlayout config_def 8 None s1 = Some s2
    ∧ ms s2 !! 0%nat = Some smon2
    ∧ (layout_monocle ≠ curlayout smon → curlayout smon2 = curlayout smon)
    ∧ Client.erase_geom <$> cs s2 = Client.erase_geom <$> cs two_tiled.
Proof.
  intros smon.
  apply (setlayout_none_returns_to_previous_layout config_def 8 layout_monocle
           two_tiled 0 smon).
  - reflexivity.
  - vm_compute; reflexivity.
  - exact two_tiled_lists_ok.
  - left. reflexivity.
Defined.

(** * Clients that leave or move up *)

(** ** Monitors out of reach *)

(** What is written to clients of one monitor does not reach the lists of
    another. *)
Lemma lists_ok_off k s s' m m' touched :
  m' ≠ m →
  on_monitor s m touched →
  (∀ c', c' ∉ touched → cs s' !! c' = cs s !! c') →
  ms s' !! m' = ms s !! m' →
  lists_ok k s m' → lists_ok k s' m'.
Proof.
  intros Hne Hon Hcs Hms (mon & lc & ls & Hm & Hl & Honl & Hs & Hons & Hlen).
  assert (∀ l c', on_monitor s m' l → c' ∈ l → cs s' !! c' = cs s !! c')
    as Hsame.
  { intros l c' Hl' Hin. apply Hcs. intros Ht.
    unfold on_monitor in Hl', Hon. rewrite Forall_forall in Hl', Hon.
    destruct (Hl' c' Hin) as (a & Ha & Hma).
    destruct (Hon c' Ht) as (b & Hb & Hmb). congruence. }
  assert (∀ l, on_monitor s m' l → on_monitor s' m' l) as Hkeep.
  { intros l Hl'. unfold on_monitor in *. rewrite Forall_forall in *.
    intros c' Hin. rewrite (Hsame l c'); [by apply Hl'| |done].
    unfold on_monitor. by rewrite Forall_forall. }
  exists mon, lc, ls. rewrite Hms. split; [done|].
  unfold client_list, stack_list in *. rewrite Hms.
  rewrite Hm in Hl, Hs. rewrite Hm. simpl in *.
  split; [|split; [by apply Hkeep|split; [|split; [by apply Hkeep|done]]]].
  - eapply chain_list_ext; [|exact Hl]. intros c' Hin.
    by rewrite (Hsame lc c').
  - eapply chain_list_ext; [|exact Hs]. intros c' Hin.
    by rewrite (Hsame ls c').
Qed.

Lemma on_monitor_app s m l1 l2 :
  on_monitor s m (l1 ++ l2) ↔ on_monitor s m l1 ∧ on_monitor s m l2.
Proof. unfold on_monitor. apply Forall_app. Qed.

Lemma on_monitor_cons s m c l :
  on_monitor s m (c :: l)
  ↔ (∃ cl, cs s !! c = Some cl ∧ Client.monitor cl = m) ∧ on_monitor s m l.
Proof. unfold on_monitor. by rewrite Forall_cons. Qed.

Lemma link_frame_domain s s' c :
  link_frame s s' → cs s !! c = None → cs s' !! c = None.
Proof.
  intros (Hc & _) H.
  assert ((Client.erase_links <$> cs s') !! c
          = (Client.erase_links <$> cs s) !! c) as E by (by rewrite Hc).
  rewrite !lookup_fmap, H in E. by destruct (cs s' !! c).
Qed.

Lemma detach_selectedMonitor fuel c s s' :
  detach fuel c s = Some s' → selectedMonitor s' = selectedMonitor s.
Proof.
  intros H. by destruct (detach_keeps_stacks _ _ _ _ H) as (_ & _ & ?).
Qed.

Lemma attach_selectedMonitor c s s' :
  attach c s = Some s' → selectedMonitor s' = selectedMonitor s.
Proof.
  intros H. by destruct (attach_keeps_stacks _ _ _ H) as (_ & _ & ?).
Qed.

(** Writes to clients that reside elsewhere do not reach the lists of a
    monitor. *)
Lemma lists_ok_untouched k s s' m' (touched : list nat) :
  Forall (λ c, ∀ cl, cs s !! c = Some cl → Client.monitor cl ≠ m') touched →
  (∀ c', c' ∉ touched → cs s' !! c' = cs s !! c') →
  ms s' !! m' = ms s !! m' →
  lists_ok k s m' → lists_ok k s' m'.
Proof.
  intros Ht Hcs Hms (mon & lc & ls & Hm & Hl & Honl & Hs & Hons & Hlen).
  assert (∀ l c', on_monitor s m' l → c' ∈ l → cs s' !! c' = cs s !! c')
    as Hsame.
  { intros l c' Hl' Hin. apply Hcs. intros Hct.
    unfold on_monitor in Hl'. rewrite Forall_forall in Hl', Ht.
    destruct (Hl' c' Hin) as (a & Ha & Hma).
    by apply (Ht c' Hct a Ha). }
  assert (∀ l, on_monitor s m' l → on_monitor s' m' l) as Hkeep.
  { intros l Hl'. unfold on_monitor in *. rewrite Forall_forall in *.
    intros c' Hin. rewrite (Hsame l c'); [by apply Hl'| |done].
    unfold on_monitor. by rewrite Forall_forall. }
  exists mon, lc, ls. rewrite Hms. split; [done|].
  unfold client_list, stack_list in *. rewrite Hms.
  rewrite Hm in Hl, Hs. rewrite Hm. simpl in *.
  split; [|split; [by apply Hkeep|split; [|split; [by apply Hkeep|done]]]].
  - eapply chain_list_ext; [|exact Hl]. intros c' Hin.
    by rewrite (Hsame lc c').
  - eapply chain_list_ext; [|exact Hs]. intros c' Hin.
    by rewrite (Hsame ls c').
Qed.

Lemma on_monitor_elem s m l c :
  on_monitor s m l → c ∈ l → ∃ cl, cs s !! c = Some cl ∧ Client.monitor cl = m.
Proof.
  unfold on_monitor. rewrite Forall_forall. intros H Hin. by apply H.
Qed.

Lemma chain_off k s s' nx p l :
  (∀ c', c' ∈ l → cs s' !! c' = cs s !! c') →
  chain_list nx k (cs s) p = Some l → chain_list nx k (cs s') p = Some l.
Proof.
  intros H. apply chain_list_ext. intros c' Hin. by rewrite H.
Qed.

Lemma on_monitor_off s s' m l :
  (∀ c', c' ∈ l → cs s' !! c' = cs s !! c') →
  on_monitor s m l → on_monitor s' m l.
Proof.
  intros H Hon. unfold on_monitor in *. rewrite Forall_forall in *.
  intros c' Hin. rewrite H by done. by apply Hon.
Qed.

Lemma client_list_off k s s' m l :
  ms s' !! m = ms s !! m →
  (∀ c', c' ∈ l → cs s' !! c' = cs s !! c') →
  client_list k s m = Some l → client_list k s' m = Some l.
Proof.
  intros Hm Hcs H. unfold client_list in *. rewrite Hm.
  destruct (ms s !! m); [|done]. simpl in *. by eapply chain_off.
Qed.

Lemma stack_list_off k s s' m l :
  ms s' !! m = ms s !! m →
  (∀ c', c' ∈ l → cs s' !! c' = cs s !! c') →
  stack_list k s m = Some l → stack_list k s' m = Some l.
Proof.
  intros Hm Hcs H. unfold stack_list in *. rewrite Hm.
  destruct (ms s !! m); [|done]. simpl in *. by eapply chain_off.
Qed.

Lemma client_list_NoDup k s m l : client_list k s m = Some l → NoDup l.
Proof.
  unfold client_list. intros H. apply bind_Some in H as (mon & _ & H).
  by eapply chain_list_NoDup.
Qed.

Lemma stack_list_NoDup k s m l : stack_list k s m = Some l → NoDup l.
Proof.
  unfold stack_list. intros H. apply bind_Some in H as (mon & _ & H).
  by eapply chain_list_NoDup.
Qed.

Lemma attach_off c s s' cl :
  cs s !! c = Some cl → attach c s = Some s' →
  (∀ c', c' ≠ c → cs s' !! c' = cs s !! c')
  ∧ (∀ m', m' ≠ Client.monitor cl → ms s' !! m' = ms s !! m').
Proof.
  intros Hc H. unfold attach in H. rewrite Hc in H.
  cbn [mbind option_bind] in H.
  apply bind_Some in H as (mon & Hm & H).
  apply bind_Some in H as (s1 & H1 & H).
  unfold updc in H1. rewrite Hc in H1. apply (inj Some) in H1. subst s1.
  unfold updm in H. cbn [ms set_cs] in H. rewrite Hm in H.
  apply (inj Some) in H. subst s'. split.
  - intros c' Hne. cbn [cs set_ms set_cs]. by rewrite lookup_insert_ne.
  - intros m' Hne. cbn [ms set_ms set_cs]. by rewrite lookup_insert_ne.
Qed.

Section Leaving.

Variable cfg : Config.t.

(** ** [unmanage] *)

(** [unmanage] of a client that is in the client list and in the focus
    stack of its monitor returns when the monitor list ends and the lists
    of every monitor, of that of the client and of the selected one are
    in order. The client is freed, the client list of its monitor loses
    it and keeps the order of the others, the focus stack holds the
    others, and both lists are in order again: no link is left that leads
    to the freed client. *)
Theorem unmanage_unlinks_client (fuel : nat) (s : State) (sm c : nat)
    (cl : Client.t) (lmn l1 l2 k1 k2 : list nat) :
  monitor_list fuel (ms s) (monitors s) = Some lmn →
  Forall (lists_ok fuel s) lmn →
  selectedMonitor s = Some sm →
  lists_ok fuel s sm →
  cs s !! c = Some cl →
  lists_ok fuel s (Client.monitor cl) →
  client_list fuel s (Client.monitor cl) = Some (l1 ++ c :: l2) →
  stack_list fuel s (Client.monitor cl) = Some (k1 ++ c :: k2) →
  ∃ s' ks,
    unmanage cfg fuel c s = Some s'
    ∧ cs s' !! c = None
    ∧ client_list fuel s' (Client.monitor cl) = Some (l1 ++ l2)
    ∧ stack_list fuel s' (Client.monitor cl) = Some ks
    ∧ ks ≡ₚ k1 ++ k2
    ∧ lists_ok fuel s' (Client.monitor cl).
Proof.
  intros Hmn Hall Hsm Lsm Hc L Hl Hs.
  set (m := Client.monitor cl) in *.
  pose proof L as (mon & lc & ls & Hm & Hl' & Honl & Hs' & Hons & Hlen).
  rewrite Hl in Hl'. rewrite Hs in Hs'. simplify_eq.
  assert (NoDup (l1 ++ c :: l2)) as Hndl.
  { unfold client_list in Hl. rewrite Hm in Hl. simpl in Hl.
    by eapply chain_list_NoDup. }
  assert (NoDup (k1 ++ c :: k2)) as Hnds.
  { unfold stack_list in Hs. rewrite Hm in Hs. simpl in Hs.
    by eapply chain_list_NoDup. }
  assert ((c ∉ l1) ∧ (c ∉ l2) ∧ (c ∉ k1) ∧ (c ∉ k2))
    as (Hcl1 & Hcl2 & Hck1 & Hck2).
  { apply NoDup_app in Hndl as (_ & Hd1 & Hnd1).
    apply NoDup_cons in Hnd1 as [? _].
    apply NoDup_app in Hnds as (_ & Hd2 & Hnd2).
    apply NoDup_cons in Hnd2 as [? _].
    repeat split; try done.
    - intros Hin. apply (Hd1 c Hin). left.
    - intros Hin. apply (Hd2 c Hin). left. }
  apply on_monitor_app in Honl as [Honl1 Honl2].
  apply on_monitor_cons in Honl2 as [_ Honl2].
  (* [detach] *)
  destruct (detach_spec fuel s m mon c cl l1 l2 Hm Hc eq_refl Hl)
    as (s1 & Hd & Hl1 & Hcs1 & Hms1 & Hst1).
  pose proof (detach_link_frame _ _ _ _ Hd) as F1.
  assert (cs s1 !! c = Some cl) as Hc1 by (by rewrite Hcs1).
  assert (∃ mon1, ms s1 !! m = Some mon1) as [mon1 Hm1].
  { unfold client_list in Hl1. apply bind_Some in Hl1 as (? & ? & _). eauto. }
  assert (on_monitor s1 m (k1 ++ c :: k2)) as Hons1
    by (by eapply link_frame_on_monitor).
  (* [detachStack] *)
  destruct (detachStack_spec fuel s1 m mon1 c cl k1 k2 Hm1 Hc1 eq_refl)
    as (s2 & mon2 & Hd2 & Hm2 & Hch2 & _ & Hcs2 & Hms2); [|done|].
  { pose proof (Hst1 fuel m) as E. rewrite Hs in E.
    unfold stack_list in E. rewrite Hm1 in E. done. }
  pose proof (detachStack_link_frame _ _ _ _ Hd2) as F2.
  pose proof (detachStack_keeps_client_lists _ _ _ _ Hd2) as K2.
  assert (client_list fuel s2 m = Some (l1 ++ l2)) as Hl2
    by (by rewrite (keeps_client_lists_read _ _ _ _ K2)).
  assert (stack_list fuel s2 m = Some (k1 ++ k2)) as Hs2
    by (unfold stack_list; by rewrite Hm2).
  assert (link_frame s s2) as F02 by (by eapply link_frame_trans).
  (* [free] *)
  set (s3 := set_cs (delete c (cs s2)) s2).
  assert (∀ l, c ∉ l → on_monitor s m l → on_monitor s3 m l) as Hon3.
  { intros l Hn Hon. apply (link_frame_on_monitor _ _ _ _ F02) in Hon.
    unfold on_monitor in *. rewrite Forall_forall in *.
    intros c' Hin. destruct (Hon c' Hin) as (a & Ha & Hma).
    exists a. split; [|done]. subst s3. simpl.
    rewrite lookup_delete_ne; [done|]. by intros ->. }
  assert (c ∉ l1 ++ l2) as Hcl by (rewrite elem_of_app; tauto).
  assert (c ∉ k1 ++ k2) as Hck by (rewrite elem_of_app; tauto).
  assert (client_list fuel s3 m = Some (l1 ++ l2)) as Hl3.
  { unfold client_list in *. change (ms s3) with (ms s2).
    rewrite Hm2 in Hl2. rewrite Hm2. simpl in *.
    eapply chain_list_ext; [|exact Hl2]. intros c' Hin. subst s3. simpl.
    rewrite lookup_delete_ne; [done|]. by intros ->. }
  assert (stack_list fuel s3 m = Some (k1 ++ k2)) as Hs3.
  { unfold stack_list in *. change (ms s3) with (ms s2).
    rewrite Hm2 in Hs2. rewrite Hm2. simpl in *.
    eapply chain_list_ext; [|exact Hs2]. intros c' Hin. subst s3. simpl.
    rewrite lookup_delete_ne; [done|]. by intros ->. }
  assert (on_monitor s3 m (k1 ++ k2)) as Hons3.
  { apply Hon3; [done|]. apply on_monitor_app in Hons as [H1 H2].
    apply on_monitor_cons in H2 as [_ H2]. apply on_monitor_app. done. }
  assert (lists_ok fuel s3 m) as L3.
  { exists mon2, (l1 ++ l2), (k1 ++ k2). repeat (split; [done|]).
    split; [|split; [done|split; [done|]]].
    - apply Hon3; [done|]. apply on_monitor_app. done.
    - rewrite length_app in *. simpl in Hlen. lia. }
  assert (∀ m', lists_ok fuel s m' → lists_ok fuel s3 m') as Lall3.
  { intros m' L'. destruct (decide (m' = m)) as [->|Hne]; [done|].
    assert (lists_ok fuel s1 m') as L1.
    { eapply (lists_ok_off fuel s s1 m m' l1); try done. by apply Hms1. }
    assert (lists_ok fuel s2 m') as L2.
    { eapply (lists_ok_off fuel s1 s2 m m' k1); try done.
      - apply on_monitor_app in Hons1 as [H1 _]. done.
      - by apply Hms2. }
    eapply (lists_ok_off fuel s2 s3 m m' [c]); try done.
    - apply on_monitor_cons. split; [|constructor].
      exists cl. split; [|done]. rewrite Hcs2; done.
    - intros c' Hn. subst s3. simpl. rewrite lookup_delete_ne; [done|].
      intros ->. apply Hn. left. }
  pose proof (Lall3 sm Lsm) as L3sm.
  assert (walks_end fuel s3) as W3.
  { apply (lists_ok_walks_end fuel s3 lmn).
    - change (monitor_list fuel (ms s2) (monitors s2) = Some lmn).
      by rewrite (link_frame_monitor_list _ _ _ F02).
    - eapply Forall_impl; [exact Hall|]. apply Lall3. }
  assert (selectedMonitor s3 = Some sm) as Hsm3.
  { change (selectedMonitor s3) with (selectedMonitor s2).
    by rewrite (detachStack_selectedMonitor _ _ _ _ Hd2),
      (detach_selectedMonitor _ _ _ _ Hd). }
  (* [focus] and [arrange] *)
  pose proof L3sm as (monsm & lcsm & lsm & _ & _ & _ & Hlsm & Honsm & _).
  destruct (focus_returns fuel s3 sm None lsm W3 Hsm3 Hlsm Honsm I)
    as (s4 & Hf & F4 & K4 & L4 & Hst4 & _).
  pose proof (focus_walks_end _ _ _ _ Hf W3) as W4.
  pose proof (L4 m L3) as L4m.
  pose proof L4m as (mon4 & _ & _ & Hm4 & _).
  destruct (arrange_ok cfg fuel m s4 mon4 L4m Hm4) as (s' & Ha & G & _).
  destruct (Hst4 m _ Hs3 Hons3) as (ks & Hks & Hp).
  exists s', ks. split.
  { unfold unmanage. rewrite Hc. cbn [mbind option_bind]. rewrite Hd.
    cbn [mbind option_bind]. rewrite Hd2. cbn [mbind option_bind].
    fold s3. rewrite Hf. cbn [mbind option_bind].
    rewrite (updateclientlist_ok fuel s4 W4). cbn [mbind option_bind].
    exact Ha. }
  split.
  { eapply link_frame_domain; [by apply geom_frame_link_frame|].
    eapply link_frame_domain; [exact F4|].
    subst s3. simpl. apply lookup_delete_eq. }
  split.
  { rewrite (geom_frame_client_list s4 s' G).
    by rewrite (keeps_client_lists_read _ _ _ _ K4). }
  split; [by rewrite (geom_frame_stack_list s4 s' G)|].
  split; [done|]. by eapply geom_frame_lists_ok.
Qed.

(** ** [pop] *)

Lemma pop_spec fuel s sm c cl lmn l1 l2 k1 k2 :
  monitor_list fuel (ms s) (monitors s) = Some lmn →
  Forall (lists_ok fuel s) lmn →
  selectedMonitor s = Some sm →
  is_Some (ms s !! sm) →
  cs s !! c = Some cl →
  is_visible s c = true →
  lists_ok fuel s (Client.monitor cl) →
  client_list fuel s (Client.monitor cl) = Some (l1 ++ c :: l2) →
  stack_list fuel s (Client.monitor cl) = Some (k1 ++ c :: k2) →
  ∃ s',
    pop cfg fuel c s = Some s'
    ∧ client_list fuel s' (Client.monitor cl) = Some (c :: l1 ++ l2)
    ∧ stack_list fuel s' (Client.monitor cl) = Some (c :: k1 ++ k2)
    ∧ selectedMonitor s' = Some (Client.monitor cl)
    ∧ Monitor.selectedClient <$> ms s' !! Client.monitor cl = Some (Some c)
    ∧ lists_ok fuel s' (Client.monitor cl).
Proof.
  intros Hmn Hall Hsm [smon Hsmon] Hc Hv L Hl Hs.
  set (m := Client.monitor cl) in *.
  pose proof L as (mon & lc & ls & Hm & Hl' & Honl & Hs' & Hons & Hlen).
  rewrite Hl in Hl'. rewrite Hs in Hs'. simplify_eq.
  assert (NoDup (l1 ++ c :: l2)) as Hndl.
  { unfold client_list in Hl. rewrite Hm in Hl. simpl in Hl.
    by eapply chain_list_NoDup. }
  assert ((c ∉ l1) ∧ (c ∉ l2)) as (Hcl1 & Hcl2).
  { apply NoDup_app in Hndl as (_ & Hd1 & Hnd1).
    apply NoDup_cons in Hnd1 as [? _]. split; [|done].
    intros Hin. apply (Hd1 c Hin). left. }
  assert ((length (l1 ++ c :: l2) ≤ fuel)%nat) as Hfuel.
  { unfold client_list in Hl. rewrite Hm in Hl. simpl in Hl.
    by eapply chain_list_length. }
  (* [detach] *)
  destruct (detach_spec fuel s m mon c cl l1 l2 Hm Hc eq_refl Hl)
    as (s1 & Hd & Hl1 & Hcs1 & Hms1 & Hst1).
  pose proof (detach_link_frame _ _ _ _ Hd) as F1.
  assert (cs s1 !! c = Some cl) as Hc1 by (by rewrite Hcs1).
  assert (∃ mon1, ms s1 !! m = Some mon1) as [mon1 Hm1].
  { unfold client_list in Hl1. apply bind_Some in Hl1 as (? & ? & _). eauto. }
  (* [attach] *)
  destruct (attach_spec fuel s1 m mon1 c cl (l1 ++ l2) Hm1 Hc1 eq_refl Hl1)
    as (s2 & Ha & Hl2 & Hst2); [rewrite elem_of_app; tauto|].
  pose proof (attach_link_frame _ _ _ Ha) as F2.
  assert (link_frame s s2) as F02 by (by eapply link_frame_trans).
  assert (client_list fuel s2 m = Some (c :: l1 ++ l2)) as Hl2'.
  { unfold client_list in Hl2. unfold client_list.
    destruct (ms s2 !! m) as [mon2|]; [|done].
    cbn [mbind option_bind] in *.
    eapply chain_list_refuel; [exact Hl2|].
    rewrite length_app in Hfuel. simpl in *. rewrite length_app. lia. }
  destruct (link_frame_client_inv _ _ _ _ F02 Hc) as (cl2 & Hc2 & E2).
  pose proof (f_equal Client.monitor E2) as Em2. simpl in Em2.
  assert (selectedMonitor s2 = Some sm) as Hsm2.
  { by rewrite (attach_selectedMonitor _ _ _ Ha),
      (detach_selectedMonitor _ _ _ _ Hd). }
  assert (is_Some (ms s2 !! sm)) as Hsmon2.
  { pose proof (link_frame_mon_proj s s2 (λ _, tt) sm F02 ltac:(done)) as E.
    rewrite Hsmon in E. by destruct (ms s2 !! sm). }
  (* the walks over every client end *)
  assert (lists_ok fuel s2 m) as L2m.
  { pose proof Hl2' as Hal. unfold client_list in Hal.
    apply bind_Some in Hal as (mon2 & Hm2 & _).
    exists mon2, (c :: l1 ++ l2), (k1 ++ c :: k2).
    split; [done|]. split; [done|].
    split; [|split; [by rewrite Hst2, Hst1|split]].
    - eapply link_frame_on_monitor; [exact F02|].
      unfold on_monitor in *. by rewrite Permutation_middle.
    - by eapply link_frame_on_monitor.
    - rewrite length_app in *. simpl in *. rewrite length_app. lia. }
  assert (walks_end fuel s2) as W2.
  { apply (lists_ok_walks_end fuel s2 lmn);
      [by rewrite (link_frame_monitor_list _ _ _ F02)|].
    eapply Forall_impl; [exact Hall|]. intros m' L'.
    destruct (decide (m' = m)) as [->|Hne]; [done|].
    destruct (attach_off c s1 s2 cl Hc1 Ha) as [Hcs2 Hms2].
    assert (lists_ok fuel s1 m') as L1'.
    { eapply (lists_ok_off fuel s s1 m m' l1); try done.
      - by apply on_monitor_app in Honl as [? _].
      - by apply Hms1. }
    eapply (lists_ok_off fuel s1 s2 m m' [c]); try done.
    - apply on_monitor_cons. split; [by eauto|constructor].
    - intros c' Hn. apply Hcs2. intros ->. apply Hn. left.
    - by apply Hms2. }
  (* [focus] *)
  destruct (focus_visible_spec fuel s2 sm c cl2 k1 k2 W2 Hsm2 Hsmon2 Hc2)
    as (s3 & Hf & Hsm3 & Hs3 & Hsel3 & _ & Hl3).
  { by rewrite (link_frame_visible _ _ _ F02). }
  { by rewrite Em2, Hst2, Hst1. }
  { rewrite Em2. by eapply link_frame_on_monitor. }
  rewrite Em2 in Hsm3, Hs3, Hsel3. fold m in Hsm3, Hs3, Hsel3.
  pose proof (focus_link_frame _ _ _ _ Hf) as F3.
  destruct (link_frame_client_inv _ _ _ _ F3 Hc2) as (cl3 & Hc3 & E3).
  pose proof (f_equal Client.monitor E3) as Em3. simpl in Em3.
  assert (link_frame s s3) as F03 by (by eapply link_frame_trans).
  (* [arrange] *)
  assert (lists_ok fuel s3 m) as L3.
  { pose proof Hs3 as Hal. unfold stack_list in Hal.
    apply bind_Some in Hal as (mon3 & Hm3 & _).
    exists mon3, (c :: l1 ++ l2), (c :: k1 ++ k2).
    split; [done|]. rewrite Hl3. split; [done|].
    split; [|split; [done|split]].
    - eapply link_frame_on_monitor; [exact F03|].
      unfold on_monitor in *. by rewrite Permutation_middle.
    - eapply link_frame_on_monitor; [exact F03|].
      unfold on_monitor in *. by rewrite Permutation_middle.
    - rewrite length_app in *. simpl in *. rewrite length_app. lia. }
  pose proof L3 as (mon3 & _ & _ & Hm3 & _).
  destruct (arrange_ok cfg fuel m s3 mon3 L3 Hm3) as (s' & Har & G & _).
  exists s'. split.
  { unfold pop. rewrite Hd. cbn [mbind option_bind]. rewrite Ha.
    cbn [mbind option_bind]. rewrite Hf. cbn [mbind option_bind].
    rewrite Hc3. cbn [mbind option_bind]. rewrite Em3, Em2. exact Har. }
  split; [by rewrite (geom_frame_client_list s3 s' G), Hl3|].
  split; [by rewrite (geom_frame_stack_list s3 s' G)|].
  split; [by destruct G as (_ & _ & _ & -> & _)|].
  split; [|by eapply geom_frame_lists_ok].
  rewrite <- Hsel3.
  by apply (geom_frame_mon_proj s3 s' G Monitor.selectedClient).
Qed.

(** When the monitor list ends and the lists of every monitor are in
    order, [pop] of a visible client that is in both lists of its monitor
    returns; it moves the client to the head of the client list and to
    the top of the focus stack, keeping the order of the others, and
    selects it. *)
Theorem pop_moves_client_to_head (fuel : nat) (s : State) (sm c : nat)
    (cl : Client.t) (lmn l1 l2 k1 k2 : list nat) :
  monitor_list fuel (ms s) (monitors s) = Some lmn →
  Forall (lists_ok fuel s) lmn →
  selectedMonitor s = Some sm →
  is_Some (ms s !! sm) →
  cs s !! c = Some cl →
  is_visible s c = true →
  lists_ok fuel s (Client.monitor cl) →
  client_list fuel s (Client.monitor cl) = Some (l1 ++ c :: l2) →
  stack_list fuel s (Client.monitor cl) = Some (k1 ++ c :: k2) →
  ∃ s',
    pop cfg fuel c s = Some s'
    ∧ client_list fuel s' (Client.monitor cl) = Some (c :: l1 ++ l2)
    ∧ stack_list fuel s' (Client.monitor cl) = Some (c :: k1 ++ k2)
    ∧ selectedMonitor s' = Some (Client.monitor cl)
    ∧ Monitor.selectedClient <$> ms s' !! Client.monitor cl = Some (Some c)
    ∧ lists_ok fuel s' (Client.monitor cl).
Proof. apply pop_spec. Qed.

(** ** [zoom] *)

(** [zoom] in a tiling layout, with a tiled client selected, when the
    monitor list ends and the lists of every monitor are in order: the
    selected client moves to the head of the client list, or the tiled
    client after it when it is the first tiled one already; with no such
    client nothing changes. The client moved is the selected one
    afterwards. *)
Theorem zoom_promotes_client (fuel : nat) (s : State) (sm sc : nat)
    (smon : Monitor.t) (scl : Client.t) (lmn lc ls : list nat) :
  monitor_list fuel (ms s) (monitors s) = Some lmn →
  Forall (lists_ok fuel s) lmn →
  selectedMonitor s = Some sm →
  ms s !! sm = Some smon →
  arrange_fn (curlayout smon) ≠ None →
  Monitor.selectedClient smon = Some sc →
  cs s !! sc = Some scl →
  is_tiled s sc = true →
  lists_ok fuel s sm →
  client_list fuel s sm = Some lc →
  stack_list fuel s sm = Some ls →
  sc ∈ lc →
  (∀ c, c ∈ lc → c ∈ ls) →
  match (if decide (head (tiled_clients s lc) = Some sc)
         then head (tail (tiled_clients s lc)) else Some sc) with
  | None => zoom cfg fuel s = Some s
  | Some c =>
      ∃ s' l1 l2,
        lc = l1 ++ c :: l2
        ∧ zoom cfg fuel s = Some s'
        ∧ client_list fuel s' sm = Some (c :: l1 ++ l2)
        ∧ Monitor.selectedClient <$> ms s' !! sm = Some (Some c)
  end.
Proof.
  intros Hmn Hall Hsm Hm Hlay Hsel Hc Ht L Hl Hs Hin Hsame.
  pose proof L as (mon & lc' & ls' & Hm' & Hl' & Honl & Hs' & Hons & Hlen).
  rewrite Hl in Hl'. rewrite Hs in Hs'. rewrite Hm in Hm'.
  apply (inj Some) in Hl', Hs', Hm'. subst lc' ls' mon.
  pose proof (tiled_from_client_list _ _ _ _ _ Hm Hl Honl) as Hfrom.
  assert (Client.isFloating scl = false) as Hfl
    by (by eapply is_tiled_not_floating).
  (* the client that is popped *)
  assert (∀ c, c ∈ tiled_clients s lc →
            ∃ s' l1 l2,
              lc = l1 ++ c :: l2
              ∧ pop cfg fuel c s = Some s'
              ∧ client_list fuel s' sm = Some (c :: l1 ++ l2)
              ∧ Monitor.selectedClient <$> ms s' !! sm = Some (Some c))
    as Hpop.
  { intros c Hct. apply tiled_clients_elem in Hct as [Hcin Hctl].
    pose proof Honl as Honl'. unfold on_monitor in Honl'.
    rewrite Forall_forall in Honl'.
    destruct (Honl' c Hcin) as (cl & Hcl & Hmc).
    pose proof Hcin as Hsplit.
    apply list_elem_of_split in Hsplit as (l1 & l2 & ->).
    pose proof (Hsame c Hcin) as Hcs.
    apply list_elem_of_split in Hcs as (k1 & k2 & ->).
    destruct (pop_spec fuel s sm c cl lmn l1 l2 k1 k2)
      as (s' & Hp & Hl1 & _ & _ & Hsc & _); try done; try (by rewrite Hmc).
    { unfold is_tiled, is_visible in *. rewrite Hcl in *.
      by apply andb_true_iff in Hctl as [_ ?]. }
    rewrite Hmc in Hl1, Hsc. by exists s', l1, l2. }
  assert (sc ∈ tiled_clients s lc) as Hsct
    by (by apply tiled_clients_elem).
  unfold zoom. rewrite Hsm. cbn [mbind option_bind]. rewrite Hm.
  cbn [mbind option_bind].
  rewrite bool_decide_eq_false_2 by done.
  rewrite Hsel, Hc. cbn [mbind option_bind fmap option_fmap option_map].
  rewrite Hfl. cbn [mbind option_bind].
  rewrite (nexttiled_tiled_from _ _ _ _ Hfrom). cbn [mbind option_bind].
  destruct (tiled_clients s lc) as [|t1 rest] eqn:Elt;
    [by apply elem_of_nil in Hsct|].
  cbn [head tail].
  destruct (decide (Some t1 = Some sc)) as [E|E].
  - apply (inj Some) in E. subst t1.
    rewrite decide_True by done.
    destruct (tiled_from_tail _ _ _ _ _ Hfrom) as (cl0 & Hcl0 & _ & Hrest).
    rewrite Hc in Hcl0. apply (inj Some) in Hcl0. subst cl0.
    rewrite (nexttiled_tiled_from _ _ _ _ Hrest). cbn [mbind option_bind].
    destruct rest as [|c1 rest]; [done|]. cbn [head].
    apply Hpop. right. left.
  - rewrite decide_False by congruence.
    cbn [mbind option_bind]. by apply Hpop.
Qed.

End Leaving.

Lemma unmanage_unlinks_client_witness :
  let s := three_stacked 1 in
  let cl := plain_client 0 1 false 0 0 498 798 1 (Some 3%nat) (Some 2%nat) in
  ∃ s' ks,
    unmanage config_def 8 1 s = Some s'
    ∧ cs s' !! 1%nat = None
    ∧ client_list 8 s' (Client.monitor cl) = Some ([2%nat] ++ [3%nat])
    ∧ stack_list 8 s' (Client.monitor cl) = Some ks
    ∧ ks ≡ₚ [3%nat] ++ [2%nat]
    ∧ lists_ok 8 s' (Client.monitor cl).
Proof.
  intros s cl.
  apply (unmanage_unlinks_client config_def 8 s 0 1 cl
           [0%nat] [2%nat] [3%nat] [3%nat] [2%nat]).
  - vm_compute; reflexivity.
  - repeat constructor. exact (three_stacked_lists_ok 1).
  - reflexivity.
  - exact (three_stacked_lists_ok 1).
  - vm_compute; reflexivity.
  - exact (three_stacked_lists_ok 1).
  - vm_compute; reflexivity.
  - vm_compute; reflexivity.
Defined.

Lemma pop_moves_client_to_head_witness :
  let s := three_stacked 1 in
  let cl := plain_client 0 1 false 0 0 498 798 1 (Some 3%nat) (Some 2%nat) in
  ∃ s',
    pop config_def 8 1 s = Some s'
    ∧ client_list 8 s' (Client.monitor cl)
      = Some (1%nat :: [2%nat] ++ [3%nat])
    ∧ stack_list 8 s' (Client.monitor cl)
      = Some (1%nat :: [3%nat] ++ [2%nat])
    ∧ selectedMonitor s' = Some (Client.monitor cl)
    ∧ Monitor.selectedClient <$> ms s' !! Client.monitor cl
      = Some (Some 1%nat)
    ∧ lists_ok 8 s' (Client.monitor cl).
Proof.
  intros s cl.
  apply (pop_moves_client_to_head config_def 8 s 0 1 cl
           [0%nat] [2%nat] [3%nat] [3%nat] [2%nat]).
  - vm_compute; reflexivity.
  - repeat constructor. exact (three_stacked_lists_ok 1).
  - reflexivity.
  - eexists. vm_compute. reflexivity.
  - vm_compute; reflexivity.
  - vm_compute; reflexivity.
  - exact (three_stacked_lists_ok 1).
  - vm_compute; reflexivity.
  - vm_compute; reflexivity.
Defined.

Lemma zoom_promotes_client_witness :
  let s := three_stacked 1 in
  let lc := [2%nat; 1%nat; 3%nat] in
  match (if decide (head (tiled_clients s lc) = Some 3%nat)
         then head (tail (tiled_clients s lc)) else Some 3%nat) with
  | None => zoom config_def 8 s = Some s
  | Some c =>
      ∃ s' l1 l2,
        lc = l1 ++ c :: l2
        ∧ zoom config_def 8 s = Some s'
        ∧ client_list 8 s' 0 = Some (c :: l1 ++ l2)
        ∧ Monitor.selectedClient <$> ms s' !! 0%nat = Some (Some c)
  end.
Proof.
  intros s lc.
  apply (zoom_promotes_client config_def 8 s 0 3
           (plain_monitor layout_tile 1 1000 800
              (Some 2%nat) (Some 3%nat) (Some 3%nat) None)
           (plain_client 0 1 false 0 0 498 798 1 None (Some 1%nat))
           [0%nat] lc [3%nat; 1%nat; 2%nat]).
  - vm_compute; reflexivity.
  - repeat constructor. exact (three_stacked_lists_ok 1).
  - reflexivity.
  - vm_compute; reflexivity.
  - vm_compute. discriminate.
  - reflexivity.
  - vm_compute; reflexivity.
  - vm_compute; reflexivity.
  - exact (three_stacked_lists_ok 1).
  - vm_compute; reflexivity.
  - vm_compute; reflexivity.
  - vm_compute. right. right. left.
  - intros c Hc. vm_compute in Hc.
    repeat (apply elem_of_cons in Hc as [->|Hc]);
      [| | |by apply elem_of_nil in Hc]; vm_compute.
    + right. right. left.
    + right. left.
    + left.
Defined.

(** The selected client of the witness is the last of three tiled ones:
    it becomes the first. *)
Example zoom_three_stacked :
  (s' ← zoom config_def 8 (three_stacked 1); client_list 8 s' 0)
  = Some [3%nat; 2%nat; 1%nat].
Proof. vm_compute. reflexivity. Qed.

(** * The layouts and what they leave alone *)

Lemma records_fst_elem s l c : c ∈ map fst (records s l) → c ∈ l.
Proof.
  intros Hin. apply list_elem_of_fmap in Hin as ([c' cl] & -> & Hin).
  unfold records in Hin. apply list_elem_of_omap in Hin as (c0 & Hc0 & Hr).
  destruct (cs s !! c0); simpl in Hr; [|done]. by simplify_eq.
Qed.

Section LayoutsFrame.

Variable cfg : Config.t.

(** The three layouts return on a client list in order, and write to
    tiled clients only: a floating or hidden client keeps its record, and
    with no tiled client no record changes. Only [monocle] writes to the
    monitor. *)
Theorem layouts_touch_tiled_clients_only (fuel : nat) (f : ArrangeFn)
    (m : nat) (s : State) (mon : Monitor.t) (lc : list nat) :
  ms s !! m = Some mon →
  client_list fuel s m = Some lc →
  on_monitor s m lc →
  Z.of_nat (length lc) < 2 ^ 32 →
  ∃ s',
    run_arrange cfg f fuel m s = Some s'
    ∧ (∀ c, c ∉ tiled_clients s lc → cs s' !! c = cs s !! c)
    ∧ (tiled_clients s lc = [] → cs s' = cs s)
    ∧ (f ≠ Monocle → ms s' = ms s).
Proof.
  intros Hm Hl Hon Hlen.
  assert (∀ {A} (propose : A → Monitor.t → Client.t → Z * Z * Z * Z)
            advance s0 mon0 sole (a : A) c,
            c ∉ tiled_clients s lc →
            ins_all (place_list cfg propose advance s0 mon0 sole a
                       (records s (tiled_clients s lc))) (cs s) !! c
            = cs s !! c) as Hout.
  { intros A propose advance s0 mon0 sole a c Hn.
    apply ins_all_notin. rewrite place_list_keys.
    intros Hin. apply Hn. by eapply records_fst_elem. }
  destruct f; simpl.
  - rewrite (dwindle_spec cfg fuel m s mon lc Hm Hl Hon Hlen).
    eexists. split; [done|].
    destruct (Z.of_nat (length (tiled_clients s lc)) =? 0) eqn:E.
    + done.
    + split; [|split; [|done]].
      * intros c Hn. apply Hout, Hn.
      * intros E0. rewrite E0 in E. done.
  - rewrite (tile_spec cfg fuel m s mon lc Hm Hl Hon Hlen).
    eexists. split; [done|].
    destruct (Z.of_nat (length (tiled_clients s lc)) =? 0) eqn:E.
    + done.
    + split; [|split; [|done]].
      * intros c Hn. apply Hout, Hn.
      * intros E0. rewrite E0 in E. done.
  - rewrite (monocle_spec cfg fuel m s mon lc Hm Hl Hon Hlen).
    eexists. split; [done|]. split; [|split; [|done]].
    + intros c Hn. apply Hout, Hn.
    + intros E0. simpl. unfold monocle_placed. by rewrite E0.
Qed.

End LayoutsFrame.

Lemma layouts_touch_tiled_clients_only_witness :
  let s := three_stacked 2 in
  ∃ s',
    run_arrange config_def Tile 8 0 s = Some s'
    ∧ (∀ c, c ∉ tiled_clients s [2%nat; 1%nat; 3%nat] →
         cs s' !! c = cs s !! c)
    ∧ (tiled_clients s [2%nat; 1%nat; 3%nat] = [] → cs s' = cs s)
    ∧ (Tile ≠ Monocle → ms s' = ms s).
Proof.
  intros s.
  apply (layouts_touch_tiled_clients_only config_def 8 Tile 0 s
           (plain_monitor layout_tile 1 1000 800
              (Some 2%nat) (Some 3%nat) (Some 3%nat) None)).
  - vm_compute; reflexivity.
  - vm_compute; reflexivity.
  - apply on_monitor_decide. vm_compute; reflexivity.
  - vm_compute; reflexivity.
Defined.

(** * Moving the selection between monitors *)

(** What one [focusmon] leaves behind when there is a monitor to go to. *)
Lemma focusmon_spec fuel dir s l1 l2 sm m lm :
  walks_end fuel s →
  monitor_list fuel (ms s) (monitors s) = Some (l1 ++ sm :: l2) →
  selectedMonitor s = Some sm →
  (if 0 <? dir then head (l2 ++ l1 ++ [sm]) else last (sm :: l2 ++ l1))
  = Some m →
  m ≠ sm →
  stack_list fuel s m = Some lm → on_monitor s m lm →
  ∃ s',
    focusmon fuel dir s = Some s'
    ∧ selectedMonitor s' = Some m
    ∧ Monitor.selectedClient <$> ms s' !! m = Some (find (is_visible s) lm)
    ∧ link_frame s s'
    ∧ keeps_client_lists s s'
    ∧ (∀ m0 ls, stack_list fuel s m0 = Some ls → on_monitor s m0 ls →
         ∃ ls', stack_list fuel s' m0 = Some ls' ∧ ls' ≡ₚ ls).
Proof.
  intros W Hl Hsm Hdir Hne Hlm Hon.
  pose proof (dirtomon_spec fuel dir s l1 l2 sm Hl Hsm) as Hd.
  rewrite Hdir in Hd.
  pose proof (monitor_list_NoDup _ _ _ _ Hl) as Hnd.
  pose proof (monitor_list_suffix _ _ _ _ _ _ Hl) as Hs.
  apply monitor_list_Some_inv in Hs as (k' & smon & ? & Ek & Hsmon & E & Hn).
  (* there is a second monitor *)
  assert (∃ first fmon m1, monitors s = Some first
                           ∧ ms s !! first = Some fmon
                           ∧ Monitor.next fmon = Some m1)
    as (first & fmon & m1 & Hfirst & Hfmon & Hnext).
  { destruct (monitors s) as [first|] eqn:Ef;
      [|destruct l1, fuel; simpl in Hl; by simplify_eq].
    pose proof Hl as Hl0.
    apply monitor_list_Some_inv in Hl0 as (k0 & fmon & l' & -> & Hf & El & Hr).
    exists first, fmon.
    destruct (Monitor.next fmon) as [m1|] eqn:En; [by eauto|].
    exfalso.
    assert (l' = []) as -> by (destruct k0; simpl in Hr; congruence).
    destruct l1 as [|a l1]; simpl in El.
    - injection El as E1 E2. subst l2.
      destruct (0 <? dir); simpl in Hdir; congruence.
    - injection El as E1 E2. by destruct l1. }
  set (s0 := set_selectedMonitor (Some m) s).
  assert (walks_end fuel s0) as W0 by exact W.
  destruct (focus_returns fuel s0 m None lm W0 eq_refl Hlm Hon I)
    as (s' & Hf & F & K & _ & Hst & Hsel & Hsc).
  assert (focus_choice s0 None lm = find (is_visible s) lm) as Ech by done.
  rewrite Ech in Hsel, Hsc.
  assert (selectedMonitor s' = Some m) as Hsm'.
  { rewrite Hsel. destruct (find (is_visible s) lm) as [c|] eqn:Ef; [|done].
    apply find_some in Ef as [Hin _]. apply list_elem_of_In in Hin.
    unfold on_monitor in Hon. rewrite Forall_forall in Hon.
    destruct (Hon c Hin) as (cl & Hc & Hmc).
    change (cs s0) with (cs s). rewrite Hc. simpl. by rewrite Hmc. }
  exists s'. split.
  { unfold focusmon. rewrite Hfirst. cbn [mbind option_bind].
    rewrite Hfmon. cbn [mbind option_bind]. rewrite Hnext, Hd.
    cbn [mbind option_bind]. rewrite Hsm.
    rewrite decide_False by congruence.
    cbn [mbind option_bind]. rewrite Hsmon. cbn [mbind option_bind].
    exact Hf. }
  split; [done|]. split.
  { rewrite Hsm' in Hsc. exact Hsc. }
  split; [|split; [done|done]].
  destruct F as (?&?&?&?&?&?). by repeat split.
Qed.

(** With two monitors or more, when the monitor list and the client list
    of every monitor end, [focusmon] in a positive direction makes the
    next monitor of the list the selected one, around the end, and
    selects the first visible client of its focus stack; [focusmon] in
    the other direction then makes the monitor that was selected the
    selected one again. Both calls return, and the client lists stay as
    they are. *)
Theorem focusmon_there_and_back (fuel : nat) (dir : Z) (s : State)
    (l1 l2 : list nat) (sm m : nat) (lm lsm : list nat) :
  walks_end fuel s →
  monitor_list fuel (ms s) (monitors s) = Some (l1 ++ sm :: l2) →
  selectedMonitor s = Some sm →
  0 < dir →
  head (l2 ++ l1) = Some m →
  stack_list fuel s m = Some lm → on_monitor s m lm →
  stack_list fuel s sm = Some lsm → on_monitor s sm lsm →
  ∃ s1 s2,
    focusmon fuel dir s = Some s1
    ∧ selectedMonitor s1 = Some m
    ∧ m ≠ sm
    ∧ Monitor.selectedClient <$> ms s1 !! m = Some (find (is_visible s) lm)
    ∧ focusmon fuel (- dir) s1 = Some s2
    ∧ selectedMonitor s2 = Some sm
    ∧ (∀ k m0, client_list k s2 m0 = client_list k s m0).
Proof.
  intros W Hl Hsm Hdir Hhead Hlm Hon Hlsm Honsm.
  pose proof (monitor_list_NoDup _ _ _ _ Hl) as Hnd.
  assert (m ∈ l2 ++ l1) as Hin.
  { destruct (l2 ++ l1) as [|a r]; simpl in Hhead; simplify_eq. left. }
  assert (m ≠ sm) as Hne.
  { intros ->. apply NoDup_app in Hnd as (_ & Hd & Hnd2).
    apply NoDup_cons in Hnd2 as [Hn2 _].
    apply elem_of_app in Hin as [Hin|Hin]; [done|].
    apply (Hd sm Hin). left. }
  destruct (focusmon_spec fuel dir s l1 l2 sm m lm W Hl Hsm) as
    (s1 & Hf1 & Hsm1 & Hsc1 & F1 & K1 & Hst1); try done.
  { rewrite (proj2 (Z.ltb_lt _ _) Hdir).
    rewrite app_assoc. destruct (l2 ++ l1); simpl in *; by simplify_eq. }
  (* the way back: [m] is followed by [sm] in the ring *)
  assert (∃ la lb, l1 ++ sm :: l2 = la ++ m :: lb
                   ∧ last (m :: lb ++ la) = Some sm) as (la & lb & El & Hlast).
  { destruct l2 as [|b l2]; simpl in Hhead.
    - destruct l1 as [|a l1]; simpl in Hhead; simplify_eq.
      exists [], (l1 ++ [sm]). split; [done|].
      rewrite app_nil_r, app_comm_cons. apply last_snoc.
    - simplify_eq. exists (l1 ++ [sm]), l2. split; [by rewrite <- app_assoc|].
      rewrite app_assoc, app_comm_cons. apply last_snoc. }
  destruct (Hst1 sm lsm Hlsm Honsm) as (lsm1 & Hlsm1 & Hp).
  destruct (focusmon_spec fuel (- dir) s1 la lb m sm lsm1) as
    (s2 & Hf2 & Hsm2 & _ & F2 & K2 & _); try done.
  { by apply (walks_end_kept fuel s s1 F1 K1). }
  { rewrite (link_frame_monitor_list _ _ _ F1). by rewrite <- El. }
  { assert ((0 <? (- dir)) = false) as -> by (apply Z.ltb_ge; lia). done. }
  { eapply link_frame_on_monitor; [exact F1|].
    unfold on_monitor. by rewrite Hp. }
  exists s1, s2. repeat (split; [done|]).
  intros k m0.
  by rewrite (keeps_client_lists_read _ _ _ _ K2),
    (keeps_client_lists_read _ _ _ _ K1).
Qed.

Lemma focusmon_there_and_back_witness :
  let s := three_windows in
  ∃ s1 s2,
    focusmon 8 1 s = Some s1
    ∧ selectedMonitor s1 = Some 1%nat
    ∧ (1 ≠ 0)%nat
    ∧ Monitor.selectedClient <$> ms s1 !! 1%nat
      = Some (find (is_visible s) [2%nat])
    ∧ focusmon 8 (- 1) s1 = Some s2
    ∧ selectedMonitor s2 = Some 0%nat
    ∧ (∀ k m0, client_list k s2 m0 = client_list k s m0).
Proof.
  intros s.
  apply (focusmon_there_and_back 8 1 s [] [1%nat] 0 1 [2%nat]
           [3%nat; 1%nat]).
  - apply (walks_end_intro 8 s [0%nat; 1%nat]); vm_compute; reflexivity.
  - vm_compute; reflexivity.
  - reflexivity.
  - lia.
  - reflexivity.
  - vm_compute; reflexivity.
  - apply on_monitor_decide. vm_compute; reflexivity.
  - vm_compute; reflexivity.
  - apply on_monitor_decide. vm_compute; reflexivity.
Defined.

(** * Floating *)

Section Floating.

Variable cfg : Config.t.

(** What [togglefloating] leaves behind. *)
Lemma togglefloating_spec fuel s sm smon c cl :
  selectedMonitor s = Some sm → ms s !! sm = Some smon →
  Monitor.selectedClient smon = Some c →
  cs s !! c = Some cl → Client.monitor cl = sm →
  Client.isFullscreen cl = false →
  lists_ok fuel s sm →
  ∃ s1 cl1 smon1,
    togglefloating cfg fuel s = Some s1
    ∧ selectedMonitor s1 = Some sm
    ∧ ms s1 !! sm = Some smon1
    ∧ Monitor.erase_symbol smon1 = Monitor.erase_symbol smon
    ∧ cs s1 !! c = Some cl1
    ∧ Client.erase_geom cl1
      = Client.erase_geom
          (Client.set_isFloating
             (negb (Client.isFloating cl) || Client.isFixed cl) cl)
    ∧ lists_ok fuel s1 sm.
Proof.
  intros Hsm Hsmon Hsel Hc Hmon Hfs Hok.
  unfold togglefloating. rewrite Hsm. simpl. rewrite Hsmon. simpl.
  rewrite Hsel, Hc. simpl. rewrite Hfs.
  set (f := λ cl0, Client.set_isFloating
                     (negb (Client.isFloating cl0) || Client.isFixed cl0) cl0).
  assert (updc c f s = Some (set_cs (<[c := f cl]> (cs s)) s)) as Hu
    by (unfold updc; by rewrite Hc).
  rewrite Hu. simpl. set (sa := set_cs (<[c := f cl]> (cs s)) s).
  destruct (updc_links c f s sa ltac:(by intros []) Hu) as [HL HM].
  pose proof (links_lists_ok s sa HL HM fuel sm Hok) as Hoka.
  rewrite lookup_insert_eq. simpl.
  (* with or without the resize *)
  assert (∃ sb clb,
            (if Client.isFloating (f cl)
             then resize cfg fuel c (Client.x (f cl)) (Client.y (f cl))
                    (Client.w (f cl)) (Client.h (f cl)) false sa
             else Some sa) = Some sb
            ∧ geom_frame sa sb
            ∧ cs sb !! c = Some clb
            ∧ Client.erase_geom clb = Client.erase_geom (f cl))
    as (sb & clb & Hr & Fb & Hcb & Eb).
  { destruct (Client.isFloating (f cl)).
    - destruct (resize_ok cfg fuel c (Client.x (f cl)) (Client.y (f cl))
                  (Client.w (f cl)) (Client.h (f cl)) false sa (f cl) sm smon
                  Hoka ltac:(by rewrite HM) ltac:(apply lookup_insert_eq)
                  ltac:(by destruct cl)) as [sole Hr].
      eexists _, _. split; [exact Hr|]. split.
      + by eapply resize_geom_frame.
      + simpl. rewrite lookup_insert_eq. split; [done|].
        apply resized_shape.
    - exists sa, (f cl). split; [done|]. split; [apply geom_frame_refl|].
      split; [apply lookup_insert_eq|done]. }
  replace (Client.isFloating (f cl))
    with (negb (Client.isFloating cl) || Client.isFixed cl) in Hr
    by (by destruct cl).
  replace (Client.x (f cl)) with (Client.x cl) in Hr by (by destruct cl).
  replace (Client.y (f cl)) with (Client.y cl) in Hr by (by destruct cl).
  replace (Client.w (f cl)) with (Client.w cl) in Hr by (by destruct cl).
  replace (Client.h (f cl)) with (Client.h cl) in Hr by (by destruct cl).
  rewrite Hr. cbn [mbind option_bind].
  pose proof (geom_frame_lists_ok sa sb fuel sm Fb Hoka) as Hokb.
  assert (selectedMonitor sb = Some sm) as Hsmb.
  { destruct Fb as (_ & _ & _ & -> & _). done. }
  rewrite Hsmb.
  destruct (geom_frame_monitor_inv sa sb sm smon Fb ltac:(by rewrite HM))
    as (smonb & Hsmonb & Esb).
  destruct (arrange_ok cfg fuel sm sb smonb Hokb Hsmonb) as (s1 & Ha & F1 & _).
  pose proof (geom_frame_lists_ok sb s1 fuel sm F1 Hokb) as Hok1.
  destruct (geom_frame_monitor_inv sb s1 sm smonb F1 Hsmonb)
    as (smon1 & Hsmon1 & Es).
  destruct (geom_frame_client_inv sb s1 c clb F1 Hcb) as (cl1 & Hc1 & Ec).
  exists s1, cl1, smon1. split; [done|]. split.
  { destruct F1 as (_ & _ & _ & -> & _). done. }
  split; [done|]. split; [congruence|]. split; [done|].
  split; [by rewrite Ec, Eb|done].
Qed.

(** [togglefloating] twice leaves the selected client as it was but for
    its geometry, unless the client is of fixed size or fullscreen; in
    between, the floating flag is the opposite. Both calls return. *)
Theorem togglefloating_twice_restores_flag (fuel : nat) (s : State)
    (sm c : nat) (smon : Monitor.t) (cl : Client.t) :
  selectedMonitor s = Some sm →
  ms s !! sm = Some smon →
  Monitor.selectedClient smon = Some c →
  cs s !! c = Some cl →
  Client.monitor cl = sm →
  Client.isFullscreen cl = false →
  Client.isFixed cl = false →
  lists_ok fuel s sm →
  ∃ s1 s2 cl1 cl2,
    togglefloating cfg fuel s = Some s1
    ∧ cs s1 !! c = Some cl1
    ∧ Client.isFloating cl1 = negb (Client.isFloating cl)
    ∧ togglefloating cfg fuel s1 = Some s2
    ∧ cs s2 !! c = Some cl2
    ∧ Client.erase_geom cl2 = Client.erase_geom cl.
Proof.
  intros Hsm Hsmon Hsel Hc Hmon Hfs Hfx Hok.
  destruct (togglefloating_spec fuel s sm smon c cl Hsm Hsmon Hsel Hc Hmon
              Hfs Hok)
    as (s1 & cl1 & smon1 & Ht1 & Hsm1 & Hsmon1 & Es1 & Hc1 & E1 & Hok1).
  rewrite Hfx, orb_false_r in E1.
  assert (Client.isFloating cl1 = negb (Client.isFloating cl)
          ∧ Client.isFixed cl1 = false
          ∧ Client.isFullscreen cl1 = false
          ∧ Client.monitor cl1 = sm) as (Hfl1 & Hfx1 & Hfs1 & Hmon1).
  { pose proof (f_equal Client.isFloating E1) as A1.
    pose proof (f_equal Client.isFixed E1) as A2.
    pose proof (f_equal Client.isFullscreen E1) as A3.
    pose proof (f_equal Client.monitor E1) as A4.
    destruct cl, cl1; simpl in *. by subst. }
  destruct (togglefloating_spec fuel s1 sm smon1 c cl1 Hsm1 Hsmon1)
    as (s2 & cl2 & smon2 & Ht2 & _ & _ & _ & Hc2 & E2 & _); try done.
  { rewrite <- Hsel.
    exact (f_equal Monitor.selectedClient Es1). }
  exists s1, s2, cl1, cl2. repeat (split; [done|]).
  rewrite E2, Hfx1, orb_false_r, Hfl1, negb_involutive.
  transitivity (Client.erase_geom
                  (Client.set_isFloating (Client.isFloating cl)
                     (Client.set_isFloating (negb (Client.isFloating cl)) cl))).
  - destruct cl1, cl. simpl in *. by simplify_eq.
  - by destruct cl.
Qed.

End Floating.

Lemma togglefloating_twice_restores_flag_witness :
  let cl := plain_client 0 1 false 0 0 498 798 1 (Some 2%nat) (Some 2%nat) in
  ∃ s1 s2 cl1 cl2,
    togglefloating config_def 8 two_tiled = Some s1
    ∧ cs s1 !! 1%nat = Some cl1
    ∧ Client.isFloating cl1 = negb (Client.isFloating cl)
    ∧ togglefloating config_def 8 s1 = Some s2
    ∧ cs s2 !! 1%nat = Some cl2
    ∧ Client.erase_geom cl2 = Client.erase_geom cl.
Proof.
  intros cl.
  apply (togglefloating_twice_restores_flag config_def 8 two_tiled 0 1
           (plain_monitor layout_tile 1 1000 800
              (Some 1%nat) (Some 1%nat) (Some 1%nat) None) cl).
  - reflexivity.
  - vm_compute; reflexivity.
  - reflexivity.
  - vm_compute; reflexivity.
  - reflexivity.
  - reflexivity.
  - reflexivity.
  - exact two_tiled_lists_ok.
Defined.

(** * Windows that ask to be mapped *)

(** [maprequest] leaves the state as it is when the attributes of the
    window cannot be read, when the window overrides redirection, and
    when a listed client has the window already: no window is managed
    twice. *)
Theorem maprequest_ignores_managed_window (cfg : Config.t) (fuel : nat)
    (attrs : option NewWindow) (override_redirect : bool) (s : State)
    (lm lc : list nat) :
  monitor_list fuel (ms s) (monitors s) = Some lm →
  client_lists fuel s lm = Some lc →
  attrs = None ∨ override_redirect = true
  ∨ (∃ nw c, attrs = Some nw ∧ c ∈ lc
             ∧ has_window s (nw_window nw) c = true) →
  maprequest cfg fuel attrs override_redirect s = Some s.
Proof.
  intros Hm Hc Hcase. unfold maprequest.
  destruct attrs as [nw|]; [|done].
  destruct override_redirect; [done|].
  destruct Hcase as [?|[?|(nw' & c & E & Hin & Hw)]]; [done..|].
  simplify_eq.
  unfold windowToClient.
  rewrite (windowToClient_from_lists fuel s (nw_window nw') fuel _ lm lc Hm Hc).
  cbn [mbind option_bind].
  destruct (find (has_window s (nw_window nw')) lc) eqn:Ef; [done|].
  apply list_elem_of_In in Hin.
  by rewrite (find_none _ _ Ef c Hin) in Hw.
Qed.

Lemma maprequest_ignores_managed_window_witness :
  let nw := mkNewWindow 13 0 0 300 200 1 "term" None None None false false
              None None in
  maprequest config_def 8 (Some nw) false three_windows = Some three_windows.
Proof.
  intros nw.
  apply (maprequest_ignores_managed_window config_def 8 (Some nw) false
           three_windows [0%nat; 1%nat] [1%nat; 3%nat; 2%nat]).
  - vm_compute; reflexivity.
  - vm_compute; reflexivity.
  - right. right. exists nw, 3%nat. split; [done|]. split.
    + right. left.
    + vm_compute. reflexivity.
Defined.

(** A window that no client has is managed: the state gains a client. *)
Example maprequest_manages_new_window :
  (s' ← maprequest config_def 8
          (Some (mkNewWindow 14 0 0 300 200 1 "term" None None None false
                   false None None)) false three_windows;
   Some (size (cs s'))) = Some 4%nat.
Proof. vm_compute. reflexivity. Qed.

(** * All monitors at once *)

Section AllMonitors.

Variable cfg : Config.t.

Lemma for_monitors_ok fuel body :
  (∀ m s, lists_ok fuel s m →
     ∃ s', body m s = Some s' ∧ geom_frame s s') →
  ∀ k p s lmn,
    monitor_list k (ms s) p = Some lmn →
    Forall (lists_ok fuel s) lmn →
    ∃ s', for_monitors k body p s = Some s' ∧ geom_frame s s'.
Proof.
  intros Hbody. induction k as [|k IH]; intros [m0|] s lmn Hl Hall;
    simpl in Hl; simplify_eq.
  - exists s. split; [done|apply geom_frame_refl].
  - bind_inv Hl. apply fmap_Some in Hl as (l' & Hl & ->).
    apply Forall_cons in Hall as [L0 Hall].
    destruct (Hbody m0 s L0) as (s1 & Hb & F1).
    destruct (geom_frame_monitor_inv s s1 m0 x F1 Hx) as (mon1 & Hm1 & E1).
    simpl. rewrite Hb. cbn [mbind option_bind]. rewrite Hm1.
    cbn [mbind option_bind].
    destruct (IH (Monitor.next mon1) s1 l') as (s' & Hf & F').
    + rewrite (geom_frame_monitor_list s s1 _ _ F1).
      pose proof (f_equal Monitor.next E1) as En. simpl in En.
      by rewrite En.
    + eapply Forall_impl; [exact Hall|]. intros m' L'.
      by eapply geom_frame_lists_ok.
    + exists s'. split; [done|]. by eapply geom_frame_trans.
  - exists s. split; [done|apply geom_frame_refl].
Qed.

(** [arrange(NULL)] returns when the monitor list ends and the lists of
    every monitor are in order. *)
Lemma arrange_all_ok fuel s lmn :
  monitor_list fuel (ms s) (monitors s) = Some lmn →
  Forall (lists_ok fuel s) lmn →
  ∃ s', arrange cfg fuel None s = Some s' ∧ geom_frame s s'.
Proof.
  intros Hl Hall. unfold arrange.
  destruct (for_monitors_ok fuel (showhide_mon cfg fuel)) with
    (k := fuel) (p := monitors s) (s := s) (lmn := lmn)
    as (s1 & H1 & F1); [|done|done|].
  { intros m s0 (mon & lc & ls & Hm & Hlc & Honl & Hls & Hons & Hlen).
    eexists. split.
    - by apply (showhide_mon_spec cfg fuel m s0 mon lc ls).
    - eapply showhide_mon_geom_frame.
      by apply (showhide_mon_spec cfg fuel m s0 mon lc ls). }
  rewrite H1. cbn [mbind option_bind].
  destruct (for_monitors_ok fuel (arrangemon cfg fuel)) with
    (k := fuel) (p := monitors s1) (s := s1) (lmn := lmn)
    as (s' & H2 & F2).
  { intros m s0 (mon & lc & ls & Hm & Hlc & Honl & Hls & Hons & Hlen).
    destruct (arrangemon_spec cfg fuel m s0 mon lc Hm Hlc Honl Hlen)
      as (s' & Ha & _).
    exists s'. split; [done|]. by eapply arrangemon_geom_frame. }
  { rewrite (geom_frame_monitor_list s s1 _ _ F1).
    by destruct F1 as (_ & _ & -> & _). }
  { eapply Forall_impl; [exact Hall|]. intros m' L'.
    by eapply geom_frame_lists_ok. }
  exists s'. split; [done|]. by eapply geom_frame_trans.
Qed.

(** [arrange] of all monitors returns when the monitor list ends and both
    lists of every monitor are in order; it changes nothing but the
    geometry of clients and the layout symbols, so that every list is as
    it was. *)
Theorem arrange_all_changes_geometry_only (fuel : nat) (s : State)
    (lmn : list nat) :
  monitor_list fuel (ms s) (monitors s) = Some lmn →
  Forall (lists_ok fuel s) lmn →
  ∃ s',
    arrange cfg fuel None s = Some s'
    ∧ geom_frame s s'
    ∧ (∀ k m, client_list k s' m = client_list k s m)
    ∧ (∀ k m, stack_list k s' m = stack_list k s m)
    ∧ Forall (lists_ok fuel s') lmn.
Proof.
  intros Hl Hall.
  destruct (arrange_all_ok fuel s lmn Hl Hall) as (s' & Ha & G).
  exists s'. split; [done|]. split; [done|].
  split; [intros k m; by apply geom_frame_client_list|].
  split; [intros k m; by apply geom_frame_stack_list|].
  eapply Forall_impl; [exact Hall|]. intros m' L'.
  by eapply geom_frame_lists_ok.
Qed.

End AllMonitors.

Lemma three_windows_lists_ok :
  Forall (lists_ok 8 three_windows) [0%nat; 1%nat].
Proof.
  repeat constructor.
  - eapply (lists_ok_intro 8 three_windows 0 _ [1%nat; 3%nat]
              [3%nat; 1%nat]); vm_compute; reflexivity || done.
  - eapply (lists_ok_intro 8 three_windows 1 _ [2%nat] [2%nat]);
      vm_compute; reflexivity || done.
Defined.

Lemma arrange_all_changes_geometry_only_witness :
  let s := three_windows in
  ∃ s',
    arrange config_def 8 None s = Some s'
    ∧ geom_frame s s'
    ∧ (∀ k m, client_list k s' m = client_list k s m)
    ∧ (∀ k m, stack_list k s' m = stack_list k s m)
    ∧ Forall (lists_ok 8 s') [0%nat; 1%nat].
Proof.
  intros s.
  apply (arrange_all_changes_geometry_only config_def 8 s [0%nat; 1%nat]).
  - vm_compute; reflexivity.
  - exact three_windows_lists_ok.
Defined.

(** * Clients that change monitor *)

(** ** [attachBelow] *)

Lemma nexttagged_from_chain k s ctags p l :
  chain_list Client.next k (cs s) p = Some l →
  nexttagged_from k s ctags p = Some (find (is_tagged s ctags) l).
Proof.
  revert p l. induction k as [|k IH]; intros [c|] l H; simpl in H;
    simplify_eq; try done.
  bind_inv H. apply fmap_Some in H as (l' & H & ->).
  simpl. rewrite Hx. simpl. unfold is_tagged at 1. rewrite Hx.
  destruct (Client.isFloating x || negb (ISVISIBLEONTAG x ctags)); simpl;
    [|done].
  by apply IH.
Qed.

Lemma chain_list_insert_after k h l1 a l2 p cla c clc :
  chain_list Client.next k h p = Some (l1 ++ a :: l2) →
  h !! a = Some cla → h !! c = Some clc →
  c ∉ l1 ++ a :: l2 →
  chain_list Client.next (S k)
    (<[a := Client.set_next (Some c) cla]>
       (<[c := Client.set_next (Client.next cla) clc]> h)) p
  = Some (l1 ++ a :: c :: l2).
Proof.
  intros H Ha Hc Hn.
  pose proof (chain_list_NoDup _ _ _ _ _ H) as Hnd.
  assert (a ≠ c) as Hac.
  { intros ->. apply Hn. rewrite elem_of_app. right. left. }
  revert k p H. induction l1 as [|b l1 IH]; intros k p H.
  - destruct p as [p0|]; [|destruct k; done].
    apply chain_list_Some_inv in H as (k' & cl & l' & -> & Hc' & E & H).
    simpl in E. simplify_eq.
    cbn [chain_list]. rewrite lookup_insert_eq.
    cbn [mbind option_bind fmap option_fmap option_map].
    replace (Client.next (Client.set_next (Some c) cla)) with (Some c)
      by (by destruct cla).
    rewrite lookup_insert_ne by done. rewrite lookup_insert_eq.
    cbn [mbind option_bind fmap option_fmap option_map].
    replace (Client.next (Client.set_next (Client.next cla) clc))
      with (Client.next cla) by (by destruct clc).
    erewrite (chain_list_ext _ k' h); [done| |exact H].
    intros c' Hc0. simpl in Hnd, Hn.
    apply NoDup_cons in Hnd as [Hn1 _].
    rewrite !lookup_insert_ne; [done| |].
    + intros ->. apply Hn. by right.
    + by intros ->.
  - destruct p as [p0|]; [|destruct k; done].
    apply chain_list_Some_inv in H as (k' & cl & l' & -> & Hc' & E & H).
    simpl in E. injection E as Eb El. subst p0 l'. simpl in Hnd, Hn.
    apply NoDup_cons in Hnd as [Hn1 Hnd].
    change (chain_list Client.next (S (S k')) ?h (Some b))
      with (cl0 ← h !! b; (b ::.) <$> chain_list Client.next (S k') h
                                       (Client.next cl0)).
    rewrite !lookup_insert_ne.
    + rewrite Hc'. cbn [mbind option_bind].
      rewrite (IH ltac:(intros Hin; apply Hn; by right) Hnd k' _ H). done.
    + intros ->. apply Hn. left.
    + intros ->. apply Hn1. rewrite elem_of_app. right. left.
Qed.

(** [attachBelow] puts the client into the client list of its monitor:
    after the selected client when that is tiled, else after the first
    tiled client that shares a tag with it, else at the head. The order
    of the others is kept. *)
Lemma attachBelow_spec k s m mon c cl lcm :
  ms s !! m = Some mon →
  cs s !! c = Some cl → Client.monitor cl = m →
  client_list k s m = Some lcm →
  c ∉ lcm →
  (∀ sc, Monitor.selectedClient mon = Some sc → sc ∈ lcm) →
  ∃ s' la lb,
    attachBelow k c s = Some s'
    ∧ lcm = la ++ lb
    ∧ client_list (S k) s' m = Some (la ++ c :: lb)
    ∧ (∀ c', c' ∉ c :: lcm → cs s' !! c' = cs s !! c')
    ∧ (∀ m', m' ≠ m → ms s' !! m' = ms s !! m')
    ∧ last la = attach_anchor s mon cl lcm.
Proof.
  intros Hm Hc Hmc Hl Hn Hsel.
  pose proof Hl as Hch. unfold client_list in Hch. rewrite Hm in Hch.
  simpl in Hch.
  (* inserting after a member of the list *)
  assert (∀ a acl, a ∈ lcm → cs s !! a = Some acl →
            ∃ s' la lb,
              (s1 ← updc c (Client.set_next (Client.next acl)) s;
               updc a (Client.set_next (Some c)) s1) = Some s'
              ∧ lcm = la ++ lb
              ∧ client_list (S k) s' m = Some (la ++ c :: lb)
              ∧ (∀ c', c' ∉ c :: lcm → cs s' !! c' = cs s !! c')
              ∧ (∀ m', m' ≠ m → ms s' !! m' = ms s !! m')
              ∧ last la = Some a) as Hafter.
  { intros a acl Ha Hacl.
    assert (a ≠ c) as Hac by (by intros ->).
    apply list_elem_of_split in Ha as (la & lb & ->).
    rewrite (updc_Some c _ s cl Hc). cbn [mbind option_bind].
    rewrite (updc_Some a _ _ acl)
      by (simpl; by rewrite lookup_insert_ne).
    eexists _, (la ++ [a]), lb. split; [done|].
    split; [by rewrite <- app_assoc|].
    split; [|split; [|split; [done|apply last_snoc]]].
    - unfold client_list. cbn [ms cs set_cs]. rewrite Hm.
      cbn [mbind option_bind]. rewrite <- app_assoc. simpl.
      by apply chain_list_insert_after.
    - intros c' Hc'. cbn [cs set_cs].
      rewrite !lookup_insert_ne; [done| |].
      + intros ->. apply Hc'. left.
      + intros ->. apply Hc'. right. rewrite elem_of_app. right. left. }
  unfold attachBelow. rewrite Hc. cbn [mbind option_bind].
  rewrite Hmc, Hm. cbn [mbind option_bind].
  assert (∀ c', c' ∈ lcm → is_Some (cs s !! c')) as Hal.
  { intros c' Hin. by eapply chain_list_allocated. }
  (* the flag of the selected client *)
  assert (∃ b, match Monitor.selectedClient mon with
               | Some sc => Client.isFloating <$> cs s !! sc
               | None => Some true
               end = Some b) as [b Hb].
  { destruct (Monitor.selectedClient mon) as [sc|]; [|by eauto].
    destruct (Hal sc (Hsel sc eq_refl)) as [scl ->]. simpl. eauto. }
  rewrite Hb. cbn [mbind option_bind].
  assert (attach_anchor s mon cl lcm
          = if b then find (is_tagged s (Client.tags cl)) lcm
            else Monitor.selectedClient mon) as Eanchor.
  { unfold attach_anchor.
    destruct (Monitor.selectedClient mon) as [sc|];
      [|by simplify_eq].
    destruct (cs s !! sc) as [scl|]; [|done]. simpl in Hb.
    apply (inj Some) in Hb. rewrite Hb. by destruct b. }
  rewrite Eanchor.
  destruct b.
  - unfold nexttagged. rewrite Hc. cbn [mbind option_bind].
    rewrite Hmc, Hm. cbn [mbind option_bind].
    rewrite (nexttagged_from_chain _ _ _ _ _ Hch). cbn [mbind option_bind].
    destruct (find (is_tagged s (Client.tags cl)) lcm) as [a|] eqn:Ef.
    + apply find_some in Ef as [Hin _]. apply list_elem_of_In in Hin.
      destruct (Hal a Hin) as [acl Hacl]. rewrite Hacl.
      cbn [mbind option_bind]. by apply Hafter.
    + destruct (attach_spec k s m mon c cl lcm Hm Hc Hmc Hl Hn)
        as (s' & Ha & Hl' & _).
      exists s', [], lcm. split; [done|]. split; [done|]. split; [done|].
      unfold attach in Ha. rewrite Hc in Ha. cbn [mbind option_bind] in Ha.
      rewrite Hmc, Hm in Ha. cbn [mbind option_bind] in Ha.
      rewrite (updc_Some c _ s cl Hc) in Ha. cbn [mbind option_bind] in Ha.
      rewrite (updm_Some m _ _ mon) in Ha by done.
      apply (inj Some) in Ha. subst s'. split; [|split; [|done]].
      * intros c' Hc'. cbn [cs set_cs set_ms].
        rewrite lookup_insert_ne; [done|]. intros ->. apply Hc'. left.
      * intros m' Hne. cbn [ms set_ms]. by rewrite lookup_insert_ne.
  - destruct (Monitor.selectedClient mon) as [sc|]; [|done].
    cbn [mbind option_bind].
    destruct (Hal sc (Hsel sc eq_refl)) as [scl Hscl]. rewrite Hscl.
    cbn [mbind option_bind]. apply Hafter; [by apply Hsel|done].
Qed.

(** [attachBelow] puts a client that is not in the client list of its
    monitor into that list, keeping the order of the others: directly
    after the selected client of the monitor when that is not floating,
    otherwise directly after the first client that is not floating and
    shares a tag with it, and at the head when there is none. *)
Theorem attachBelow_inserts_after_anchor (k : nat) (s : State) (m : nat)
    (mon : Monitor.t) (c : nat) (cl : Client.t) (lcm : list nat) :
  ms s !! m = Some mon →
  cs s !! c = Some cl →
  Client.monitor cl = m →
  client_list k s m = Some lcm →
  c ∉ lcm →
  (∀ sc, Monitor.selectedClient mon = Some sc → sc ∈ lcm) →
  ∃ s' la lb,
    attachBelow k c s = Some s'
    ∧ lcm = la ++ lb
    ∧ client_list (S k) s' m = Some (la ++ c :: lb)
    ∧ last la = attach_anchor s mon cl lcm.
Proof.
  intros Hm Hc Hmc Hl Hn Hsel.
  destruct (attachBelow_spec k s m mon c cl lcm Hm Hc Hmc Hl Hn Hsel)
    as (s' & la & lb & Ha & E & Hl' & _ & _ & Hlast).
  by exists s', la, lb.
Qed.

Lemma attachBelow_inserts_after_anchor_witness :
  ∃ s1 s' la lb,
    detach 8 2 (three_stacked 1) = Some s1
    ∧ attachBelow 8 2 s1 = Some s'
    ∧ [1%nat; 3%nat] = la ++ lb
    ∧ client_list 9 s' 0 = Some (la ++ 2%nat :: lb)
    ∧ last la = Some 3%nat.
Proof.
  destruct (detach 8 2 (three_stacked 1)) as [s1|] eqn:E;
    [|vm_compute in E; discriminate].
  exists s1.
  assert (∃ mon cl,
            ms s1 !! 0%nat = Some mon ∧ cs s1 !! 2%nat = Some cl
            ∧ Client.monitor cl = 0%nat
            ∧ client_list 8 s1 0 = Some [1%nat; 3%nat]
            ∧ Monitor.selectedClient mon = Some 3%nat
            ∧ attach_anchor s1 mon cl [1%nat; 3%nat] = Some 3%nat)
    as (mon & cl & Hm & Hc & Hmc & Hl & Hsel & Hanchor).
  { vm_compute in E. injection E as <-.
    eexists _, _. repeat split; vm_compute; reflexivity. }
  destruct (attachBelow_inserts_after_anchor 8 s1 0 mon 2 cl
              [1%nat; 3%nat] Hm Hc Hmc Hl)
    as (s' & la & lb & Ha & El & Hl' & Hlast).
  - intros Hin. apply elem_of_cons in Hin as [Hin|Hin]; [discriminate|].
    apply elem_of_cons in Hin as [Hin|Hin]; [discriminate|].
    by apply elem_of_nil in Hin.
  - intros sc Hsc. rewrite Hsel in Hsc. injection Hsc as <-. right. left.
  - exists s', la, lb. rewrite Hanchor in Hlast. done.
Defined.

(** ** [sendmon] *)

Section Sending.

Variable cfg : Config.t.

(** The state [sendmon] hands to [focus]: the client has left both lists
    of its monitor and entered both lists of the target, with the tags
    the target shows. *)
Lemma sendmon_relinks fuel s c cl m monm l1 l2 k1 k2 lcm lsm :
  cs s !! c = Some cl →
  Client.monitor cl ≠ m →
  lists_ok fuel s (Client.monitor cl) →
  client_list fuel s (Client.monitor cl) = Some (l1 ++ c :: l2) →
  stack_list fuel s (Client.monitor cl) = Some (k1 ++ c :: k2) →
  ms s !! m = Some monm →
  lists_ok fuel s m →
  client_list fuel s m = Some lcm →
  stack_list fuel s m = Some lsm →
  (length lcm < fuel)%nat → (length lsm < fuel)%nat →
  Z.of_nat (length lcm) < 2 ^ 31 - 1 →
  (∀ sc, Monitor.selectedClient monm = Some sc → sc ∈ lcm) →
  ∃ s5 cl5 la lb,
    (s1 ← detach fuel c s;
     s2 ← detachStack fuel c s1;
     mon ← ms s2 !! m;
     s3 ← updc c (λ cl, Client.set_tags (curtags mon)
                          (Client.set_monitor m cl)) s2;
     s4 ← attachBelow fuel c s3;
     attachStack c s4) = Some s5
    ∧ cs s5 !! c = Some cl5
    ∧ Client.monitor cl5 = m
    ∧ Client.tags cl5 = curtags monm
    ∧ lcm = la ++ lb
    ∧ lists_ok fuel s5 (Client.monitor cl)
    ∧ client_list fuel s5 (Client.monitor cl) = Some (l1 ++ l2)
    ∧ stack_list fuel s5 (Client.monitor cl) = Some (k1 ++ k2)
    ∧ lists_ok fuel s5 m
    ∧ client_list fuel s5 m = Some (la ++ c :: lb)
    ∧ stack_list fuel s5 m = Some (c :: lsm)
    ∧ selectedMonitor s5 = selectedMonitor s
    ∧ monitors s5 = monitors s
    ∧ (∀ m', Monitor.next <$> ms s5 !! m' = Monitor.next <$> ms s !! m')
    ∧ (∀ m', m' ≠ Client.monitor cl → m' ≠ m →
         ms s5 !! m' = ms s !! m')
    ∧ (∀ c', c' ∉ l1 ++ k1 ++ c :: lcm → cs s5 !! c' = cs s !! c').
Proof.
  intros Hc Hne L0 Hl0 Hs0 Hmm Lm Hlm Hsm Hfl Hfs Hlen31 Hselm.
  set (m0 := Client.monitor cl) in *.
  pose proof L0 as (mon0 & lc0 & ls0 & Hm0 & Hl0' & Honl0 & Hs0' & Hons0 & Hlen0).
  rewrite Hl0 in Hl0'. rewrite Hs0 in Hs0'.
  apply (inj Some) in Hl0', Hs0'. subst lc0 ls0.
  pose proof Lm as (monm' & lcm' & lsm' & Hmm' & Hlm' & Honlm & Hsm' & Honsm & _).
  rewrite Hlm in Hlm'. rewrite Hsm in Hsm'. rewrite Hmm in Hmm'.
  apply (inj Some) in Hlm', Hsm', Hmm'. subst lcm' lsm' monm'.
  pose proof (client_list_NoDup _ _ _ _ Hl0) as Hndl.
  pose proof (stack_list_NoDup _ _ _ _ Hs0) as Hnds.
  assert ((c ∉ l1) ∧ (c ∉ l2) ∧ (c ∉ k1) ∧ (c ∉ k2))
    as (Hcl1 & Hcl2 & Hck1 & Hck2).
  { apply NoDup_app in Hndl as (_ & Hd1 & Hnd1).
    apply NoDup_cons in Hnd1 as [? _].
    apply NoDup_app in Hnds as (_ & Hd2 & Hnd2).
    apply NoDup_cons in Hnd2 as [? _].
    repeat split; try done.
    - intros Hin. apply (Hd1 c Hin). left.
    - intros Hin. apply (Hd2 c Hin). left. }
  assert (c ∉ l1 ++ l2) as Hcl by (rewrite elem_of_app; tauto).
  assert (c ∉ k1 ++ k2) as Hck by (rewrite elem_of_app; tauto).
  (* who resides where *)
  assert (∀ l c', on_monitor s m l → c' ∈ l →
            c' ≠ c ∧ (c' ∉ l1) ∧ (c' ∉ k1)) as Hdisj.
  { intros l c' Hon Hin.
    destruct (on_monitor_elem _ _ _ _ Hon Hin) as (a & Ha & Hma).
    split; [|split].
    - intros ->. rewrite Hc in Ha. apply (inj Some) in Ha. subst a. done.
    - intros Hin1.
      destruct (on_monitor_elem s m0 (l1 ++ c :: l2) c' Honl0) as (b & Hb & Hmb);
        [rewrite elem_of_app; by left|]. congruence.
    - intros Hin1.
      destruct (on_monitor_elem s m0 (k1 ++ c :: k2) c' Hons0) as (b & Hb & Hmb);
        [rewrite elem_of_app; by left|]. congruence. }
  assert (c ∉ lcm) as Hclcm
    by (intros Hin; by destruct (Hdisj lcm c Honlm Hin) as [? _]).
  assert (c ∉ lsm) as Hclsm
    by (intros Hin; by destruct (Hdisj lsm c Honsm Hin) as [? _]).
  apply on_monitor_app in Honl0 as [Honl1 Honl2].
  apply on_monitor_cons in Honl2 as [_ Honl2].
  apply on_monitor_app in Hons0 as [Honk1 Honk2].
  apply on_monitor_cons in Honk2 as [_ Honk2].
  (* [detach] *)
  destruct (detach_spec fuel s m0 mon0 c cl l1 l2 Hm0 Hc eq_refl Hl0)
    as (s1 & Hd & Hl1 & Hcs1 & Hms1 & Hst1).
  rewrite Hd. cbn [mbind option_bind].
  pose proof (detach_link_frame _ _ _ _ Hd) as F1.
  assert (cs s1 !! c = Some cl) as Hc1 by (by rewrite Hcs1).
  assert (∃ mon1, ms s1 !! m0 = Some mon1) as [mon1 Hm1].
  { unfold client_list in Hl1. apply bind_Some in Hl1 as (? & ? & _). eauto. }
  (* [detachStack] *)
  destruct (detachStack_spec fuel s1 m0 mon1 c cl k1 k2 Hm1 Hc1 eq_refl)
    as (s2 & mon2 & Hd2 & Hm2 & Hch2 & _ & Hcs2 & Hms2).
  { pose proof (Hst1 fuel m0) as E. rewrite Hs0 in E.
    unfold stack_list in E. rewrite Hm1 in E. done. }
  { eapply link_frame_on_monitor; [exact F1|].
    apply on_monitor_app. split; [done|]. apply on_monitor_cons.
    split; [by eauto|done]. }
  rewrite Hd2. cbn [mbind option_bind].
  pose proof (detachStack_link_frame _ _ _ _ Hd2) as F2.
  pose proof (detachStack_keeps_client_lists _ _ _ _ Hd2) as K2.
  assert (ms s2 !! m = Some monm) as Hmm2
    by (by rewrite Hms2, Hms1).
  rewrite Hmm2. cbn [mbind option_bind].
  assert (cs s2 !! c = Some cl) as Hc2 by (by rewrite Hcs2).
  (* the client changes monitor *)
  set (cl3 := Client.set_tags (curtags monm) (Client.set_monitor m cl)).
  rewrite (updc_Some c _ s2 cl Hc2). cbn [mbind option_bind]. fold cl3.
  set (s3 := set_cs (<[c := cl3]> (cs s2)) s2).
  assert (∀ c', c' ≠ c → cs s3 !! c' = cs s2 !! c') as Hcs3.
  { intros c' Hn. subst s3. simpl. by rewrite lookup_insert_ne. }
  assert (cs s3 !! c = Some cl3) as Hc3
    by (subst s3; simpl; apply lookup_insert_eq).
  assert (∀ c', c' ∉ l1 ++ k1 ++ [c] → cs s3 !! c' = cs s !! c') as Hoff3.
  { intros c' Hn. rewrite !elem_of_app, elem_of_cons in Hn.
    rewrite Hcs3, Hcs2, Hcs1; tauto. }
  (* the lists of the two monitors in [s3] *)
  assert (client_list fuel s3 m0 = Some (l1 ++ l2)) as Hl3.
  { rewrite <- (keeps_client_lists_read _ _ fuel m0 K2) in Hl1.
    eapply (client_list_off fuel s2 s3); [done| |exact Hl1].
    intros c' Hin. apply Hcs3. by intros ->. }
  assert (stack_list fuel s3 m0 = Some (k1 ++ k2)) as Hs3.
  { eapply (stack_list_off fuel s2 s3); [done| |].
    - intros c' Hin. apply Hcs3. by intros ->.
    - unfold stack_list. by rewrite Hm2. }
  assert (client_list fuel s3 m = Some lcm) as Hlm3.
  { eapply (client_list_off fuel s s3); [|  |exact Hlm].
    - change (ms s3) with (ms s2). by rewrite Hmm2.
    - intros c' Hin. destruct (Hdisj lcm c' Honlm Hin) as (? & ? & ?).
      apply Hoff3. rewrite !elem_of_app, elem_of_cons, elem_of_nil. tauto. }
  assert (stack_list fuel s3 m = Some lsm) as Hsm3.
  { eapply (stack_list_off fuel s s3); [|  |exact Hsm].
    - change (ms s3) with (ms s2). by rewrite Hmm2.
    - intros c' Hin. destruct (Hdisj lsm c' Honsm Hin) as (? & ? & ?).
      apply Hoff3. rewrite !elem_of_app, elem_of_cons, elem_of_nil. tauto. }
  assert (∀ mx l, on_monitor s mx l → c ∉ l → on_monitor s3 mx l) as Hon3.
  { intros mx l Hon Hn.
    apply (link_frame_on_monitor _ _ _ _ F1) in Hon.
    apply (link_frame_on_monitor _ _ _ _ F2) in Hon.
    eapply on_monitor_off; [|exact Hon]. intros c' Hin. apply Hcs3.
    by intros ->. }
  (* [attachBelow] *)
  destruct (attachBelow_spec fuel s3 m monm c cl3 lcm)
    as (s4 & la & lb & Ha & Elcm & Hlm4 & Hcs4 & Hms4 & _); try done.
  rewrite Ha. cbn [mbind option_bind].
  pose proof (attachBelow_link_frame _ _ _ _ Ha) as F4.
  destruct (link_frame_client_inv _ _ _ _ F4 Hc3) as (cl4 & Hc4 & E4).
  assert (Client.monitor cl4 = m) as Hmc4.
  { transitivity (Client.monitor cl3);
      [exact (f_equal Client.monitor E4)|by destruct cl]. }
  assert (∃ mon4, ms s4 !! m = Some mon4) as [mon4 Hmm4].
  { unfold client_list in Hlm4. apply bind_Some in Hlm4 as (? & ? & _). eauto. }
  assert (keeps_stacks s3 s4) as K4.
  { unfold attachBelow in Ha. do 3 bind_inv Ha. destruct x1.
    - bind_inv Ha. destruct x1 as [a|].
      + binds Ha. eapply keeps_stacks_trans;
          (eapply updc_keeps_stacks; [|eassumption]; done).
      + by eapply attach_keeps_stacks.
    - binds Ha. eapply keeps_stacks_trans;
        (eapply updc_keeps_stacks; [|eassumption]; done). }
  (* [attachStack] *)
  destruct (attachStack_spec fuel s4 m mon4 c cl4 lsm Hmm4 Hc4 Hmc4)
    as (s5 & mon5 & cl5 & Ht & Hmm5 & Hst5 & _ & Hch5 & Hc5 & _ & Hcs5
        & Hms5 & Hsel5); [|done|].
  { pose proof (keeps_stacks_read _ _ fuel m K4) as E. rewrite Hsm3 in E.
    unfold stack_list in E. rewrite Hmm4 in E. done. }
  pose proof (attachStack_link_frame _ _ _ Ht) as F5.
  pose proof (attachStack_keeps_client_lists _ _ _ Ht) as K5.
  exists s5, cl5, la, lb. split; [done|]. split; [done|].
  assert (Client.erase_links cl5 = Client.erase_links cl3) as E5.
  { destruct (link_frame_client_inv _ _ _ _ F5 Hc4) as (cl5' & Hc5' & E5).
    rewrite Hc5 in Hc5'. apply (inj Some) in Hc5'. subst cl5'.
    by rewrite E5. }
  split.
  { transitivity (Client.monitor cl3);
      [exact (f_equal Client.monitor E5)|by destruct cl]. }
  split.
  { transitivity (Client.tags cl3);
      [exact (f_equal Client.tags E5)|by destruct cl]. }
  split; [done|].
  (* the source monitor *)
  assert (∀ c', c' ∉ c :: lcm → cs s5 !! c' = cs s3 !! c') as Hoff5.
  { intros c' Hn. rewrite Hcs5, Hcs4; [done|done|].
    intros ->. apply Hn. left. }
  assert (ms s5 !! m0 = ms s3 !! m0) as Hm05
    by (rewrite Hms5, Hms4; done).
  assert (∀ l, on_monitor s m0 l → c ∉ l → on_monitor s5 m0 l) as Hon05.
  { intros l Hon Hn. apply Hon3 in Hon; [|done].
    apply (link_frame_on_monitor _ _ _ _ F4) in Hon.
    by apply (link_frame_on_monitor _ _ _ _ F5) in Hon. }
  assert (∀ l, on_monitor s m0 l → ∀ c', c' ∈ l → c' ∉ lcm) as Hnot.
  { intros l Hon c' Hin Hin'.
    destruct (on_monitor_elem _ _ _ _ Hon Hin) as (a & Ha' & Hma).
    destruct (on_monitor_elem _ _ _ _ Honlm Hin') as (b & Hb & Hmb).
    congruence. }
  assert (on_monitor s m0 (l1 ++ l2)) as Honl12
    by (by apply on_monitor_app).
  assert (on_monitor s m0 (k1 ++ k2)) as Honk12
    by (by apply on_monitor_app).
  assert (client_list fuel s5 m0 = Some (l1 ++ l2)) as Hl5.
  { eapply (client_list_off fuel s3 s5); [done| |exact Hl3].
    intros c' Hin. apply Hoff5.
    rewrite not_elem_of_cons. split; [by intros ->|].
    by apply (Hnot (l1 ++ l2)). }
  assert (stack_list fuel s5 m0 = Some (k1 ++ k2)) as Hs5.
  { eapply (stack_list_off fuel s3 s5); [done| |exact Hs3].
    intros c' Hin. apply Hoff5.
    rewrite not_elem_of_cons. split; [by intros ->|].
    by apply (Hnot (k1 ++ k2)). }
  split.
  { pose proof Hl5 as Hal. unfold client_list in Hal.
    apply bind_Some in Hal as (mon05 & Hm05' & _).
    exists mon05, (l1 ++ l2), (k1 ++ k2). repeat (split; [done|]).
    split; [by apply Hon05|]. split; [done|]. split; [by apply Hon05|].
    rewrite length_app in *. simpl in Hlen0. lia. }
  split; [done|]. split; [done|].
  (* the target monitor *)
  assert (client_list fuel s5 m = Some (la ++ c :: lb)) as Hlm5.
  { rewrite (keeps_client_lists_read _ _ _ _ K5).
    unfold client_list in Hlm4. unfold client_list.
    rewrite Hmm4 in Hlm4. rewrite Hmm4. cbn [mbind option_bind] in *.
    eapply chain_list_refuel; [exact Hlm4|].
    subst lcm. rewrite length_app in Hfl. rewrite length_app. simpl. lia. }
  assert (stack_list fuel s5 m = Some (c :: lsm)) as Hsm5.
  { unfold stack_list. rewrite Hmm5. simpl. rewrite Hst5.
    eapply chain_list_refuel; [exact Hch5|]. simpl. lia. }
  assert (∀ l, on_monitor s m l → on_monitor s5 m l) as Honm5.
  { intros l Hon.
    assert (c ∉ l) as Hn
      by (intros Hin; by destruct (Hdisj l c Hon Hin) as [? _]).
    apply Hon3 in Hon; [|done].
    apply (link_frame_on_monitor _ _ _ _ F4) in Hon.
    by apply (link_frame_on_monitor _ _ _ _ F5) in Hon. }
  assert (∃ a, cs s5 !! c = Some a ∧ Client.monitor a = m) as Hc5m.
  { exists cl5. split; [done|].
    transitivity (Client.monitor cl3);
      [exact (f_equal Client.monitor E5)|by destruct cl]. }
  split.
  { exists mon5, (la ++ c :: lb), (c :: lsm). repeat (split; [done|]).
    split; [|split; [done|split]].
    - subst lcm. apply on_monitor_app in Honlm as [H1 H2].
      apply on_monitor_app. split; [by apply Honm5|].
      apply on_monitor_cons. split; [done|by apply Honm5].
    - apply on_monitor_cons. split; [done|by apply Honm5].
    - subst lcm. rewrite length_app in *. simpl. lia. }
  split; [done|]. split; [done|].
  split.
  { rewrite Hsel5. destruct K4 as (_ & _ & ->).
    change (selectedMonitor s3) with (selectedMonitor s2).
    by rewrite (detachStack_selectedMonitor _ _ _ _ Hd2),
      (detach_selectedMonitor _ _ _ _ Hd). }
  split.
  { destruct F5 as (_ & _ & -> & _). destruct F4 as (_ & _ & -> & _).
    change (monitors s3) with (monitors s2).
    destruct F2 as (_ & _ & -> & _). by destruct F1 as (_ & _ & -> & _). }
  split.
  { intros m'.
    rewrite (link_frame_mon_proj s4 s5 Monitor.next m' F5) by done.
    rewrite (link_frame_mon_proj s3 s4 Monitor.next m' F4) by done.
    change (ms s3) with (ms s2).
    rewrite (link_frame_mon_proj s1 s2 Monitor.next m' F2) by done.
    by rewrite (link_frame_mon_proj s s1 Monitor.next m' F1). }
  split.
  { intros m' Hn0 Hnm. rewrite Hms5, Hms4 by done.
    change (ms s3) with (ms s2). by rewrite Hms2, Hms1. }
  intros c' Hn. rewrite !elem_of_app, elem_of_cons in Hn.
  rewrite Hoff5, Hoff3.
  - done.
  - rewrite !elem_of_app, elem_of_cons, elem_of_nil. tauto.
  - rewrite elem_of_cons. tauto.
Qed.

(** [sendmon] of a client to another monitor returns when the monitor
    list ends and the lists of all monitors are in order. The client
    leaves both lists of its monitor, which keep the others in order,
    and enters both lists of the target; it resides on the target and
    carries the tags the target shows. *)
Theorem sendmon_moves_client (fuel : nat) (s : State) (sm c m : nat)
    (cl : Client.t) (monm : Monitor.t) (lmn l1 l2 k1 k2 lcm lsm : list nat) :
  selectedMonitor s = Some sm →
  monitor_list fuel (ms s) (monitors s) = Some lmn →
  Forall (lists_ok fuel s) lmn →
  sm ∈ lmn → Client.monitor cl ∈ lmn → m ∈ lmn →
  cs s !! c = Some cl →
  Client.monitor cl ≠ m →
  client_list fuel s (Client.monitor cl) = Some (l1 ++ c :: l2) →
  stack_list fuel s (Client.monitor cl) = Some (k1 ++ c :: k2) →
  ms s !! m = Some monm →
  client_list fuel s m = Some lcm →
  stack_list fuel s m = Some lsm →
  (length lcm < fuel)%nat → (length lsm < fuel)%nat →
  Z.of_nat (length lcm) < 2 ^ 31 - 1 →
  (∀ sc, Monitor.selectedClient monm = Some sc → sc ∈ lcm) →
  ∃ s' cl' la lb ks ksm,
    sendmon cfg fuel c m s = Some s'
    ∧ cs s' !! c = Some cl'
    ∧ Client.monitor cl' = m
    ∧ Client.tags cl' = curtags monm
    ∧ client_list fuel s' (Client.monitor cl) = Some (l1 ++ l2)
    ∧ lcm = la ++ lb
    ∧ client_list fuel s' m = Some (la ++ c :: lb)
    ∧ stack_list fuel s' (Client.monitor cl) = Some ks
    ∧ ks ≡ₚ k1 ++ k2
    ∧ stack_list fuel s' m = Some ksm
    ∧ ksm ≡ₚ c :: lsm.
Proof.
  intros Hsm Hmn Hall Hsmin Hm0in Hmin Hc Hne Hl0 Hs0 Hmm Hlm Hsm' Hfl Hfs
    Hlen Hsel.
  set (m0 := Client.monitor cl) in *.
  assert (∀ m', m' ∈ lmn → lists_ok fuel s m') as Hok
    by (by apply Forall_forall).
  pose proof (Hok m0 Hm0in) as L0. pose proof (Hok m Hmin) as Lm.
  destruct (sendmon_relinks fuel s c cl m monm l1 l2 k1 k2 lcm lsm)
    as (s5 & cl5 & la & lb & Hrun & Hc5 & Hmc5 & Htag5 & Elcm & L05 & Hl05
        & Hs05 & Lm5 & Hlm5 & Hsm5 & Hsel5 & Hmons5 & Hnext5 & Hms5 & Hcs5);
    try done.
  (* residence of what was written *)
  pose proof L0 as (mon0 & lc0 & ls0 & _ & Hl0' & Honl0 & Hs0' & Hons0 & _).
  fold m0 in Hl0, Hs0.
  rewrite Hl0 in Hl0'. rewrite Hs0 in Hs0'.
  apply (inj Some) in Hl0', Hs0'. subst lc0 ls0.
  pose proof Lm as (monm' & lcm' & lsm' & _ & Hlm' & Honlm & _).
  rewrite Hlm in Hlm'. apply (inj Some) in Hlm'. subst lcm'.
  assert (Forall (lists_ok fuel s5) lmn) as Hall5.
  { apply Forall_forall. intros m' Hin'.
    destruct (decide (m' = m0)) as [->|Hn0]; [done|].
    destruct (decide (m' = m)) as [->|Hnm]; [done|].
    apply (lists_ok_untouched fuel s s5 m' (l1 ++ k1 ++ c :: lcm)).
    - apply Forall_forall. intros c' Hin cl' Hcl'.
      rewrite !elem_of_app, elem_of_cons in Hin.
      destruct Hin as [Hin|[Hin|[->|Hin]]].
      + destruct (on_monitor_elem s m0 _ c' Honl0) as (a & Ha & Hma);
          [rewrite elem_of_app; by left|]. congruence.
      + destruct (on_monitor_elem s m0 _ c' Hons0) as (a & Ha & Hma);
          [rewrite elem_of_app; by left|]. congruence.
      + rewrite Hc in Hcl'. apply (inj Some) in Hcl'. subst cl'.
        intros E. apply Hn0. by rewrite <- E.
      + destruct (on_monitor_elem s m _ c' Honlm Hin) as (a & Ha & Hma).
        congruence.
    - done.
    - by apply Hms5.
    - by apply Hok. }
  assert (monitor_list fuel (ms s5) (monitors s5) = Some lmn) as Hmn5.
  { rewrite Hmons5, <- Hmn. by apply monitor_list_ext_eq. }
  (* [focus] *)
  assert (∀ m', m' ∈ lmn → lists_ok fuel s5 m') as Hok5
    by (by apply Forall_forall).
  pose proof (Hok5 sm Hsmin) as (monsm & lcsm & lssm & _ & _ & _ & Hlssm
                                 & Honssm & _).
  assert (walks_end fuel s5) as W5
    by (by apply (lists_ok_walks_end fuel s5 lmn)).
  destruct (focus_returns fuel s5 sm None lssm) as
    (s6 & Hf & F6 & K6 & L6 & Hst6 & _); [done|congruence|done|done|done|].
  assert (Forall (lists_ok fuel s6) lmn) as Hall6.
  { eapply Forall_impl; [exact Hall5|]. intros m' L'. by apply L6. }
  (* [arrange] *)
  destruct (arrange_all_ok cfg fuel s6 lmn) as (s' & Ha & G); [|done|].
  { by rewrite (link_frame_monitor_list _ _ _ F6). }
  assert (link_frame s5 s') as F'
    by (eapply link_frame_trans; [exact F6|by apply geom_frame_link_frame]).
  destruct (link_frame_client_inv _ _ _ _ F' Hc5) as (cl' & Hc' & E').
  assert (∃ ls5m, stack_list fuel s5 m = Some ls5m ∧ on_monitor s5 m ls5m
                  ∧ ls5m = c :: lsm) as (ls5m & Hx1 & Hx2 & ->).
  { pose proof Lm5 as (? & ? & ls5m & _ & _ & _ & Hx1 & Hx2 & _).
    exists ls5m. split; [done|]. split; [done|]. congruence. }
  assert (∃ ls50, stack_list fuel s5 m0 = Some ls50 ∧ on_monitor s5 m0 ls50
                  ∧ ls50 = k1 ++ k2) as (ls50 & Hy1 & Hy2 & ->).
  { pose proof L05 as (? & ? & ls50 & _ & _ & _ & Hy1 & Hy2 & _).
    exists ls50. split; [done|]. split; [done|]. congruence. }
  destruct (Hst6 m0 _ Hy1 Hy2) as (ks & Hks & Hpk).
  destruct (Hst6 m _ Hx1 Hx2) as (ksm & Hksm & Hpm).
  exists s', cl', la, lb, ks, ksm. split.
  { unfold sendmon. rewrite Hc. cbn [mbind option_bind].
    rewrite decide_False by done.
    apply bind_Some in Hrun as (s1 & -> & Hrun). cbn [mbind option_bind].
    apply bind_Some in Hrun as (s2 & -> & Hrun). cbn [mbind option_bind].
    apply bind_Some in Hrun as (mon & -> & Hrun). cbn [mbind option_bind].
    apply bind_Some in Hrun as (s3 & -> & Hrun). cbn [mbind option_bind].
    apply bind_Some in Hrun as (s4 & -> & Hrun). cbn [mbind option_bind].
    rewrite Hrun. cbn [mbind option_bind]. rewrite Hf.
    cbn [mbind option_bind]. exact Ha. }
  split; [done|]. split.
  { rewrite <- Hmc5. exact (f_equal Client.monitor E'). }
  split.
  { rewrite <- Htag5. exact (f_equal Client.tags E'). }
  split.
  { by rewrite (geom_frame_client_list s6 s' G),
      (keeps_client_lists_read _ _ _ _ K6). }
  split; [done|]. split.
  { by rewrite (geom_frame_client_list s6 s' G),
      (keeps_client_lists_read _ _ _ _ K6). }
  split; [by rewrite (geom_frame_stack_list s6 s' G)|]. split; [done|].
  split; [by rewrite (geom_frame_stack_list s6 s' G)|]. done.
Qed.

End Sending.

Lemma sendmon_moves_client_witness :
  let s := three_windows in
  let cl := window_client 13 0 500 None (Some 1%nat) in
  let monm := Monitor.set_num 1
                (Monitor.set_windowX 1000
                   (Monitor.set_monitorX 1000
                      (plain_monitor layout_tile 1 1000 800
                         (Some 2%nat) (Some 2%nat) (Some 2%nat) None))) in
  ∃ s' cl' la lb ks ksm,
    sendmon config_def 8 3 1 s = Some s'
    ∧ cs s' !! 3%nat = Some cl'
    ∧ Client.monitor cl' = 1%nat
    ∧ Client.tags cl' = curtags monm
    ∧ client_list 8 s' (Client.monitor cl) = Some ([1%nat] ++ [])
    ∧ [2%nat] = la ++ lb
    ∧ client_list 8 s' 1 = Some (la ++ 3%nat :: lb)
    ∧ stack_list 8 s' (Client.monitor cl) = Some ks
    ∧ ks ≡ₚ [] ++ [1%nat]
    ∧ stack_list 8 s' 1 = Some ksm
    ∧ ksm ≡ₚ 3%nat :: [2%nat].
Proof.
  intros s cl monm.
  apply (sendmon_moves_client config_def 8 s 0 3 1 cl monm [0%nat; 1%nat]
           [1%nat] [] [] [1%nat] [2%nat] [2%nat]).
  - reflexivity.
  - vm_compute; reflexivity.
  - exact three_windows_lists_ok.
  - left.
  - left.
  - right. left.
  - vm_compute; reflexivity.
  - vm_compute. discriminate.
  - vm_compute; reflexivity.
  - vm_compute; reflexivity.
  - vm_compute; reflexivity.
  - vm_compute; reflexivity.
  - vm_compute; reflexivity.
  - simpl. lia.
  - simpl. lia.
  - vm_compute; reflexivity.
  - intros sc Hsc. vm_compute in Hsc. injection Hsc as <-. left.
Defined.

(** The run of the witness: the client follows the selected client of the
    target in its client list and tops its focus stack; [tagmon] sends
    the selected client the same way. *)
Example sendmon_three_windows :
  (s' ← sendmon config_def 8 3 1 three_windows;
   lc ← client_list 8 s' 1; ls ← stack_list 8 s' 1; lc0 ← client_list 8 s' 0;
   Some (lc, ls, lc0))
  = Some ([2%nat; 3%nat], [3%nat; 2%nat], [1%nat])
  ∧ tagmon config_def 8 1 three_windows
    = sendmon config_def 8 3 1 three_windows.
Proof. split; vm_compute; reflexivity. Qed.

(** * The focus stack when a client leaves it *)

(** [detachStack] takes a client out of the focus stack of its monitor
    and keeps the order of the others. When the client was the selected
    one of the monitor, the first visible client left on the stack is
    selected, none when there is no such client; otherwise the selection
    stays. The client lists stay as they are. *)
Theorem detachStack_passes_selection_on (fuel : nat) (s : State) (m c : nat)
    (mon : Monitor.t) (cl : Client.t) (l1 l2 : list nat) :
  ms s !! m = Some mon →
  cs s !! c = Some cl →
  Client.monitor cl = m →
  stack_list fuel s m = Some (l1 ++ c :: l2) →
  on_monitor s m (l1 ++ c :: l2) →
  ∃ s',
    detachStack fuel c s = Some s'
    ∧ stack_list fuel s' m = Some (l1 ++ l2)
    ∧ Monitor.selectedClient <$> ms s' !! m
      = Some (if decide (Monitor.selectedClient mon = Some c)
              then find (is_visible s) (l1 ++ l2)
              else Monitor.selectedClient mon)
    ∧ (∀ k m', client_list k s' m' = client_list k s m').
Proof.
  intros Hm Hc Hmc Hl Hon.
  unfold stack_list in Hl. rewrite Hm in Hl. simpl in Hl.
  destruct (detachStack_spec fuel s m mon c cl l1 l2 Hm Hc Hmc Hl Hon)
    as (s' & mon' & Hd & Hm' & Hch & Hsel & _ & _).
  exists s'. split; [done|]. split; [|split].
  - unfold stack_list. by rewrite Hm'.
  - rewrite Hm'. simpl. by rewrite Hsel.
  - intros k m'. apply keeps_client_lists_read.
    by eapply detachStack_keeps_client_lists.
Qed.

Lemma detachStack_passes_selection_on_witness :
  let s := three_stacked 2 in
  let mon := plain_monitor layout_tile 1 1000 800
               (Some 2%nat) (Some 3%nat) (Some 3%nat) None in
  ∃ s',
    detachStack 8 3 s = Some s'
    ∧ stack_list 8 s' 0 = Some ([] ++ [1%nat; 2%nat])
    ∧ Monitor.selectedClient <$> ms s' !! 0%nat
      = Some (if decide (Monitor.selectedClient mon = Some 3%nat)
              then find (is_visible s) ([] ++ [1%nat; 2%nat])
              else Monitor.selectedClient mon)
    ∧ (∀ k m', client_list k s' m' = client_list k s m').
Proof.
  intros s mon.
  apply (detachStack_passes_selection_on 8 s 0 3 mon
           (plain_client 0 2 false 0 0 498 798 1 None (Some 1%nat))
           [] [1%nat; 2%nat]).
  - vm_compute; reflexivity.
  - vm_compute; reflexivity.
  - reflexivity.
  - vm_compute; reflexivity.
  - apply on_monitor_decide. vm_compute; reflexivity.
Defined.

(** * Managing a new window *)

Lemma differs_at_refl c s : differs_at c s s.
Proof. by repeat split. Qed.

Lemma differs_at_trans c s1 s2 s3 :
  differs_at c s1 s2 → differs_at c s2 s3 → differs_at c s1 s3.
Proof.
  intros (Ha & ? & ? & ? & ? & ? & ?) (Hb & ? & ? & ? & ? & ? & ?).
  split; [|repeat split; congruence].
  intros c' Hne. by rewrite Hb, Ha.
Qed.

Lemma updc_differs_at c f s s' :
  updc c f s = Some s' → differs_at c s s'.
Proof.
  unfold updc. intros H. bind_inv H. simplify_eq.
  split; [|by repeat split].
  intros c' Hne. simpl. by rewrite lookup_insert_ne.
Qed.

Lemma updc_at c f s cl :
  cs s !! c = Some cl →
  ∃ s', updc c f s = Some s' ∧ cs s' !! c = Some (f cl) ∧ differs_at c s s'.
Proof.
  intros Hc. eexists. split; [by apply updc_Some|]. split.
  - simpl. apply lookup_insert_eq.
  - eapply updc_differs_at. by apply updc_Some.
Qed.

Lemma attachBelow_keeps_stacks fuel c s s' :
  attachBelow fuel c s = Some s' → keeps_stacks s s'.
Proof.
  unfold attachBelow. intros Ha. do 3 bind_inv Ha. destruct x1.
  - bind_inv Ha. destruct x1 as [a|].
    + binds Ha. eapply keeps_stacks_trans;
        (eapply updc_keeps_stacks; [|eassumption]; done).
    + by eapply attach_keeps_stacks.
  - binds Ha. eapply keeps_stacks_trans;
      (eapply updc_keeps_stacks; [|eassumption]; done).
Qed.

Section Managing.

Variable cfg : Config.t.

Lemma apply_rule_list_no_match fuel c class instance rs s cl :
  cs s !! c = Some cl →
  Forall (λ r, rule_matches r (Client.name cl) class instance = false) rs →
  apply_rule_list fuel c class instance rs s = Some s.
Proof.
  intros Hc. induction rs as [|r rs IH]; intros Hall; [done|].
  apply Forall_cons in Hall as [Hr Hall].
  simpl. rewrite Hc. cbn [mbind option_bind]. rewrite Hr.
  cbn [mbind option_bind]. by apply IH.
Qed.

Lemma updc_managed c f s cl m t w :
  cs s !! c = Some cl → managed_as cfg m t w cl →
  (∀ cl0, managed_as cfg m t w cl0 → managed_as cfg m t w (f cl0)) →
  ∃ s' cl', updc c f s = Some s' ∧ cs s' !! c = Some cl'
            ∧ differs_at c s s' ∧ managed_as cfg m t w cl'.
Proof.
  intros Hc M Hf. destruct (updc_at c f s cl Hc) as (s' & E & Hc' & D).
  exists s', (f cl). eauto.
Qed.

Lemma updatesizehints_managed c hints s cl m t w :
  cs s !! c = Some cl → managed_as cfg m t w cl →
  ∃ s' cl', updatesizehints c hints s = Some s' ∧ cs s' !! c = Some cl'
            ∧ differs_at c s s' ∧ managed_as cfg m t w cl'.
Proof.
  intros Hc M. unfold updatesizehints. apply (updc_managed c _ s cl); try done.
  intros cl0 M0.
  destruct (if PBaseSize _ then _ else _) as [bw bh].
  destruct (if PResizeInc _ then _ else _) as [iw ih].
  destruct (if PMaxSize _ then _ else _) as [xw xh].
  destruct (if PMinSize _ then _ else _) as [nw0 nh].
  destruct (if PAspect _ then _ else _) as [mina maxa].
  by destruct cl0.
Qed.

Lemma updatewmhints_managed c hints s cl m t w sm smon :
  selectedMonitor s = Some sm → ms s !! sm = Some smon →
  cs s !! c = Some cl → managed_as cfg m t w cl →
  ∃ s' cl', updatewmhints c hints s = Some s' ∧ cs s' !! c = Some cl'
            ∧ differs_at c s s' ∧ managed_as cfg m t w cl'.
Proof.
  intros Hsm Hm Hc M. unfold updatewmhints. destruct hints as [wmh|].
  2: { exists s, cl. split; [done|]. split; [done|].
       split; [apply differs_at_refl|done]. }
  rewrite Hsm. cbn [mbind option_bind]. rewrite Hm. cbn [mbind option_bind].
  assert (∃ s1 cl1, (if bool_decide (Monitor.selectedClient smon = Some c)
                        && XUrgencyHint wmh
                     then Some s
                     else updc c (Client.set_isUrgent (XUrgencyHint wmh)) s)
                    = Some s1
                    ∧ cs s1 !! c = Some cl1 ∧ differs_at c s s1
                    ∧ managed_as cfg m t w cl1) as (s1 & cl1 & -> & Hc1 & D1 & M1).
  { destruct (_ && _).
    - exists s, cl. split; [done|]. split; [done|].
      split; [apply differs_at_refl|done].
    - apply (updc_managed c _ s cl); try done; intros cl0 M0; by destruct cl0. }
  cbn [mbind option_bind].
  destruct (updc_managed c
              (Client.set_neverFocus
                 match InputHint wmh with
                 | Some input => negb input
                 | None => false
                 end) s1 cl1 m t w Hc1 M1)
    as (s2 & cl2 & E2 & Hc2 & D2 & M2).
  { intros cl0 M0. by destruct cl0. }
  exists s2, cl2. split; [done|]. split; [done|].
  split; [by eapply differs_at_trans|done].
Qed.

(** The steps of [manage] up to [attachBelow], for a window that is not
    transient, asks for no fullscreen and matches no rule: a fresh client
    enters the store, tagged as the selected monitor shows, and nothing
    else changes. *)
Lemma manage_prepares fuel nw s sm smon :
  selectedMonitor s = Some sm → ms s !! sm = Some smon →
  nw_transient_for nw = None →
  nw_fullscreen nw = false →
  Forall (λ r, rule_matches r (title_of nw)
                 (default "broken"%string (nw_class nw))
                 (default "broken"%string (nw_instance nw)) = false)
    (Config.rules cfg) →
  ∃ s6 cl6,
    manage cfg fuel nw s
    = (s7 ← attachBelow fuel (fresh_id (cs s)) s6;
       s8 ← attachStack (fresh_id (cs s)) s7;
       cl8 ← cs s8 !! fresh_id (cs s);
       s9 ← updm (Client.monitor cl8)
              (Monitor.set_selectedClient (Some (fresh_id (cs s)))) s8;
       s10 ← arrange cfg fuel (Some (Client.monitor cl8)) s9;
       focus fuel None s10)
    ∧ cs s6 !! fresh_id (cs s) = Some cl6
    ∧ differs_at (fresh_id (cs s)) s s6
    ∧ managed_as cfg sm (curtags smon) (nw_window nw) cl6.
Proof.
  intros Hsm Hm Htr Hfs Hrules.
  unfold manage. rewrite Htr, Hfs. cbn [mbind option_bind].
  rewrite Hsm. cbn [mbind option_bind].
  set (c := fresh_id (cs s)).
  fold (title_of nw).
  set (b := Client.mk (title_of nw) _ _ _ _ _ _ _ _ _ _ _ _ _ _ _ _ _ _ _ _ _ _ _ _
              _ _ _ _ _ _ _).
  set (s0 := set_cs (<[c := b]> (cs s)) s).
  assert (cs s0 !! c = Some b) as Hc0 by (subst s0; simpl; apply lookup_insert_eq).
  assert (differs_at c s s0) as D0.
  { split; [|by repeat split]. intros c' Hne. subst s0. simpl.
    by rewrite lookup_insert_ne. }
  (* [applyrules] *)
  unfold applyrules.
  destruct (updc_at c (λ cl, Client.set_tags 0 (Client.set_isFloating false cl))
              s0 b Hc0) as (sa & -> & Hca & Da).
  cbn [mbind option_bind].
  rewrite (apply_rule_list_no_match fuel c _ _ _ sa _ Hca) by done.
  cbn [mbind option_bind]. rewrite Hca. cbn [mbind option_bind].
  assert (ms sa = ms s) as Hmsa.
  { destruct Da as (_ & -> & _). by destruct D0 as (_ & -> & _). }
  replace (Client.monitor (Client.set_tags 0 (Client.set_isFloating false b)))
    with sm by done.
  rewrite Hmsa, Hm. cbn [mbind option_bind].
  replace (Client.tags (Client.set_tags 0 (Client.set_isFloating false b)))
    with 0 by done.
  rewrite Z.land_0_l. change (0 =? 0) with true. cbv iota.
  edestruct (updc_at c (Client.set_tags (curtags smon)) sa) as (s1 & -> & Hc1 & D1);
    [exact Hca|].
  cbn [mbind option_bind]. rewrite Hc1. cbn [mbind option_bind].
  assert (differs_at c s s1) as D1'
    by (eapply differs_at_trans; [|exact D1]; by eapply differs_at_trans).
  replace (Client.monitor
             (Client.set_tags (curtags smon)
                (Client.set_tags 0 (Client.set_isFloating false b))))
    with sm by done.
  destruct D1' as (Hcs1 & Hms1 & Hmons1 & Hsel1 & Hsw1 & Hsh1 & Hbh1).
  rewrite Hms1, Hm. cbn [mbind option_bind].
  (* geometry and border *)
  set (cl1 := Client.set_tags (curtags smon)
                (Client.set_tags 0 (Client.set_isFloating false b))) in *.
  match goal with
  | |- context [updc c ?f s1] =>
      destruct (updc_at c f s1 cl1 Hc1) as (s2 & -> & Hc2 & D2);
      set (cl2 := f cl1) in *
  end.
  cbn [mbind option_bind].
  assert (managed_as cfg sm (curtags smon) (nw_window nw) cl2) as M2
    by done.
  clearbody cl2.
  (* window type *)
  unfold updatewindowtype. cbn [mbind option_bind].
  assert (∃ s3 cl3, (if nw_dialog nw then updc c (Client.set_isFloating true) s2
                     else Some s2) = Some s3
                    ∧ cs s3 !! c = Some cl3 ∧ differs_at c s2 s3
                    ∧ managed_as cfg sm (curtags smon) (nw_window nw) cl3)
    as (s3 & cl3 & -> & Hc3 & D3 & M3).
  { destruct (nw_dialog nw).
    - apply (updc_managed c _ s2 cl2); try done; intros cl0 M0; by destruct cl0.
    - exists s2, cl2. split; [done|]. split; [done|].
      split; [apply differs_at_refl|done]. }
  cbn [mbind option_bind].
  destruct (updatesizehints_managed c (nw_sizehints nw) s3 cl3 sm (curtags smon)
              (nw_window nw) Hc3 M3)
    as (s4 & cl4 & -> & Hc4 & D4 & M4).
  cbn [mbind option_bind].
  assert (differs_at c s s4) as D4'.
  { eapply differs_at_trans; [|exact D4]. eapply differs_at_trans; [|exact D3].
    eapply differs_at_trans; [|exact D2]. by repeat split. }
  destruct (updatewmhints_managed c (nw_wmhints nw) s4 cl4 sm (curtags smon)
              (nw_window nw) sm smon)
    as (s5 & cl5 & -> & Hc5 & D5 & M5); try done.
  { destruct D4' as (_ & _ & _ & -> & _). done. }
  { destruct D4' as (_ & -> & _). done. }
  cbn [mbind option_bind].
  match goal with
  | |- context [updc c ?f s5] =>
      destruct (updc_managed c f s5 cl5 sm (curtags smon) (nw_window nw) Hc5 M5)
        as (s6 & cl6 & -> & Hc6 & D6 & M6)
  end.
  { intros cl0 M0. destruct (Client.isFloating cl0); [done|]. by destruct cl0. }
  cbn [mbind option_bind].
  exists s6, cl6. split; [done|]. split; [done|]. split; [|done].
  eapply differs_at_trans; [|exact D6]. by eapply differs_at_trans.
Qed.

(** [manage] of a window that is not transient, asks for no fullscreen
    and matches no rule returns when the monitor list ends, the lists of
    every monitor and of the selected one are in order and the selected
    monitor shows some tag. The new client resides on the selected
    monitor with the tags the monitor shows, the window it was made for
    and the configured border; it enters the client list of the monitor,
    which keeps the others in order, comes first in the focus stack and
    is the selected client. *)
Theorem manage_adds_selected_client (fuel : nat) (nw : NewWindow) (s : State)
    (sm : nat) (smon : Monitor.t) (lmn lcm lsm : list nat) :
  monitor_list fuel (ms s) (monitors s) = Some lmn →
  Forall (lists_ok fuel s) lmn →
  selectedMonitor s = Some sm → ms s !! sm = Some smon →
  lists_ok fuel s sm →
  client_list fuel s sm = Some lcm →
  stack_list fuel s sm = Some lsm →
  (length lcm < fuel)%nat → (length lsm < fuel)%nat →
  Z.of_nat (length lcm) < 2 ^ 31 - 1 →
  (∀ sc, Monitor.selectedClient smon = Some sc → sc ∈ lcm) →
  nw_transient_for nw = None →
  nw_fullscreen nw = false →
  Forall (λ r, rule_matches r (title_of nw)
                 (default "broken"%string (nw_class nw))
                 (default "broken"%string (nw_instance nw)) = false)
    (Config.rules cfg) →
  curtags smon ≠ 0 →
  ∃ s' cl' la lb,
    manage cfg fuel nw s = Some s'
    ∧ cs s !! fresh_id (cs s) = None
    ∧ cs s' !! fresh_id (cs s) = Some cl'
    ∧ Client.monitor cl' = sm
    ∧ Client.tags cl' = curtags smon
    ∧ Client.window cl' = nw_window nw
    ∧ Client.borderWidth cl' = Config.borderpx cfg
    ∧ lcm = la ++ lb
    ∧ client_list fuel s' sm = Some (la ++ fresh_id (cs s) :: lb)
    ∧ stack_list fuel s' sm = Some (fresh_id (cs s) :: lsm)
    ∧ selectedMonitor s' = Some sm
    ∧ Monitor.selectedClient <$> ms s' !! sm = Some (Some (fresh_id (cs s))).
Proof.
  intros Hmn Hall Hsm Hm L Hlcm Hlsm Hfl Hfs Hlen Hsel Htr Hfsn Hrules Htags.
  pose proof (fresh_id_fresh (cs s)) as Hfresh.
  destruct (manage_prepares fuel nw s sm smon Hsm Hm Htr Hfsn Hrules)
    as (s6 & cl6 & Erun & Hc6 & D6 & M6).
  set (c := fresh_id (cs s)) in *.
  destruct D6 as (Hcs6 & Hms6 & Hmons6 & Hsel6 & _).
  destruct M6 as (Hmc6 & Htag6 & Hw6 & Hbw6).
  pose proof L as (mon' & lc & ls & Hm' & Hl' & Honl & Hs' & Hons & _).
  rewrite Hlcm in Hl'. rewrite Hlsm in Hs'.
  apply (inj Some) in Hl', Hs'. subst lc ls. clear mon' Hm'.
  assert (∀ l, on_monitor s sm l → c ∉ l) as Hnotin.
  { intros l Hon Hin. destruct (on_monitor_elem _ _ _ _ Hon Hin) as (a & Ha & _).
    congruence. }
  assert (ms s6 !! sm = Some smon) as Hm6 by (by rewrite Hms6).
  assert (client_list fuel s6 sm = Some lcm) as Hl6.
  { eapply (client_list_off fuel s s6); [by rewrite Hms6| |exact Hlcm].
    intros c' Hin. apply Hcs6. intros ->. by apply (Hnotin lcm). }
  assert (stack_list fuel s6 sm = Some lsm) as Hs6.
  { eapply (stack_list_off fuel s s6); [by rewrite Hms6| |exact Hlsm].
    intros c' Hin. apply Hcs6. intros ->. by apply (Hnotin lsm). }
  assert (∀ l, on_monitor s sm l → on_monitor s6 sm l) as Hon6.
  { intros l Hon. eapply on_monitor_off; [|exact Hon].
    intros c' Hin. apply Hcs6. intros ->. by apply (Hnotin l). }
  (* [attachBelow] *)
  destruct (attachBelow_spec fuel s6 sm smon c cl6 lcm)
    as (s7 & la & lb & Ha & Elcm & Hl7 & Hcs7 & Hms7 & _); try done.
  { by apply Hnotin. }
  pose proof (attachBelow_link_frame _ _ _ _ Ha) as F7.
  pose proof (attachBelow_keeps_stacks _ _ _ _ Ha) as K7.
  destruct (link_frame_client_inv _ _ _ _ F7 Hc6) as (cl7 & Hc7 & E7).
  assert (Client.monitor cl7 = sm) as Hmc7
    by (rewrite <- Hmc6; exact (f_equal Client.monitor E7)).
  assert (∃ mon7, ms s7 !! sm = Some mon7) as [mon7 Hm7].
  { unfold client_list in Hl7. apply bind_Some in Hl7 as (? & ? & _). eauto. }
  (* [attachStack] *)
  destruct (attachStack_spec fuel s7 sm mon7 c cl7 lsm Hm7 Hc7 Hmc7)
    as (s8 & mon8 & cl8 & Ht & Hm8 & Hst8 & _ & Hch8 & Hc8 & _ & Hcs8 & Hms8
        & Hsel8).
  { pose proof (keeps_stacks_read _ _ fuel sm K7) as E. rewrite Hs6 in E.
    unfold stack_list in E. rewrite Hm7 in E. done. }
  { by apply Hnotin. }
  pose proof (attachStack_link_frame _ _ _ Ht) as F8.
  pose proof (attachStack_keeps_client_lists _ _ _ Ht) as K8.
  assert (link_frame s6 s8) as F68 by (by eapply link_frame_trans).
  assert (Client.erase_links cl8 = Client.erase_links cl6) as E8.
  { destruct (link_frame_client_inv _ _ _ _ F68 Hc6) as (cl8' & Hc8' & E8).
    rewrite Hc8 in Hc8'. apply (inj Some) in Hc8'. by subst cl8'. }
  assert (Client.monitor cl8 = sm) as Hmc8
    by (rewrite <- Hmc6; exact (f_equal Client.monitor E8)).
  assert (client_list fuel s8 sm = Some (la ++ c :: lb)) as Hl8.
  { rewrite (keeps_client_lists_read _ _ _ _ K8).
    unfold client_list in Hl7. unfold client_list.
    rewrite Hm7 in Hl7. rewrite Hm7. cbn [mbind option_bind] in *.
    eapply chain_list_refuel; [exact Hl7|].
    subst lcm. rewrite length_app in Hfl. rewrite length_app. simpl. lia. }
  assert (stack_list fuel s8 sm = Some (c :: lsm)) as Hs8.
  { unfold stack_list. rewrite Hm8. simpl. rewrite Hst8.
    eapply chain_list_refuel; [exact Hch8|]. simpl. lia. }
  assert (∀ l, on_monitor s sm l → on_monitor s8 sm l) as Hon8.
  { intros l Hon. apply Hon6 in Hon.
    by apply (link_frame_on_monitor _ _ _ _ F68) in Hon. }
  assert (curtags mon8 = curtags smon) as Hct8.
  { pose proof (link_frame_mon_proj s6 s8 curtags sm F68 ltac:(done)) as E.
    rewrite Hm8, Hm6 in E. by apply (inj Some) in E. }
  (* the monitor selects the client *)
  set (mon9 := Monitor.set_selectedClient (Some c) mon8).
  set (s9 := set_ms (<[sm := mon9]> (ms s8)) s8).
  assert (ms s9 !! sm = Some mon9) as Hm9
    by (subst s9; simpl; apply lookup_insert_eq).
  assert (on_monitor s9 sm (la ++ c :: lb)) as Honl9.
  { change (on_monitor s8 sm (la ++ c :: lb)).
    subst lcm. apply on_monitor_app in Honl as [H1 H2].
    apply on_monitor_app. split; [by apply Hon8|].
    apply on_monitor_cons. split; [by eauto|by apply Hon8]. }
  assert (on_monitor s9 sm (c :: lsm)) as Hons9.
  { change (on_monitor s8 sm (c :: lsm)).
    apply on_monitor_cons. split; [by eauto|by apply Hon8]. }
  assert (client_list fuel s9 sm = Some (la ++ c :: lb)) as Hl9.
  { unfold client_list. rewrite Hm9. cbn [mbind option_bind].
    unfold client_list in Hl8. rewrite Hm8 in Hl8. exact Hl8. }
  assert (stack_list fuel s9 sm = Some (c :: lsm)) as Hs9.
  { unfold stack_list. rewrite Hm9. cbn [mbind option_bind].
    unfold stack_list in Hs8. rewrite Hm8 in Hs8. exact Hs8. }
  assert (lists_ok fuel s9 sm) as L9.
  { exists mon9, (la ++ c :: lb), (c :: lsm). repeat (split; [done|]).
    subst lcm. rewrite length_app in *. simpl. lia. }
  assert (selectedMonitor s9 = Some sm) as Hsm9.
  { change (selectedMonitor s8 = Some sm). rewrite Hsel8.
    destruct K7 as (_ & _ & ->). by rewrite Hsel6. }
  (* the walks over every client end *)
  assert (walks_end fuel s9) as W9.
  { apply (lists_ok_walks_end fuel s9 lmn).
    - rewrite <- Hmn.
      transitivity (monitor_list fuel (ms s8) (monitors s8)).
      + apply monitor_list_ext_eq. intros m'. subst s9. cbn [ms set_ms].
        destruct (decide (m' = sm)) as [->|Hne].
        * rewrite lookup_insert_eq, Hm8. by destruct mon8.
        * by rewrite lookup_insert_ne.
      + rewrite (link_frame_monitor_list _ _ _ F68). by rewrite Hms6, Hmons6.
    - eapply Forall_impl; [exact Hall|]. intros m' L'.
      destruct (decide (m' = sm)) as [->|Hne]; [done|].
      assert (lists_ok fuel s6 m') as L6'.
      { eapply (lists_ok_untouched fuel s s6 m' [c]); try done.
        - repeat constructor. intros cl0 Hcl0. congruence.
        - intros c' Hn. apply Hcs6. intros ->. apply Hn. left.
        - by rewrite Hms6. }
      assert (lists_ok fuel s8 m') as L8'.
      { eapply (lists_ok_untouched fuel s6 s8 m' (c :: lcm)); try done.
        - apply Forall_cons. split.
          + intros cl0 Hcl0. rewrite Hc6 in Hcl0.
            apply (inj Some) in Hcl0. subst cl0. congruence.
          + apply Forall_forall. intros c' Hin cl0 Hcl0.
            destruct (on_monitor_elem _ _ _ _ (Hon6 lcm Honl) Hin)
              as (a & Ha' & Hma). congruence.
        - intros c' Hn. rewrite Hcs8, Hcs7; [done|done|].
          intros ->. apply Hn. left.
        - rewrite Hms8, Hms7; done. }
      eapply (lists_ok_untouched fuel s8 s9 m' []); try done.
      subst s9. cbn [ms set_ms]. by rewrite lookup_insert_ne. }
  (* [arrange] *)
  destruct (arrange_ok cfg fuel sm s9 mon9 L9 Hm9) as (s10 & Har & G & _).
  pose proof (geom_frame_walks_end fuel s9 s10 G W9) as W10.
  pose proof (geom_frame_lists_ok _ _ _ _ G L9) as L10.
  assert (stack_list fuel s10 sm = Some (c :: lsm)) as Hs10
    by (by rewrite (geom_frame_stack_list s9 s10 G)).
  assert (client_list fuel s10 sm = Some (la ++ c :: lb)) as Hl10
    by (by rewrite (geom_frame_client_list s9 s10 G)).
  assert (selectedMonitor s10 = Some sm) as Hsm10.
  { destruct G as (_ & _ & _ & -> & _). done. }
  destruct (geom_frame_client_inv s9 s10 c cl8 G Hc8) as (cl10 & Hc10 & E10).
  destruct (geom_frame_monitor_inv s9 s10 sm mon9 G Hm9) as (mon10 & Hm10 & Em10).
  assert (Client.monitor cl10 = sm) as Hmc10
    by (rewrite <- Hmc8; exact (f_equal Client.monitor E10)).
  assert (Client.tags cl10 = curtags smon) as Htag10.
  { rewrite <- Htag6.
    transitivity (Client.tags cl8); [exact (f_equal Client.tags E10)|].
    exact (f_equal Client.tags E8). }
  assert (curtags mon10 = curtags smon) as Hct10.
  { rewrite <- Hct8. exact (f_equal curtags Em10). }
  assert (is_visible s10 c = true) as Hvis.
  { unfold is_visible, ISVISIBLE. rewrite Hc10, Hmc10, Hm10. simpl.
    unfold ISVISIBLEONTAG. rewrite Htag10, Hct10, Z.land_diag.
    by destruct (Z.eqb_spec (curtags smon) 0). }
  (* [focus] *)
  destruct (focus_ok fuel s10 sm None (c :: lsm) W10 Hsm10 Hs10)
    as (s' & Hf & Hres);
    [by apply (geom_frame_on_monitor s9 s10 G)|done|].
  unfold focus_choice in Hres. cbn [find] in Hres. rewrite Hvis in Hres.
  destruct Hres as (cl & l1 & l2 & Hcl & _ & Hst & _ & Hsel' & Hst' & Hsc' & _).
  rewrite Hc10 in Hcl. apply (inj Some) in Hcl. subst cl.
  rewrite Hmc10 in Hst, Hsel', Hst', Hsc'.
  assert (l1 = [] ∧ l2 = lsm) as [-> ->].
  { rewrite Hs10 in Hst. apply (inj Some) in Hst.
    destruct l1 as [|a l1]; [by injection Hst|].
    injection Hst as <- Hst. exfalso. apply (Hnotin lsm Hons).
    rewrite Hst, elem_of_app, elem_of_cons. tauto. }
  pose proof (focus_link_frame _ _ _ _ Hf) as F'.
  pose proof (focus_keeps_client_lists _ _ _ _ Hf) as K'.
  destruct (link_frame_client_inv _ _ _ _ F' Hc10) as (cl' & Hc' & E').
  exists s', cl', la, lb. split.
  { rewrite Erun, Ha. cbn [mbind option_bind]. rewrite Ht.
    cbn [mbind option_bind]. rewrite Hc8. cbn [mbind option_bind].
    rewrite Hmc8, (updm_Some sm _ s8 mon8 Hm8). cbn [mbind option_bind].
    fold mon9. fold s9. rewrite Har. cbn [mbind option_bind]. exact Hf. }
  split; [done|]. split; [done|]. split.
  { rewrite <- Hmc10. exact (f_equal Client.monitor E'). }
  split.
  { rewrite <- Htag10. exact (f_equal Client.tags E'). }
  split.
  { rewrite <- Hw6.
    transitivity (Client.window cl10); [exact (f_equal Client.window E')|].
    transitivity (Client.window cl8); [exact (f_equal Client.window E10)|].
    exact (f_equal Client.window E8). }
  split.
  { rewrite <- Hbw6.
    transitivity (Client.borderWidth cl10);
      [exact (f_equal Client.borderWidth E')|].
    transitivity (Client.borderWidth cl8);
      [exact (f_equal Client.borderWidth E10)|].
    exact (f_equal Client.borderWidth E8). }
  split; [done|]. split.
  { by rewrite (keeps_client_lists_read _ _ _ _ K'). }
  done.
Qed.

End Managing.

Lemma manage_adds_selected_client_witness :
  let nw := mkNewWindow 14 0 0 300 200 1 "term" None None None false false
              None None in
  let smon := plain_monitor layout_tile 1 1000 800
                (Some 1%nat) (Some 1%nat) (Some 1%nat) None in
  ∃ s' cl' la lb,
    manage config_def 8 nw two_tiled = Some s'
    ∧ cs two_tiled !! fresh_id (cs two_tiled) = None
    ∧ cs s' !! fresh_id (cs two_tiled) = Some cl'
    ∧ Client.monitor cl' = 0%nat
    ∧ Client.tags cl' = curtags smon
    ∧ Client.window cl' = nw_window nw
    ∧ Client.borderWidth cl' = Config.borderpx config_def
    ∧ [1%nat; 2%nat] = la ++ lb
    ∧ client_list 8 s' 0 = Some (la ++ fresh_id (cs two_tiled) :: lb)
    ∧ stack_list 8 s' 0 = Some (fresh_id (cs two_tiled) :: [1%nat; 2%nat])
    ∧ selectedMonitor s' = Some 0%nat
    ∧ Monitor.selectedClient <$> ms s' !! 0%nat
      = Some (Some (fresh_id (cs two_tiled))).
Proof.
  intros nw smon.
  apply (manage_adds_selected_client config_def 8 nw two_tiled 0 smon
           [0%nat] [1%nat; 2%nat] [1%nat; 2%nat]).
  - vm_compute; reflexivity.
  - repeat constructor. exact two_tiled_lists_ok.
  - reflexivity.
  - vm_compute; reflexivity.
  - exact two_tiled_lists_ok.
  - vm_compute; reflexivity.
  - vm_compute; reflexivity.
  - simpl; lia.
  - simpl; lia.
  - vm_compute; reflexivity.
  - intros sc Hsc. apply (inj Some) in Hsc. subst sc. left.
  - reflexivity.
  - reflexivity.
  - repeat (constructor; [vm_compute; reflexivity|]). constructor.
  - vm_compute. discriminate.
Defined.

(** The new client enters the client list behind the selected client. *)
Example manage_two_tiled :
  (s' ← manage config_def 8
          (mkNewWindow 14 0 0 300 200 1 "term" None None None false false
             None None) two_tiled;
   l ← client_list 8 s' 0;
   Some (fresh_id (cs two_tiled), l))
  = Some (3%nat, [1%nat; 3%nat; 2%nat]).
Proof. vm_compute. reflexivity. Qed.

(** * The bar *)

Section Bar.

Variable cfg : Config.t.

(** [toggleBar] returns when the lists of the selected monitor are in
    order. It flips the bar flag of the selected monitor, and the window
    area follows: with the bar shown, the bar strip and the window area
    split the height of the monitor between them, the bar above or below
    as [topBar] says; with the bar hidden, the window area is the whole
    height and the bar lies above the screen. The lists and the selection
    stay as they are. *)
Theorem toggleBar_moves_window_area (fuel : nat) (s : State) (sm : nat)
    (smon : Monitor.t) :
  selectedMonitor s = Some sm → ms s !! sm = Some smon →
  lists_ok fuel s sm →
  ∃ s' mon',
    toggleBar cfg fuel s = Some s'
    ∧ ms s' !! sm = Some mon'
    ∧ Monitor.showBar mon' = negb (Monitor.showBar smon)
    ∧ Monitor.topBar mon' = Monitor.topBar smon
    ∧ (if Monitor.showBar mon'
       then Monitor.windowHeight mon' + barHeight s
            = Monitor.monitorHeight smon
            ∧ (if Monitor.topBar smon
               then Monitor.by_ mon' = Monitor.monitorY smon
                    ∧ Monitor.windowY mon' = Monitor.by_ mon' + barHeight s
               else Monitor.windowY mon' = Monitor.monitorY smon
                    ∧ Monitor.by_ mon'
                      = Monitor.windowY mon' + Monitor.windowHeight mon')
       else Monitor.windowY mon' = Monitor.monitorY smon
            ∧ Monitor.windowHeight mon' = Monitor.monitorHeight smon
            ∧ Monitor.by_ mon' = - barHeight s)
    ∧ keeps_client_lists s s'
    ∧ keeps_stacks s s'
    ∧ lists_ok fuel s' sm.
Proof.
  intros Hsm Hm L.
  unfold toggleBar. rewrite Hsm. cbn [mbind option_bind].
  pose proof (updm_Some sm (λ m, set_showBar (negb (Monitor.showBar m)) m)
                s smon Hm) as E1.
  rewrite E1. cbn [mbind option_bind].
  set (m1 := set_showBar (negb (Monitor.showBar smon)) smon) in *.
  set (s1 := set_ms (<[sm := m1]> (ms s)) s) in *.
  assert (ms s1 !! sm = Some m1) as Hm1
    by (subst s1; simpl; apply lookup_insert_eq).
  assert (lists_ok fuel s1 sm) as L1
    by (eapply (updm_lists_ok fuel sm); [| | |exact E1|exact L]; done).
  unfold updatebarpos.
  match goal with
  | |- context [updm sm ?f s1] =>
      pose proof (updm_Some sm f s1 m1 Hm1) as E2; rewrite E2;
      set (m2 := f m1) in *
  end.
  cbn [mbind option_bind].
  set (s2 := set_ms (<[sm := m2]> (ms s1)) s1) in *.
  assert (ms s2 !! sm = Some m2) as Hm2
    by (subst s2; simpl; apply lookup_insert_eq).
  assert (Monitor.clients m2 = Monitor.clients m1
          ∧ Monitor.stack m2 = Monitor.stack m1
          ∧ Monitor.selectedClient m2 = Monitor.selectedClient m1)
    as (Ec & Es & Esc).
  { subst m2. cbv zeta. by destruct (Monitor.showBar _). }
  assert (keeps_client_lists s1 s2 ∧ keeps_stacks s1 s2) as [K2 KS2].
  { split.
    - split; [done|]. intros m.
      destruct (decide (m = sm)) as [->|Hne].
      + rewrite Hm2, Hm1. simpl. by rewrite Ec.
      + change (ms s2) with (<[sm := m2]> (ms s1)). by rewrite lookup_insert_ne.
    - split; [done|]. split; [|done]. intros m.
      destruct (decide (m = sm)) as [->|Hne].
      + rewrite Hm2, Hm1. simpl. by rewrite Es, Esc.
      + change (ms s2) with (<[sm := m2]> (ms s1)). by rewrite lookup_insert_ne. }
  assert (lists_ok fuel s2 sm) as L2.
  { eapply lists_ok_kept; [exact K2|exact KS2|done|exact L1]. }
  destruct (arrange_ok cfg fuel sm s2 m2 L2 Hm2) as (s' & Har & G & _).
  destruct (geom_frame_monitor_inv s2 s' sm m2 G Hm2) as (mon' & Hm' & Em).
  exists s', mon'. split; [done|]. split; [done|].
  assert (Monitor.showBar mon' = Monitor.showBar m2
          ∧ Monitor.topBar mon' = Monitor.topBar m2
          ∧ Monitor.windowY mon' = Monitor.windowY m2
          ∧ Monitor.windowHeight mon' = Monitor.windowHeight m2
          ∧ Monitor.by_ mon' = Monitor.by_ m2) as (-> & -> & -> & -> & ->).
  { repeat split.
    - exact (f_equal Monitor.showBar Em).
    - exact (f_equal Monitor.topBar Em).
    - exact (f_equal Monitor.windowY Em).
    - exact (f_equal Monitor.windowHeight Em).
    - exact (f_equal Monitor.by_ Em). }
  split; [|split; [|split; [|split; [|split]]]].
  - subst m2 m1. cbv zeta. by destruct smon as [? ? ? ? ? ? ? ? ? ? ? ? ? ? ? ? [] []].
  - subst m2 m1. cbv zeta. by destruct smon as [? ? ? ? ? ? ? ? ? ? ? ? ? ? ? ? [] []].
  - subst m2 m1. cbv zeta. change (barHeight s1) with (barHeight s).
    destruct smon as [? ? ? ? ? ? ? ? ? ? ? ? ? ? ? ? [] []]; simpl;
      repeat split; lia.
  - eapply keeps_client_lists_trans;
      [|by apply geom_frame_keeps_client_lists].
    eapply keeps_client_lists_trans; [|exact K2].
    by eapply updm_keeps_client_lists; [|exact E1].
  - eapply keeps_stacks_trans; [|by apply geom_frame_keeps_stacks].
    eapply keeps_stacks_trans; [|exact KS2].
    by eapply updm_keeps_stacks; [| |exact E1].
  - by eapply geom_frame_lists_ok.
Qed.

End Bar.

Lemma toggleBar_moves_window_area_witness :
  let smon := plain_monitor layout_tile 1 1000 800
                (Some 1%nat) (Some 1%nat) (Some 1%nat) None in
  ∃ s' mon',
    toggleBar config_def 8 two_tiled = Some s'
    ∧ ms s' !! 0%nat = Some mon'
    ∧ Monitor.showBar mon' = negb (Monitor.showBar smon)
    ∧ Monitor.topBar mon' = Monitor.topBar smon
    ∧ (if Monitor.showBar mon'
       then Monitor.windowHeight mon' + barHeight two_tiled
            = Monitor.monitorHeight smon
            ∧ (if Monitor.topBar smon
               then Monitor.by_ mon' = Monitor.monitorY smon
                    ∧ Monitor.windowY mon'
                      = Monitor.by_ mon' + barHeight two_tiled
               else Monitor.windowY mon' = Monitor.monitorY smon
                    ∧ Monitor.by_ mon'
                      = Monitor.windowY mon' + Monitor.windowHeight mon')
       else Monitor.windowY mon' = Monitor.monitorY smon
            ∧ Monitor.windowHeight mon' = Monitor.monitorHeight smon
            ∧ Monitor.by_ mon' = - barHeight two_tiled)
    ∧ keeps_client_lists two_tiled s'
    ∧ keeps_stacks two_tiled s'
    ∧ lists_ok 8 s' 0.
Proof.
  intros smon.
  apply (toggleBar_moves_window_area config_def 8 two_tiled 0 smon).
  - reflexivity.
  - vm_compute; reflexivity.
  - exact two_tiled_lists_ok.
Defined.

(** With the bar shown at the bottom of a monitor 800 high and a bar 20
    high, the window area is 780 high and the bar lies below it. *)
Example toggleBar_two_tiled :
  (s' ← toggleBar config_def 8 two_tiled;
   mon ← ms s' !! 0%nat;
   Some (Monitor.showBar mon, Monitor.by_ mon, Monitor.windowY mon,
         Monitor.windowHeight mon))
  = Some (true, 780, 0, 780).
Proof. vm_compute. reflexivity. Qed.
